(** * The evidence bigraph of fido (tools/fido/src/cpp/BasicBigraph.cpp)

    A shallow embedding of [BasicBigraph]: the text reader ([read]), the
    peptide-name normalisation ([cleanPeptideSequence]), the graph mutations
    ([connect], [disconnectPSM], [disconnectProtein], [clonePSM], [reindex],
    [buildSubgraph]), the component marking ([traceConnected],
    [markSectionPartitions]) and the partitioning ([partitionSections]).

    Conventions.
    - A C++ [int] is a [Z]; no graph of this development comes near the
      limits of [int], and overflow is not modelled except in the stream
      extraction of an [int], where the standard library clamps.
    - A C++ [double] is a binary64 [float] of the kernel: comparisons and
      arithmetic are those of IEEE 754 with rounding to nearest, infinities
      and NaN included; an expression is evaluated operation by operation, as
      on a target without extended precision or fused multiply-add.
    - A [std::string] is a [string]; the input stream is the string of the
      characters still to be read together with its failure flag.
    - Undefined behaviour and thrown exceptions are outcomes of the
      computation ([Cxx]); the loops that are not bounded by a counter run on
      a step budget, which [read_total] and [markSectionPartitions_total]
      show to be enough. *)

From Stdlib Require Import ZArith List Sorted String Ascii Bool Arith Lia Floats.
Import ListNotations.

Local Open Scope Z_scope.
Set Warnings "-inexact-float".

(** ** Outcomes of a C++ computation *)

Inductive Exception : Type :=
| FormatException      (* ProteinIdentifier::FormatException *)
| SamplingException    (* Random::SamplingException *)
| out_of_range.        (* std::out_of_range, thrown by std::string::substr *)

(** [what()] of the exception classes of ProteinIdentifier.h and Random.h. *)
Definition what (e : Exception) : string :=
  match e with
  | FormatException => "protein identifier: format exception"
  | SamplingException => "random: sampling exception"
  | out_of_range => "basic_string::substr"
  end%string.

Inductive Cxx (A : Type) : Type :=
| Ret (a : A)
| Throw (e : Exception)
| Undef                  (* undefined behaviour *)
| OutOfFuel.             (* the step budget of a loop of the model is used up *)

Arguments Ret {A} a.
Arguments Throw {A} e.
Arguments Undef {A}.
Arguments OutOfFuel {A}.

Definition bind {A B : Type} (m : Cxx A) (k : A -> Cxx B) : Cxx B :=
  match m with
  | Ret a => k a
  | Throw e => Throw e
  | Undef => Undef
  | OutOfFuel => OutOfFuel
  end.

Notation "x <- m ;; k" := (bind m (fun x => k))
  (at level 61, m at next level, right associativity).

(** ** std::string *)

Module Str.

Definition size (s : string) : Z := Z.of_nat (String.length s).

(** [s[i]]: the character at [i] below [size()], the terminating NUL at
    [size()] (C++11), undefined beyond. *)
Definition at_ (s : string) (i : nat) : Cxx ascii :=
  match String.get i s with
  | Some c => Ret c
  | None => if Nat.eqb i (String.length s) then Ret Ascii.zero else Undef
  end.

(** [size_t] arithmetic, 64 bits wide: modulo 2^64. *)
Definition SIZE_MOD : Z := 18446744073709551616.
Definition size_t (z : Z) : Z := z mod SIZE_MOD.

(** [s.substr(pos, n)]: throws when [pos > size()], and gives the
    [min(n, size() - pos)] characters from [pos] on otherwise. *)
Definition substr (s : string) (pos n : Z) : Cxx string :=
  if size s <? pos then Throw out_of_range
  else Ret (String.substring (Z.to_nat pos) (Z.to_nat (Z.min n (size s - pos))) s).

End Str.

(** ** cleanPeptideSequence *)

(** [c >= 'A' && c <= 'Z'] *)
Definition isCapital (c : ascii) : bool :=
  (65 <=? nat_of_ascii c)%nat && (nat_of_ascii c <=? 90)%nat.

Definition residue (c : ascii) : ascii :=
  if Ascii.eqb c "I" then "L"%char else c.

(** The loop over [pepSeq] that appends to [res]. *)
Fixpoint keepCapitals (pepSeq : string) : string :=
  match pepSeq with
  | EmptyString => EmptyString
  | String c rest =>
      if isCapital c then String (residue c) (keepCapitals rest)
      else keepCapitals rest
  end.

Definition cleanPeptideSequence (pepSeq : string) : Cxx string :=
  c <- Str.at_ pepSeq 1 ;;
  pepSeq' <- (if Ascii.eqb c "."
              then Str.substr pepSeq 2 (Str.size_t (Str.size pepSeq - 4))
              else Ret pepSeq) ;;
  Ret (keepCapitals pepSeq').

(** ** Array<T> *)

(** Modelled from the spec: Array.h, which is not among the sources. An
    [Array<T>] is the list of its elements; [a[k]] and [a[k] = v] are
    defined for [0 <= k < size()], and [add] appends. Out of that range the
    C++ is undefined: here a read gives the default [d] and a write leaves
    the array as it is, and the theorems say where they need the range. *)
Module Arr.

Definition size {A : Type} (a : list A) : Z := Z.of_nat (List.length a).

Definition inb {A : Type} (a : list A) (k : Z) : bool :=
  (0 <=? k) && (k <? size a).

Definition get {A : Type} (d : A) (a : list A) (k : Z) : A :=
  if inb a k then nth (Z.to_nat k) a d else d.

Fixpoint upd {A : Type} (a : list A) (n : nat) (v : A) : list A :=
  match a, n with
  | [], _ => []
  | _ :: t, O => v :: t
  | x :: t, S n' => x :: upd t n' v
  end.

Definition set {A : Type} (a : list A) (k : Z) (v : A) : list A :=
  if inb a k then upd a (Z.to_nat k) v else a.

Definition add {A : Type} (a : list A) (v : A) : list A := a ++ [v].

(** [Array<T>(n, v)] *)
Definition make {A : Type} (n : Z) (v : A) : list A := repeat v (Z.to_nat n).

(** The checked write used where the source indexes with a value that
    the code itself does not bound. *)
Definition set_checked {A : Type} (a : list A) (k : Z) (v : A) : Cxx (list A) :=
  if inb a k then Ret (upd a (Z.to_nat k) v) else Undef.

End Arr.

(** [for (k = 0; k < n; k++) body(k)] over a state. The bound is read
    once: where the source reads a [size()] in the condition of the loop,
    the body leaves that size as it is. *)
Definition for_ {S : Type} (n : Z) (body : Z -> S -> S) (s : S) : S :=
  fold_left (fun s k => body (Z.of_nat k) s) (seq 0 (Z.to_nat n)) s.

(** ** Set *)

(** Modelled from the spec: Set.h, which is not among the sources; the
    IndexSet of section 4.1. A set of [int] kept as the ascending list of
    its members: union, difference ("without"), singleton, [find] (position
    or -1), [size], ascending iteration, positional access [s[k]], insertion
    that ignores a member already present, and [reindexToFind], which maps
    each member to its rank within the universe and discards the members
    that are not in it. *)
Module IntSet.

Definition t : Type := list Z.

Definition empty : t := [].

Definition SingletonSet (v : Z) : t := [v].

Fixpoint add (s : t) (v : Z) : t :=
  match s with
  | [] => [v]
  | x :: rest =>
      if v <? x then v :: s
      else if v =? x then s
      else x :: add rest v
  end.

(** [a |= b] *)
Definition union (a b : t) : t := fold_left add b a.

Definition mem (v : Z) (s : t) : bool := existsb (Z.eqb v) s.

Definition without (a b : t) : t := filter (fun v => negb (mem v b)) a.

Fixpoint find_from (s : t) (v : Z) (pos : Z) : Z :=
  match s with
  | [] => -1
  | x :: rest => if v =? x then pos else find_from rest v (pos + 1)
  end.

Definition find (s : t) (v : Z) : Z := find_from s v 0.

Definition size (s : t) : Z := Arr.size s.

Definition isEmpty (s : t) : bool :=
  match s with [] => true | _ => false end.

(** [s[k]] *)
Definition nth_ (s : t) (k : Z) : Z := Arr.get 0 s k.

Definition reindexToFind (s universe : t) : t :=
  fold_left (fun acc v =>
               let ind := find universe v in
               if ind =? -1 then acc else add acc ind) s empty.

End IntSet.

(** [a[s]] for a set [s]: the array of the elements of [a] at the members
    of [s], in ascending order of the members. *)
Definition select {A : Type} (d : A) (a : list A) (s : IntSet.t) : list A :=
  map (Arr.get d a) s.

(** ** StringTable *)

(** Modelled from the spec: StringTable.h, which is not among the sources;
    the NameTable of section 4.2. [lookup] gives the index of a name or -1,
    [add] gives the name the next index, [getItemsByNumber] is the sequence
    of the names by index. *)
Module StringTable.

Definition t : Type := list string.

Definition empty : t := [].

Fixpoint lookup_from (st : t) (name : string) (pos : Z) : Z :=
  match st with
  | [] => -1
  | x :: rest => if String.eqb name x then pos else lookup_from rest name (pos + 1)
  end.

Definition lookup (st : t) (name : string) : Z := lookup_from st name 0.

Definition add (st : t) (name : string) : t := st ++ [name].

Definition getItemsByNumber (st : t) : list string := st.

End StringTable.

(** ** GraphLayer and BasicBigraph *)

(** Modelled from the spec: BasicBigraph.h, which is not among the sources;
    the GraphSide and EvidenceBigraph of sections 2 and 3. A layer is six
    parallel arrays; its [size()] is the number of its names; [gl[k]] is the
    node made of the [k]-th entries. *)
Record GraphLayer : Type := mkLayer {
  names : list string;
  associations : list IntSet.t;
  weights : list float;
  sections : list Z;
  sectionMarks : list IntSet.t;
  chargeStates : list Z
}.

Definition emptyLayer : GraphLayer := mkLayer [] [] [] [] [] [].

Definition layer_size (gl : GraphLayer) : Z := Arr.size (names gl).

Definition with_names (gl : GraphLayer) (v : list string) : GraphLayer :=
  mkLayer v (associations gl) (weights gl) (sections gl) (sectionMarks gl) (chargeStates gl).
Definition with_associations (gl : GraphLayer) (v : list IntSet.t) : GraphLayer :=
  mkLayer (names gl) v (weights gl) (sections gl) (sectionMarks gl) (chargeStates gl).
Definition with_weights (gl : GraphLayer) (v : list float) : GraphLayer :=
  mkLayer (names gl) (associations gl) v (sections gl) (sectionMarks gl) (chargeStates gl).
Definition with_sections (gl : GraphLayer) (v : list Z) : GraphLayer :=
  mkLayer (names gl) (associations gl) (weights gl) v (sectionMarks gl) (chargeStates gl).
Definition with_sectionMarks (gl : GraphLayer) (v : list IntSet.t) : GraphLayer :=
  mkLayer (names gl) (associations gl) (weights gl) (sections gl) v (chargeStates gl).
Definition with_chargeStates (gl : GraphLayer) (v : list Z) : GraphLayer :=
  mkLayer (names gl) (associations gl) (weights gl) (sections gl) (sectionMarks gl) v.

(** Accessors of [gl[k]] and of the parallel arrays. *)
Definition name_of (gl : GraphLayer) (k : Z) : string := Arr.get EmptyString (names gl) k.
Definition association (gl : GraphLayer) (k : Z) : IntSet.t :=
  Arr.get IntSet.empty (associations gl) k.
Definition weight (gl : GraphLayer) (k : Z) : float := Arr.get 0%float (weights gl) k.
Definition section (gl : GraphLayer) (k : Z) : Z := Arr.get (-1) (sections gl) k.
Definition sectionMark (gl : GraphLayer) (k : Z) : IntSet.t :=
  Arr.get IntSet.empty (sectionMarks gl) k.
Definition chargeState_of (gl : GraphLayer) (k : Z) : Z := Arr.get (-1) (chargeStates gl) k.

Definition set_association (gl : GraphLayer) (k : Z) (s : IntSet.t) : GraphLayer :=
  with_associations gl (Arr.set (associations gl) k s).
Definition set_weight (gl : GraphLayer) (k : Z) (w : float) : GraphLayer :=
  with_weights gl (Arr.set (weights gl) k w).

Record BasicBigraph : Type := mkGraph {
  PSMsToProteins : GraphLayer;
  proteinsToPSMs : GraphLayer;
  ProteinThreshold : float;
  PeptideThreshold : float;
  severedProteins : list string;
  numberClones : Z
}.

Definition with_PSMs (g : BasicBigraph) (gl : GraphLayer) : BasicBigraph :=
  mkGraph gl (proteinsToPSMs g) (ProteinThreshold g) (PeptideThreshold g)
          (severedProteins g) (numberClones g).
Definition with_proteins (g : BasicBigraph) (gl : GraphLayer) : BasicBigraph :=
  mkGraph (PSMsToProteins g) gl (ProteinThreshold g) (PeptideThreshold g)
          (severedProteins g) (numberClones g).
Definition with_ProteinThreshold (g : BasicBigraph) (v : float) : BasicBigraph :=
  mkGraph (PSMsToProteins g) (proteinsToPSMs g) v (PeptideThreshold g)
          (severedProteins g) (numberClones g).
Definition with_PeptideThreshold (g : BasicBigraph) (v : float) : BasicBigraph :=
  mkGraph (PSMsToProteins g) (proteinsToPSMs g) (ProteinThreshold g) v
          (severedProteins g) (numberClones g).
Definition with_severedProteins (g : BasicBigraph) (v : list string) : BasicBigraph :=
  mkGraph (PSMsToProteins g) (proteinsToPSMs g) (ProteinThreshold g) (PeptideThreshold g)
          v (numberClones g).
Definition with_numberClones (g : BasicBigraph) (v : Z) : BasicBigraph :=
  mkGraph (PSMsToProteins g) (proteinsToPSMs g) (ProteinThreshold g) (PeptideThreshold g)
          (severedProteins g) v.

(** The two layers, as [traceConnected] tells them apart by address. *)
Inductive Layer : Type := PSMLayer | ProteinLayer.

Definition layer (g : BasicBigraph) (l : Layer) : GraphLayer :=
  match l with PSMLayer => PSMsToProteins g | ProteinLayer => proteinsToPSMs g end.

Definition with_layer (g : BasicBigraph) (l : Layer) (gl : GraphLayer) : BasicBigraph :=
  match l with PSMLayer => with_PSMs g gl | ProteinLayer => with_proteins g gl end.

Definition other (l : Layer) : Layer :=
  match l with PSMLayer => ProteinLayer | ProteinLayer => PSMLayer end.

(** [for (k = 0; k < n; k++) body(k)] where the body may fail. *)
Definition forM {S : Type} (n : Z) (body : Z -> S -> Cxx S) (s : S) : Cxx S :=
  fold_left (fun acc k => s <- acc ;; body (Z.of_nat k) s) (seq 0 (Z.to_nat n)) (Ret s).

(** [std::max(a, b)]: [b] when [a < b], and [a] otherwise. *)
Definition max_ (a b : float) : float := if PrimFloat.ltb a b then b else a.

(** ** The mutations of the graph *)

Section Bigraph.

(** The body of [ProteinIdentifier::ProteinIdentifier()] is not among the
    sources: what it leaves in the two thresholds of a fresh object, and
    what a fresh [BasicBigraph] holds in [numberClones], are parameters. *)
Variables ctorProteinThreshold ctorPeptideThreshold : float.
Variable ctorNumberClones : Z.

(** [Vector::max()] is not among the sources: the largest element of a
    vector that has one, [maxOfNone] of an empty one. *)
Variable maxOfNone : float.

Definition Vector_max (v : list float) : float :=
  match v with
  | [] => maxOfNone
  | x :: rest => fold_left max_ rest x
  end.

(** [BasicBigraph::BasicBigraph()] *)
Definition BasicBigraph_ctor : BasicBigraph :=
  mkGraph emptyLayer emptyLayer ctorProteinThreshold ctorPeptideThreshold []
          ctorNumberClones.

Definition add (gl : GraphLayer) (st : StringTable.t) (item : string)
  : GraphLayer * StringTable.t :=
  if StringTable.lookup st item =? -1 then
    (mkLayer (names gl)
             (Arr.add (associations gl) IntSet.empty)
             (Arr.add (weights gl) (-1)%float)
             (Arr.add (sections gl) (-1))
             (sectionMarks gl)
             (Arr.add (chargeStates gl) (-1)),
     StringTable.add st item)
  else (gl, st).

(** [gl.associations[k] |= Set::SingletonSet(v)] *)
Definition join (gl : GraphLayer) (k v : Z) : GraphLayer :=
  set_association gl k (IntSet.union (association gl k) (IntSet.SingletonSet v)).

(** [gl.associations[k] = gl.associations[k].without(Set::SingletonSet(v))] *)
Definition sever (gl : GraphLayer) (k v : Z) : GraphLayer :=
  set_association gl k (IntSet.without (association gl k) (IntSet.SingletonSet v)).

Definition connect (pepNames : StringTable.t) (pepName : string)
           (proteinNames : StringTable.t) (protName : string)
           (g : BasicBigraph) : BasicBigraph :=
  let pepIndex := StringTable.lookup pepNames pepName in
  let protIndex := StringTable.lookup proteinNames protName in
  let g := with_PSMs g (join (PSMsToProteins g) pepIndex protIndex) in
  with_proteins g (join (proteinsToPSMs g) protIndex pepIndex).

Definition disconnectPSM (k : Z) (g : BasicBigraph) : BasicBigraph :=
  let as_ := association (PSMsToProteins g) k in
  let g := fold_left (fun g it => with_proteins g (sever (proteinsToPSMs g) it k)) as_ g in
  with_PSMs g (set_association (PSMsToProteins g) k IntSet.empty).

Definition disconnectProtein (k : Z) (g : BasicBigraph) : BasicBigraph :=
  let as_ := association (proteinsToPSMs g) k in
  let g := fold_left (fun g it => with_PSMs g (sever (PSMsToProteins g) it k)) as_ g in
  with_proteins g (set_association (proteinsToPSMs g) k IntSet.empty).

Definition removePoorPSMs (g : BasicBigraph) : BasicBigraph :=
  for_ (layer_size (PSMsToProteins g))
       (fun k g => if PrimFloat.ltb (weight (PSMsToProteins g) k) 0
                   then disconnectPSM k g else g) g.

Definition removeDegeneratePSMs (g : BasicBigraph) : BasicBigraph :=
  for_ (layer_size (PSMsToProteins g))
       (fun k g => if 1 <? IntSet.size (association (PSMsToProteins g) k)
                   then disconnectPSM k g else g) g.

Definition removePoorProteins (g : BasicBigraph) : BasicBigraph :=
  for_ (layer_size (proteinsToPSMs g))
       (fun k g =>
          if PrimFloat.ltb (Vector_max (select 0%float (weights (PSMsToProteins g))
                                      (association (proteinsToPSMs g) k)))
                  (ProteinThreshold g)
          then disconnectProtein k g else g) g.

Definition saveSeveredProteins (g : BasicBigraph) : BasicBigraph :=
  for_ (layer_size (proteinsToPSMs g))
       (fun k g =>
          if IntSet.size (association (proteinsToPSMs g) k) =? 0
          then with_severedProteins g
                 (Arr.add (severedProteins g) (name_of (proteinsToPSMs g) k))
          else g)
       (with_severedProteins g []).

Definition pseudoCountPSMs (g : BasicBigraph) : BasicBigraph :=
  for_ (layer_size (PSMsToProteins g))
       (fun k g => if PrimFloat.ltb (weight (PSMsToProteins g) k) (PeptideThreshold g)
                   then with_PSMs g (set_weight (PSMsToProteins g) k (PeptideThreshold g))
                   else g) g.

Definition floorLowPSMs (g : BasicBigraph) : BasicBigraph :=
  for_ (layer_size (PSMsToProteins g))
       (fun k g => if PrimFloat.leb (weight (PSMsToProteins g) k) (PeptideThreshold g)
                   then with_PSMs g (set_weight (PSMsToProteins g) k 0)
                   else g) g.

(** *** buildSubgraph and reindex *)

Definition subLayer (gl : GraphLayer) (keep opposite : IntSet.t) : GraphLayer :=
  mkLayer (select EmptyString (names gl) keep)
          (map (fun a => IntSet.reindexToFind a opposite)
               (select IntSet.empty (associations gl) keep))
          (select 0%float (weights gl) keep)
          (select (-1) (sections gl) keep)
          []
          (select (-1) (chargeStates gl) keep).

Definition buildSubgraph (connectedProteins connectedPSMs : IntSet.t)
           (g : BasicBigraph) : BasicBigraph :=
  let result := BasicBigraph_ctor in
  let result := with_PSMs result
                  (subLayer (PSMsToProteins g) connectedPSMs connectedProteins) in
  with_proteins result
    (subLayer (proteinsToPSMs g) connectedProteins connectedPSMs).

(** The set of the [k < size()] whose association set is not empty. *)
Definition connectedNodes (gl : GraphLayer) : IntSet.t :=
  for_ (layer_size gl)
       (fun k s => if negb (IntSet.isEmpty (association gl k))
                   then IntSet.add s k else s) IntSet.empty.

Definition reindex (g : BasicBigraph) : BasicBigraph :=
  let connectedPSMs := connectedNodes (PSMsToProteins g) in
  let connectedProteins := connectedNodes (proteinsToPSMs g) in
  let backupNumberClones := numberClones g in
  let backupSeveredProteins := severedProteins g in
  let backupPeptideThreshold := PeptideThreshold g in
  let this := buildSubgraph connectedProteins connectedPSMs g in
  let this := with_numberClones this backupNumberClones in
  let this := with_severedProteins this backupSeveredProteins in
  with_PeptideThreshold this backupPeptideThreshold.

(** *** clonePSM *)

(** The sections of the proteins of [s], as a set. *)
Definition sectionsOf (g : BasicBigraph) (s : IntSet.t) : IntSet.t :=
  fold_left (fun sects p =>
               IntSet.union sects
                 (IntSet.SingletonSet (section (proteinsToPSMs g) p)))
            s IntSet.empty.

(** The proteins of [s] by the position of their section in [sections]. *)
Definition proteinsBySection (g : BasicBigraph) (s sects : IntSet.t)
  : list IntSet.t :=
  fold_left (fun by_section p =>
               let sect := section (proteinsToPSMs g) p in
               let ind := IntSet.find sects sect in
               Arr.set by_section ind
                       (IntSet.union (Arr.get IntSet.empty by_section ind)
                                     (IntSet.SingletonSet p)))
            s (Arr.make (IntSet.size sects) IntSet.empty).

(** One turn of the loop that adds a clone for a section. *)
Definition addClone (pepIndex : Z) (sects : IntSet.t)
           (associatedProteinsBySection : list IntSet.t)
           (k : Z) (g : BasicBigraph) : BasicBigraph :=
  let sect := IntSet.nth_ sects k in
  let proteins := Arr.get IntSet.empty associatedProteinsBySection k in
  let psm := PSMsToProteins g in
  let psm := mkLayer (Arr.add (names psm) (name_of psm pepIndex))
                     (Arr.add (associations psm) proteins)
                     (Arr.add (weights psm) (weight psm pepIndex))
                     (Arr.add (sections psm) sect)
                     (sectionMarks psm)
                     (Arr.add (chargeStates psm) (chargeState_of psm pepIndex)) in
  let g := with_PSMs g psm in
  fold_left (fun g prot =>
               with_proteins g
                 (join (proteinsToPSMs g) prot (layer_size (PSMsToProteins g) - 1)))
            proteins g.

Definition clonePSM (pepIndex : Z) (g : BasicBigraph) : BasicBigraph :=
  let s := association (PSMsToProteins g) pepIndex in
  let sects := sectionsOf g s in
  let associatedProteinsBySection := proteinsBySection g s sects in
  let g := for_ (Arr.size associatedProteinsBySection)
                (addClone pepIndex sects associatedProteinsBySection) g in
  let g := for_ (Arr.size associatedProteinsBySection)
                (fun k g =>
                   fold_left (fun g prot =>
                                with_proteins g (sever (proteinsToPSMs g) prot pepIndex))
                             (Arr.get IntSet.empty associatedProteinsBySection k) g) g in
  let g := with_PSMs g (set_association (PSMsToProteins g) pepIndex IntSet.empty) in
  with_numberClones g (numberClones g + (IntSet.size sects - 1)).

Definition cloneMultipleMarkedPSMs (g : BasicBigraph) : BasicBigraph :=
  let g := with_numberClones g 0 in
  let N := layer_size (PSMsToProteins g) in
  for_ N (fun k g => if 1 <? IntSet.size (sectionMark (PSMsToProteins g) k)
                     then clonePSM k g else g) g.

(** *** traceConnected and markSectionPartitions *)

(** The graph under the traversal, and next to it the record of the
    calls of [traceConnected] made so far, oldest first: which node was
    touched and for which section. The record is not in the C++ and
    decides nothing in the traversal. *)
Record Marking : Type := mkMarking {
  graph : BasicBigraph;
  touched : list (Layer * Z * Z)
}.

Definition touch (l : Layer) (index sectionNumber : Z) (m : Marking) : Marking :=
  mkMarking (graph m) (touched m ++ [(l, index, sectionNumber)]).

Definition isPSMLayer (l : Layer) : bool :=
  match l with PSMLayer => true | ProteinLayer => false end.

(** [fuel] bounds the depth of the recursion. *)
Fixpoint traceConnected (fuel : nat) (index : Z) (l : Layer) (sectionNumber : Z)
         (m : Marking) : Cxx Marking :=
  match fuel with
  | O => OutOfFuel
  | S fuel' =>
      let m := touch l index sectionNumber m in
      let gl := layer (graph m) l in
      if section gl index =? sectionNumber then Ret m
      else
        let gl := with_sections gl (Arr.set (sections gl) index sectionNumber) in
        let gl := with_sectionMarks gl
                    (Arr.set (sectionMarks gl) index
                             (IntSet.union (sectionMark gl index)
                                           (IntSet.SingletonSet sectionNumber))) in
        let g := with_layer (graph m) l gl in
        let m := mkMarking g (touched m) in
        if isPSMLayer l && PrimFloat.leb (weight gl index) (PeptideThreshold g) then Ret m
        else
          fold_left (fun acc it =>
                       m <- acc ;;
                       traceConnected fuel' it (other l) sectionNumber m)
                    (association gl index) (Ret m)
  end.

(** The graph once the marks and the sections are cleared and allocated. *)
Definition clearMarks (g : BasicBigraph) : BasicBigraph :=
  let prot := proteinsToPSMs g in
  let psm := PSMsToProteins g in
  let prot := with_sectionMarks prot (Arr.make (layer_size prot) IntSet.empty) in
  let psm := with_sectionMarks psm (Arr.make (layer_size psm) IntSet.empty) in
  let psm := with_sections psm (Arr.make (layer_size psm) (-1)) in
  let prot := with_sections prot (Arr.make (layer_size prot) (-1)) in
  with_proteins (with_PSMs g psm) prot.

(** A depth no traversal of [g] can exceed. *)
Definition traceFuel (g : BasicBigraph) : nat :=
  S (List.length (names (PSMsToProteins g)) + List.length (names (proteinsToPSMs g))).

Definition markSectionPartitions_traced (g : BasicBigraph) : Cxx (Z * Marking) :=
  let g := clearMarks g in
  forM (layer_size (proteinsToPSMs g))
       (fun k '(section_, m) =>
          if section (proteinsToPSMs (graph m)) k =? -1 then
            m <- traceConnected (traceFuel g) k ProteinLayer section_ m ;;
            Ret (section_ + 1, m)
          else Ret (section_, m))
       (0, mkMarking g []).

(** [markSectionPartitions]: the number of sections and the marked graph. *)
Definition markSectionPartitions (g : BasicBigraph) : Cxx (Z * BasicBigraph) :=
  r <- markSectionPartitions_traced g ;;
  Ret (fst r, graph (snd r)).

Definition cloneDegeneratePSMs (g : BasicBigraph) : Cxx BasicBigraph :=
  let old_threshold := PeptideThreshold g in
  let g := with_PeptideThreshold g 2 in
  r <- markSectionPartitions g ;;
  let g := cloneMultipleMarkedPSMs (snd r) in
  Ret (with_PeptideThreshold g old_threshold).

(** *** prune *)

Definition prune (g : BasicBigraph) : Cxx BasicBigraph :=
  let g := removePoorPSMs g in
  let g := removePoorProteins g in
  let g := saveSeveredProteins g in
  let g := reindex g in
  r <- markSectionPartitions g ;;
  let g := cloneMultipleMarkedPSMs (snd r) in
  Ret (reindex g).

(** *** partitionSections *)

(** [subsets[gl[k].section].add(k)] for every node of the layer; the
    section indexes [subsets] unchecked. *)
Definition groupBySection (gl : GraphLayer) (subsets : list IntSet.t)
  : Cxx (list IntSet.t) :=
  forM (layer_size gl)
       (fun k subsets =>
          let sect := section gl k in
          Arr.set_checked subsets sect
                          (IntSet.add (Arr.get IntSet.empty subsets sect) k))
       subsets.

Definition partitionSections (g : BasicBigraph) : Cxx (list BasicBigraph) :=
  r <- markSectionPartitions g ;;
  let numSections := fst r in
  let g := snd r in
  proteinSubsets <- groupBySection (proteinsToPSMs g)
                      (Arr.make numSections IntSet.empty) ;;
  PSMSubsets <- groupBySection (PSMsToProteins g)
                  (Arr.make numSections IntSet.empty) ;;
  Ret (for_ numSections
            (fun k result =>
               Arr.add result
                       (buildSubgraph (Arr.get IntSet.empty proteinSubsets k)
                                      (Arr.get IntSet.empty PSMSubsets k) g))
            []).

End Bigraph.

(** ** std::istream

    The formatted extractions [is >> x] that [read] uses, and [getline]. A
    stream is the text still to be read and its failure flag; once the flag
    is up every extraction is without effect. An extraction first skips
    white space; when it meets the end of the input there, the flag goes up
    and the variable keeps what it held. *)

Module IStream.

Record t : Type := mk { buf : string; failed : bool }.

Definition of_string (s : string) : t := mk s false.

Definition isspace (c : ascii) : bool :=
  let n := nat_of_ascii c in
  (n =? 32)%nat || ((9 <=? n)%nat && (n <=? 13)%nat).

Definition isdigit (c : ascii) : bool :=
  let n := nat_of_ascii c in (48 <=? n)%nat && (n <=? 57)%nat.

Fixpoint skipws (s : string) : string :=
  match s with
  | String c rest => if isspace c then skipws rest else s
  | EmptyString => EmptyString
  end.

(** The longest prefix of [s] whose characters satisfy [p], and the rest. *)
Fixpoint span (p : ascii -> bool) (s : string) : string * string :=
  match s with
  | String c rest =>
      if p c then let '(tok, rest') := span p rest in (String c tok, rest')
      else (EmptyString, s)
  | EmptyString => (EmptyString, EmptyString)
  end.

(** What an extraction did to its variable. *)
Inductive extracted (A : Type) : Type :=
| Got (a : A)        (* a value was read *)
| Failed (a : A)     (* the text is no value: [a] is stored, the flag goes up *)
| Untouched.         (* nothing to read: the variable keeps what it held *)

Arguments Got {A} a.
Arguments Failed {A} a.
Arguments Untouched {A}.

(** The value of the variable after the extraction. *)
Definition store {A : Type} (old : A) (e : extracted A) : A :=
  match e with Got a => a | Failed a => a | Untouched => old end.

(** [is >> c] for a [char] *)
Definition get_char (ins : t) : extracted ascii * t :=
  if failed ins then (Untouched, ins)
  else match skipws (buf ins) with
       | EmptyString => (Untouched, mk EmptyString true)
       | String c rest => (Got c, mk rest false)
       end.

(** [is >> s] for a [std::string] *)
Definition get_string (ins : t) : extracted string * t :=
  if failed ins then (Untouched, ins)
  else match skipws (buf ins) with
       | EmptyString => (Untouched, mk EmptyString true)
       | s => let '(tok, rest) := span (fun c => negb (isspace c)) s in
              (Got tok, mk rest false)
       end.

Definition digit_value (c : ascii) : Z := Z.of_nat (nat_of_ascii c) - 48.

Fixpoint number (digits : string) (acc : Z) : Z :=
  match digits with
  | EmptyString => acc
  | String c rest => number rest (10 * acc + digit_value c)
  end.

(** An optional sign: its factor and the rest. *)
Definition sign (s : string) : Z * string :=
  match s with
  | String "-" rest => (-1, rest)
  | String "+" rest => (1, rest)
  | _ => (1, s)
  end.

Definition INT_MAX : Z := 2147483647.
Definition INT_MIN : Z := -2147483648.

(** [is >> n] for an [int]: sign, digits; without a digit the variable
    becomes 0, out of the range of [int] it becomes the nearest limit, and
    in both cases the flag goes up. *)
Definition get_int (ins : t) : extracted Z * t :=
  if failed ins then (Untouched, ins)
  else match skipws (buf ins) with
       | EmptyString => (Untouched, mk EmptyString true)
       | s =>
           let '(sg, s1) := sign s in
           let '(ds, rest) := span isdigit s1 in
           match ds with
           | EmptyString => (Failed 0, mk rest true)
           | _ =>
               let v := sg * number ds 0 in
               if INT_MAX <? v then (Failed INT_MAX, mk rest true)
               else if v <? INT_MIN then (Failed INT_MIN, mk rest true)
               else (Got v, mk rest false)
           end
       end.

Definition DBL_MAX : float := 0x1.fffffffffffffp+1023%float.

(** The double nearest to [num / den], both positive, with ties to the
    even mantissa, and whether the value is beyond the finite doubles
    (where [strtod] gives HUGE_VAL). [q * 2^e] is the quotient brought to
    a mantissa of 53 bits, or to the exponent of the subnormal doubles. *)
Definition nearest_double (num den : Z) : float * bool :=
  let e0 := Z.log2 num - Z.log2 den - 52 in
  let q0 := if 0 <=? e0 then num / (den * 2 ^ e0) else (num * 2 ^ (- e0)) / den in
  let e := Z.max (if q0 <? 2 ^ 52 then e0 - 1 else e0) (-1074) in
  let n := if 0 <=? e then num else num * 2 ^ (- e) in
  let d := if 0 <=? e then den * 2 ^ e else den in
  let q := n / d in
  let r := n mod d in
  let q := if (d <? 2 * r) || ((2 * r =? d) && Z.odd q) then q + 1 else q in
  (Z.ldexp (of_uint63 (Uint63.of_Z q)) e,
   (971 <? e) || ((e =? 971) && (q =? 2 ^ 53))).

(** [strtod] on the decimal [m * 10^e], [0 <= m], with its sign. *)
Definition strtod (negative : bool) (m e : Z) : float * bool :=
  let '(x, overflow) :=
    if m =? 0 then (0%float, false)
    else if 0 <=? e then nearest_double (m * 10 ^ e) 1
    else nearest_double m (10 ^ (- e)) in
  (if negative then PrimFloat.opp x else x, overflow).

Definition isE (c : ascii) : bool := Ascii.eqb c "e" || Ascii.eqb c "E".

(** The exponent part, if one starts here: its value when it has digits. *)
Definition exponent (s : string) : option Z * string :=
  match s with
  | String c s1 =>
      if isE c then
        let '(sg, s2) := sign s1 in
        let '(ds, rest) := span isdigit s2 in
        match ds with
        | EmptyString => (None, rest)
        | _ => (Some (sg * number ds 0), rest)
        end
      else (Some 0, s)
  | EmptyString => (Some 0, s)
  end.

(** [is >> x] for a [double]: sign, digits, a point and digits, an
    exponent; the value is the double nearest to the decimal that is
    written. Without a digit in the mantissa, or with an exponent mark that
    no digit follows, the variable becomes 0 and the flag goes up; beyond
    the range of the doubles it becomes the largest of them, with the sign,
    and the flag goes up. *)
Definition get_double (ins : t) : extracted float * t :=
  if failed ins then (Untouched, ins)
  else match skipws (buf ins) with
       | EmptyString => (Untouched, mk EmptyString true)
       | s =>
           let '(sg, s1) := sign s in
           let '(ip, s2) := span isdigit s1 in
           let '(fp, s3) := match s2 with
                            | String "." r => span isdigit r
                            | _ => (EmptyString, s2)
                            end in
           match (ip ++ fp)%string with
           | EmptyString => (Failed 0%float, mk s3 true)
           | mant =>
               match exponent s3 with
               | (None, rest) => (Failed 0%float, mk rest true)
               | (Some e, rest) =>
                   let '(x, overflow) :=
                     strtod (sg <? 0) (number mant 0)
                            (e - Z.of_nat (String.length fp)) in
                   if overflow
                   then (Failed (if sg <? 0 then PrimFloat.opp DBL_MAX else DBL_MAX),
                         mk rest true)
                   else (Got x, mk rest false)
               end
           end
       end.

(** The text up to the end of the line, and the rest after the newline. *)
Fixpoint line (s : string) : string * string :=
  match s with
  | EmptyString => (EmptyString, EmptyString)
  | String c rest =>
      if Ascii.eqb c "010" then (EmptyString, rest)
      else let '(l, rest') := line rest in (String c l, rest')
  end.

(** [getline(is, s)] *)
Definition getline (ins : t) : extracted string * t :=
  if failed ins then (Untouched, ins)
  else match buf ins with
       | EmptyString => (Failed EmptyString, mk EmptyString true)
       | s => let '(l, rest) := line s in (Got l, mk rest false)
       end.

End IStream.

(** ** read *)

(** What [read] writes to [cerr], line by line. *)
Inductive Message : Type :=
| WarnNoScore (pepName : string) (value : float)
    (* Warning: no peptide score for peptide entry <pepName>, using last score (<value>) *)
| ErrNoPrevious
    (* Error: No previous peptide entry to use *)
| UnexpectedInstruction (instr : ascii) (state : ascii)
    (* unexpected instruction <instr> in state <state> *)
| InputLineWas (text : string).
    (* the input line was: <instr><garbage> *)

(** The stream, the locals of [read], the object and [cerr]. *)
Record Reader : Type := mkReader {
  is_ : IStream.t;
  pepName : string;
  protName : string;
  value : float;
  pepIndex : Z;
  chargeState : Z;
  state : ascii;
  PSMNames : StringTable.t;
  proteinNames : StringTable.t;
  this : BasicBigraph;
  PeptideProphetPriorAtChargeState : list (Z * float);
  cerr : list Message
}.

Definition set_is (r : Reader) (v : IStream.t) : Reader :=
  mkReader v (pepName r) (protName r) (value r) (pepIndex r) (chargeState r) (state r)
           (PSMNames r) (proteinNames r) (this r) (PeptideProphetPriorAtChargeState r) (cerr r).
Definition set_pepName (r : Reader) (v : string) : Reader :=
  mkReader (is_ r) v (protName r) (value r) (pepIndex r) (chargeState r) (state r)
           (PSMNames r) (proteinNames r) (this r) (PeptideProphetPriorAtChargeState r) (cerr r).
Definition set_protName (r : Reader) (v : string) : Reader :=
  mkReader (is_ r) (pepName r) v (value r) (pepIndex r) (chargeState r) (state r)
           (PSMNames r) (proteinNames r) (this r) (PeptideProphetPriorAtChargeState r) (cerr r).
Definition set_value (r : Reader) (v : float) : Reader :=
  mkReader (is_ r) (pepName r) (protName r) v (pepIndex r) (chargeState r) (state r)
           (PSMNames r) (proteinNames r) (this r) (PeptideProphetPriorAtChargeState r) (cerr r).
Definition set_pepIndex (r : Reader) (v : Z) : Reader :=
  mkReader (is_ r) (pepName r) (protName r) (value r) v (chargeState r) (state r)
           (PSMNames r) (proteinNames r) (this r) (PeptideProphetPriorAtChargeState r) (cerr r).
Definition set_chargeState (r : Reader) (v : Z) : Reader :=
  mkReader (is_ r) (pepName r) (protName r) (value r) (pepIndex r) v (state r)
           (PSMNames r) (proteinNames r) (this r) (PeptideProphetPriorAtChargeState r) (cerr r).
Definition set_state (r : Reader) (v : ascii) : Reader :=
  mkReader (is_ r) (pepName r) (protName r) (value r) (pepIndex r) (chargeState r) v
           (PSMNames r) (proteinNames r) (this r) (PeptideProphetPriorAtChargeState r) (cerr r).
Definition set_PSMNames (r : Reader) (v : StringTable.t) : Reader :=
  mkReader (is_ r) (pepName r) (protName r) (value r) (pepIndex r) (chargeState r) (state r)
           v (proteinNames r) (this r) (PeptideProphetPriorAtChargeState r) (cerr r).
Definition set_proteinNames (r : Reader) (v : StringTable.t) : Reader :=
  mkReader (is_ r) (pepName r) (protName r) (value r) (pepIndex r) (chargeState r) (state r)
           (PSMNames r) v (this r) (PeptideProphetPriorAtChargeState r) (cerr r).
Definition set_this (r : Reader) (v : BasicBigraph) : Reader :=
  mkReader (is_ r) (pepName r) (protName r) (value r) (pepIndex r) (chargeState r) (state r)
           (PSMNames r) (proteinNames r) v (PeptideProphetPriorAtChargeState r) (cerr r).
Definition set_priors (r : Reader) (v : list (Z * float)) : Reader :=
  mkReader (is_ r) (pepName r) (protName r) (value r) (pepIndex r) (chargeState r) (state r)
           (PSMNames r) (proteinNames r) (this r) v (cerr r).
Definition print (r : Reader) (m : Message) : Reader :=
  mkReader (is_ r) (pepName r) (protName r) (value r) (pepIndex r) (chargeState r) (state r)
           (PSMNames r) (proteinNames r) (this r) (PeptideProphetPriorAtChargeState r)
           (cerr r ++ [m]).

(** How a call of [read], or one turn of its loop, ends: it goes on or
    returns with the reader as it is then, an exception leaves it with the
    reader as it was at the [throw], or the behaviour is undefined. *)
Inductive Outcome : Type :=
| Normal (r : Reader)
| Raised (e : Exception) (r : Reader)
| Undefined
| NoFuel.

Definition andThen (o : Outcome) (k : Reader -> Outcome) : Outcome :=
  match o with Normal r => k r | _ => o end.

(** [PSMsToProteins.weights[pepIndex] = w] and
    [PSMsToProteins.chargeStates[pepIndex] = c] on the object of the reader. *)
Definition set_pep_weight (r : Reader) (w : float) : Reader :=
  set_this r (with_PSMs (this r) (set_weight (PSMsToProteins (this r)) (pepIndex r) w)).

Definition set_pep_charge (r : Reader) (c : Z) : Reader :=
  let psm := PSMsToProteins (this r) in
  set_this r (with_PSMs (this r)
                (with_chargeStates psm (Arr.set (chargeStates psm) (pepIndex r) c))).

Definition pep_weight (r : Reader) : float := weight (PSMsToProteins (this r)) (pepIndex r).

Section Read.

(** The two global switches. *)
Variable gbDoPeptideNameClearing : bool.
Variable gbUseAllPepMatches : bool.

(** The branch of instruction [d]. The table of the priors is a static
    member defined out of the sources: it is kept as the list of the
    assignments made to it, latest first. [charge] and [prior] are
    uninitialised locals, so using them after an extraction that left them
    untouched is undefined. *)
Definition read_d (r : Reader) : Outcome :=
  let '(charge, is1) := IStream.get_int (is_ r) in
  let '(prior, is2) := IStream.get_double is1 in
  match charge, prior with
  | IStream.Untouched, _ => Undefined
  | _, IStream.Untouched => Undefined
  | (IStream.Got c | IStream.Failed c), (IStream.Got p | IStream.Failed p) =>
      Normal (set_priors (set_is r is2)
                ((c, max_ p 1e-6) :: PeptideProphetPriorAtChargeState r))
  end.

(** The part of the branch of [e] that runs in state [p]. *)
Definition read_e_pending (r : Reader) : Outcome :=
  let r := print r (WarnNoScore (pepName r) (value r)) in
  if PrimFloat.eqb (value r) (-10) then
    let r := print r ErrNoPrevious in
    Raised FormatException r
  else
    let r := set_value r (-1) in
    Normal (set_pep_weight r (max_ (value r) (pep_weight r))).

(** The rest of the branch of [e]: the name of the new record. *)
Definition read_e_record (r : Reader) : Outcome :=
  let '(tok, is1) := IStream.get_string (is_ r) in
  let r := set_pepName (set_is r is1) (IStream.store (pepName r) tok) in
  andThen (if gbDoPeptideNameClearing then
             match cleanPeptideSequence (pepName r) with
             | Ret s => Normal (set_pepName r s)
             | Throw e => Raised e r
             | Undef => Undefined
             | OutOfFuel => NoFuel
             end
           else Normal r)
    (fun r =>
       let r := if StringTable.lookup (PSMNames r) (pepName r) =? -1 then
                  let '(gl, st) := add (PSMsToProteins (this r)) (PSMNames r) (pepName r) in
                  set_PSMNames (set_this r (with_PSMs (this r) gl)) st
                else r in
       let r := set_pepIndex r (StringTable.lookup (PSMNames r) (pepName r)) in
       Normal (set_state r "c")).

Definition read_e (r : Reader) : Outcome :=
  andThen (if Ascii.eqb (state r) "p" then read_e_pending r else Normal r)
          read_e_record.

Definition read_c (r : Reader) : Outcome :=
  let '(n, is1) := IStream.get_int (is_ r) in
  let r := set_chargeState (set_is r is1) (IStream.store (chargeState r) n) in
  let r := set_pep_charge r (chargeState r) in
  Normal (set_state r "r").

Definition read_r (r : Reader) : Outcome :=
  let '(tok, is1) := IStream.get_string (is_ r) in
  let r := set_protName (set_is r is1) (IStream.store (protName r) tok) in
  let r := if StringTable.lookup (proteinNames r) (protName r) =? -1 then
             let '(gl, st) := add (proteinsToPSMs (this r)) (proteinNames r) (protName r) in
             set_proteinNames (set_this r (with_proteins (this r) gl)) st
           else r in
  let r := set_this r (connect (PSMNames r) (pepName r) (proteinNames r) (protName r)
                               (this r)) in
  Normal (set_state r "p").

Definition read_p (r : Reader) : Outcome :=
  let '(x, is1) := IStream.get_double (is_ r) in
  let r := set_value (set_is r is1) (IStream.store (value r) x) in
  let r := if negb gbUseAllPepMatches then
             set_pep_weight r (max_ (pep_weight r) (value r))
           else if PrimFloat.eqb (pep_weight r) (-1) then
             set_pep_weight r (value r)
           else
             set_pep_weight r (1 - (1 - pep_weight r) * (1 - value r))%float in
  let r := set_pep_charge r (chargeState r) in
  Normal (set_state r "e").

Definition read_comment (r : Reader) : Outcome :=
  let '(_, is1) := IStream.getline (is_ r) in
  Normal (set_is r is1).

Definition read_unexpected (instr : ascii) (r : Reader) : Outcome :=
  let r := print r (UnexpectedInstruction instr (state r)) in
  let '(garbage, is1) := IStream.getline (is_ r) in
  let r := set_is r is1 in
  let r := print r (InputLineWas (String instr (IStream.store EmptyString garbage))) in
  Raised FormatException r.

Definition state_is (r : Reader) (c : ascii) : bool := Ascii.eqb (state r) c.

(** The body of the [while] loop, [instr] read. *)
Definition read_body (instr : ascii) (r : Reader) : Outcome :=
  if Ascii.eqb instr "d" then read_d r
  else if Ascii.eqb instr "e" && (state_is r "e" || state_is r "p") then read_e r
  else if Ascii.eqb instr "c" && state_is r "c" then read_c r
  else if Ascii.eqb instr "r" && (state_is r "c" || state_is r "r" || state_is r "p")
       then read_r r
  else if Ascii.eqb instr "p" && state_is r "p" then read_p r
  else if Ascii.eqb instr "#" then read_comment r
  else read_unexpected instr r.

(** [while (is >> instr) body] *)
Fixpoint read_loop (fuel : nat) (r : Reader) : Outcome :=
  match fuel with
  | O => NoFuel
  | S fuel' =>
      match IStream.get_char (is_ r) with
      | (IStream.Got instr, is1) =>
          andThen (read_body instr (set_is r is1)) (read_loop fuel')
      | (_, is1) => Normal (set_is r is1)
      end
  end.

(** The locals of [read] at their initial values. *)
Definition read_init (g : BasicBigraph) (ins : IStream.t) : Reader :=
  mkReader ins EmptyString EmptyString (-10) (-1) 0 "e"
           StringTable.empty StringTable.empty g [] [].

(** The statements after the loop. *)
Definition read_finish (r : Reader) : Reader :=
  let g := this r in
  let g := with_PSMs g (with_names (PSMsToProteins g)
                          (StringTable.getItemsByNumber (PSMNames r))) in
  let g := with_proteins g (with_names (proteinsToPSMs g)
                              (StringTable.getItemsByNumber (proteinNames r))) in
  set_this r (pseudoCountPSMs g).

(** [g.read(is)] on the text [input]; every turn of the loop takes at
    least one character. *)
Definition read (g : BasicBigraph) (input : string) : Outcome :=
  andThen (read_loop (S (String.length input)) (read_init g (IStream.of_string input)))
          (fun r => Normal (read_finish r)).

End Read.

(** ** Predicates of the specification *)

(** Bipartite symmetry: [r] is a neighbour of peptide [p] exactly when [p]
    is a neighbour of protein [r]. *)
Definition symmetric (g : BasicBigraph) : Prop :=
  forall p r : Z,
    In r (association (PSMsToProteins g) p) <-> In p (association (proteinsToPSMs g) r).

(** Ascending order of the members of a set. *)
Definition ascending (s : IntSet.t) : Prop := StronglySorted Z.lt s.

(** The arrays of the names and of the association sets of a layer have
    one length. *)
Definition sized (gl : GraphLayer) : Prop :=
  List.length (names gl) = List.length (associations gl).

(** The graph with its two layers exchanged. *)
Definition swap (g : BasicBigraph) : BasicBigraph :=
  mkGraph (proteinsToPSMs g) (PSMsToProteins g) (ProteinThreshold g)
          (PeptideThreshold g) (severedProteins g) (numberClones g).

(** Two graphs with the same nodes, edges, weights and peptide threshold:
    they differ at most in the sections and their marks, and in what the
    traversal does not read. *)
Definition same_edges (g g' : BasicBigraph) : Prop :=
  names (PSMsToProteins g') = names (PSMsToProteins g)
  /\ associations (PSMsToProteins g') = associations (PSMsToProteins g)
  /\ weights (PSMsToProteins g') = weights (PSMsToProteins g)
  /\ names (proteinsToPSMs g') = names (proteinsToPSMs g)
  /\ associations (proteinsToPSMs g') = associations (proteinsToPSMs g)
  /\ weights (proteinsToPSMs g') = weights (proteinsToPSMs g)
  /\ PeptideThreshold g' = PeptideThreshold g.

(** The invariant of the graph: symmetric edges, and as many names as
    association sets on each side. *)
Definition graph_inv (g : BasicBigraph) : Prop :=
  symmetric g /\ sized (PSMsToProteins g) /\ sized (proteinsToPSMs g).

(** A graph as its constructor leaves it: no node on either side. *)
Definition fresh (g : BasicBigraph) : Prop :=
  PSMsToProteins g = emptyLayer /\ proteinsToPSMs g = emptyLayer.

(** The number of the characters still in the stream. *)
Definition remaining (ins : IStream.t) : nat := String.length (IStream.buf ins).

(** A fresh graph with its two thresholds set. *)
Definition freshGraph (proteinThreshold peptideThreshold : float) : BasicBigraph :=
  mkGraph emptyLayer emptyLayer proteinThreshold peptideThreshold [] 0.

(** A token of the input: not empty, no white space in it. *)
Fixpoint noSpace (s : string) : bool :=
  match s with
  | EmptyString => true
  | String c rest => negb (IStream.isspace c) && noSpace rest
  end.

Definition token (s : string) : Prop := s <> EmptyString /\ noSpace s = true.

(** The directives the loop of [read] takes in a state: the guards of its
    branches before the final [else]. *)
Definition accepted (instr state : ascii) : bool :=
  Ascii.eqb instr "d"
  || (Ascii.eqb instr "e" && (Ascii.eqb state "e" || Ascii.eqb state "p"))
  || (Ascii.eqb instr "c" && Ascii.eqb state "c")
  || (Ascii.eqb instr "r" && (Ascii.eqb state "c" || Ascii.eqb state "r" || Ascii.eqb state "p"))
  || (Ascii.eqb instr "p" && Ascii.eqb state "p")
  || Ascii.eqb instr "#".

(** What holds of the reader at every turn of the loop of [read] on a fresh
    graph: the edges are symmetric, every name of a table has its node,
    no name is twice in a table, and out of state [e] the current peptide
    is in its table. *)
Definition read_inv (r : Reader) : Prop :=
  symmetric (this r)
  /\ List.length (associations (PSMsToProteins (this r))) = List.length (PSMNames r)
  /\ List.length (weights (PSMsToProteins (this r))) = List.length (PSMNames r)
  /\ List.length (associations (proteinsToPSMs (this r))) = List.length (proteinNames r)
  /\ NoDup (PSMNames r) /\ NoDup (proteinNames r)
  /\ (state r = "e"%char \/ In (pepName r) (PSMNames r)).

(** The graphs that the operations build: [read] on a fresh graph, and from
    there [connect] between two nodes of the graph, the two disconnections,
    [clonePSM], [reindex] and the marking of the sections. *)
Inductive reachable : BasicBigraph -> Prop :=
| reach_read : forall clear allm g input r,
    fresh g -> read clear allm g input = Normal r -> reachable (this r)
| reach_connect : forall g pepNames pepName proteinNames protName,
    reachable g ->
    Arr.inb (associations (PSMsToProteins g)) (StringTable.lookup pepNames pepName) = true ->
    Arr.inb (associations (proteinsToPSMs g)) (StringTable.lookup proteinNames protName) = true ->
    reachable (connect pepNames pepName proteinNames protName g)
| reach_disconnectPSM : forall g k,
    reachable g -> reachable (disconnectPSM k g)
| reach_disconnectProtein : forall g k,
    reachable g -> reachable (disconnectProtein k g)
| reach_clonePSM : forall g k,
    reachable g -> reachable (clonePSM k g)
| reach_reindex : forall ctorProt ctorPep ctorClones g,
    reachable g -> reachable (reindex ctorProt ctorPep ctorClones g)
| reach_mark : forall g n g',
    reachable g -> markSectionPartitions g = Ret (n, g') -> reachable g'.

(** The graph a call of [read] leaves, [d] when it does not return. *)
Definition graph_of (o : Outcome) (d : BasicBigraph) : BasicBigraph :=
  match o with Normal r => this r | _ => d end.

(** The graph of one weak peptide between two proteins: the peptide X has
    the score 0, which the pseudo-count raises to the threshold 1/2. *)
Definition bridged : BasicBigraph :=
  graph_of (read true false (freshGraph 0 0.5) "e X c 1 r P1 r P2 p 0.0")
           (freshGraph 0 0.5).

Definition Layer_eqb (l l' : Layer) : bool :=
  match l, l' with
  | PSMLayer, PSMLayer => true
  | ProteinLayer, ProteinLayer => true
  | _, _ => false
  end.

(** The first section for which a node was touched, -1 when it never was. *)
Fixpoint firstTouch (log : list (Layer * Z * Z)) (l : Layer) (index : Z) : Z :=
  match log with
  | [] => -1
  | (l', i, s) :: rest =>
      if Layer_eqb l l' && (i =? index) then s else firstTouch rest l index
  end.

(** The input of the example: two records of the peptide PEP, with the
    scores 0.5 and 0.4. *)
Definition twoScores : string := "e PEP c 2 r PROT p 0.5 e PEP c 2 r PROT p 0.4".

(** The graph of two records that share nothing. *)
Definition twoRecords : BasicBigraph :=
  graph_of (read true false (freshGraph 0 0.5)
                 "e AB c 2 r P1 p 0.9 e CD c 1 r P2 p 0.8")
           (freshGraph 0 0.5).

(** The last section for which a node was touched, -1 when it never was. *)
Definition lastTouch (log : list (Layer * Z * Z)) (l : Layer) (index : Z) : Z :=
  firstTouch (rev log) l index.

(** The number of the nodes of a side whose section is not [sec]. *)
Definition count_ne (sec : Z) (secs : list Z) : nat :=
  List.length (filter (fun x => negb (x =? sec)) secs).

(** The nodes that a traversal for [sec] has still to mark. *)
Definition unmarked (sec : Z) (g : BasicBigraph) : nat :=
  (count_ne sec (sections (PSMsToProteins g))
   + count_ne sec (sections (proteinsToPSMs g)))%nat.

(** Every node of the graph has its section, its marks and its
    association set. *)
Definition allocated (g : BasicBigraph) : Prop :=
  forall l, List.length (sections (layer g l)) = List.length (associations (layer g l))
            /\ List.length (sectionMarks (layer g l)) = List.length (sections (layer g l)).

(** The layer once [traceConnected] has given the node its section and
    its mark. *)
Definition markedLayer (gl : GraphLayer) (index sec : Z) : GraphLayer :=
  let gl := with_sections gl (Arr.set (sections gl) index sec) in
  with_sectionMarks gl
    (Arr.set (sectionMarks gl) index
             (IntSet.union (sectionMark gl index) (IntSet.SingletonSet sec))).

(** The marks and the sections tell the record of the touches: a node is
    marked with the sections it was touched for, and its section is the last
    of them. *)
Definition marks_record (m : Marking) : Prop :=
  forall l k,
    Arr.inb (sections (layer (graph m) l)) k = true ->
    (forall id, In id (sectionMark (layer (graph m) l) k) <-> In (l, k, id) (touched m))
    /\ section (layer (graph m) l) k = lastTouch (touched m) l k.

(** ** Predicates and examples of the further properties *)

(** A layer that differs from another at most in the members of its
    association sets. *)
Definition layer_frame (gl gl' : GraphLayer) : Prop :=
  names gl' = names gl /\ weights gl' = weights gl
  /\ sections gl' = sections gl /\ sectionMarks gl' = sectionMarks gl
  /\ chargeStates gl' = chargeStates gl
  /\ List.length (associations gl') = List.length (associations gl).

(** A graph that differs from another at most in its edges. *)
Definition edges_only (g g' : BasicBigraph) : Prop :=
  layer_frame (PSMsToProteins g) (PSMsToProteins g')
  /\ layer_frame (proteinsToPSMs g) (proteinsToPSMs g')
  /\ ProteinThreshold g' = ProteinThreshold g
  /\ PeptideThreshold g' = PeptideThreshold g
  /\ severedProteins g' = severedProteins g
  /\ numberClones g' = numberClones g.

(** The test of [removePoorProteins] on protein [r]: the largest weight
    among its peptides is below the protein threshold. *)
Definition poor (maxOfNone : float) (g : BasicBigraph) (r : Z) : bool :=
  PrimFloat.ltb (Vector_max maxOfNone
                   (select 0%float (weights (PSMsToProteins g))
                           (association (proteinsToPSMs g) r)))
                (ProteinThreshold g).

(** The indices [0 .. n-1]. *)
Definition indices (n : Z) : list Z := map Z.of_nat (seq 0 (Z.to_nat n)).

(** The test of the symmetry of the edges, for a graph that is written
    out: every edge of a side is an edge of the other. *)
Definition symmetricb (g : BasicBigraph) : bool :=
  forallb (fun p => forallb (fun r => IntSet.mem p (association (proteinsToPSMs g) r))
                            (association (PSMsToProteins g) p))
          (indices (Arr.size (associations (PSMsToProteins g))))
  && forallb (fun r => forallb (fun p => IntSet.mem r (association (PSMsToProteins g) p))
                               (association (proteinsToPSMs g) r))
             (indices (Arr.size (associations (proteinsToPSMs g)))).

(** The graph of three records: AB with a negative score on P1, CD on P2,
    and EF on P2 and P3; the protein threshold is 0.5, and the peptide
    threshold -2 leaves the scores as they are read. *)
Definition mixed : BasicBigraph :=
  mkGraph (mkLayer ["AB"; "CD"; "EF"]%string [[0]; [1]; [1; 2]] [-1; 0.8; 0.3]%float
                   [-1; -1; -1] [] [2; 1; 1])
          (mkLayer ["P1"; "P2"; "P3"]%string [[0]; [1; 2]; [2]] [-1; -1; -1]%float
                   [-1; -1; -1] [] [-1; -1; -1])
          0.5 (-2) [] 0.

(** The graph of a record and of a peptide that no protein follows. *)
Definition loose : BasicBigraph :=
  mkGraph (mkLayer ["AB"; "CD"]%string [[0]; []] [0.9; 0.5]%float [-1; -1] [] [2; -1])
          (mkLayer ["P1"]%string [[0]] [-1]%float [-1] [] [-1])
          0 0.5 [] 0.
(** Every touch of the record bears a section below [n], and a touched
    peptide is in the association set of some protein of [g]. *)
Definition touches_within (g : BasicBigraph) (n : Z) (m : Marking) : Prop :=
  forall l i s, In (l, i, s) (touched m) ->
                0 <= s < n
                /\ (l = PSMLayer -> exists r, In i (association (proteinsToPSMs g) r)).

(** The proteins that have a section, but for those of [pending], have had
    all their peptides touched. *)
Definition neighbours_touched (pending : list Z) (m : Marking) : Prop :=
  forall r, section (proteinsToPSMs (graph m)) r <> -1 -> ~ In r pending ->
            forall i, In i (association (proteinsToPSMs (graph m)) r) ->
                      exists s, In (PSMLayer, i, s) (touched m).


(** The graph [bridged] once its sections are marked: the weak peptide X
    bears the marks of the two sections. *)
Definition bridgedMarked : BasicBigraph :=
  mkGraph (mkLayer ["X"]%string [[0; 1]] [0.5]%float [1] [[0; 1]] [1])
          (mkLayer ["P1"; "P2"]%string [[0]; [0]] [-1; -1]%float [0; 1] [[0]; [1]] [-1; -1])
          0 0.5 [] 0.

(** The trace goes on through peptide [p]: its weight is not at most the
    peptide threshold, the test at which [traceConnected] returns. *)
Definition strong (g : BasicBigraph) (p : Z) : bool :=
  negb (PrimFloat.leb (weight (PSMsToProteins g) p) (PeptideThreshold g)).

(** The nodes that have section [sec] keep it. *)
Definition keeps (sec : Z) (m m' : Marking) : Prop :=
  forall l k, section (layer (graph m) l) k = sec -> section (layer (graph m') l) k = sec.

(** Where a call of [traceConnected] for [sec] comes from: a peptide is
    reached from one of its proteins, which has the section; a protein is
    reached from the loop of [markSectionPartitions], without a section, or
    from one of its peptides that the trace goes through. *)
Definition called_from (g0 : BasicBigraph) (sec : Z) (l : Layer) (index : Z)
           (m : Marking) : Prop :=
  match l with
  | PSMLayer =>
      exists r, In r (association (PSMsToProteins g0) index)
                /\ section (proteinsToPSMs (graph m)) r = sec
  | ProteinLayer =>
      section (proteinsToPSMs (graph m)) index = -1
      \/ exists p, In p (association (proteinsToPSMs g0) index)
                   /\ strong g0 p = true
                   /\ section (PSMsToProteins (graph m)) p = sec
  end.

(** The sections follow the edges of [g0], but for the nodes whose loop is
    still running: a protein with a section has had each of its peptides
    touched for that section, and shares it with those the trace goes
    through; such a peptide shares its section with its proteins; and a
    peptide was only touched for the section of one of its proteins. *)
Definition closed (g0 : BasicBigraph) (pendProt pendPep : list Z) (m : Marking) : Prop :=
  (forall r p, In p (association (proteinsToPSMs g0) r) ->
               section (proteinsToPSMs (graph m)) r <> -1 -> ~ In r pendProt ->
               In (PSMLayer, p, section (proteinsToPSMs (graph m)) r) (touched m)
               /\ (strong g0 p = true ->
                   section (PSMsToProteins (graph m)) p
                   = section (proteinsToPSMs (graph m)) r))
  /\ (forall p r, In r (association (PSMsToProteins g0) p) -> strong g0 p = true ->
                  section (PSMsToProteins (graph m)) p <> -1 -> ~ In p pendPep ->
                  section (proteinsToPSMs (graph m)) r
                  = section (PSMsToProteins (graph m)) p)
  /\ (forall p s, In (PSMLayer, p, s) (touched m) ->
                  s <> -1
                  /\ exists r, In r (association (PSMsToProteins g0) p)
                               /\ section (proteinsToPSMs (graph m)) r = s).

(** * Proofs *)

(** Projections of an updated reader. *)
Ltac reader_simpl :=
  unfold pep_weight, set_pep_weight, set_pep_charge in *;
  cbn [is_ pepName protName value pepIndex chargeState state PSMNames proteinNames
       this PeptideProphetPriorAtChargeState cerr
       set_is set_pepName set_protName set_value set_pepIndex set_chargeState
       set_state set_PSMNames set_proteinNames set_this set_priors print
       set_pep_weight set_pep_charge pep_weight andThen] in *.

(** ** cleanPeptideSequence *)

Lemma isCapital_residue (c : ascii) :
  isCapital c = true ->
  isCapital (residue c) = true /\ Ascii.eqb (residue c) "I" = false.
Proof.
  intros H. unfold residue. destruct (Ascii.eqb c "I") eqn:E.
  - split; reflexivity.
  - split; assumption.
Qed.

Lemma keepCapitals_spec (s : string) :
  list_ascii_of_string (keepCapitals s)
  = map residue (filter isCapital (list_ascii_of_string s)).
Proof.
  induction s as [|c s IH]; simpl; [reflexivity|].
  destruct (isCapital c); simpl; [f_equal|]; exact IH.
Qed.

Lemma keepCapitals_capital (s : string) (c : ascii) :
  In c (list_ascii_of_string (keepCapitals s)) ->
  isCapital c = true /\ Ascii.eqb c "I" = false.
Proof.
  rewrite keepCapitals_spec. intros H.
  apply in_map_iff in H. destruct H as [x [<- Hx]].
  apply filter_In in Hx. apply isCapital_residue, Hx.
Qed.

(** A string of capitals other than I is kept as it is. *)
Lemma keepCapitals_fix (s : string) :
  (forall c, In c (list_ascii_of_string s) ->
             isCapital c = true /\ Ascii.eqb c "I" = false) ->
  keepCapitals s = s.
Proof.
  induction s as [|c s IH]; intros H; simpl; [reflexivity|].
  destruct (H c (or_introl eq_refl)) as [Hc HI].
  rewrite Hc. unfold residue. rewrite HI. f_equal.
  apply IH. intros x Hx. apply H. right. exact Hx.
Qed.

Lemma keepCapitals_idem (s : string) :
  keepCapitals (keepCapitals s) = keepCapitals s.
Proof. apply keepCapitals_fix, keepCapitals_capital. Qed.

Lemma clean_of_capitals (s : string) :
  s <> EmptyString ->
  (forall c, In c (list_ascii_of_string s) ->
             isCapital c = true /\ Ascii.eqb c "I" = false) ->
  cleanPeptideSequence s = Ret s.
Proof.
  intros Hne H.
  destruct s as [|a [|b t]]; [congruence| |]; unfold cleanPeptideSequence.
  - change (Ret (keepCapitals (String a EmptyString)) = Ret (String a EmptyString)).
    rewrite (keepCapitals_fix (String a EmptyString) H). reflexivity.
  - assert (Hb : isCapital b = true) by (apply H; simpl; auto).
    unfold Str.at_. simpl String.get. cbn [bind].
    assert (Hdot : Ascii.eqb b "." = false).
    { destruct (Ascii.eqb b ".") eqn:E; [|reflexivity].
      apply Ascii.eqb_eq in E. subst b. discriminate Hb. }
    rewrite Hdot. cbn [bind]. rewrite (keepCapitals_fix _ H). reflexivity.
Qed.

Lemma size_t_small (z : Z) : 0 <= z < Str.SIZE_MOD -> Str.size_t z = z.
Proof. intros H. unfold Str.size_t. apply Z.mod_small. exact H. Qed.

(** The function returns on every argument that is not empty. *)
Lemma clean_returns (s : string) :
  s <> EmptyString ->
  exists core, cleanPeptideSequence s = Ret (keepCapitals core).
Proof.
  intros Hne. unfold cleanPeptideSequence.
  destruct s as [|a [|b t]]; [congruence| |].
  - exists (String a EmptyString). reflexivity.
  - unfold Str.at_. simpl String.get. cbn [bind].
    destruct (Ascii.eqb b ".").
    + unfold Str.substr.
      assert (Hs : (Str.size (String a (String b t)) <? 2) = false).
      { apply Z.ltb_ge. unfold Str.size. simpl String.length. lia. }
      rewrite Hs. cbn [bind]. eexists. reflexivity.
    + cbn [bind]. eexists. reflexivity.
Qed.

Lemma clean_plain (s : string) :
  s <> EmptyString -> String.get 1 s <> Some "."%char ->
  cleanPeptideSequence s = Ret (keepCapitals s).
Proof.
  intros Hne Hdot.
  destruct s as [|a [|b t]]; [congruence|reflexivity|].
  unfold cleanPeptideSequence, Str.at_. simpl String.get in *. cbn [bind].
  destruct (Ascii.eqb b ".") eqn:E.
  - apply Ascii.eqb_eq in E. subst b. congruence.
  - reflexivity.
Qed.

Lemma clean_flanked (s : string) :
  String.get 1 s = Some "."%char ->
  (4 <= String.length s)%nat -> Str.size s < Str.SIZE_MOD ->
  cleanPeptideSequence s
  = Ret (keepCapitals (String.substring 2 (String.length s - 4) s)).
Proof.
  intros Hdot H4 Hmax.
  unfold cleanPeptideSequence, Str.at_. rewrite Hdot. cbn [bind].
  change (Ascii.eqb "." ".") with true. cbv iota.
  unfold Str.substr.
  assert (Hs : (Str.size s <? 2) = false).
  { apply Z.ltb_ge. unfold Str.size. lia. }
  rewrite Hs. cbn [bind].
  rewrite size_t_small by (unfold Str.size, Str.SIZE_MOD in *; lia).
  replace (Z.to_nat (Z.min (Str.size s - 4) (Str.size s - 2)))
    with (String.length s - 4)%nat by (unfold Str.size; lia).
  reflexivity.
Qed.

(** C8, as amended: on every argument that is not empty the function
    returns; the result is made of the capital letters of the argument, in
    their order and with every I turned into L, once the two characters at
    each end are dropped when the second character is a point (and the
    argument has the four characters to drop); no character of the result is
    anything but a capital letter other than I; and a result that is not
    empty is a fixed point: normalising it gives it back. *)
Theorem cleanPeptideSequence_normalizes (pepSeq : string) :
  pepSeq <> EmptyString ->
  exists res,
    cleanPeptideSequence pepSeq = Ret res
    /\ (String.get 1 pepSeq <> Some "."%char ->
        list_ascii_of_string res
        = map residue (filter isCapital (list_ascii_of_string pepSeq)))
    /\ (String.get 1 pepSeq = Some "."%char ->
        (4 <= String.length pepSeq)%nat -> Str.size pepSeq < Str.SIZE_MOD ->
        list_ascii_of_string res
        = map residue
              (filter isCapital
                      (list_ascii_of_string
                         (String.substring 2 (String.length pepSeq - 4) pepSeq))))
    /\ (forall c, In c (list_ascii_of_string res) ->
                  isCapital c = true /\ c <> "I"%char)
    /\ (res <> EmptyString -> cleanPeptideSequence res = Ret res).
Proof.
  intros Hne. destruct (clean_returns pepSeq Hne) as [core Hcore].
  exists (keepCapitals core). split; [exact Hcore|].
  assert (Hcap : forall c, In c (list_ascii_of_string (keepCapitals core)) ->
                           isCapital c = true /\ Ascii.eqb c "I" = false)
    by apply keepCapitals_capital.
  repeat split.
  - intros Hdot. rewrite (clean_plain pepSeq Hne Hdot) in Hcore.
    injection Hcore as <-. apply keepCapitals_spec.
  - intros Hdot H4 Hmax. rewrite (clean_flanked pepSeq Hdot H4 Hmax) in Hcore.
    injection Hcore as <-. apply keepCapitals_spec.
  - apply Hcap. assumption.
  - intros ->. destruct (Hcap _ H) as [_ HI]. discriminate HI.
  - intros Hres. apply clean_of_capitals; assumption.
Qed.

Lemma cleanPeptideSequence_normalizes_witness :
  exists res,
    cleanPeptideSequence "K.PEPTIiDEx.R" = Ret res
    /\ res = "PEPTLDE"%string
    /\ cleanPeptideSequence res = Ret res.
Proof.
  destruct (cleanPeptideSequence_normalizes "K.PEPTIiDEx.R")
    as [res [Hres [_ [Hflank [_ Hfix]]]]]; [discriminate|].
  exists res.
  assert (E : res = "PEPTLDE"%string).
  { rewrite <- (string_of_list_ascii_of_string res).
    rewrite Hflank; [reflexivity|reflexivity|simpl; lia|vm_compute; reflexivity]. }
  split; [exact Hres|]. split; [exact E|].
  apply Hfix. rewrite E. discriminate.
Defined.

(** The claim C8 as it stands fails on an output that is empty: an
    argument without a capital letter is normalised to the empty string, on
    which the function reads [pepSeq[1]] beyond the terminator. *)
Lemma cleanPeptideSequence_not_idempotent :
  cleanPeptideSequence "ab" = Ret EmptyString
  /\ cleanPeptideSequence EmptyString = Undef
  /\ ~ (forall s res, cleanPeptideSequence s = Ret res ->
                      cleanPeptideSequence res = Ret res).
Proof.
  split; [reflexivity|]. split; [reflexivity|].
  intros H. specialize (H "ab"%string EmptyString eq_refl). discriminate H.
Qed.

(** The function throws nothing: it returns, or its first access is undefined. *)
Lemma clean_ret_or_undef (s : string) :
  (exists res, cleanPeptideSequence s = Ret res) \/ cleanPeptideSequence s = Undef.
Proof.
  destruct s as [|a t]; [right; reflexivity|].
  left. destruct (clean_returns (String a t)) as [core H]; [discriminate|].
  exists (keepCapitals core). exact H.
Qed.

(** ** Arrays *)

Lemma inb_iff {A : Type} (a : list A) (k : Z) :
  Arr.inb a k = true <-> 0 <= k < Arr.size a.
Proof.
  unfold Arr.inb. rewrite andb_true_iff, Z.leb_le, Z.ltb_lt. tauto.
Qed.

Lemma inb_false_iff {A : Type} (a : list A) (k : Z) :
  Arr.inb a k = false <-> ~ (0 <= k < Arr.size a).
Proof.
  rewrite <- inb_iff. destruct (Arr.inb a k); split; congruence.
Qed.

Lemma length_upd {A : Type} (a : list A) (n : nat) (v : A) :
  List.length (Arr.upd a n v) = List.length a.
Proof.
  revert n. induction a as [|x a IH]; intros [|n]; simpl; auto.
Qed.

Lemma nth_upd_same {A : Type} (a : list A) (n : nat) (v d : A) :
  (n < List.length a)%nat -> nth n (Arr.upd a n v) d = v.
Proof.
  revert n. induction a as [|x a IH]; intros [|n] H; simpl in *; try lia; auto.
  apply IH. lia.
Qed.

Lemma nth_upd_other {A : Type} (a : list A) (n m : nat) (v d : A) :
  n <> m -> nth m (Arr.upd a n v) d = nth m a d.
Proof.
  revert n m. induction a as [|x a IH]; intros [|n] [|m] H; simpl; auto; try congruence.
Qed.

Lemma size_set {A : Type} (a : list A) (k : Z) (v : A) :
  Arr.size (Arr.set a k v) = Arr.size a.
Proof.
  unfold Arr.set, Arr.size. destruct (Arr.inb a k); [rewrite length_upd|]; reflexivity.
Qed.

Lemma length_set {A : Type} (a : list A) (k : Z) (v : A) :
  List.length (Arr.set a k v) = List.length a.
Proof.
  unfold Arr.set. destruct (Arr.inb a k); [rewrite length_upd|]; reflexivity.
Qed.

Lemma inb_set {A : Type} (a : list A) (k j : Z) (v : A) :
  Arr.inb (Arr.set a k v) j = Arr.inb a j.
Proof. unfold Arr.inb. rewrite size_set. reflexivity. Qed.

Lemma get_set_same {A : Type} (d : A) (a : list A) (k : Z) (v : A) :
  Arr.inb a k = true -> Arr.get d (Arr.set a k v) k = v.
Proof.
  intros H. unfold Arr.get. rewrite inb_set, H. unfold Arr.set. rewrite H.
  apply nth_upd_same. apply inb_iff in H. unfold Arr.size in H. lia.
Qed.

Lemma get_set_other {A : Type} (d : A) (a : list A) (k j : Z) (v : A) :
  k <> j -> Arr.get d (Arr.set a k v) j = Arr.get d a j.
Proof.
  intros H. unfold Arr.get. rewrite inb_set.
  destruct (Arr.inb a j) eqn:Hj; [|reflexivity].
  unfold Arr.set. destruct (Arr.inb a k) eqn:Hk; [|reflexivity].
  apply nth_upd_other. apply inb_iff in Hj, Hk. lia.
Qed.

Lemma get_outside {A : Type} (d : A) (a : list A) (k : Z) :
  Arr.inb a k = false -> Arr.get d a k = d.
Proof. intros H. unfold Arr.get. rewrite H. reflexivity. Qed.

(** Writing the default where nothing is stored changes no read. *)
Lemma get_set {A : Type} (d : A) (a : list A) (k j : Z) (v : A) :
  Arr.get d (Arr.set a k v) j
  = if Arr.inb a k && (j =? k) then v else Arr.get d a j.
Proof.
  destruct (Arr.inb a k) eqn:Hk; simpl.
  - destruct (j =? k) eqn:E.
    + apply Z.eqb_eq in E. subst j. apply get_set_same, Hk.
    + apply Z.eqb_neq in E. apply get_set_other. congruence.
  - unfold Arr.set. rewrite Hk. reflexivity.
Qed.

Lemma size_add {A : Type} (a : list A) (v : A) :
  Arr.size (Arr.add a v) = Arr.size a + 1.
Proof. unfold Arr.size, Arr.add. rewrite length_app. simpl. lia. Qed.

Lemma get_add {A : Type} (d : A) (a : list A) (v : A) (k : Z) :
  Arr.get d (Arr.add a v) k = if k =? Arr.size a then v else Arr.get d a k.
Proof.
  unfold Arr.get, Arr.inb. rewrite size_add. unfold Arr.add, Arr.size.
  destruct (k =? Z.of_nat (List.length a)) eqn:E.
  - apply Z.eqb_eq in E. subst k.
    replace ((0 <=? Z.of_nat (List.length a))
             && (Z.of_nat (List.length a) <? Z.of_nat (List.length a) + 1)) with true
      by (symmetry; apply andb_true_iff; rewrite Z.leb_le, Z.ltb_lt; lia).
    rewrite Nat2Z.id, nth_middle. reflexivity.
  - apply Z.eqb_neq in E.
    destruct (0 <=? k) eqn:H0; simpl; [|reflexivity].
    apply Z.leb_le in H0.
    destruct (k <? Z.of_nat (List.length a)) eqn:H1.
    + apply Z.ltb_lt in H1.
      replace (k <? Z.of_nat (List.length a) + 1) with true
        by (symmetry; apply Z.ltb_lt; lia).
      apply app_nth1. lia.
    + apply Z.ltb_ge in H1.
      replace (k <? Z.of_nat (List.length a) + 1) with false
        by (symmetry; apply Z.ltb_ge; lia).
      reflexivity.
Qed.

Lemma size_make {A : Type} (n : Z) (v : A) : 0 <= n -> Arr.size (Arr.make n v) = n.
Proof. intros H. unfold Arr.size, Arr.make. rewrite repeat_length. lia. Qed.

Lemma get_make {A : Type} (d : A) (n : Z) (k : Z) : Arr.get d (Arr.make n d) k = d.
Proof.
  unfold Arr.get. destruct (Arr.inb (Arr.make n d) k); [|reflexivity].
  unfold Arr.make. apply nth_repeat.
Qed.

(** ** Counted loops *)

Lemma for_step {S : Type} (n : nat) (body : Z -> S -> S) (s : S) :
  for_ (Z.of_nat (Datatypes.S n)) body s
  = body (Z.of_nat n) (for_ (Z.of_nat n) body s).
Proof.
  unfold for_. rewrite !Nat2Z.id, seq_S, fold_left_app. reflexivity.
Qed.

Lemma for_ind {S : Type} (P : Z -> S -> Prop) (n : Z) (body : Z -> S -> S) (s : S) :
  P 0 s ->
  (forall k s, 0 <= k < n -> P k s -> P (k + 1) (body k s)) ->
  0 <= n -> P n (for_ n body s).
Proof.
  intros H0 Hstep Hn. rewrite <- (Z2Nat.id n Hn).
  assert (Hle : (Z.to_nat n <= Z.to_nat n)%nat) by lia.
  revert Hle. generalize (Z.to_nat n) at 1 3 4 as m.
  induction m as [|m IH]; intros Hle.
  - exact H0.
  - rewrite for_step. replace (Z.of_nat (Datatypes.S m)) with (Z.of_nat m + 1) by lia.
    apply Hstep; [lia|]. apply IH. lia.
Qed.

Lemma for_inv {S : Type} (P : S -> Prop) (n : Z) (body : Z -> S -> S) (s : S) :
  P s -> (forall k s, 0 <= k < n -> P s -> P (body k s)) -> P (for_ n body s).
Proof.
  intros H0 Hstep. destruct (Z_le_gt_dec 0 n) as [Hn|Hn].
  - apply (for_ind (fun _ => P)); auto.
  - unfold for_. replace (Z.to_nat n) with 0%nat by lia. exact H0.
Qed.

Lemma forM_step {S : Type} (n : nat) (body : Z -> S -> Cxx S) (s : S) :
  forM (Z.of_nat (Datatypes.S n)) body s
  = (s' <- forM (Z.of_nat n) body s ;; body (Z.of_nat n) s').
Proof.
  unfold forM. rewrite !Nat2Z.id, seq_S, fold_left_app. reflexivity.
Qed.

Lemma forM_ind {S : Type} (P : Z -> S -> Prop) (n : Z) (body : Z -> S -> Cxx S)
      (s s' : S) :
  P 0 s ->
  (forall k s s', 0 <= k < n -> P k s -> body k s = Ret s' -> P (k + 1) s') ->
  0 <= n -> forM n body s = Ret s' -> P n s'.
Proof.
  intros H0 Hstep Hn. rewrite <- (Z2Nat.id n Hn).
  assert (Hle : (Z.to_nat n <= Z.to_nat n)%nat) by lia.
  revert s' Hle. generalize (Z.to_nat n) at 1 3 4 as m.
  induction m as [|m IH]; intros s' Hle H.
  - unfold forM in H. simpl in H. injection H as <-. exact H0.
  - rewrite forM_step in H.
    destruct (forM (Z.of_nat m) body s) as [s1| | |] eqn:E; try discriminate.
    simpl in H. replace (Z.of_nat (Datatypes.S m)) with (Z.of_nat m + 1) by lia.
    apply (Hstep (Z.of_nat m) s1); [lia| |exact H]. apply IH; [lia|reflexivity].
Qed.

Lemma forM_inv {S : Type} (P : S -> Prop) (n : Z) (body : Z -> S -> Cxx S) (s s' : S) :
  P s -> (forall k s s', 0 <= k < n -> P s -> body k s = Ret s' -> P s') ->
  forM n body s = Ret s' -> P s'.
Proof.
  intros H0 Hstep. destruct (Z_le_gt_dec 0 n) as [Hn|Hn].
  - apply (forM_ind (fun _ => P)); auto.
  - unfold forM. replace (Z.to_nat n) with 0%nat by lia. simpl.
    intros H. injection H as <-. exact H0.
Qed.

(** ** The loop of read, one directive at a time *)

Lemma read_loop_body (clear allm : bool) (fuel : nat) (r : Reader)
      (instr : ascii) (is1 : IStream.t) :
  IStream.get_char (is_ r) = (IStream.Got instr, is1) ->
  read_loop clear allm (S fuel) r
  = andThen (read_body clear allm instr (set_is r is1)) (read_loop clear allm fuel).
Proof. intros H. simpl. rewrite H. reflexivity. Qed.

Lemma read_loop_end (clear allm : bool) (fuel : nat) (r : Reader) (is1 : IStream.t) :
  IStream.get_char (is_ r) = (IStream.Untouched, is1) ->
  read_loop clear allm (S fuel) r = Normal (set_is r is1).
Proof. intros H. simpl. rewrite H. reflexivity. Qed.

Lemma read_body_unexpected (clear allm : bool) (instr : ascii) (r : Reader) :
  accepted instr (state r) = false ->
  read_body clear allm instr r = read_unexpected instr r.
Proof.
  unfold accepted. intros H.
  repeat (apply orb_false_iff in H; destruct H as [H ?]).
  unfold read_body, state_is.
  repeat match goal with E : _ = false |- _ => rewrite E; clear E end.
  reflexivity.
Qed.

Lemma getline_line (rest : string) :
  IStream.store EmptyString (fst (IStream.getline (IStream.mk rest false)))
  = fst (IStream.line rest)
  /\ IStream.buf (snd (IStream.getline (IStream.mk rest false)))
     = snd (IStream.line rest).
Proof.
  unfold IStream.getline. cbn [IStream.failed IStream.buf].
  destruct rest as [|c rest]; [split; reflexivity|].
  destruct (IStream.line (String c rest)) as [l rest']. split; reflexivity.
Qed.

(** C9, as amended: wherever the parse stands, when the character read as
    the directive is not one the loop takes in the current state, [read]
    writes two lines to [cerr] (the directive with the state, then the
    directive followed by the rest of its line), has consumed the
    rest of that line, leaves the graph as it was and raises a
    FormatException; the text of the exception is the fixed
    "protein identifier: format exception", so the line is in the error
    stream and not in the exception. *)
Theorem unexpected_directive_raises (clear allm : bool) (fuel : nat) (r : Reader)
        (instr : ascii) (rest : string) :
  IStream.get_char (is_ r) = (IStream.Got instr, IStream.mk rest false) ->
  accepted instr (state r) = false ->
  exists r',
    read_loop clear allm (S fuel) r = Raised FormatException r'
    /\ IStream.buf (is_ r') = snd (IStream.line rest)
    /\ cerr r' = cerr r ++ [UnexpectedInstruction instr (state r);
                            InputLineWas (String instr (fst (IStream.line rest)))]
    /\ this r' = this r
    /\ what FormatException = "protein identifier: format exception"%string.
Proof.
  intros Hget Hacc. rewrite (read_loop_body _ _ _ _ _ _ Hget).
  rewrite read_body_unexpected by exact Hacc.
  unfold read_unexpected. simpl is_.
  destruct (getline_line rest) as [Hl Hb].
  destruct (IStream.getline (IStream.mk rest false)) as [garbage is2].
  simpl in Hl, Hb. eexists. split; [reflexivity|].
  simpl. rewrite Hl, Hb, <- app_assoc. repeat split.
Qed.

Lemma unexpected_directive_raises_witness :
  exists r',
    read_loop true false 4
              (read_init (freshGraph 0 0.5)
                         (IStream.of_string "c 2"))
    = Raised FormatException r'
    /\ cerr r' = [UnexpectedInstruction "c" "e"; InputLineWas "c 2"].
Proof.
  destruct (unexpected_directive_raises true false 3
              (read_init (freshGraph 0 0.5)
                         (IStream.of_string "c 2"))
              "c" " 2" eq_refl eq_refl) as [r' [H [_ [Hc _]]]].
  exists r'. split; [exact H|exact Hc].
Defined.

(** The claim C9 as it stands fails: on the input [c 2] the exception
    raised holds no part of the line. *)
Lemma FormatException_without_line :
  match read true false (freshGraph 0 0.5) "c 2" with
  | Raised e r =>
      e = FormatException
      /\ cerr r = [UnexpectedInstruction "c" "e"; InputLineWas "c 2"]
      /\ String.index 0 "c 2" (what e) = None
  | _ => False
  end.
Proof. vm_compute. repeat split. Qed.

(** ** A record without its score *)

Lemma read_body_e (clear allm : bool) (r : Reader) :
  state r = "e"%char \/ state r = "p"%char ->
  read_body clear allm "e" r = read_e clear r.
Proof.
  intros H. unfold read_body, state_is.
  destruct H as [H|H]; rewrite H; reflexivity.
Qed.

(** The name of the new record is read without a look at the state. *)
Lemma read_e_record_state (clear : bool) (q : Reader) (c : ascii) :
  read_e_record clear (set_state q c) = read_e_record clear q.
Proof.
  destruct q as [i pn prn v pi cs st psm prot g pr ce].
  unfold read_e_record. reader_simpl.
  destruct (IStream.get_string i) as [tok is1]. reader_simpl.
  destruct clear.
  - destruct (clean_ret_or_undef (IStream.store pn tok)) as [[res E]|E];
      rewrite E; [|reflexivity]. reader_simpl.
    destruct (StringTable.lookup psm res =? -1).
    + destruct (add _ _ _) as [gl st']. reflexivity.
    + reflexivity.
  - reader_simpl.
    destruct (StringTable.lookup psm (IStream.store pn tok) =? -1).
    + destruct (add _ _ _) as [gl st']. reflexivity.
    + reflexivity.
Qed.

(** C4, as amended: when a new [e] directive comes while the score of the
    current peptide is pending (state [p]), [read] writes a warning; if no
    score value is stored yet (the local still holds its initial -10) it
    writes an error line and raises a FormatException; otherwise it raises
    nothing there and goes on as an [e] directive does in state [e], the
    names, the edges and the input being what they were. At the end of the
    input nothing is checked: with a score pending or not, the loop ends
    without a line on [cerr] and without an exception. *)
Theorem pending_score_handling (clear allm : bool) (r : Reader) :
  state r = "p"%char ->
  (PrimFloat.eqb (value r) (-10) = true ->
   read_body clear allm "e" r
   = Raised FormatException
            (print (print r (WarnNoScore (pepName r) (value r))) ErrNoPrevious))
  /\ (PrimFloat.eqb (value r) (-10) = false ->
      exists r1,
        state r1 = "e"%char
        /\ cerr r1 = cerr r ++ [WarnNoScore (pepName r) (value r)]
        /\ is_ r1 = is_ r /\ pepName r1 = pepName r
        /\ PSMNames r1 = PSMNames r /\ proteinNames r1 = proteinNames r
        /\ associations (PSMsToProteins (this r1)) = associations (PSMsToProteins (this r))
        /\ proteinsToPSMs (this r1) = proteinsToPSMs (this r)
        /\ read_body clear allm "e" r = read_body clear allm "e" r1)
  /\ (forall fuel is1,
         IStream.get_char (is_ r) = (IStream.Untouched, is1) ->
         read_loop clear allm (S fuel) r = Normal (set_is r is1)).
Proof.
  intros Hp. split; [|split].
  - intros Hv. rewrite read_body_e by auto.
    unfold read_e. rewrite Hp. change (Ascii.eqb "p" "p") with true. cbv iota.
    unfold read_e_pending. simpl value. rewrite Hv. reflexivity.
  - intros Hv.
    exists (set_state
              (set_pep_weight
                 (set_value (print r (WarnNoScore (pepName r) (value r))) (-1))
                 (max_ (-1)
                       (pep_weight (set_value (print r (WarnNoScore (pepName r) (value r)))
                                              (-1)))))
              "e").
    repeat split.
    rewrite !read_body_e by (simpl; auto).
    unfold read_e. rewrite Hp. change (Ascii.eqb "p" "p") with true. cbv iota.
    unfold read_e_pending. cbn [value print]. rewrite Hv.
    cbn [state set_state]. change (Ascii.eqb "e" "p") with false. cbv iota.
    cbn [andThen]. symmetry. apply read_e_record_state.
  - intros fuel is1 H. apply read_loop_end, H.
Qed.

(** A reader in state [p] that holds the score 0.9 of an earlier record:
    the one the loop is in after [e AB c 2 r P1 p 0.9 e CD c 1 r P2]. *)
Lemma pending_score_handling_witness :
  exists r1,
    cerr r1 = [WarnNoScore "CD" 0.9]
    /\ read_body true false "e"
         (mkReader (IStream.mk " e EF" false) "CD" "P2" 0.9 1 1 "p"
                   ["AB"; "CD"]%string ["P1"; "P2"]%string
                   (mkGraph (mkLayer [] [[0]; [1]] [0.9; -1]%float [-1; -1] [] [2; 1])
                            (mkLayer [] [[0]; [1]] [-1; -1]%float [-1; -1] [] [-1; -1])
                            0 0.5 [] 0)
                   [] [])
       = read_body true false "e" r1.
Proof.
  destruct (pending_score_handling true false
              (mkReader (IStream.mk " e EF" false) "CD" "P2" 0.9 1 1 "p"
                        ["AB"; "CD"]%string ["P1"; "P2"]%string
                        (mkGraph (mkLayer [] [[0]; [1]] [0.9; -1]%float [-1; -1] [] [2; 1])
                                 (mkLayer [] [[0]; [1]] [-1; -1]%float [-1; -1] [] [-1; -1])
                                 0 0.5 [] 0)
                        [] []) eq_refl) as [_ [H _]].
  destruct (H eq_refl) as [r1 [_ [Hc [_ [_ [_ [_ [_ [_ Hb]]]]]]]]].
  exists r1. split; [exact Hc|exact Hb].
Defined.

(** The claim C4 as it stands fails at the end of the input: the record
    [e AB c 2 r P1] has no score and none was read before, and [read]
    returns without an exception and without a line on [cerr]. *)
Lemma pending_score_at_end_of_input :
  match read true false (freshGraph 0 0.5) "e AB c 2 r P1" with
  | Normal r =>
      cerr r = [] /\ state r = "p"%char /\ PrimFloat.eqb (value r) (-10) = true
  | _ => False
  end.
Proof. vm_compute. repeat split. Qed.

(** ** The score directive under the all-matches policy *)

Lemma read_body_p (clear allm : bool) (r : Reader) :
  state r = "p"%char -> read_body clear allm "p" r = read_p allm r.
Proof. intros H. unfold read_body, state_is. rewrite H. reflexivity. Qed.

(** C6: under the all-matches policy a [p] directive that delivers the
    score [v] to a peptide of stored weight [w] stores [v] when [w] is the
    sentinel -1 and [1 - (1 - w) * (1 - v)] otherwise; and two [p]
    directives with the scores 0.5 and 0.4 for one peptide name leave the
    weight 0.7 when the input is read, which is also the weight of the
    graph that [read] returns when the pseudo-count floor does not exceed
    0.7. *)
Theorem noisy_or_combination :
  (forall (clear : bool) (r : Reader) (v : float) (is1 : IStream.t),
      state r = "p"%char ->
      IStream.get_double (is_ r) = (IStream.Got v, is1) ->
      Arr.inb (weights (PSMsToProteins (this r))) (pepIndex r) = true ->
      exists r',
        read_body clear true "p" r = Normal r'
        /\ state r' = "e"%char /\ pepIndex r' = pepIndex r
        /\ pep_weight r'
           = if PrimFloat.eqb (pep_weight r) (-1) then v
             else (1 - (1 - pep_weight r) * (1 - v))%float)
  /\ (forall (clear : bool) (g : BasicBigraph),
         fresh g ->
         exists r0 w0,
           read_loop clear true (S (String.length twoScores))
                     (read_init g (IStream.of_string twoScores)) = Normal r0
           /\ weights (PSMsToProteins (this r0)) = [w0]
           /\ w0 = 0.7%float
           /\ (PrimFloat.ltb 0.7 (PeptideThreshold g) = false ->
               exists r w,
                 read clear true g twoScores = Normal r
                 /\ names (PSMsToProteins (this r)) = ["PEP"%string]
                 /\ weights (PSMsToProteins (this r)) = [w]
                 /\ w = 0.7%float)).
Proof.
  split.
  - intros clear r v is1 Hp Hget Hin.
    rewrite read_body_p by exact Hp. unfold read_p. rewrite Hget.
    cbv zeta. reader_simpl. cbn [negb IStream.store]. cbv iota.
    destruct (PrimFloat.eqb (weight (PSMsToProteins (this r)) (pepIndex r)) (-1)) eqn:E.
    + eexists. split; [reflexivity|]. reader_simpl. repeat split.
      cbn [PSMsToProteins with_PSMs with_chargeStates set_weight with_weights weights].
      unfold weight. cbn [weights]. apply get_set_same, Hin.
    + eexists. split; [reflexivity|]. reader_simpl. repeat split.
      cbn [PSMsToProteins with_PSMs with_chargeStates set_weight with_weights weights].
      unfold weight. cbn [weights]. apply get_set_same, Hin.
  - intros clear [psm prot pt thr sev nc] [Hpsm Hprot].
    simpl in Hpsm, Hprot. subst psm prot.
    unfold read.
    assert (Hloop :
              read_loop clear true (S (String.length twoScores))
                        (read_init (mkGraph emptyLayer emptyLayer pt thr sev nc)
                                   (IStream.of_string twoScores))
              = Normal (mkReader (IStream.mk "" true) "PEP" "PROT" 0.4 0 2 "e"
                                 ["PEP"%string] ["PROT"%string]
                                 (mkGraph (mkLayer [] [[0]] [0.7]%float [-1] [] [2])
                                          (mkLayer [] [[0]] [-1]%float [-1] [] [-1])
                                          pt thr sev nc)
                                 [] [])).
    { destruct clear; vm_compute; reflexivity. }
    rewrite Hloop. eexists. eexists. split; [reflexivity|].
    split; [reflexivity|]. split; [reflexivity|].
    intros Hthr. simpl in Hthr.
    cbn [andThen]. unfold read_finish. reader_simpl.
    unfold pseudoCountPSMs, for_, layer_size. simpl.
    unfold weight, Arr.get. simpl.
    rewrite Hthr. eexists. eexists. split; [reflexivity|]. simpl. repeat split.
Qed.

Lemma noisy_or_combination_witness :
  (exists r',
      read_body true true "p"
                (mkReader (IStream.mk " 0.4" false) "PEP" "PROT" 0.5 0 2 "p"
                          ["PEP"%string] ["PROT"%string]
                          (mkGraph (mkLayer [] [[0]] [0.5]%float [-1] [] [2])
                                   (mkLayer [] [[0]] [-1]%float [-1] [] [-1])
                                   0 0.5 [] 0)
                          [] [])
      = Normal r'
      /\ pep_weight r' = (1 - (1 - 0.5) * (1 - 0.4))%float)
  /\ (exists r w,
         read true true (freshGraph 0 0.5) twoScores = Normal r
         /\ weights (PSMsToProteins (this r)) = [w] /\ w = 0.7%float).
Proof.
  split.
  - destruct (proj1 noisy_or_combination true
                (mkReader (IStream.mk " 0.4" false) "PEP" "PROT" 0.5 0 2 "p"
                          ["PEP"%string] ["PROT"%string]
                          (mkGraph (mkLayer [] [[0]] [0.5]%float [-1] [] [2])
                                   (mkLayer [] [[0]] [-1]%float [-1] [] [-1])
                                   0 0.5 [] 0)
                          [] [])
                0.4%float (IStream.mk "" false) eq_refl eq_refl eq_refl)
      as [r' [H [_ [_ Hw]]]].
    exists r'. split; [exact H|exact Hw].
  - destruct (proj2 noisy_or_combination true
                (freshGraph 0 0.5)
                (conj eq_refl eq_refl)) as [r0 [w0 [_ [_ [_ Hread]]]]].
    destruct Hread as [r [w [H [_ [Hw H7]]]]].
    + reflexivity.
    + exists r, w. repeat split; assumption.
Defined.

(** ** Sets *)

Lemma In_add (s : IntSet.t) (v x : Z) :
  In x (IntSet.add s v) <-> x = v \/ In x s.
Proof.
  induction s as [|y s IH]; simpl.
  - intuition.
  - destruct (v <? y); [simpl; intuition|].
    destruct (v =? y) eqn:E.
    + apply Z.eqb_eq in E. subst. simpl. intuition.
    + simpl. rewrite IH. intuition.
Qed.

Lemma In_union (a b : IntSet.t) (x : Z) :
  In x (IntSet.union a b) <-> In x a \/ In x b.
Proof.
  unfold IntSet.union. revert a.
  induction b as [|y b IH]; intros a; simpl.
  - intuition.
  - rewrite IH, In_add. intuition.
Qed.

Lemma mem_In (v : Z) (s : IntSet.t) : IntSet.mem v s = true <-> In v s.
Proof.
  unfold IntSet.mem. rewrite existsb_exists. split.
  - intros [x [Hx E]]. apply Z.eqb_eq in E. subst. exact Hx.
  - intros H. exists v. split; [exact H|apply Z.eqb_refl].
Qed.

Lemma In_without (a b : IntSet.t) (x : Z) :
  In x (IntSet.without a b) <-> In x a /\ ~ In x b.
Proof.
  unfold IntSet.without. rewrite filter_In, negb_true_iff.
  split.
  - intros [Ha Hb]. split; [exact Ha|]. intros Hin. apply mem_In in Hin. congruence.
  - intros [Ha Hb]. split; [exact Ha|].
    destruct (IntSet.mem x b) eqn:E; [|reflexivity].
    apply mem_In in E. contradiction.
Qed.

Lemma ascending_add (s : IntSet.t) (v : Z) : ascending s -> ascending (IntSet.add s v).
Proof.
  unfold ascending. induction s as [|y s IH]; intros H; simpl.
  - repeat constructor.
  - inversion H as [|? ? Hs Hall]; subst.
    destruct (v <? y) eqn:L.
    + apply Z.ltb_lt in L. constructor; [exact H|].
      constructor; [exact L|].
      rewrite Forall_forall in *. intros z Hz. specialize (Hall z Hz). lia.
    + destruct (v =? y) eqn:E; [exact H|].
      apply Z.ltb_ge in L. apply Z.eqb_neq in E.
      constructor; [apply IH, Hs|].
      rewrite Forall_forall in *. intros z Hz.
      apply In_add in Hz. destruct Hz as [->|Hz]; [lia|apply Hall, Hz].
Qed.

Lemma ascending_NoDup (s : IntSet.t) : ascending s -> NoDup s.
Proof.
  unfold ascending. induction 1 as [|y s Hs IH Hall]; constructor; [|exact IH].
  intros Hin. rewrite Forall_forall in Hall. specialize (Hall y Hin). lia.
Qed.

Lemma find_from_range (s : IntSet.t) (v pos : Z) :
  IntSet.find_from s v pos = -1 \/
  pos <= IntSet.find_from s v pos < pos + Arr.size s.
Proof.
  revert pos. induction s as [|y s IH]; intros pos; simpl; [left; reflexivity|].
  unfold Arr.size. simpl List.length.
  destruct (v =? y); [right; lia|].
  destruct (IH (pos + 1)) as [H|H]; [left; exact H|right].
  unfold Arr.size in H. lia.
Qed.

Lemma find_from_In (s : IntSet.t) (v pos : Z) :
  0 <= pos -> (IntSet.find_from s v pos <> -1 <-> In v s).
Proof.
  revert pos. induction s as [|y s IH]; intros pos Hpos; simpl.
  - intuition.
  - destruct (v =? y) eqn:E.
    + apply Z.eqb_eq in E. subst. split; [auto|]. intros _. lia.
    + apply Z.eqb_neq in E. rewrite IH by lia. intuition congruence.
Qed.

Lemma find_from_nth (s : IntSet.t) (v pos : Z) :
  0 <= pos -> IntSet.find_from s v pos <> -1 ->
  nth (Z.to_nat (IntSet.find_from s v pos - pos)) s 0 = v.
Proof.
  revert pos. induction s as [|y s IH]; intros pos Hpos; simpl; [congruence|].
  destruct (v =? y) eqn:E.
  - apply Z.eqb_eq in E. subst. intros _. rewrite Z.sub_diag. reflexivity.
  - intros H. specialize (IH (pos + 1) ltac:(lia) H).
    destruct (find_from_range s v (pos + 1)) as [Hr|Hr]; [congruence|].
    replace (Z.to_nat (IntSet.find_from s v (pos + 1) - pos))
      with (S (Z.to_nat (IntSet.find_from s v (pos + 1) - (pos + 1)))) by lia.
    exact IH.
Qed.

Lemma find_from_first (s : IntSet.t) (n : nat) (pos : Z) :
  NoDup s -> (n < List.length s)%nat ->
  IntSet.find_from s (nth n s 0) pos = pos + Z.of_nat n.
Proof.
  revert n pos. induction s as [|y s IH]; intros n pos Hnd Hn; simpl in *; [lia|].
  inversion Hnd as [|? ? Hy Hs]; subst.
  destruct n as [|n].
  - rewrite Z.eqb_refl. lia.
  - destruct (nth n s 0 =? y) eqn:E.
    + apply Z.eqb_eq in E. exfalso. apply Hy. rewrite <- E. apply nth_In. lia.
    + rewrite IH by (auto; lia). lia.
Qed.

(** [find] gives a position of the member, -1 for what is no member. *)
Lemma find_In (s : IntSet.t) (v : Z) : IntSet.find s v <> -1 <-> In v s.
Proof. apply find_from_In. lia. Qed.

Lemma find_range (s : IntSet.t) (v : Z) :
  In v s -> 0 <= IntSet.find s v < Arr.size s.
Proof.
  intros H. apply find_In in H. unfold IntSet.find in *.
  destruct (find_from_range s v 0); [congruence|lia].
Qed.

Lemma nth_find (s : IntSet.t) (v : Z) :
  In v s -> IntSet.nth_ s (IntSet.find s v) = v.
Proof.
  intros H. pose proof (find_range s v H) as Hr. apply find_In in H.
  unfold IntSet.nth_, Arr.get.
  replace (Arr.inb s (IntSet.find s v)) with true by (symmetry; apply inb_iff; exact Hr).
  unfold IntSet.find in *.
  pose proof (find_from_nth s v 0 ltac:(lia) H) as Hn.
  rewrite Z.sub_0_r in Hn. exact Hn.
Qed.

Lemma find_nth (s : IntSet.t) (k : Z) :
  NoDup s -> 0 <= k < Arr.size s -> IntSet.find s (IntSet.nth_ s k) = k.
Proof.
  intros Hnd Hk. unfold IntSet.nth_, Arr.get.
  replace (Arr.inb s k) with true by (symmetry; apply inb_iff; exact Hk).
  unfold IntSet.find. rewrite find_from_first; [lia|exact Hnd|].
  unfold Arr.size in Hk. lia.
Qed.

Lemma nth_In_set (s : IntSet.t) (k : Z) :
  0 <= k < Arr.size s -> In (IntSet.nth_ s k) s.
Proof.
  intros Hk. unfold IntSet.nth_, Arr.get.
  replace (Arr.inb s k) with true by (symmetry; apply inb_iff; exact Hk).
  apply nth_In. unfold Arr.size in Hk. lia.
Qed.

Lemma In_reindexToFind (s universe : IntSet.t) (y : Z) :
  In y (IntSet.reindexToFind s universe)
  <-> exists x, In x s /\ In x universe /\ IntSet.find universe x = y.
Proof.
  unfold IntSet.reindexToFind.
  assert (G : forall acc,
             In y (fold_left (fun acc v =>
                                let ind := IntSet.find universe v in
                                if ind =? -1 then acc else IntSet.add acc ind) s acc)
             <-> In y acc \/
                 exists x, In x s /\ In x universe /\ IntSet.find universe x = y).
  { induction s as [|a s IH]; intros acc; simpl.
    - split; [auto|]. intros [H|[x [[] _]]]. exact H.
    - rewrite IH. cbv zeta.
      destruct (IntSet.find universe a =? -1) eqn:E.
      + apply Z.eqb_eq in E. split.
        * intros [H|[x [Hx H]]]; [auto|]. right. exists x. tauto.
        * intros [H|[x [[->|Hx] [Hu H]]]]; [auto| |right; exists x; tauto].
          apply find_In in Hu. congruence.
      + apply Z.eqb_neq in E. rewrite In_add. split.
        * intros [[->|H]|[x [Hx H]]]; [|auto|right; exists x; tauto].
          right. exists a. split; [auto|]. split; [apply find_In, E|reflexivity].
        * intros [H|[x [[->|Hx] [Hu H]]]]; [auto| |right; exists x; tauto].
          left. left. congruence. }
  rewrite G. simpl. intuition.
Qed.

(** ** Edges *)

Lemma association_set (gl : GraphLayer) (k j : Z) (s : IntSet.t) :
  association (set_association gl k s) j
  = if Arr.inb (associations gl) k && (j =? k) then s else association gl j.
Proof. unfold association, set_association. simpl. apply get_set. Qed.

Lemma association_outside (gl : GraphLayer) (k : Z) :
  Arr.inb (associations gl) k = false -> association gl k = [].
Proof. intros H. unfold association. apply get_outside, H. Qed.

Lemma association_inb (gl : GraphLayer) (k x : Z) :
  In x (association gl k) -> Arr.inb (associations gl) k = true.
Proof.
  intros H. destruct (Arr.inb (associations gl) k) eqn:E; [reflexivity|].
  rewrite association_outside in H by exact E. destruct H.
Qed.

Lemma In_join (gl : GraphLayer) (k v j x : Z) :
  In x (association (join gl k v) j)
  <-> In x (association gl j) \/ (Arr.inb (associations gl) k = true /\ j = k /\ x = v).
Proof.
  unfold join. rewrite association_set.
  destruct (Arr.inb (associations gl) k) eqn:Hk; cbn [andb].
  - destruct (j =? k) eqn:E.
    + apply Z.eqb_eq in E. subst j. rewrite In_union.
      unfold IntSet.SingletonSet. simpl. intuition.
    + apply Z.eqb_neq in E. intuition.
  - intuition congruence.
Qed.

Lemma In_sever (gl : GraphLayer) (k v j x : Z) :
  In x (association (sever gl k v) j)
  <-> In x (association gl j) /\ ~ (j = k /\ x = v).
Proof.
  unfold sever. rewrite association_set.
  destruct (Arr.inb (associations gl) k) eqn:Hk; cbn [andb].
  - destruct (j =? k) eqn:E.
    + apply Z.eqb_eq in E. subst j. rewrite In_without.
      unfold IntSet.SingletonSet. simpl. intuition.
    + apply Z.eqb_neq in E. intuition.
  - split; [|tauto]. intros H. split; [exact H|]. intros [-> _].
    rewrite association_outside in H by exact Hk. destruct H.
Qed.

Lemma sized_set_association (gl : GraphLayer) (k : Z) (s : IntSet.t) :
  sized (set_association gl k s) <-> sized gl.
Proof. unfold sized, set_association. simpl. rewrite length_set. tauto. Qed.

Lemma symmetric_swap (g : BasicBigraph) : symmetric (swap g) <-> symmetric g.
Proof.
  unfold symmetric, swap. simpl. split; intros H p r; symmetry; apply H.
Qed.

Lemma symmetric_inb (g : BasicBigraph) (p r : Z) :
  symmetric g -> In r (association (PSMsToProteins g) p) ->
  Arr.inb (associations (PSMsToProteins g)) p = true
  /\ Arr.inb (associations (proteinsToPSMs g)) r = true.
Proof.
  intros Hs H. split; [eapply association_inb, H|].
  apply Hs in H. eapply association_inb, H.
Qed.

Lemma connect_symmetric (pepNames : StringTable.t) (pepName : string)
      (proteinNames : StringTable.t) (protName : string) (g : BasicBigraph) :
  Arr.inb (associations (PSMsToProteins g)) (StringTable.lookup pepNames pepName) = true ->
  Arr.inb (associations (proteinsToPSMs g)) (StringTable.lookup proteinNames protName) = true ->
  symmetric g -> symmetric (connect pepNames pepName proteinNames protName g).
Proof.
  intros Hp Hr Hs p r. unfold connect. simpl.
  rewrite !In_join, Hp, Hr. rewrite (Hs p r). intuition.
Qed.

Lemma connect_frame (pepNames : StringTable.t) (pepName : string)
      (proteinNames : StringTable.t) (protName : string) (g : BasicBigraph) :
  let g' := connect pepNames pepName proteinNames protName g in
  names (PSMsToProteins g') = names (PSMsToProteins g)
  /\ names (proteinsToPSMs g') = names (proteinsToPSMs g)
  /\ List.length (associations (PSMsToProteins g')) = List.length (associations (PSMsToProteins g))
  /\ List.length (associations (proteinsToPSMs g')) = List.length (associations (proteinsToPSMs g))
  /\ weights (PSMsToProteins g') = weights (PSMsToProteins g)
  /\ PeptideThreshold g' = PeptideThreshold g.
Proof.
  unfold connect, join, set_association. simpl. rewrite !length_set. repeat split.
Qed.

(** The loop of a disconnection: [k] leaves the sets of the nodes of [l]. *)
Lemma sever_all (k : Z) (l : list Z) (g : BasicBigraph) :
  let g' := fold_left (fun g it => with_proteins g (sever (proteinsToPSMs g) it k)) l g in
  PSMsToProteins g' = PSMsToProteins g
  /\ names (proteinsToPSMs g') = names (proteinsToPSMs g)
  /\ List.length (associations (proteinsToPSMs g'))
     = List.length (associations (proteinsToPSMs g))
  /\ (forall r x, In x (association (proteinsToPSMs g') r)
                  <-> In x (association (proteinsToPSMs g) r) /\ ~ (In r l /\ x = k)).
Proof.
  revert g. induction l as [|a l IH]; intros g; simpl.
  - repeat split; tauto.
  - specialize (IH (with_proteins g (sever (proteinsToPSMs g) a k))).
    simpl in IH. destruct IH as [H1 [H2 [H3 H4]]].
    split; [exact H1|]. split; [exact H2|].
    split; [rewrite H3; unfold sever, set_association; simpl; apply length_set|].
    intros r x. rewrite H4, In_sever. intuition.
Qed.

Lemma disconnectPSM_symmetric (k : Z) (g : BasicBigraph) :
  symmetric g -> symmetric (disconnectPSM k g).
Proof.
  intros Hs p r. unfold disconnectPSM.
  pose proof (sever_all k (association (PSMsToProteins g) k) g) as H.
  cbv zeta in H. destruct H as [H1 [_ [_ H4]]].
  simpl. rewrite H4, H1, association_set.
  destruct (Arr.inb (associations (PSMsToProteins g)) k) eqn:Hk; simpl.
  - destruct (p =? k) eqn:E.
    + apply Z.eqb_eq in E. subst p. rewrite <- (Hs k r). simpl. tauto.
    + apply Z.eqb_neq in E. rewrite (Hs p r). intuition.
  - rewrite (Hs p r). rewrite (association_outside _ _ Hk). simpl. tauto.
Qed.

Lemma disconnectPSM_frame (k : Z) (g : BasicBigraph) :
  let g' := disconnectPSM k g in
  names (PSMsToProteins g') = names (PSMsToProteins g)
  /\ names (proteinsToPSMs g') = names (proteinsToPSMs g)
  /\ List.length (associations (PSMsToProteins g')) = List.length (associations (PSMsToProteins g))
  /\ List.length (associations (proteinsToPSMs g')) = List.length (associations (proteinsToPSMs g)).
Proof.
  unfold disconnectPSM.
  pose proof (sever_all k (association (PSMsToProteins g) k) g) as H.
  cbv zeta in *. destruct H as [H1 [H2 [H3 _]]].
  simpl. rewrite H1. unfold set_association. simpl. rewrite length_set. auto.
Qed.

Lemma swap_sever_all (k : Z) (l : list Z) (g : BasicBigraph) :
  fold_left (fun g it => with_PSMs g (sever (PSMsToProteins g) it k)) l g
  = swap (fold_left (fun g it => with_proteins g (sever (proteinsToPSMs g) it k)) l (swap g)).
Proof.
  revert g. induction l as [|a l IH]; intros g; simpl.
  - destruct g; reflexivity.
  - rewrite IH. reflexivity.
Qed.

Lemma disconnectProtein_swap (k : Z) (g : BasicBigraph) :
  disconnectProtein k g = swap (disconnectPSM k (swap g)).
Proof.
  unfold disconnectProtein, disconnectPSM. rewrite swap_sever_all. reflexivity.
Qed.

Lemma disconnectProtein_symmetric (k : Z) (g : BasicBigraph) :
  symmetric g -> symmetric (disconnectProtein k g).
Proof.
  intros Hs. rewrite disconnectProtein_swap.
  apply symmetric_swap, disconnectPSM_symmetric, symmetric_swap, Hs.
Qed.

Lemma disconnectProtein_frame (k : Z) (g : BasicBigraph) :
  let g' := disconnectProtein k g in
  names (PSMsToProteins g') = names (PSMsToProteins g)
  /\ names (proteinsToPSMs g') = names (proteinsToPSMs g)
  /\ List.length (associations (PSMsToProteins g')) = List.length (associations (PSMsToProteins g))
  /\ List.length (associations (proteinsToPSMs g')) = List.length (associations (proteinsToPSMs g)).
Proof.
  cbv zeta. rewrite disconnectProtein_swap.
  destruct (disconnectPSM_frame k (swap g)) as [H1 [H2 [H3 H4]]].
  simpl in *. auto.
Qed.

(** ** Name tables *)

Lemma lookup_from_range (st : StringTable.t) (name : string) (pos : Z) :
  StringTable.lookup_from st name pos = -1 \/
  pos <= StringTable.lookup_from st name pos < pos + Arr.size st.
Proof.
  revert pos. induction st as [|y st IH]; intros pos; simpl; [left; reflexivity|].
  unfold Arr.size. simpl List.length.
  destruct (String.eqb name y); [right; lia|].
  destruct (IH (pos + 1)) as [H|H]; [left; exact H|right].
  unfold Arr.size in H. lia.
Qed.

Lemma lookup_from_In (st : StringTable.t) (name : string) (pos : Z) :
  0 <= pos -> (StringTable.lookup_from st name pos <> -1 <-> In name st).
Proof.
  revert pos. induction st as [|y st IH]; intros pos Hpos; simpl.
  - intuition.
  - destruct (String.eqb name y) eqn:E.
    + apply String.eqb_eq in E. subst. split; [auto|]. intros _. lia.
    + apply String.eqb_neq in E. rewrite IH by lia. intuition congruence.
Qed.

Lemma lookup_In (st : StringTable.t) (name : string) :
  StringTable.lookup st name <> -1 <-> In name st.
Proof. apply lookup_from_In. lia. Qed.

Lemma lookup_range (st : StringTable.t) (name : string) :
  In name st -> 0 <= StringTable.lookup st name < Arr.size st.
Proof.
  intros H. apply lookup_In in H. unfold StringTable.lookup in *.
  destruct (lookup_from_range st name 0); [congruence|lia].
Qed.

Lemma lookup_missing (st : StringTable.t) (name : string) :
  (StringTable.lookup st name =? -1) = true -> ~ In name st.
Proof.
  intros H Hin. apply Z.eqb_eq in H. apply lookup_In in Hin. congruence.
Qed.

Lemma lookup_present (st : StringTable.t) (name : string) :
  (StringTable.lookup st name =? -1) = false -> In name st.
Proof. intros H. apply lookup_In. apply Z.eqb_neq in H. exact H. Qed.

(** ** Nodes *)

Lemma association_add_empty (l : list IntSet.t) (k : Z) :
  Arr.get IntSet.empty (Arr.add l IntSet.empty) k = Arr.get IntSet.empty l k.
Proof.
  rewrite get_add. destruct (k =? Arr.size l) eqn:E; [|reflexivity].
  apply Z.eqb_eq in E. subst k. symmetry. apply get_outside.
  apply inb_false_iff. lia.
Qed.

Lemma symmetric_ext (g g' : BasicBigraph) :
  (forall k, association (PSMsToProteins g') k = association (PSMsToProteins g) k) ->
  (forall k, association (proteinsToPSMs g') k = association (proteinsToPSMs g) k) ->
  symmetric g -> symmetric g'.
Proof.
  intros H1 H2 Hs p r. rewrite H1, H2. apply Hs.
Qed.

(** What [add] does to a layer and its table. *)
Lemma add_spec (gl gl' : GraphLayer) (st st' : StringTable.t) (item : string) :
  add gl st item = (gl', st') ->
  (forall k, association gl' k = association gl k)
  /\ names gl' = names gl
  /\ In item st'
  /\ (forall x, In x st -> In x st')
  /\ (NoDup st -> NoDup st')
  /\ (List.length (associations gl) = List.length st ->
      List.length (associations gl') = List.length st')
  /\ (List.length (weights gl) = List.length st ->
      List.length (weights gl') = List.length st').
Proof.
  unfold add. destruct (StringTable.lookup st item =? -1) eqn:E; intros H;
    injection H as <- <-.
  - pose proof (lookup_missing _ _ E) as Hno.
    unfold StringTable.add, Arr.add, association. simpl.
    split; [intros k; apply association_add_empty|].
    split; [reflexivity|].
    split; [apply in_or_app; right; left; reflexivity|].
    split; [intros x Hx; apply in_or_app; left; exact Hx|].
    split.
    + intros Hnd. apply NoDup_app; [exact Hnd|repeat constructor; intros []|].
      intros x Hx [<-|[]]. contradiction.
    + rewrite !length_app. simpl. split; intros ->; reflexivity.
  - pose proof (lookup_present _ _ E) as Hin. repeat split; auto.
Qed.

(** ** The invariant of the loop of read *)

Lemma association_emptyLayer (k : Z) : association emptyLayer k = [].
Proof.
  apply association_outside. apply inb_false_iff. unfold Arr.size. simpl. lia.
Qed.

Lemma fresh_symmetric (g : BasicBigraph) : fresh g -> symmetric g.
Proof.
  intros [Hp Hr] p r. rewrite Hp, Hr, !association_emptyLayer. tauto.
Qed.

Lemma read_inv_init (g : BasicBigraph) (ins : IStream.t) :
  fresh g -> read_inv (read_init g ins).
Proof.
  intros Hf. pose proof (fresh_symmetric g Hf) as Hs. destruct Hf as [Hp Hr].
  unfold read_inv, read_init. reader_simpl. rewrite Hp, Hr. simpl.
  split; [exact Hs|]. repeat split; try constructor; auto.
Qed.

Lemma read_d_inv (r r' : Reader) :
  read_d r = Normal r' -> read_inv r -> read_inv r'.
Proof.
  unfold read_d. destruct (IStream.get_int (is_ r)) as [charge is1].
  destruct (IStream.get_double is1) as [prior is2].
  destruct charge, prior; intros H; try discriminate; injection H as <-; auto.
Qed.

Lemma read_e_pending_inv (r r' : Reader) :
  read_e_pending r = Normal r' -> read_inv r -> read_inv r'.
Proof.
  unfold read_e_pending. reader_simpl.
  destruct (PrimFloat.eqb (value r) (-10)); intros H; [discriminate|].
  injection H as <-. intros [Hs [H1 [H2 [H3 [H4 [H5 H6]]]]]].
  unfold read_inv. reader_simpl. simpl. rewrite length_set. repeat split; auto.
  - apply Hs.
  - apply Hs.
Qed.

Lemma read_e_record_inv (clear : bool) (r r' : Reader) :
  read_e_record clear r = Normal r' -> read_inv r -> read_inv r'.
Proof.
  unfold read_e_record.
  destruct (IStream.get_string (is_ r)) as [tok is1]. reader_simpl.
  set (name0 := IStream.store (pepName r) tok).
  assert (G : forall name,
             (let q := set_pepName (set_is r is1) name in
              let q := if StringTable.lookup (PSMNames q) (pepName q) =? -1 then
                         let '(gl, st) := add (PSMsToProteins (this q)) (PSMNames q) (pepName q) in
                         set_PSMNames (set_this q (with_PSMs (this q) gl)) st
                       else q in
              let q := set_pepIndex q (StringTable.lookup (PSMNames q) (pepName q)) in
              Normal (set_state q "c")) = Normal r' ->
             read_inv r -> read_inv r').
  { intros name. cbv zeta. reader_simpl.
    intros H [Hs [H1 [H2 [H3 [H4 [H5 H6]]]]]].
    destruct (StringTable.lookup (PSMNames r) name =? -1) eqn:E.
    - destruct (add (PSMsToProteins (this r)) (PSMNames r) name) as [gl st] eqn:A.
      reader_simpl. injection H as <-.
      destruct (add_spec _ _ _ _ _ A) as [Ha [_ [Hin [_ [Hnd [Hl Hw]]]]]].
      unfold read_inv. reader_simpl. simpl.
      split; [|repeat split; auto].
      apply (symmetric_ext (this r)); auto.
    - reader_simpl. injection H as <-. unfold read_inv. reader_simpl.
      repeat split; auto; try apply Hs.
      right. apply lookup_present, E. }
  destruct clear.
  - destruct (cleanPeptideSequence name0) as [res| | |]; try discriminate.
    reader_simpl. apply (G res).
  - reader_simpl. apply (G name0).
Qed.

Lemma read_e_inv (clear : bool) (r r' : Reader) :
  read_e clear r = Normal r' -> read_inv r -> read_inv r'.
Proof.
  unfold read_e. destruct (Ascii.eqb (state r) "p").
  - destruct (read_e_pending r) as [r1| | |] eqn:E; try discriminate.
    cbn [andThen]. intros H Hi. apply (read_e_record_inv clear r1); [exact H|].
    apply (read_e_pending_inv r r1 E Hi).
  - cbn [andThen]. apply read_e_record_inv.
Qed.

Lemma read_c_inv (r r' : Reader) :
  read_c r = Normal r' -> state r <> "e"%char -> read_inv r -> read_inv r'.
Proof.
  unfold read_c. destruct (IStream.get_int (is_ r)) as [n is1]. cbv zeta.
  reader_simpl. intros H Hst [Hs [H1 [H2 [H3 [H4 [H5 H6]]]]]]. injection H as <-.
  unfold read_inv. reader_simpl. simpl.
  repeat split; auto; try apply Hs. right. tauto.
Qed.

Lemma read_r_inv (r r' : Reader) :
  read_r r = Normal r' -> state r <> "e"%char -> read_inv r -> read_inv r'.
Proof.
  unfold read_r. destruct (IStream.get_string (is_ r)) as [tok is1]. cbv zeta.
  reader_simpl. set (name := IStream.store (protName r) tok).
  intros H Hst [Hs [H1 [H2 [H3 [H4 [H5 H6]]]]]].
  assert (Hpep : In (pepName r) (PSMNames r)) by tauto.
  assert (G : forall q : Reader,
             symmetric (this q) ->
             List.length (associations (PSMsToProteins (this q))) = List.length (PSMNames q) ->
             List.length (weights (PSMsToProteins (this q))) = List.length (PSMNames q) ->
             List.length (associations (proteinsToPSMs (this q))) = List.length (proteinNames q) ->
             NoDup (PSMNames q) -> NoDup (proteinNames q) ->
             In (pepName q) (PSMNames q) -> In name (proteinNames q) ->
             read_inv (set_state
                         (set_this q (connect (PSMNames q) (pepName q) (proteinNames q)
                                              name (this q))) "p")).
  { intros q Gs G1 G2 G3 G4 G5 G6 G7.
    pose proof (connect_frame (PSMNames q) (pepName q) (proteinNames q) name (this q)) as F.
    cbv zeta in F. destruct F as [_ [_ [F1 [F2 [F3 _]]]]].
    unfold read_inv. reader_simpl. rewrite F1, F2, F3.
    split; [|repeat split; auto].
    apply connect_symmetric; [| |exact Gs]; apply inb_iff; unfold Arr.size.
    - rewrite G1. apply lookup_range, G6.
    - rewrite G3. apply lookup_range, G7. }
  destruct (StringTable.lookup (proteinNames r) name =? -1) eqn:E.
  - destruct (add (proteinsToPSMs (this r)) (proteinNames r) name) as [gl st] eqn:A.
    reader_simpl. injection H as <-.
    destruct (add_spec _ _ _ _ _ A) as [Ha [_ [Hin [_ [Hnd [Hl _]]]]]].
    match goal with
    | |- read_inv (set_state (set_this ?q _) _) => apply (G q)
    end; reader_simpl; simpl; auto.
    apply (symmetric_ext (this r)); auto.
  - reader_simpl. injection H as <-.
    match goal with
    | |- read_inv (set_state (set_this ?q _) _) => apply (G q)
    end; reader_simpl; auto.
    apply lookup_present, E.
Qed.

Lemma read_p_inv (allm : bool) (r r' : Reader) :
  read_p allm r = Normal r' -> read_inv r -> read_inv r'.
Proof.
  unfold read_p. destruct (IStream.get_double (is_ r)) as [x is1]. cbv zeta.
  reader_simpl. intros H [Hs [H1 [H2 [H3 [H4 [H5 H6]]]]]]. injection H as <-.
  unfold read_inv.
  destruct (negb allm); [|destruct (PrimFloat.eqb _ _)];
    reader_simpl; simpl; rewrite length_set;
    (repeat split; auto; try apply Hs).
Qed.

Lemma read_comment_inv (r r' : Reader) :
  read_comment r = Normal r' -> read_inv r -> read_inv r'.
Proof.
  unfold read_comment. destruct (IStream.getline (is_ r)) as [l is1].
  intros H. injection H as <-. auto.
Qed.

Lemma read_unexpected_raises (instr : ascii) (r : Reader) :
  exists r', read_unexpected instr r = Raised FormatException r'.
Proof.
  unfold read_unexpected. destruct (IStream.getline _) as [garbage is1].
  eexists. reflexivity.
Qed.

Lemma read_body_inv (clear allm : bool) (instr : ascii) (r r' : Reader) :
  read_body clear allm instr r = Normal r' -> read_inv r -> read_inv r'.
Proof.
  unfold read_body, state_is.
  destruct (Ascii.eqb instr "d"); [apply read_d_inv|].
  destruct (Ascii.eqb instr "e" && _); [apply read_e_inv|].
  destruct (Ascii.eqb instr "c" && _) eqn:Ec.
  { intros H. apply read_c_inv; [exact H|].
    apply andb_true_iff in Ec. destruct Ec as [_ Ec]. apply Ascii.eqb_eq in Ec.
    rewrite Ec. discriminate. }
  destruct (Ascii.eqb instr "r" && _) eqn:Er.
  { intros H. apply read_r_inv; [exact H|].
    apply andb_true_iff in Er. destruct Er as [_ Er].
    apply orb_true_iff in Er. destruct Er as [Er|Er];
      [apply orb_true_iff in Er; destruct Er as [Er|Er]|];
      apply Ascii.eqb_eq in Er; rewrite Er; discriminate. }
  destruct (Ascii.eqb instr "p" && _); [apply read_p_inv|].
  destruct (Ascii.eqb instr "#"); [apply read_comment_inv|].
  destruct (read_unexpected_raises instr r) as [q ->]. discriminate.
Qed.

Lemma read_loop_inv (clear allm : bool) (fuel : nat) (r r' : Reader) :
  read_loop clear allm fuel r = Normal r' -> read_inv r -> read_inv r'.
Proof.
  revert r. induction fuel as [|fuel IH]; intros r; simpl; [discriminate|].
  destruct (IStream.get_char (is_ r)) as [[instr| |] is1].
  - destruct (read_body clear allm instr (set_is r is1)) as [r1| | |] eqn:B;
      try discriminate.
    cbn [andThen]. intros H Hi. apply (IH r1 H).
    apply (read_body_inv _ _ _ _ _ B). exact Hi.
  - intros H. injection H as <-. auto.
  - intros H. injection H as <-. auto.
Qed.

(** The loop of [read] leaves the thresholds of the object alone. *)
Lemma read_body_thresholds (clear allm : bool) (instr : ascii) (r r' : Reader) :
  read_body clear allm instr r = Normal r' ->
  PeptideThreshold (this r') = PeptideThreshold (this r)
  /\ ProteinThreshold (this r') = ProteinThreshold (this r).
Proof.
  unfold read_body, read_d, read_e, read_e_pending, read_e_record, read_c, read_r,
    read_p, read_comment, read_unexpected, andThen.
  intros H.
  repeat (first [ progress cbn [andThen] in H
                | match type of H with
                  | context [match ?x with _ => _ end] =>
                      lazymatch x with
                      | context [match _ with _ => _ end] => fail
                      | _ => destruct x
                      end
                  end ]);
    try discriminate H; injection H as <-; split; reflexivity.
Qed.

Lemma read_loop_thresholds (clear allm : bool) (fuel : nat) (r r' : Reader) :
  read_loop clear allm fuel r = Normal r' ->
  PeptideThreshold (this r') = PeptideThreshold (this r)
  /\ ProteinThreshold (this r') = ProteinThreshold (this r).
Proof.
  revert r. induction fuel as [|fuel IH]; intros r; simpl; [discriminate|].
  destruct (IStream.get_char (is_ r)) as [[instr| |] is1].
  - destruct (read_body clear allm instr (set_is r is1)) as [r1| | |] eqn:B;
      try discriminate.
    cbn [andThen]. intros H. destruct (IH r1 H) as [H1 H2].
    destruct (read_body_thresholds _ _ _ _ _ B) as [H3 H4]. simpl in H3, H4.
    split; congruence.
  - intros H. injection H as <-. auto.
  - intros H. injection H as <-. auto.
Qed.

(** ** The pseudo-count floor *)

Lemma pseudoCountPSMs_spec (g : BasicBigraph) :
  let g' := pseudoCountPSMs g in
  names (PSMsToProteins g') = names (PSMsToProteins g)
  /\ associations (PSMsToProteins g') = associations (PSMsToProteins g)
  /\ proteinsToPSMs g' = proteinsToPSMs g
  /\ PeptideThreshold g' = PeptideThreshold g
  /\ ProteinThreshold g' = ProteinThreshold g
  /\ List.length (weights (PSMsToProteins g')) = List.length (weights (PSMsToProteins g))
  /\ (forall k, 0 <= k < layer_size (PSMsToProteins g) ->
                Arr.inb (weights (PSMsToProteins g)) k = true ->
                weight (PSMsToProteins g') k
                = if PrimFloat.ltb (weight (PSMsToProteins g) k) (PeptideThreshold g)
                  then PeptideThreshold g else weight (PSMsToProteins g) k).
Proof.
  cbv zeta. unfold pseudoCountPSMs.
  set (n := layer_size (PSMsToProteins g)).
  set (body := fun k g0 => if PrimFloat.ltb (weight (PSMsToProteins g0) k) (PeptideThreshold g0)
                           then with_PSMs g0 (set_weight (PSMsToProteins g0) k (PeptideThreshold g0))
                           else g0).
  assert (Hn : 0 <= n) by (unfold n, layer_size, Arr.size; lia).
  pose (P := fun (m : Z) (g' : BasicBigraph) =>
               names (PSMsToProteins g') = names (PSMsToProteins g)
               /\ associations (PSMsToProteins g') = associations (PSMsToProteins g)
               /\ proteinsToPSMs g' = proteinsToPSMs g
               /\ PeptideThreshold g' = PeptideThreshold g
               /\ ProteinThreshold g' = ProteinThreshold g
               /\ List.length (weights (PSMsToProteins g'))
                  = List.length (weights (PSMsToProteins g))
               /\ (forall k, weight (PSMsToProteins g') k
                             = if (k <? m) && (0 <=? k)
                                  && Arr.inb (weights (PSMsToProteins g)) k
                                  && PrimFloat.ltb (weight (PSMsToProteins g) k) (PeptideThreshold g)
                               then PeptideThreshold g
                               else weight (PSMsToProteins g) k)).
  assert (H : P n (for_ n body g)).
  { apply for_ind; [| |exact Hn].
    - unfold P. repeat split.
      intros k. destruct (k <? 0) eqn:E; [|reflexivity].
      apply Z.ltb_lt in E. replace (0 <=? k) with false by (symmetry; apply Z.leb_gt; lia).
      reflexivity.
    - intros k g0 Hk [H1 [H2 [H3 [H4 [H5 [H6 H7]]]]]]. unfold body, P.
      assert (Hwk : weight (PSMsToProteins g0) k = weight (PSMsToProteins g) k).
      { rewrite H7. replace (k <? k) with false by (symmetry; apply Z.ltb_ge; lia).
        reflexivity. }
      rewrite Hwk, H4.
      destruct (PrimFloat.ltb (weight (PSMsToProteins g) k) (PeptideThreshold g)) eqn:Q.
      + simpl. rewrite length_set. repeat split; auto.
        intros j. unfold weight at 1. simpl. rewrite get_set.
        unfold Arr.inb at 1. unfold Arr.size. rewrite H6. fold (Arr.size (weights (PSMsToProteins g))).
        fold (Arr.inb (weights (PSMsToProteins g)) k).
        destruct (j =? k) eqn:E.
        * apply Z.eqb_eq in E. subst j.
          replace (k <? k + 1) with true by (symmetry; apply Z.ltb_lt; lia).
          replace (0 <=? k) with true by (symmetry; apply Z.leb_le; lia).
          rewrite Q. simpl.
          destruct (Arr.inb (weights (PSMsToProteins g)) k); simpl; [reflexivity|].
          fold (weight (PSMsToProteins g0) k). exact Hwk.
        * apply Z.eqb_neq in E. rewrite andb_false_r.
          fold (weight (PSMsToProteins g0) j). rewrite H7.
          replace (j <? k + 1) with (j <? k); [reflexivity|].
          destruct (j <? k) eqn:L; symmetry;
            [apply Z.ltb_lt; apply Z.ltb_lt in L; lia
            |apply Z.ltb_ge; apply Z.ltb_ge in L; lia].
      + repeat split; auto.
        intros j. rewrite H7.
        destruct (j =? k) eqn:E.
        * apply Z.eqb_eq in E. subst j. rewrite Q, !andb_false_r. reflexivity.
        * apply Z.eqb_neq in E.
          replace (j <? k + 1) with (j <? k); [reflexivity|].
          destruct (j <? k) eqn:L; symmetry;
            [apply Z.ltb_lt; apply Z.ltb_lt in L; lia
            |apply Z.ltb_ge; apply Z.ltb_ge in L; lia]. }
  destruct H as [H1 [H2 [H3 [H4 [H5 [H6 H7]]]]]].
  repeat split; auto.
  intros k Hk Hin. rewrite H7, Hin.
  replace (k <? n) with true by (symmetry; apply Z.ltb_lt; lia).
  replace (0 <=? k) with true by (symmetry; apply Z.leb_le; lia).
  reflexivity.
Qed.

(** ** Comparisons of doubles *)

Lemma compare_cont_swap (m1 m2 : positive) (c : comparison) :
  Pos.compare_cont (CompOpp c) m2 m1 = CompOpp (Pos.compare_cont c m1 m2).
Proof.
  revert m2 c. induction m1 as [m1 IH|m1 IH|]; intros [m2|m2|] c; simpl;
    try reflexivity; try apply IH; try (apply (IH m2 Gt)); try (apply (IH m2 Lt)).
Qed.

Lemma compare_cont_swap_Eq (m1 m2 : positive) :
  Pos.compare_cont Eq m2 m1 = CompOpp (Pos.compare_cont Eq m1 m2).
Proof. apply (compare_cont_swap m1 m2 Eq). Qed.

Lemma SFcompare_swap (x y : spec_float) :
  SFcompare y x = option_map CompOpp (SFcompare x y).
Proof.
  destruct x as [sx|sx| |sx mx ex], y as [sy|sy| |sy my ey]; simpl;
    try reflexivity; try (destruct sx; reflexivity); try (destruct sy; reflexivity);
    try (destruct sx, sy; reflexivity).
  destruct sx, sy; try reflexivity;
    rewrite (Z.compare_antisym ex ey); destruct (ex ?= ey); simpl;
    rewrite ?(compare_cont_swap_Eq mx my), ?CompOpp_involutive; reflexivity.
Qed.

Lemma SFcompare_refl (x : spec_float) : SFcompare x x = Some Eq \/ SFcompare x x = None.
Proof.
  destruct x as [s|s| |s m e]; simpl; auto.
  - destruct s; auto.
  - rewrite Z.compare_refl. destruct s; left;
      rewrite (Pos.compare_cont_refl m Eq); reflexivity.
Qed.

Lemma ltb_irrefl (x : float) : PrimFloat.ltb x x = false.
Proof.
  rewrite ltb_spec. unfold SFltb.
  destruct (SFcompare_refl (Prim2SF x)) as [E|E]; rewrite E; reflexivity.
Qed.

(** Of two doubles that are numbers, one is below the other or the other
    is at most the one. *)
Lemma leb_of_not_ltb (x y : float) :
  PrimFloat.eqb x x = true -> PrimFloat.eqb y y = true ->
  PrimFloat.ltb x y = false -> PrimFloat.leb y x = true.
Proof.
  rewrite !eqb_spec, ltb_spec, leb_spec. unfold SFeqb, SFltb, SFleb.
  rewrite (SFcompare_swap (Prim2SF x) (Prim2SF y)).
  intros Hx Hy.
  assert (T : exists c, SFcompare (Prim2SF x) (Prim2SF y) = Some c).
  { destruct (Prim2SF x) as [sx|sx| |sx mx ex], (Prim2SF y) as [sy|sy| |sy my ey];
      simpl in *; try discriminate; eauto. }
  destruct T as [c ->]. destruct c; simpl; congruence.
Qed.

Lemma ltb_not_leb (x y : float) :
  PrimFloat.leb x y = true -> PrimFloat.ltb y x = false.
Proof.
  rewrite ltb_spec, leb_spec. unfold SFltb, SFleb.
  rewrite (SFcompare_swap (Prim2SF x) (Prim2SF y)).
  destruct (SFcompare (Prim2SF x) (Prim2SF y)) as [[| |]|]; simpl; congruence.
Qed.

(** Below a threshold that is not negative lies the sentinel -1, which the
    threshold is not. *)
Lemma sentinel_below (t : float) :
  PrimFloat.leb 0 t = true ->
  PrimFloat.ltb (-1) t = true /\ PrimFloat.eqb t (-1) = false.
Proof.
  rewrite leb_spec, ltb_spec, eqb_spec. unfold SFleb, SFltb, SFeqb.
  rewrite (SFcompare_swap (Prim2SF (-1)) (Prim2SF t)).
  change (Prim2SF 0) with (S754_zero false).
  change (Prim2SF (-1)) with (S754_finite true 4503599627370496 (-52)).
  destruct (Prim2SF t) as [s|s| |s m e]; simpl; try discriminate.
  - auto.
  - destruct s; [discriminate|auto].
  - destruct s; [discriminate|auto].
Qed.

Lemma SFeqb_finite (s s0 : bool) (m m0 : positive) (e e0 : Z) :
  SFeqb (S754_finite s m e) (S754_finite s0 m0 e0) = true ->
  s = s0 /\ m = m0 /\ e = e0.
Proof.
  unfold SFeqb, SFcompare.
  destruct s, s0; try discriminate;
    destruct (e ?= e0) eqn:E; try discriminate;
    apply Z.compare_eq in E;
    destruct (Pos.compare_cont Eq m m0) eqn:C; try discriminate;
    apply Pos.compare_eq in C; auto.
Qed.

(** A double equal to the sentinel compares as the sentinel does. *)
Lemma ltb_sentinel (w t : float) :
  PrimFloat.eqb w (-1) = true -> PrimFloat.ltb w t = PrimFloat.ltb (-1) t.
Proof.
  rewrite eqb_spec, !ltb_spec.
  change (Prim2SF (-1)) with (S754_finite true 4503599627370496 (-52)).
  generalize 4503599627370496%positive (-52). intros m0 e0.
  destruct (Prim2SF w) as [s|s| |s m e];
    try (unfold SFeqb; cbn [SFcompare]; discriminate);
    try (unfold SFeqb; cbn [SFcompare]; destruct s; discriminate).
  intros H. apply SFeqb_finite in H. destruct H as [-> [-> ->]]. reflexivity.
Qed.

(** C7, as amended: when [read] on a fresh graph returns, the threshold is
    the one the graph had, and every peptide node has the weight it had at
    the end of the ingestion, or [PeptideThreshold] exactly when that
    weight was below it (the sentinel -1 among them). So no weight is below
    [PeptideThreshold]; every weight is at least [PeptideThreshold] where
    the weight read and the threshold are numbers; and with
    [PeptideThreshold >= 0] no weight is the sentinel. A weight that is not
    a number is below nothing and stays as it is. *)
Theorem pseudo_count_floor (clear allm : bool) (g : BasicBigraph) (input : string)
        (r : Reader) :
  fresh g ->
  read clear allm g input = Normal r ->
  exists r0,
    read_loop clear allm (S (String.length input))
              (read_init g (IStream.of_string input)) = Normal r0
    /\ PeptideThreshold (this r) = PeptideThreshold g
    /\ layer_size (PSMsToProteins (this r)) = Arr.size (weights (PSMsToProteins (this r0)))
    /\ forall k, 0 <= k < layer_size (PSMsToProteins (this r)) ->
                 let w0 := weight (PSMsToProteins (this r0)) k in
                 let w := weight (PSMsToProteins (this r)) k in
                 w = (if PrimFloat.ltb w0 (PeptideThreshold g) then PeptideThreshold g else w0)
                 /\ PrimFloat.ltb w (PeptideThreshold g) = false
                 /\ (PrimFloat.eqb w0 w0 = true ->
                     PrimFloat.eqb (PeptideThreshold g) (PeptideThreshold g) = true ->
                     PrimFloat.leb (PeptideThreshold g) w = true)
                 /\ (PrimFloat.leb 0 (PeptideThreshold g) = true ->
                     PrimFloat.eqb w (-1) = false).
Proof.
  intros Hf. unfold read.
  destruct (read_loop clear allm (S (String.length input))
                      (read_init g (IStream.of_string input))) as [r0| | |] eqn:L;
    try discriminate.
  cbn [andThen]. intros H. injection H as <-. exists r0. split; [reflexivity|].
  pose proof (read_loop_inv _ _ _ _ _ L (read_inv_init g _ Hf)) as [_ [_ [Hw _]]].
  destruct (read_loop_thresholds _ _ _ _ _ L) as [Ht _]. simpl in Ht.
  unfold read_finish. reader_simpl.
  match goal with
  | |- context [pseudoCountPSMs ?g1] =>
      pose proof (pseudoCountPSMs_spec g1) as S; cbv zeta in S;
      remember (pseudoCountPSMs g1) as g' eqn:Eg; clear Eg; simpl in S
  end.
  destruct S as [S1 [_ [_ [S4 [_ [_ S7]]]]]].
  assert (Hsize : layer_size (PSMsToProteins g') = Arr.size (weights (PSMsToProteins (this r0)))).
  { unfold layer_size, Arr.size. rewrite S1. unfold StringTable.getItemsByNumber.
    rewrite Hw. reflexivity. }
  split; [congruence|]. split; [exact Hsize|].
  intros k Hk. cbv zeta.
  assert (E : weight (PSMsToProteins g') k
              = if PrimFloat.ltb (weight (PSMsToProteins (this r0)) k) (PeptideThreshold g)
                then PeptideThreshold g else weight (PSMsToProteins (this r0)) k).
  { rewrite <- Ht. apply S7.
    - unfold layer_size, Arr.size, StringTable.getItemsByNumber. simpl.
      rewrite <- Hw. rewrite Hsize in Hk. exact Hk.
    - apply inb_iff. rewrite Hsize in Hk. exact Hk. }
  split; [exact E|]. rewrite E.
  destruct (PrimFloat.ltb (weight (PSMsToProteins (this r0)) k) (PeptideThreshold g)) eqn:Q.
  - split; [apply ltb_irrefl|]. split.
    + intros _ Hthr. apply leb_of_not_ltb; [exact Hthr|exact Hthr|apply ltb_irrefl].
    + intros H0. apply (sentinel_below _ H0).
  - split; [exact Q|]. split.
    + intros Hw0 Hthr. apply leb_of_not_ltb; assumption.
    + intros H0.
      destruct (PrimFloat.eqb (weight (PSMsToProteins (this r0)) k) (-1)) eqn:S; [|reflexivity].
      rewrite (ltb_sentinel _ (PeptideThreshold g) S) in Q.
      rewrite (proj1 (sentinel_below _ H0)) in Q. discriminate Q.
Qed.

(** Two records: AB with the score 0.2, below the threshold 0.5, and CD
    without a score. Both end with the weight 0.5. *)
Lemma pseudo_count_floor_witness :
  exists r,
    read true false (freshGraph 0 0.5)
         "e AB c 2 r P1 p 0.2 e CD c 1 r P2" = Normal r
    /\ forall k, 0 <= k < layer_size (PSMsToProteins (this r)) ->
                 PrimFloat.ltb (weight (PSMsToProteins (this r)) k) 0.5 = false
                 /\ PrimFloat.eqb (weight (PSMsToProteins (this r)) k) (-1) = false.
Proof.
  destruct (read true false (freshGraph 0 0.5)
                 "e AB c 2 r P1 p 0.2 e CD c 1 r P2") as [r| | |] eqn:E;
    try (vm_compute in E; discriminate E).
  exists r. split; [reflexivity|].
  destruct (pseudo_count_floor true false (freshGraph 0 0.5) _ r
                               (conj eq_refl eq_refl) E)
    as [r0 [_ [_ [_ H]]]].
  intros k Hk. destruct (H k Hk) as [_ [H1 [_ H2]]]. split; [exact H1|].
  apply H2. reflexivity.
Defined.

(** The claim C7 as it stands fails where the arithmetic of the scores
    leaves the numbers: under the all-matches policy the scores -1e200,
    -1e200 and 1 of one peptide combine to minus infinity and then to a
    weight that is not a number; it is not below the threshold 0.5, so the
    floor leaves it, and it is not at least 0.5 either. *)
Lemma nan_weight_passes_the_floor :
  match read true true (freshGraph 0 0.5)
             "e A c 1 r P p -1e200 e A c 1 r P p -1e200 e A c 1 r P p 1" with
  | Normal r =>
      weights (PSMsToProteins (this r)) = [nan]
      /\ PrimFloat.ltb (weight (PSMsToProteins (this r)) 0) 0.5 = false
      /\ PrimFloat.leb 0.5 (weight (PSMsToProteins (this r)) 0) = false
  | _ => False
  end.
Proof. vm_compute. repeat split. Qed.

(** ** The step budget of read is enough *)

Lemma skipws_len (s : string) : (String.length (IStream.skipws s) <= String.length s)%nat.
Proof.
  induction s as [|c s IH]; simpl; [lia|].
  destruct (IStream.isspace c); simpl; lia.
Qed.

Lemma span_len (p : ascii -> bool) (s : string) :
  (String.length (snd (IStream.span p s)) <= String.length s)%nat.
Proof.
  induction s as [|c s IH]; simpl; [lia|].
  destruct (p c); [|simpl; lia].
  destruct (IStream.span p s) as [tok rest]. simpl in *. lia.
Qed.

Lemma sign_len (s : string) :
  (String.length (snd (IStream.sign s)) <= String.length s)%nat.
Proof.
  destruct s as [|c s]; simpl; [lia|].
  destruct c as [[] [] [] [] [] [] [] []]; simpl; lia.
Qed.

Lemma exponent_len (s : string) :
  (String.length (snd (IStream.exponent s)) <= String.length s)%nat.
Proof.
  destruct s as [|c s]; simpl; [lia|].
  destruct (IStream.isE c); [|simpl; lia].
  pose proof (sign_len s) as H1. destruct (IStream.sign s) as [sg s2].
  pose proof (span_len IStream.isdigit s2) as H2.
  destruct (IStream.span IStream.isdigit s2) as [ds rest].
  simpl in *. destruct ds; simpl; lia.
Qed.

Lemma line_len (s : string) :
  (String.length (snd (IStream.line s)) <= String.length s)%nat.
Proof.
  induction s as [|c s IH]; simpl; [lia|].
  destruct (Ascii.eqb c "010"); [simpl; lia|].
  destruct (IStream.line s) as [l rest]. simpl in *. lia.
Qed.

Lemma get_char_len (ins is1 : IStream.t) (c : ascii) :
  IStream.get_char ins = (IStream.Got c, is1) -> (remaining is1 < remaining ins)%nat.
Proof.
  unfold IStream.get_char, remaining. destruct (IStream.failed ins); [discriminate|].
  pose proof (skipws_len (IStream.buf ins)) as H.
  destruct (IStream.skipws (IStream.buf ins)) as [|c' rest]; [discriminate|].
  intros E. injection E as _ <-. simpl in *. lia.
Qed.

Lemma get_string_len (ins : IStream.t) :
  (remaining (snd (IStream.get_string ins)) <= remaining ins)%nat.
Proof.
  unfold IStream.get_string, remaining. destruct (IStream.failed ins); [simpl; lia|].
  pose proof (skipws_len (IStream.buf ins)) as H.
  destruct (IStream.skipws (IStream.buf ins)) as [|c' rest]; [simpl; lia|].
  pose proof (span_len (fun c => negb (IStream.isspace c)) (String c' rest)) as H2.
  destruct (IStream.span _ (String c' rest)) as [tok rest']. simpl in *. lia.
Qed.

Lemma get_int_len (ins : IStream.t) :
  (remaining (snd (IStream.get_int ins)) <= remaining ins)%nat.
Proof.
  unfold IStream.get_int, remaining. destruct (IStream.failed ins); [simpl; lia|].
  pose proof (skipws_len (IStream.buf ins)) as H.
  destruct (IStream.skipws (IStream.buf ins)) as [|c' rest]; [simpl; lia|].
  pose proof (sign_len (String c' rest)) as H1.
  destruct (IStream.sign (String c' rest)) as [sg s1].
  pose proof (span_len IStream.isdigit s1) as H2.
  destruct (IStream.span IStream.isdigit s1) as [ds rest'].
  simpl in H, H1, H2.
  destruct ds; [simpl; lia|].
  destruct (IStream.INT_MAX <? _); [simpl; lia|].
  destruct (_ <? IStream.INT_MIN); simpl; lia.
Qed.

Lemma get_double_len (ins : IStream.t) :
  (remaining (snd (IStream.get_double ins)) <= remaining ins)%nat.
Proof.
  unfold IStream.get_double, remaining. destruct (IStream.failed ins); [simpl; lia|].
  pose proof (skipws_len (IStream.buf ins)) as H.
  destruct (IStream.skipws (IStream.buf ins)) as [|c' rest]; [simpl; lia|].
  pose proof (sign_len (String c' rest)) as H1.
  destruct (IStream.sign (String c' rest)) as [sg s1].
  pose proof (span_len IStream.isdigit s1) as H2.
  destruct (IStream.span IStream.isdigit s1) as [ip s2].
  simpl in H, H1, H2.
  assert (H3 : forall fp s3,
             match s2 with
             | String "." r => IStream.span IStream.isdigit r
             | _ => (EmptyString, s2)
             end = (fp, s3) -> (String.length s3 <= String.length s2)%nat).
  { intros fp s3. destruct s2 as [|d r]; [intros E; injection E as _ <-; lia|].
    pose proof (span_len IStream.isdigit r) as Hr.
    destruct d as [[] [] [] [] [] [] [] []];
      intros E; try (injection E as _ <-; simpl; lia).
    rewrite E in Hr. simpl in *. lia. }
  destruct (match s2 with
            | String "." r => IStream.span IStream.isdigit r
            | _ => (EmptyString, s2)
            end) as [fp s3].
  specialize (H3 fp s3 eq_refl).
  pose proof (exponent_len s3) as H4.
  destruct ((ip ++ fp)%string); [simpl; lia|].
  destruct (IStream.exponent s3) as [[e|] rest']; [|simpl in *; lia].
  destruct (IStream.strtod _ _ _) as [x overflow].
  destruct overflow; simpl in *; lia.
Qed.

Lemma getline_len (ins : IStream.t) :
  (remaining (snd (IStream.getline ins)) <= remaining ins)%nat.
Proof.
  unfold IStream.getline, remaining. destruct (IStream.failed ins); [simpl; lia|].
  destruct (IStream.buf ins) as [|c rest] eqn:B; [simpl; lia|].
  pose proof (line_len (String c rest)) as H.
  destruct (IStream.line (String c rest)) as [l rest']. simpl in *. lia.
Qed.

Lemma read_body_len (clear allm : bool) (instr : ascii) (r r' : Reader) :
  read_body clear allm instr r = Normal r' ->
  (remaining (is_ r') <= remaining (is_ r))%nat.
Proof.
  pose proof (get_string_len (is_ r)) as Hs.
  pose proof (get_int_len (is_ r)) as Hi.
  pose proof (get_double_len (is_ r)) as Hd.
  pose proof (getline_len (is_ r)) as Hl.
  pose proof (get_double_len (snd (IStream.get_int (is_ r)))) as Hid.
  unfold read_body, read_d, read_e, read_e_pending, read_e_record, read_c, read_r,
    read_p, read_comment, read_unexpected, andThen.
  intros H.
  repeat (first [ progress cbn [andThen] in H
                | match type of H with
                  | context [match ?x with _ => _ end] =>
                      lazymatch x with
                      | context [match _ with _ => _ end] => fail
                      | _ => destruct x eqn:?
                      end
                  end ]);
    try discriminate H; injection H as <-;
    reader_simpl; simpl in *;
    repeat match goal with
           | E : ?x = _, H : context [?x] |- _ => rewrite E in H
           end;
    simpl in *; lia.
Qed.

Lemma read_loop_fuel (clear allm : bool) (fuel : nat) (r : Reader) :
  (remaining (is_ r) < fuel)%nat -> read_loop clear allm fuel r <> NoFuel.
Proof.
  revert r. induction fuel as [|fuel IH]; intros r Hlen; [lia|]. simpl.
  destruct (IStream.get_char (is_ r)) as [[instr| |] is1] eqn:G; try discriminate.
  pose proof (get_char_len _ _ _ G) as Hc.
  destruct (read_body clear allm instr (set_is r is1)) as [r1| | |] eqn:B;
    cbn [andThen]; try discriminate.
  - apply IH. pose proof (read_body_len _ _ _ _ _ B) as Hb. simpl in Hb. lia.
  - exfalso. revert B.
    unfold read_body, read_d, read_e, read_e_pending, read_e_record, read_c, read_r,
      read_p, read_comment, read_unexpected, andThen.
    intros H.
    repeat (first [ progress cbn [andThen] in H
                  | match type of H with
                    | context [match ?x with _ => _ end] =>
                        lazymatch x with
                        | context [match _ with _ => _ end] => fail
                        | _ => destruct x eqn:?
                        end
                    end ]);
      try discriminate H.
    all: match goal with
         | E : cleanPeptideSequence ?s = OutOfFuel |- _ =>
             destruct (clean_ret_or_undef s) as [[res E']|E']; congruence
         end.
Qed.

(** [read] never stops for want of budget. *)
Lemma read_total (clear allm : bool) (g : BasicBigraph) (input : string) :
  read clear allm g input <> NoFuel.
Proof.
  unfold read.
  pose proof (read_loop_fuel clear allm (S (String.length input))
                (read_init g (IStream.of_string input))) as H.
  destruct (read_loop _ _ _ _) as [r| | |]; cbn [andThen]; try discriminate.
  apply H. unfold remaining. simpl. lia.
Qed.

(** ** Every peptide token goes through the normalisation *)

Lemma skipws_token (tok : string) : token tok -> IStream.skipws tok = tok.
Proof.
  intros [Hne Hns]. destruct tok as [|c t]; [congruence|].
  simpl in *. apply andb_true_iff in Hns. destruct Hns as [Hc _].
  apply negb_true_iff in Hc. rewrite Hc. reflexivity.
Qed.

Lemma span_noSpace (tok : string) :
  noSpace tok = true ->
  IStream.span (fun c => negb (IStream.isspace c)) tok = (tok, EmptyString).
Proof.
  induction tok as [|c t IH]; simpl; [reflexivity|].
  intros H. apply andb_true_iff in H. destruct H as [Hc Ht].
  rewrite Hc, (IH Ht). reflexivity.
Qed.

Lemma get_string_token (tok : string) :
  token tok ->
  IStream.get_string (IStream.mk (String " " tok) false)
  = (IStream.Got tok, IStream.mk EmptyString false).
Proof.
  intros Ht. unfold IStream.get_string. cbn [IStream.failed IStream.buf].
  change (IStream.skipws (String " " tok)) with (IStream.skipws tok).
  rewrite (skipws_token tok Ht).
  destruct tok as [|c t]; [destruct Ht; congruence|].
  rewrite span_noSpace by apply Ht. reflexivity.
Qed.

Lemma read_e_token (allm : bool) (g : BasicBigraph) (tok name : string) :
  fresh g -> token tok -> cleanPeptideSequence tok = Ret name ->
  exists r,
    read true allm g (String "e" (String " " tok)) = Normal r
    /\ names (PSMsToProteins (this r)) = [name].
Proof.
  intros [Hp Hr] Ht Hc. unfold read.
  change (String.length (String "e" (String " " tok)))
    with (S (S (String.length tok))).
  rewrite (read_loop_body true allm _ _ "e" (IStream.mk (String " " tok) false))
    by reflexivity.
  rewrite read_body_e by (left; reflexivity).
  unfold read_e. unfold read_init at 1. reader_simpl.
  change (Ascii.eqb "e" "p") with false. cbv iota. cbn [andThen].
  unfold read_e_record. reader_simpl.
  rewrite (get_string_token tok Ht). reader_simpl. cbn [IStream.store].
  rewrite Hc. reader_simpl.
  change (StringTable.lookup StringTable.empty name =? -1) with true. cbv iota.
  unfold add. change (StringTable.lookup StringTable.empty name =? -1) with true.
  cbv iota. reader_simpl.
  rewrite (read_loop_end true allm _ _ (IStream.mk EmptyString true)) by reflexivity.
  cbn [andThen]. eexists. split; [reflexivity|].
  unfold read_finish. reader_simpl.
  match goal with
  | |- context [pseudoCountPSMs ?g1] =>
      destruct (pseudoCountPSMs_spec g1) as [S1 _]; rewrite S1
  end.
  reflexivity.
Qed.

(** A point second in a name of fewer than four characters: the count
    [size() - 4] wraps around, and [substr] gives the rest of the name. *)
Lemma clean_short_flank (s : string) :
  String.get 1 s = Some "."%char -> (String.length s < 4)%nat ->
  cleanPeptideSequence s
  = Ret (keepCapitals (String.substring 2 (String.length s - 2) s)).
Proof.
  intros Hdot H4.
  assert (H2 : (2 <= String.length s)%nat).
  { destruct s as [|a [|b t]]; simpl in *; try discriminate. lia. }
  unfold cleanPeptideSequence, Str.at_. rewrite Hdot. cbn [bind].
  change (Ascii.eqb "." ".") with true. cbv iota.
  unfold Str.substr.
  assert (Hs : (Str.size s <? 2) = false).
  { apply Z.ltb_ge. unfold Str.size. lia. }
  rewrite Hs. cbn [bind].
  assert (Hw : Str.size_t (Str.size s - 4) = Str.SIZE_MOD + (Str.size s - 4)).
  { unfold Str.size_t.
    rewrite <- (Z.mod_small (Str.SIZE_MOD + (Str.size s - 4)) Str.SIZE_MOD)
      by (unfold Str.size, Str.SIZE_MOD; lia).
    rewrite <- Z.add_mod_idemp_l by (unfold Str.SIZE_MOD; lia).
    rewrite Z.mod_same by (unfold Str.SIZE_MOD; lia). reflexivity. }
  rewrite Hw.
  replace (Z.to_nat (Z.min (Str.SIZE_MOD + (Str.size s - 4)) (Str.size s - 2)))
    with (String.length s - 2)%nat by (unfold Str.size, Str.SIZE_MOD; lia).
  reflexivity.
Qed.

(** The name that the branch of [e] hands to the normalisation: the token
    read, or the name the reader held when there is nothing to read. *)
Lemma read_e_record_clean (r : Reader) :
  let name := IStream.store (pepName r) (fst (IStream.get_string (is_ r))) in
  (cleanPeptideSequence name = Undef -> read_e_record true r = Undefined)
  /\ (forall s, cleanPeptideSequence name = Ret s ->
                exists r', read_e_record true r = Normal r'
                           /\ pepName r' = s /\ state r' = "c"%char
                           /\ is_ r' = snd (IStream.get_string (is_ r))
                           /\ In s (PSMNames r')
                           /\ pepIndex r' = StringTable.lookup (PSMNames r') s
                           /\ cerr r' = cerr r).
Proof.
  destruct r as [i pn prn v pi cs st psm prot g pr ce].
  cbv zeta. unfold read_e_record. reader_simpl.
  destruct (IStream.get_string i) as [tok is1]. reader_simpl. cbn [fst snd].
  split.
  - intros E. rewrite E. reflexivity.
  - intros s E. rewrite E. reader_simpl.
    destruct (StringTable.lookup psm s =? -1) eqn:L.
    + destruct (add (PSMsToProteins g) psm s) as [gl st'] eqn:A.
      destruct (add_spec _ _ _ _ _ A) as [_ [_ [Hin _]]].
      eexists. split; [reflexivity|]. reader_simpl. repeat split. exact Hin.
    + eexists. split; [reflexivity|]. reader_simpl. repeat split.
      apply lookup_present, L.
Qed.

(** C10, as amended: [cleanPeptideSequence] reads position 1 of its
    argument whatever its length, and takes [substr(2, size() - 4)] when
    a point is there. These accesses are defined on every name that is
    not empty: position 1 of a name of one character is its terminator,
    and on a name of fewer than four characters the count wraps around and
    [substr] gives what follows position 2. Only on the empty name is the
    function undefined, and it throws nothing. [read] with the cleaning of
    the names switched on hands it the name of every [e] record without a
    look at its length: the token read, or the name held before when the
    input ends there. *)
Theorem cleanPeptideSequence_precondition :
  (forall s : string, cleanPeptideSequence s = Undef <-> s = EmptyString)
  /\ (forall (s : string) (e : Exception), cleanPeptideSequence s <> Throw e)
  /\ (forall s : string,
         String.length s = 1%nat -> cleanPeptideSequence s = Ret (keepCapitals s))
  /\ (forall s : string,
         String.get 1 s = Some "."%char -> (String.length s < 4)%nat ->
         cleanPeptideSequence s
         = Ret (keepCapitals (String.substring 2 (String.length s - 2) s)))
  /\ (forall (allm : bool) (r : Reader),
         state r = "e"%char
         \/ (state r = "p"%char /\ PrimFloat.eqb (value r) (-10) = false) ->
         let name := IStream.store (pepName r) (fst (IStream.get_string (is_ r))) in
         (cleanPeptideSequence name = Undef ->
          read_body true allm "e" r = Undefined)
         /\ (forall s, cleanPeptideSequence name = Ret s ->
                       exists r', read_body true allm "e" r = Normal r'
                                  /\ pepName r' = s /\ state r' = "c"%char
                                  /\ is_ r' = snd (IStream.get_string (is_ r))
                                  /\ In s (PSMNames r')
                                  /\ pepIndex r' = StringTable.lookup (PSMNames r') s)).
Proof.
  split; [|split; [|split; [|split]]].
  - intros s. split.
    + intros H. destruct s as [|a t]; [reflexivity|].
      destruct (clean_returns (String a t)) as [core E]; [discriminate|]. congruence.
    + intros ->. reflexivity.
  - intros s e H. destruct (clean_ret_or_undef s) as [[res E]|E]; congruence.
  - intros s H1. apply clean_plain.
    + intros ->. discriminate H1.
    + destruct s as [|a [|b t]]; simpl in *; try discriminate; lia.
  - exact clean_short_flank.
  - intros allm r Hst. cbv zeta.
    assert (E : exists q, read_body true allm "e" r = read_e_record true q
                          /\ pepName q = pepName r /\ is_ q = is_ r).
    { rewrite read_body_e by tauto. unfold read_e.
      destruct Hst as [He|[Hp Hv]].
      - rewrite He. change (Ascii.eqb "e" "p") with false. cbv iota. cbn [andThen].
        exists r. auto.
      - rewrite Hp. change (Ascii.eqb "p" "p") with true. cbv iota.
        unfold read_e_pending. cbn [value print]. rewrite Hv. cbn [andThen].
        eexists. split; [reflexivity|]. reader_simpl. auto. }
    destruct E as [q [Eq [Hn Hi]]]. rewrite Eq.
    destruct (read_e_record_clean q) as [C1 C2]. cbv zeta in C1, C2.
    rewrite Hn, Hi in C1, C2. split; [exact C1|].
    intros s Hs. destruct (C2 s Hs) as [r' [H1 [H2 [H3 [H4 [H5 [H6 _]]]]]]].
    exists r'. repeat split; assumption.
Qed.

(** The reader at the start of the input [ K.R c 1], an [e] just read: the
    name of the record becomes R. *)
Lemma cleanPeptideSequence_precondition_witness :
  exists r',
    read_body true false "e"
              (read_init (freshGraph 0 0.5) (IStream.of_string " K.R c 1"))
    = Normal r'
    /\ pepName r' = "R"%string /\ state r' = "c"%char.
Proof.
  destruct cleanPeptideSequence_precondition as [_ [_ [_ [_ H]]]].
  destruct (H false (read_init (freshGraph 0 0.5) (IStream.of_string " K.R c 1"))
              (or_introl eq_refl)) as [_ H2].
  destruct (H2 "R"%string eq_refl) as [r' [E [Hn [Hs _]]]].
  exists r'. auto.
Defined.

(** The claim C10 as it stands fails on the names shorter than it
    requires: the one-character name K and the three-character name K.R
    are normalised, to K and to R, with every access defined. *)
Lemma short_names_are_normalised :
  cleanPeptideSequence "K" = Ret "K"%string
  /\ cleanPeptideSequence "K.R" = Ret "R"%string
  /\ cleanPeptideSequence "K." = Ret EmptyString
  /\ ~ (forall s res, cleanPeptideSequence s = Ret res ->
                      (2 <= String.length s)%nat
                      /\ (String.get 1 s = Some "."%char -> (4 <= String.length s)%nat)).
Proof.
  split; [reflexivity|]. split; [reflexivity|]. split; [reflexivity|].
  intros H. destruct (H "K"%string "K"%string eq_refl) as [H2 _]. simpl in H2. lia.
Qed.

(** ** What reindex keeps *)

(** C5: [reindex] puts back the peptide threshold, the list of the severed
    proteins and the number of clones that it saved before it assigned the
    subgraph to the object; the protein threshold is not among what it
    saves, and is afterwards the one of a freshly constructed graph. So on
    the graph of [e PEPTIDEA c 2 r PROT1 p 0.9] with the protein threshold
    0.95, where the constructor leaves 0, the threshold is 0 after
    [reindex]. *)
Theorem reindex_frame :
  (forall (ctorProt ctorPep : float) (ctorClones : Z) (g : BasicBigraph),
      let g' := reindex ctorProt ctorPep ctorClones g in
      PeptideThreshold g' = PeptideThreshold g
      /\ severedProteins g' = severedProteins g
      /\ numberClones g' = numberClones g
      /\ ProteinThreshold g' = ctorProt)
  /\ match read true false (freshGraph 0.95 0.5)
                "e PEPTIDEA c 2 r PROT1 p 0.9" with
     | Normal r =>
         ProteinThreshold (this r) = 0.95%float
         /\ ProteinThreshold (reindex 0 0 0 (this r)) = 0%float
         /\ PeptideThreshold (reindex 0 0 0 (this r)) = 0.5%float
     | _ => False
     end.
Proof.
  split.
  - intros ctorProt ctorPep ctorClones g. repeat split.
  - vm_compute. repeat split.
Qed.

(** ** The marking leaves the edges alone *)

Lemma same_edges_refl (g : BasicBigraph) : same_edges g g.
Proof. unfold same_edges. repeat split. Qed.

Lemma same_edges_trans (g1 g2 g3 : BasicBigraph) :
  same_edges g1 g2 -> same_edges g2 g3 -> same_edges g1 g3.
Proof.
  unfold same_edges. intros [A1 [A2 [A3 [A4 [A5 [A6 A7]]]]]] [B1 [B2 [B3 [B4 [B5 [B6 B7]]]]]].
  repeat split; congruence.
Qed.

Lemma same_edges_inv (g g' : BasicBigraph) :
  same_edges g g' -> graph_inv g -> graph_inv g'.
Proof.
  intros [A1 [A2 [A3 [A4 [A5 [A6 A7]]]]]] [Hs [H1 H2]]. unfold graph_inv, sized.
  rewrite A1, A2, A4, A5. split; [|auto].
  apply (symmetric_ext g); [| |exact Hs]; intros k; unfold association; congruence.
Qed.

Lemma bind_not_Ret {A B : Type} (m : Cxx A) (k : A -> Cxx B) (b : B) :
  bind m k = Ret b -> exists a, m = Ret a /\ k a = Ret b.
Proof. destruct m; simpl; try discriminate. intros H. eauto. Qed.

Lemma foldM_stuck {A S : Type} (f : A -> S -> Cxx S) (l : list A) (c : Cxx S) (s' : S) :
  fold_left (fun acc a => s <- acc ;; f a s) l c = Ret s' -> exists s, c = Ret s.
Proof.
  revert c. induction l as [|a l IH]; intros c H; simpl in H.
  - eauto.
  - destruct (IH _ H) as [s1 H1]. destruct c; simpl in H1; try discriminate. eauto.
Qed.

Lemma foldM_inv {A S : Type} (P : S -> Prop) (f : A -> S -> Cxx S) (l : list A)
      (s s' : S) :
  P s -> (forall a s s', In a l -> P s -> f a s = Ret s' -> P s') ->
  fold_left (fun acc a => s <- acc ;; f a s) l (Ret s) = Ret s' -> P s'.
Proof.
  revert s. induction l as [|a l IH]; intros s H0 Hstep H; simpl in H.
  - injection H as <-. exact H0.
  - destruct (foldM_stuck _ _ _ _ H) as [s1 H1]. rewrite H1 in H.
    apply (IH s1); [|intros; eapply Hstep; eauto; right; assumption|exact H].
    eapply Hstep; [left; reflexivity|exact H0|exact H1].
Qed.

Lemma with_layer_same_edges (g : BasicBigraph) (l : Layer) (secs : list Z)
      (marks : list IntSet.t) :
  same_edges g (with_layer g l (with_sectionMarks (with_sections (layer g l) secs) marks)).
Proof. destruct l; unfold same_edges; simpl; repeat split. Qed.

Lemma traceConnected_frame (fuel : nat) (index : Z) (l : Layer) (sectionNumber : Z)
      (m m' : Marking) :
  traceConnected fuel index l sectionNumber m = Ret m' ->
  same_edges (graph m) (graph m').
Proof.
  revert index l m m'. induction fuel as [|fuel IH]; intros index l m m'; simpl;
    [discriminate|].
  destruct (section (layer (graph m) l) index =? sectionNumber).
  - intros H. injection H as <-. apply same_edges_refl.
  - match goal with
    | |- (if ?c then _ else fold_left _ _ (Ret ?m2)) = _ -> _ =>
        assert (H2 : same_edges (graph m) (graph m2))
          by (simpl; apply with_layer_same_edges);
        destruct c; [intros H; injection H as <-; exact H2|];
        intros H; apply (same_edges_trans _ (graph m2)); [exact H2|];
        revert H; apply (foldM_inv (fun m' => same_edges (graph m2) (graph m')));
        [apply same_edges_refl|]
    end.
    intros a s s' _ Hs Ha. apply (same_edges_trans _ (graph s)); [exact Hs|].
    apply (IH _ _ _ _ Ha).
Qed.

Lemma clearMarks_same_edges (g : BasicBigraph) : same_edges g (clearMarks g).
Proof. unfold same_edges, clearMarks. simpl. repeat split. Qed.

Lemma markSectionPartitions_frame (g g' : BasicBigraph) (n : Z) :
  markSectionPartitions g = Ret (n, g') -> same_edges g g'.
Proof.
  unfold markSectionPartitions. intros H.
  apply bind_not_Ret in H. destruct H as [[n' m] [H E]]. simpl in E.
  injection E as -> <-.
  apply (same_edges_trans _ (clearMarks g)); [apply clearMarks_same_edges|].
  unfold markSectionPartitions_traced in H. revert H.
  apply (forM_inv (fun p => same_edges (clearMarks g) (graph (snd p)))).
  - simpl. apply same_edges_refl.
  - intros k [sec m0] [sec' m1] _ Hs. cbn [snd] in Hs |- *. cbv beta iota.
    destruct (section (proteinsToPSMs (graph m0)) k =? -1).
    + intros H. apply bind_not_Ret in H. destruct H as [m2 [H E]].
      injection E as _ <-. apply (same_edges_trans _ (graph m0)); [exact Hs|].
      apply (traceConnected_frame _ _ _ _ _ _ H).
    + intros H. injection H as _ <-. exact Hs.
Qed.

(** ** Subgraphs *)

Lemma inb_map {A B : Type} (f : A -> B) (l : list A) (k : Z) :
  Arr.inb (map f l) k = Arr.inb l k.
Proof. unfold Arr.inb, Arr.size. rewrite length_map. reflexivity. Qed.

Lemma get_map {A B : Type} (d : A) (d' : B) (f : A -> B) (l : list A) (k : Z) :
  Arr.get d' (map f l) k = if Arr.inb l k then f (Arr.get d l k) else d'.
Proof.
  unfold Arr.get. rewrite inb_map. destruct (Arr.inb l k) eqn:E; [|reflexivity].
  apply inb_iff in E. unfold Arr.size in E.
  rewrite (nth_indep _ d' (f d)) by (rewrite length_map; lia).
  apply map_nth.
Qed.

Lemma association_subLayer (gl : GraphLayer) (keep opposite : IntSet.t) (k : Z) :
  association (subLayer gl keep opposite) k
  = if Arr.inb keep k
    then IntSet.reindexToFind (association gl (IntSet.nth_ keep k)) opposite
    else [].
Proof.
  unfold association, subLayer, select. cbn [associations].
  rewrite (get_map IntSet.empty). rewrite inb_map.
  destruct (Arr.inb keep k) eqn:E; [|reflexivity].
  rewrite (get_map 0), E. reflexivity.
Qed.

Lemma sized_subLayer (gl : GraphLayer) (keep opposite : IntSet.t) :
  sized (subLayer gl keep opposite).
Proof. unfold sized, subLayer, select. simpl. rewrite !length_map. reflexivity. Qed.

Lemma In_subLayer (gl : GraphLayer) (keep opposite : IntSet.t) (k y : Z) :
  In y (association (subLayer gl keep opposite) k)
  <-> 0 <= k < Arr.size keep
      /\ exists x, In x (association gl (IntSet.nth_ keep k))
                   /\ In x opposite /\ IntSet.find opposite x = y.
Proof.
  rewrite association_subLayer. destruct (Arr.inb keep k) eqn:E.
  - apply inb_iff in E. rewrite In_reindexToFind. tauto.
  - apply inb_false_iff in E. simpl. tauto.
Qed.

Lemma buildSubgraph_symmetric (ctorProt ctorPep : float) (ctorClones : Z)
      (connectedProteins connectedPSMs : IntSet.t) (g : BasicBigraph) :
  NoDup connectedProteins -> NoDup connectedPSMs -> symmetric g ->
  symmetric (buildSubgraph ctorProt ctorPep ctorClones connectedProteins connectedPSMs g).
Proof.
  intros HU HV Hs p r. unfold buildSubgraph. cbn [PSMsToProteins proteinsToPSMs with_PSMs with_proteins].
  rewrite !In_subLayer. split.
  - intros [Hp [x [Hx [HxU Hf]]]]. subst r.
    split; [apply find_range, HxU|].
    exists (IntSet.nth_ connectedPSMs p).
    rewrite (nth_find _ _ HxU).
    split; [apply Hs, Hx|]. split; [apply nth_In_set, Hp|].
    apply find_nth; assumption.
  - intros [Hr [x [Hx [HxV Hf]]]]. subst p.
    split; [apply find_range, HxV|].
    exists (IntSet.nth_ connectedProteins r).
    rewrite (nth_find _ _ HxV).
    split; [apply Hs, Hx|]. split; [apply nth_In_set, Hr|].
    apply find_nth; assumption.
Qed.

Lemma buildSubgraph_inv (ctorProt ctorPep : float) (ctorClones : Z)
      (connectedProteins connectedPSMs : IntSet.t) (g : BasicBigraph) :
  NoDup connectedProteins -> NoDup connectedPSMs -> symmetric g ->
  graph_inv (buildSubgraph ctorProt ctorPep ctorClones connectedProteins connectedPSMs g).
Proof.
  intros HU HV Hs. split; [apply buildSubgraph_symmetric; assumption|].
  split; apply sized_subLayer.
Qed.

Lemma connectedNodes_ascending (gl : GraphLayer) : ascending (connectedNodes gl).
Proof.
  unfold connectedNodes. apply for_inv.
  - constructor.
  - intros k s _ Hs. destruct (negb _); [apply ascending_add, Hs|exact Hs].
Qed.

Lemma reindex_inv (ctorProt ctorPep : float) (ctorClones : Z) (g : BasicBigraph) :
  symmetric g -> graph_inv (reindex ctorProt ctorPep ctorClones g).
Proof.
  intros Hs. unfold reindex.
  pose proof (buildSubgraph_inv ctorProt ctorPep ctorClones
                (connectedNodes (proteinsToPSMs g)) (connectedNodes (PSMsToProteins g)) g
                (ascending_NoDup _ (connectedNodes_ascending _))
                (ascending_NoDup _ (connectedNodes_ascending _)) Hs) as H.
  exact H.
Qed.

(** ** Cloning *)

Lemma sectionsOf_fold (g : BasicBigraph) (s acc : IntSet.t) (x : Z) :
  In x (fold_left (fun sects p =>
                     IntSet.union sects
                       (IntSet.SingletonSet (section (proteinsToPSMs g) p))) s acc)
  <-> In x acc \/ exists r, In r s /\ section (proteinsToPSMs g) r = x.
Proof.
  revert acc. induction s as [|a s IH]; intros acc; cbn [fold_left].
  - simpl. split; [auto|]. intros [H|[r [[] _]]]. exact H.
  - rewrite IH, In_union. unfold IntSet.SingletonSet. simpl. split.
    + intros [[H|[H|[]]]|[r [Hr H]]]; [auto| |right; exists r; tauto].
      right. exists a. auto.
    + intros [H|[r [[->|Hr] H]]]; [auto|left; right; left; exact H|].
      right. exists r. auto.
Qed.

Lemma sectionsOf_spec (g : BasicBigraph) (s : IntSet.t) (x : Z) :
  In x (sectionsOf g s) <-> exists r, In r s /\ section (proteinsToPSMs g) r = x.
Proof.
  unfold sectionsOf. rewrite sectionsOf_fold. simpl. tauto.
Qed.

Lemma bySection_fold (g : BasicBigraph) (sects : IntSet.t) (l : list Z)
      (acc : list IntSet.t) :
  let res :=
    fold_left (fun by_section p =>
                 let sect := section (proteinsToPSMs g) p in
                 let ind := IntSet.find sects sect in
                 Arr.set by_section ind
                         (IntSet.union (Arr.get IntSet.empty by_section ind)
                                       (IntSet.SingletonSet p))) l acc in
  List.length res = List.length acc
  /\ forall i r, In r (Arr.get IntSet.empty res i)
                 <-> In r (Arr.get IntSet.empty acc i)
                     \/ (In r l
                         /\ i = IntSet.find sects (section (proteinsToPSMs g) r)
                         /\ Arr.inb acc i = true).
Proof.
  revert acc. induction l as [|a l IH]; intros acc; cbv zeta; cbn [fold_left].
  - simpl. split; [reflexivity|]. intros i r. tauto.
  - specialize (IH (Arr.set acc (IntSet.find sects (section (proteinsToPSMs g) a))
                            (IntSet.union
                               (Arr.get IntSet.empty acc
                                        (IntSet.find sects (section (proteinsToPSMs g) a)))
                               (IntSet.SingletonSet a)))).
    cbv zeta in IH. destruct IH as [IH1 IH2].
    split; [rewrite IH1; apply length_set|].
    intros i r. rewrite IH2, get_set, inb_set.
    set (ia := IntSet.find sects (section (proteinsToPSMs g) a)).
    destruct (Arr.inb acc ia) eqn:Hia; cbn [andb].
    + destruct (i =? ia) eqn:E.
      * apply Z.eqb_eq in E. subst i. rewrite In_union.
        unfold IntSet.SingletonSet. simpl. split.
        -- intros [[H|[<-|[]]]|[Hr [Hi Hin]]].
           ++ left. exact H.
           ++ right. split; [left; reflexivity|]. split; [reflexivity|exact Hia].
           ++ right. split; [right; exact Hr|]. split; assumption.
        -- intros [H|[[->|Hr] [Hi Hin]]].
           ++ left. left. exact H.
           ++ left. right. left. reflexivity.
           ++ right. split; [exact Hr|]. split; assumption.
      * apply Z.eqb_neq in E. split.
        -- intros [H|[Hr [Hi Hin]]]; [left; exact H|].
           right. split; [right; exact Hr|]. split; assumption.
        -- intros [H|[[->|Hr] [Hi Hin]]]; [left; exact H|contradiction|].
           right. split; [exact Hr|]. split; assumption.
    + split.
      * intros [H|[Hr [Hi Hin]]]; [left; exact H|].
        right. split; [right; exact Hr|]. split; assumption.
      * intros [H|[[->|Hr] [Hi Hin]]]; [left; exact H| |].
        -- subst i. fold ia in Hin. congruence.
        -- right. split; [exact Hr|]. split; assumption.
Qed.

Lemma proteinsBySection_spec (g : BasicBigraph) (s : IntSet.t) :
  let sects := sectionsOf g s in
  let by_section := proteinsBySection g s sects in
  Arr.size by_section = Arr.size sects
  /\ (forall i r, In r (Arr.get IntSet.empty by_section i) -> In r s)
  /\ (forall r, In r s ->
                exists i, 0 <= i < Arr.size by_section
                          /\ In r (Arr.get IntSet.empty by_section i)).
Proof.
  unfold proteinsBySection.
  pose proof (bySection_fold g (sectionsOf g s) s
                (Arr.make (IntSet.size (sectionsOf g s)) IntSet.empty)) as H.
  cbv zeta in H |- *.
  set (bs := fold_left _ s _) in *.
  destruct H as [H1 H2].
  assert (Hm : 0 <= IntSet.size (sectionsOf g s))
    by (unfold IntSet.size, Arr.size; lia).
  assert (Hsize : Arr.size bs = Arr.size (sectionsOf g s)).
  { unfold Arr.size at 1. rewrite H1.
    fold (Arr.size (Arr.make (IntSet.size (sectionsOf g s)) IntSet.empty)).
    rewrite size_make by exact Hm. reflexivity. }
  split; [exact Hsize|]. split.
  - intros i r Hr. apply H2 in Hr. rewrite get_make in Hr.
    destruct Hr as [[]|[Hr _]]. exact Hr.
  - intros r Hr.
    assert (Hsec : In (section (proteinsToPSMs g) r) (sectionsOf g s))
      by (apply sectionsOf_spec; exists r; auto).
    pose proof (find_range _ _ Hsec) as Hrange.
    exists (IntSet.find (sectionsOf g s) (section (proteinsToPSMs g) r)).
    split; [rewrite Hsize; exact Hrange|].
    apply H2. right. split; [exact Hr|]. split; [reflexivity|].
    apply inb_iff. rewrite size_make by exact Hm. exact Hrange.
Qed.

(** The inner loop of [addClone]: the new peptide joins the sets of its proteins. *)
Lemma join_all (l : list Z) (g : BasicBigraph) :
  let g' := fold_left (fun g prot =>
                         with_proteins g
                           (join (proteinsToPSMs g) prot (layer_size (PSMsToProteins g) - 1)))
                      l g in
  PSMsToProteins g' = PSMsToProteins g
  /\ names (proteinsToPSMs g') = names (proteinsToPSMs g)
  /\ List.length (associations (proteinsToPSMs g'))
     = List.length (associations (proteinsToPSMs g))
  /\ (forall r x, In x (association (proteinsToPSMs g') r)
                  <-> In x (association (proteinsToPSMs g) r)
                      \/ (In r l /\ Arr.inb (associations (proteinsToPSMs g)) r = true
                          /\ x = layer_size (PSMsToProteins g) - 1)).
Proof.
  revert g. induction l as [|a l IH]; intros g; simpl.
  - repeat split; tauto.
  - specialize (IH (with_proteins g (join (proteinsToPSMs g) a
                                          (layer_size (PSMsToProteins g) - 1)))).
    cbn [PSMsToProteins proteinsToPSMs with_proteins] in IH.
    destruct IH as [H1 [H2 [H3 H4]]].
    split; [exact H1|]. split; [exact H2|].
    split; [rewrite H3; unfold join, set_association; simpl; apply length_set|].
    intros r x. rewrite H4, In_join.
    unfold join, set_association. cbn [associations with_associations].
    rewrite inb_set. split.
    + intros [[H|[Ha [-> ->]]]|[Hr [Hin ->]]]; auto.
    + intros [H|[[->|Hr] [Hin ->]]]; auto.
Qed.

Lemma association_append (gl : GraphLayer) (nm : list string) (a : IntSet.t)
      (w : list float) (secs : list Z) (cs : list Z) (p r : Z) :
  In r (association (mkLayer nm (Arr.add (associations gl) a) w secs
                             (sectionMarks gl) cs) p)
  <-> In r (association gl p) \/ (p = Arr.size (associations gl) /\ In r a).
Proof.
  unfold association. cbn [associations]. rewrite get_add.
  destruct (p =? Arr.size (associations gl)) eqn:E.
  - apply Z.eqb_eq in E. subst p.
    rewrite (get_outside IntSet.empty (associations gl))
      by (apply inb_false_iff; lia).
    simpl. tauto.
  - apply Z.eqb_neq in E. tauto.
Qed.

Lemma addClone_spec (pepIndex : Z) (sects : IntSet.t) (by_section : list IntSet.t)
      (k : Z) (g : BasicBigraph) :
  let g' := addClone pepIndex sects by_section k g in
  let clone := Arr.get IntSet.empty by_section k in
  Arr.size (names (PSMsToProteins g')) = Arr.size (names (PSMsToProteins g)) + 1
  /\ Arr.size (associations (PSMsToProteins g'))
     = Arr.size (associations (PSMsToProteins g)) + 1
  /\ names (proteinsToPSMs g') = names (proteinsToPSMs g)
  /\ List.length (associations (proteinsToPSMs g'))
     = List.length (associations (proteinsToPSMs g))
  /\ (forall p r, In r (association (PSMsToProteins g') p)
                  <-> In r (association (PSMsToProteins g) p)
                      \/ (p = Arr.size (associations (PSMsToProteins g)) /\ In r clone))
  /\ (forall r x, In x (association (proteinsToPSMs g') r)
                  <-> In x (association (proteinsToPSMs g) r)
                      \/ (In r clone /\ Arr.inb (associations (proteinsToPSMs g)) r = true
                          /\ x = Arr.size (names (PSMsToProteins g)))).
Proof.
  cbv zeta. unfold addClone.
  match goal with
  | |- context [fold_left _ ?l ?g1] =>
      pose proof (join_all l g1) as J; cbv zeta in J;
      destruct J as [J1 [J2 [J3 J4]]]
  end.
  rewrite J1, J2, J3. cbn [PSMsToProteins proteinsToPSMs with_PSMs names associations].
  rewrite !size_add. repeat split; try reflexivity.
  - apply association_append.
  - apply association_append.
  - intros H. apply J4 in H. unfold layer_size in H.
    cbn [PSMsToProteins proteinsToPSMs with_PSMs names associations] in H.
    rewrite size_add in H.
    destruct H as [H|[H1 [H2 ->]]]; [left; exact H|right].
    split; [exact H1|]. split; [exact H2|lia].
  - intros H. apply J4. unfold layer_size.
    cbn [PSMsToProteins proteinsToPSMs with_PSMs names associations].
    rewrite size_add.
    destruct H as [H|[H1 [H2 ->]]]; [left; exact H|right].
    split; [exact H1|]. split; [exact H2|lia].
Qed.

Lemma inb_same_length {A B : Type} (a : list A) (b : list B) (k : Z) :
  List.length a = List.length b -> Arr.inb a k = Arr.inb b k.
Proof. intros H. unfold Arr.inb, Arr.size. rewrite H. reflexivity. Qed.

(** The loop that adds the clones: clone [i] is the peptide [n0 + i], tied
    to the proteins of the [i]-th section, on both sides. *)
Lemma clone_loop (pepIndex : Z) (sects : IntSet.t) (by_section : list IntSet.t)
      (g : BasicBigraph) :
  sized (PSMsToProteins g) ->
  (forall i r, In r (Arr.get IntSet.empty by_section i) ->
               Arr.inb (associations (proteinsToPSMs g)) r = true) ->
  let n0 := Arr.size (names (PSMsToProteins g)) in
  let m := Arr.size by_section in
  let g1 := for_ m (addClone pepIndex sects by_section) g in
  let X := fun p r => exists i, 0 <= i < m /\ p = n0 + i
                                /\ In r (Arr.get IntSet.empty by_section i) in
  sized (PSMsToProteins g1)
  /\ names (proteinsToPSMs g1) = names (proteinsToPSMs g)
  /\ List.length (associations (proteinsToPSMs g1))
     = List.length (associations (proteinsToPSMs g))
  /\ (forall p r, In r (association (PSMsToProteins g1) p)
                  <-> In r (association (PSMsToProteins g) p) \/ X p r)
  /\ (forall r p, In p (association (proteinsToPSMs g1) r)
                  <-> In p (association (proteinsToPSMs g) r) \/ X p r).
Proof.
  intros Hsz Hrange. cbv zeta.
  set (n0 := Arr.size (names (PSMsToProteins g))).
  set (m := Arr.size by_section).
  assert (Hm : 0 <= m) by (unfold m, Arr.size; lia).
  assert (Hn0 : Arr.size (associations (PSMsToProteins g)) = n0).
  { unfold n0, Arr.size. unfold sized in Hsz. rewrite Hsz. reflexivity. }
  pose (X := fun (k p r : Z) => exists i, 0 <= i < k /\ p = n0 + i
                                          /\ In r (Arr.get IntSet.empty by_section i)).
  pose (P := fun (k : Z) (g' : BasicBigraph) =>
               Arr.size (names (PSMsToProteins g')) = n0 + k
               /\ Arr.size (associations (PSMsToProteins g')) = n0 + k
               /\ names (proteinsToPSMs g') = names (proteinsToPSMs g)
               /\ List.length (associations (proteinsToPSMs g'))
                  = List.length (associations (proteinsToPSMs g))
               /\ (forall p r, In r (association (PSMsToProteins g') p)
                               <-> In r (association (PSMsToProteins g) p) \/ X k p r)
               /\ (forall r p, In p (association (proteinsToPSMs g') r)
                               <-> In p (association (proteinsToPSMs g) r) \/ X k p r)).
  assert (H : P m (for_ m (addClone pepIndex sects by_section) g)).
  { apply for_ind; [| |exact Hm].
    - unfold P, X. repeat split; try lia; try tauto.
      + intros [H|[i [Hi _]]]; [exact H|lia].
      + intros [H|[i [Hi _]]]; [exact H|lia].
    - intros k g' Hk [P1 [P2 [P3 [P4 [P5 P6]]]]].
      pose proof (addClone_spec pepIndex sects by_section k g') as A.
      cbv zeta in A. destruct A as [A1 [A2 [A3 [A4 [A5 A6]]]]].
      assert (HX : forall p r, X (k + 1) p r
                               <-> X k p r
                                   \/ (p = n0 + k /\ In r (Arr.get IntSet.empty by_section k))).
      { intros p r. unfold X. split.
        - intros [i [Hi [Hp Hr]]]. destruct (Z.eq_dec i k) as [->|Hne].
          + right. auto.
          + left. exists i. split; [lia|auto].
        - intros [[i [Hi [Hp Hr]]]|[Hp Hr]].
          + exists i. split; [lia|auto].
          + exists k. split; [lia|auto]. }
      unfold P. rewrite A1, A2, A3, A4, P1, P2.
      split; [lia|]. split; [lia|]. split; [exact P3|]. split; [exact P4|].
      split.
      + intros p r. rewrite A5, P5, P2, HX. tauto.
      + intros r p. rewrite A6, P6, P1, HX.
        rewrite (inb_same_length _ _ r P4). split.
        * intros [[H|H]|[H1 [H2 H3]]]; auto.
        * intros [H|[H|[H1 H2]]]; auto.
          right. split; [exact H2|]. split; [eapply Hrange, H2|exact H1]. }
  destruct H as [P1 [P2 [P3 [P4 [P5 P6]]]]].
  split; [unfold sized; unfold Arr.size in P1, P2; lia|].
  split; [exact P3|]. split; [exact P4|]. split; [exact P5|exact P6].
Qed.

(** The loop that removes the original from the sets of its proteins. *)
Lemma sever_loop (pepIndex : Z) (by_section : list IntSet.t) (g : BasicBigraph) :
  let m := Arr.size by_section in
  let g2 := for_ m (fun k g =>
                      fold_left (fun g prot =>
                                   with_proteins g (sever (proteinsToPSMs g) prot pepIndex))
                                (Arr.get IntSet.empty by_section k) g) g in
  PSMsToProteins g2 = PSMsToProteins g
  /\ names (proteinsToPSMs g2) = names (proteinsToPSMs g)
  /\ List.length (associations (proteinsToPSMs g2))
     = List.length (associations (proteinsToPSMs g))
  /\ (forall r x, In x (association (proteinsToPSMs g2) r)
                  <-> In x (association (proteinsToPSMs g) r)
                      /\ ~ ((exists i, 0 <= i < m
                                       /\ In r (Arr.get IntSet.empty by_section i))
                            /\ x = pepIndex)).
Proof.
  cbv zeta. set (m := Arr.size by_section).
  assert (Hm : 0 <= m) by (unfold m, Arr.size; lia).
  pose (P := fun (k : Z) (g' : BasicBigraph) =>
               PSMsToProteins g' = PSMsToProteins g
               /\ names (proteinsToPSMs g') = names (proteinsToPSMs g)
               /\ List.length (associations (proteinsToPSMs g'))
                  = List.length (associations (proteinsToPSMs g))
               /\ (forall r x, In x (association (proteinsToPSMs g') r)
                               <-> In x (association (proteinsToPSMs g) r)
                                   /\ ~ ((exists i, 0 <= i < k
                                                    /\ In r (Arr.get IntSet.empty by_section i))
                                         /\ x = pepIndex))).
  apply (for_ind P); [| |exact Hm].
  - unfold P. repeat split; try tauto. intros [[i [Hi _]] _]. lia.
  - intros k g' Hk [P1 [P2 [P3 P4]]].
    pose proof (sever_all pepIndex (Arr.get IntSet.empty by_section k) g') as S.
    cbv zeta in S. destruct S as [S1 [S2 [S3 S4]]].
    unfold P. rewrite S1, S2, S3.
    split; [exact P1|]. split; [exact P2|]. split; [exact P3|].
    intros r x. rewrite S4, P4. split.
    + intros [[H Hn] Hk']. split; [exact H|]. intros [[i [Hi Hr]] ->].
      destruct (Z.eq_dec i k) as [->|Hne].
      * apply Hk'. split; [exact Hr|reflexivity].
      * apply Hn. split; [|reflexivity]. exists i. split; [lia|exact Hr].
    + intros [H Hn]. split; [split; [exact H|]|].
      * intros [[i [Hi Hr]] ->]. apply Hn. split; [|reflexivity].
        exists i. split; [lia|exact Hr].
      * intros [Hr ->]. apply Hn. split; [|reflexivity].
        exists k. split; [lia|exact Hr].
Qed.

Lemma clonePSM_inv (pepIndex : Z) (g : BasicBigraph) :
  graph_inv g -> graph_inv (clonePSM pepIndex g).
Proof.
  intros [Hs [Hz1 Hz2]]. unfold clonePSM.
  set (s := association (PSMsToProteins g) pepIndex).
  set (sects := sectionsOf g s).
  set (bs := proteinsBySection g s sects).
  destruct (proteinsBySection_spec g s) as [B0 [B1 B2]]. fold sects bs in B0, B1, B2.
  assert (Hrange : forall i r, In r (Arr.get IntSet.empty bs i) ->
                               Arr.inb (associations (proteinsToPSMs g)) r = true).
  { intros i r Hr. apply B1 in Hr. apply (symmetric_inb g pepIndex r Hs Hr). }
  pose proof (clone_loop pepIndex sects bs g Hz1 Hrange) as C. cbv zeta in C.
  set (g1 := for_ (Arr.size bs) (addClone pepIndex sects bs) g) in *.
  destruct C as [C1 [C2 [C3 [C4 C5]]]].
  pose proof (sever_loop pepIndex bs g1) as V. cbv zeta in V.
  set (g2 := for_ (Arr.size bs) _ g1) in *.
  destruct V as [V1 [V2 [V3 V4]]].
  assert (HE : forall r, (exists i, 0 <= i < Arr.size bs
                                    /\ In r (Arr.get IntSet.empty bs i))
                         <-> In r s).
  { intros r. split; [intros [i [_ Hr]]; eapply B1, Hr|apply B2]. }
  assert (HX : forall r, ~ (exists i, 0 <= i < Arr.size bs
                                      /\ pepIndex = Arr.size (names (PSMsToProteins g)) + i
                                      /\ In r (Arr.get IntSet.empty bs i))).
  { intros r [i [Hi [Hp Hr]]]. apply B1 in Hr.
    apply association_inb in Hr. apply inb_iff in Hr.
    unfold sized in Hz1. unfold Arr.size in *. lia. }
  unfold graph_inv.
  cbn [PSMsToProteins proteinsToPSMs with_PSMs with_numberClones].
  split; [|split].
  - intros p r.
    cbn [PSMsToProteins proteinsToPSMs with_PSMs with_numberClones].
    rewrite V1, association_set, V4, C5, HE.
    destruct (Z.eq_dec p pepIndex) as [->|Hne].
    + rewrite Z.eqb_refl, andb_true_r.
      assert (Hno : ~ In r (if Arr.inb (associations (PSMsToProteins g1)) pepIndex
                            then [] else association (PSMsToProteins g1) pepIndex)).
      { destruct (Arr.inb (associations (PSMsToProteins g1)) pepIndex) eqn:E;
          [simpl; tauto|].
        rewrite association_outside by exact E. simpl. tauto. }
      split; [intros H; contradiction|].
      intros [[H|H] Hn]; [|exfalso; apply (HX r H)].
      exfalso. apply Hn. split; [apply Hs, H|reflexivity].
    + replace (p =? pepIndex) with false by (symmetry; apply Z.eqb_neq; exact Hne).
      rewrite andb_false_r, C4, (Hs p r). split; [|tauto].
      intros H. split; [exact H|]. intros [_ Heq]. contradiction.
  - rewrite sized_set_association, V1. exact C1.
  - unfold sized. rewrite V2, V3, C2, C3. exact Hz2.
Qed.

(** ** Bipartite symmetry *)

Lemma read_graph_inv (clear allm : bool) (g : BasicBigraph) (input : string) (r : Reader) :
  fresh g -> read clear allm g input = Normal r ->
  graph_inv (this r)
  /\ NoDup (names (PSMsToProteins (this r)))
  /\ NoDup (names (proteinsToPSMs (this r))).
Proof.
  intros Hf. unfold read.
  destruct (read_loop clear allm (S (String.length input))
                      (read_init g (IStream.of_string input))) as [r0| | |] eqn:L;
    try discriminate.
  cbn [andThen]. intros H. injection H as <-.
  pose proof (read_loop_inv _ _ _ _ _ L (read_inv_init g _ Hf))
    as [Hs [H1 [H2 [H3 [H4 [H5 _]]]]]].
  unfold read_finish. reader_simpl.
  match goal with
  | |- context [pseudoCountPSMs ?g1] =>
      pose proof (pseudoCountPSMs_spec g1) as S; cbv zeta in S;
      remember (pseudoCountPSMs g1) as g' eqn:Eg; clear Eg; simpl in S
  end.
  destruct S as [S1 [S2 [S3 _]]]. unfold StringTable.getItemsByNumber in *.
  split; [split; [|split]|split].
  - apply (symmetric_ext (this r0)); [| |exact Hs]; intros k; unfold association.
    + rewrite S2. reflexivity.
    + rewrite S3. reflexivity.
  - unfold sized. rewrite S1, S2. symmetry. exact H1.
  - unfold sized. rewrite S3. simpl. symmetry. exact H3.
  - rewrite S1. exact H4.
  - rewrite S3. simpl. exact H5.
Qed.

Lemma connect_inv (pepNames : StringTable.t) (pepName : string)
      (proteinNames : StringTable.t) (protName : string) (g : BasicBigraph) :
  Arr.inb (associations (PSMsToProteins g)) (StringTable.lookup pepNames pepName) = true ->
  Arr.inb (associations (proteinsToPSMs g)) (StringTable.lookup proteinNames protName) = true ->
  graph_inv g -> graph_inv (connect pepNames pepName proteinNames protName g).
Proof.
  intros Hp Hr [Hs [H1 H2]].
  pose proof (connect_frame pepNames pepName proteinNames protName g) as F.
  cbv zeta in F. destruct F as [F1 [F2 [F3 [F4 _]]]].
  split; [apply connect_symmetric; assumption|].
  unfold sized in *. rewrite F1, F2, F3, F4. auto.
Qed.

Lemma disconnectPSM_inv (k : Z) (g : BasicBigraph) :
  graph_inv g -> graph_inv (disconnectPSM k g).
Proof.
  intros [Hs [H1 H2]].
  pose proof (disconnectPSM_frame k g) as F. cbv zeta in F.
  destruct F as [F1 [F2 [F3 F4]]].
  split; [apply disconnectPSM_symmetric, Hs|].
  unfold sized in *. rewrite F1, F2, F3, F4. auto.
Qed.

Lemma disconnectProtein_inv (k : Z) (g : BasicBigraph) :
  graph_inv g -> graph_inv (disconnectProtein k g).
Proof.
  intros [Hs [H1 H2]].
  pose proof (disconnectProtein_frame k g) as F. cbv zeta in F.
  destruct F as [F1 [F2 [F3 F4]]].
  split; [apply disconnectProtein_symmetric, Hs|].
  unfold sized in *. rewrite F1, F2, F3, F4. auto.
Qed.

(** C1: in every graph that [read] builds from a fresh one, and that
    [connect] (between two nodes of the graph), [disconnectPSM],
    [disconnectProtein], [clonePSM], [reindex] and the marking of the
    sections make of such a graph, protein [r] is in the association set
    of peptide [p] exactly when peptide [p] is in the association set of
    protein [r]. *)
Theorem bipartite_symmetry (g : BasicBigraph) :
  reachable g ->
  forall p r : Z,
    In r (association (PSMsToProteins g) p) <-> In p (association (proteinsToPSMs g) r).
Proof.
  intros H. cut (graph_inv g); [intros [Hs _]; exact Hs|].
  induction H as [clear allm g input r Hf Hr
                 |g pn p rn r _ IH Hp Hr
                 |g k _ IH |g k _ IH |g k _ IH
                 |cp ce cn g _ IH
                 |g n g' _ IH Hm].
  - apply (read_graph_inv _ _ _ _ _ Hf Hr).
  - apply connect_inv; assumption.
  - apply disconnectPSM_inv, IH.
  - apply disconnectProtein_inv, IH.
  - apply clonePSM_inv, IH.
  - apply reindex_inv, IH.
  - apply (same_edges_inv g); [|exact IH].
    apply (markSectionPartitions_frame _ _ _ Hm).
Qed.

Lemma bridged_reachable : reachable bridged.
Proof.
  unfold bridged.
  destruct (read true false (freshGraph 0 0.5) "e X c 1 r P1 r P2 p 0.0")
    as [r| | |] eqn:E; try (vm_compute in E; discriminate E).
  apply (reach_read true false (freshGraph 0 0.5) _ r (conj eq_refl eq_refl) E).
Defined.

Lemma bipartite_symmetry_witness :
  let g := reindex 0 0 0 (disconnectProtein 1 (clonePSM 0 bridged)) in
  g = mkGraph (mkLayer ["X"%string] [[0]] [0.5]%float [-1] [] [1])
              (mkLayer ["P1"%string] [[0]] [-1]%float [-1] [] [-1])
              0 0.5 [] 0
  /\ forall p r : Z,
      In r (association (PSMsToProteins g) p) <-> In p (association (proteinsToPSMs g) r).
Proof.
  split; [vm_compute; reflexivity|].
  apply bipartite_symmetry.
  apply reach_reindex, reach_disconnectProtein, reach_clonePSM, bridged_reachable.
Defined.

(** ** The record of the touches *)

Lemma Layer_eqb_eq (l l' : Layer) : Layer_eqb l l' = true <-> l = l'.
Proof. destruct l, l'; simpl; split; congruence. Qed.

Lemma Layer_eqb_refl (l : Layer) : Layer_eqb l l = true.
Proof. destruct l; reflexivity. Qed.

Lemma lastTouch_app (log : list (Layer * Z * Z)) (l' : Layer) (i s : Z) (l : Layer) (k : Z) :
  lastTouch (log ++ [(l', i, s)]) l k
  = if Layer_eqb l l' && (i =? k) then s else lastTouch log l k.
Proof. unfold lastTouch. rewrite rev_app_distr. reflexivity. Qed.

Lemma firstTouch_In (log : list (Layer * Z * Z)) (l : Layer) (k : Z) :
  firstTouch log l k <> -1 -> In (l, k, firstTouch log l k) log.
Proof.
  induction log as [|[[l' i] s] log IH]; simpl; [congruence|].
  destruct (Layer_eqb l l' && (i =? k)) eqn:E.
  - apply andb_true_iff in E. destruct E as [E1 E2].
    apply Layer_eqb_eq in E1. apply Z.eqb_eq in E2. subst. auto.
  - auto.
Qed.

Lemma lastTouch_In (log : list (Layer * Z * Z)) (l : Layer) (k : Z) :
  lastTouch log l k <> -1 -> In (l, k, lastTouch log l k) log.
Proof. unfold lastTouch. intros H. apply in_rev. apply firstTouch_In, H. Qed.

Lemma layer_with_layer (g : BasicBigraph) (l l' : Layer) (gl : GraphLayer) :
  layer (with_layer g l gl) l' = if Layer_eqb l' l then gl else layer g l'.
Proof. destruct l, l'; reflexivity. Qed.

(** The node is touched and already has this section. *)
Lemma record_touch_again (l : Layer) (index sec : Z) (m : Marking) :
  sec <> -1 ->
  section (layer (graph m) l) index = sec ->
  marks_record m -> marks_record (touch l index sec m).
Proof.
  intros Hsec Hs Hr l0 k Hin. unfold touch in *. cbn [graph touched] in *.
  destruct (Hr l0 k Hin) as [H1 H2]. split.
  - intros id. rewrite H1, in_app_iff. simpl. split; [auto|].
    intros [H|[H|[]]]; [exact H|]. injection H as -> -> ->.
    rewrite H2 in Hs. rewrite <- Hs. apply lastTouch_In. congruence.
  - rewrite lastTouch_app.
    destruct (Layer_eqb l0 l && (index =? k)) eqn:E; [|exact H2].
    apply andb_true_iff in E. destruct E as [E1 E2].
    apply Layer_eqb_eq in E1. apply Z.eqb_eq in E2. subst. reflexivity.
Qed.

(** The node is touched, gets the section and the mark. *)
Lemma record_touch_new (l : Layer) (index sec : Z) (m : Marking) :
  allocated (graph m) -> marks_record m ->
  let gl := layer (graph m) l in
  let gl1 := with_sections gl (Arr.set (sections gl) index sec) in
  let gl2 := with_sectionMarks gl1
               (Arr.set (sectionMarks gl1) index
                        (IntSet.union (sectionMark gl1 index) (IntSet.SingletonSet sec))) in
  let m2 := mkMarking (with_layer (graph m) l gl2) (touched m ++ [(l, index, sec)]) in
  marks_record m2 /\ allocated (graph m2).
Proof.
  intros Ha Hr. cbv zeta. split.
  - intros l0 k. cbn [graph touched]. rewrite layer_with_layer.
    destruct (Layer_eqb l0 l) eqn:El.
    + apply Layer_eqb_eq in El. subst l0.
      cbn [sections with_sections with_sectionMarks sectionMarks].
      unfold section, sectionMark.
      cbn [sections with_sections with_sectionMarks sectionMarks].
      rewrite inb_set. intros Hin.
      destruct (Hr l k Hin) as [H1 H2]. unfold section, sectionMark in H1, H2.
      rewrite lastTouch_app, Layer_eqb_refl. cbn [andb].
      assert (Hmk : Arr.inb (sectionMarks (layer (graph m) l)) index
                    = Arr.inb (sections (layer (graph m) l)) index)
        by (apply inb_same_length, (Ha l)).
      rewrite !get_set, Hmk.
      destruct (index =? k) eqn:E.
      * apply Z.eqb_eq in E. subst k. rewrite Z.eqb_refl, Hin. cbn [andb].
        split; [|reflexivity].
        intros id. rewrite In_union, H1, in_app_iff.
        unfold IntSet.SingletonSet. simpl. split.
        -- intros [H|[->|[]]]; auto.
        -- intros [H|[H|[]]]; [auto|]. injection H as ->. auto.
      * rewrite Z.eqb_sym, E, andb_false_r. split; [|exact H2].
        intros id. rewrite H1, in_app_iff. simpl. split; [auto|].
        intros [H|[H|[]]]; [exact H|]. injection H as -> ->.
        rewrite Z.eqb_refl in E. discriminate.
    + intros Hin. destruct (Hr l0 k Hin) as [H1 H2].
      rewrite lastTouch_app, El. cbn [andb]. split; [|exact H2].
      intros id. rewrite H1, in_app_iff. simpl. split; [auto|].
      intros [H|[H|[]]]; [exact H|]. injection H as -> -> ->.
      rewrite Layer_eqb_refl in El. discriminate.
  - intros l0. cbn [graph]. rewrite layer_with_layer.
    destruct (Layer_eqb l0 l) eqn:El; [|apply Ha].
    apply Layer_eqb_eq in El. subst l0.
    cbn [sections with_sections with_sectionMarks sectionMarks associations].
    rewrite !length_set. apply Ha.
Qed.

Lemma traceConnected_record (sec : Z) (fuel : nat) (index : Z) (l : Layer)
      (m m' : Marking) :
  sec <> -1 ->
  allocated (graph m) -> marks_record m ->
  traceConnected fuel index l sec m = Ret m' ->
  marks_record m' /\ allocated (graph m').
Proof.
  intros Hsec. revert index l m m'.
  induction fuel as [|fuel IH]; intros index l m m' Ha Hr; simpl; [discriminate|].
  destruct (section (layer (graph m) l) index =? sec) eqn:E.
  - intros H. injection H as <-. apply Z.eqb_eq in E.
    split; [apply record_touch_again; assumption|exact Ha].
  - pose proof (record_touch_new l index sec m Ha Hr) as N. cbv zeta in N.
    match goal with
    | |- (if ?c then _ else fold_left _ _ (Ret ?m2)) = _ -> _ =>
        change (marks_record m2 /\ allocated (graph m2)) in N;
        destruct c; [intros H; injection H as <-; exact N|];
        apply (foldM_inv (fun m' => marks_record m' /\ allocated (graph m')));
        [exact N|]
    end.
    intros a s s' _ [Hs1 Hs2] Ht. apply (IH _ _ _ _ Hs2 Hs1 Ht).
Qed.

(** ** The traversal ends within its budget *)

Lemma count_ne_le_length (sec : Z) (secs : list Z) :
  (count_ne sec secs <= List.length secs)%nat.
Proof. unfold count_ne. apply filter_length_le. Qed.

Lemma count_ne_upd (sec : Z) (secs : list Z) (n : nat) :
  (n < List.length secs)%nat ->
  count_ne sec secs
  = (count_ne sec (Arr.upd secs n sec)
     + if (nth n secs (-1) =? sec)%Z then 0 else 1)%nat.
Proof.
  unfold count_ne. revert n. induction secs as [|x secs IH]; intros n Hn; simpl in Hn; [lia|].
  destruct n as [|n]; simpl.
  - rewrite Z.eqb_refl. simpl. destruct (x =? sec); simpl; lia.
  - specialize (IH n ltac:(lia)).
    destruct (negb (x =? sec)); simpl; rewrite IH; lia.
Qed.

Lemma count_ne_set (sec : Z) (secs : list Z) (k : Z) :
  (count_ne sec (Arr.set secs k sec) <= count_ne sec secs)%nat
  /\ (Arr.inb secs k = true -> Arr.get (-1) secs k <> sec ->
      (count_ne sec (Arr.set secs k sec) < count_ne sec secs)%nat).
Proof.
  unfold Arr.set, Arr.get. destruct (Arr.inb secs k) eqn:E.
  - apply inb_iff in E. unfold Arr.size in E.
    pose proof (count_ne_upd sec secs (Z.to_nat k) ltac:(lia)) as H.
    split; [lia|]. intros _ Hne.
    destruct (nth (Z.to_nat k) secs (-1) =? sec) eqn:Q; [|lia].
    apply Z.eqb_eq in Q. contradiction.
  - split; [lia|discriminate].
Qed.

Lemma unmarked_with_layer (sec : Z) (g : BasicBigraph) (l : Layer) (gl : GraphLayer) :
  unmarked sec (with_layer g l gl)
  = (count_ne sec (sections gl) + count_ne sec (sections (layer g (other l))))%nat.
Proof. destruct l; unfold unmarked; simpl; lia. Qed.

Lemma unmarked_layers (sec : Z) (g : BasicBigraph) (l : Layer) :
  unmarked sec g
  = (count_ne sec (sections (layer g l)) + count_ne sec (sections (layer g (other l))))%nat.
Proof. destruct l; unfold unmarked; simpl; lia. Qed.

Lemma foldM_total {A S : Type} (P : S -> Prop) (f : A -> S -> Cxx S) (l : list A) (s : S) :
  P s -> (forall a s, In a l -> P s -> exists s', f a s = Ret s' /\ P s') ->
  exists s', fold_left (fun acc a => s <- acc ;; f a s) l (Ret s) = Ret s' /\ P s'.
Proof.
  revert s. induction l as [|a l IH]; intros s H0 Hstep; simpl.
  - eauto.
  - destruct (Hstep a s (or_introl eq_refl) H0) as [s1 [H1 P1]]. rewrite H1.
    apply IH; [exact P1|]. intros b s2 Hb. apply Hstep. right. exact Hb.
Qed.

Lemma traceConnected_S (fuel : nat) (index : Z) (l : Layer) (sec : Z) (m : Marking) :
  traceConnected (S fuel) index l sec m
  = if section (layer (graph m) l) index =? sec then Ret (touch l index sec m)
    else
      let gl2 := markedLayer (layer (graph m) l) index sec in
      let g2 := with_layer (graph m) l gl2 in
      let m2 := mkMarking g2 (touched m ++ [(l, index, sec)]) in
      if isPSMLayer l && PrimFloat.leb (weight gl2 index) (PeptideThreshold g2) then Ret m2
      else fold_left (fun acc it => m <- acc ;; traceConnected fuel it (other l) sec m)
                     (association gl2 index) (Ret m2).
Proof. reflexivity. Qed.

Lemma traceConnected_total (sec : Z) (fuel : nat) (index : Z) (l : Layer) (m : Marking) :
  allocated (graph m) ->
  (unmarked sec (graph m) < fuel)%nat ->
  exists m', traceConnected fuel index l sec m = Ret m'
             /\ (unmarked sec (graph m') <= unmarked sec (graph m))%nat
             /\ allocated (graph m').
Proof.
  revert index l m. induction fuel as [|fuel IH]; intros index l m Ha Hf; [lia|].
  rewrite traceConnected_S.
  destruct (section (layer (graph m) l) index =? sec) eqn:E.
  - eexists. split; [reflexivity|]. split; [simpl; lia|exact Ha].
  - apply Z.eqb_neq in E. cbv zeta.
    set (gl := layer (graph m) l) in *.
    set (gl2 := markedLayer gl index sec).
    set (g2 := with_layer (graph m) l gl2).
    assert (Hsec2 : sections gl2 = Arr.set (sections gl) index sec) by reflexivity.
    assert (Ha2 : allocated g2).
    { intros l0. unfold g2. rewrite layer_with_layer.
      destruct (Layer_eqb l0 l) eqn:El; [|apply Ha].
      apply Layer_eqb_eq in El. subst l0. unfold gl2, markedLayer.
      cbn [sections with_sections with_sectionMarks sectionMarks associations].
      rewrite !length_set. apply Ha. }
    destruct (count_ne_set sec (sections gl) index) as [Hle Hlt].
    assert (Hu2 : (unmarked sec g2 <= unmarked sec (graph m))%nat).
    { unfold g2. rewrite unmarked_with_layer, (unmarked_layers sec (graph m) l).
      rewrite Hsec2. fold gl. lia. }
    destruct (isPSMLayer l && PrimFloat.leb (weight gl2 index) (PeptideThreshold g2)).
    { eexists. split; [reflexivity|]. split; [exact Hu2|exact Ha2]. }
    destruct (Arr.inb (sections gl) index) eqn:Hin.
    + assert (Hu2' : (unmarked sec g2 < unmarked sec (graph m))%nat).
      { unfold g2. rewrite unmarked_with_layer, (unmarked_layers sec (graph m) l).
        rewrite Hsec2. fold gl. specialize (Hlt eq_refl E). lia. }
      destruct (foldM_total
                  (fun m' => (unmarked sec (graph m') <= unmarked sec g2)%nat
                             /\ allocated (graph m'))
                  (fun it m => traceConnected fuel it (other l) sec m)
                  (association gl2 index)
                  (mkMarking g2 (touched m ++ [(l, index, sec)])))
        as [m' [Hm' [Hu' Ha']]].
      * split; [simpl; lia|exact Ha2].
      * intros a s _ [Hs1 Hs2].
        destruct (IH a (other l) s Hs2 ltac:(lia)) as [s' [H1 [H2 H3]]].
        exists s'. split; [exact H1|]. split; [lia|exact H3].
      * exists m'. split; [exact Hm'|]. split; [lia|exact Ha'].
    + assert (Hnone : association gl2 index = []).
      { apply association_outside. unfold gl2, markedLayer.
        cbn [associations with_sections with_sectionMarks].
        rewrite <- Hin. symmetry. apply inb_same_length. apply (Ha l). }
      rewrite Hnone. simpl. eexists. split; [reflexivity|].
      split; [exact Hu2|exact Ha2].
Qed.

Lemma forM_total {S : Type} (P : S -> Prop) (n : Z) (body : Z -> S -> Cxx S) (s : S) :
  P s -> (forall k s, 0 <= k < n -> P s -> exists s', body k s = Ret s' /\ P s') ->
  exists s', forM n body s = Ret s' /\ P s'.
Proof.
  intros H0 Hstep. destruct (Z_le_gt_dec 0 n) as [Hn|Hn].
  - rewrite <- (Z2Nat.id n Hn).
    assert (Hle : (Z.to_nat n <= Z.to_nat n)%nat) by lia.
    revert Hle. generalize (Z.to_nat n) at 1 3 as k.
    induction k as [|k IH]; intros Hle.
    + exists s. split; [reflexivity|exact H0].
    + destruct (IH ltac:(lia)) as [s1 [H1 P1]].
      rewrite forM_step, H1. cbn [bind]. apply Hstep; [lia|exact P1].
  - exists s. unfold forM. replace (Z.to_nat n) with 0%nat by lia.
    split; [reflexivity|exact H0].
Qed.

(** ** Component marking *)

Lemma length_make {A : Type} (n : Z) (v : A) :
  0 <= n -> List.length (Arr.make n v) = Z.to_nat n.
Proof. intros _. unfold Arr.make. apply repeat_length. Qed.

Lemma clearMarks_allocated (g : BasicBigraph) :
  sized (PSMsToProteins g) -> sized (proteinsToPSMs g) -> allocated (clearMarks g).
Proof.
  intros H1 H2 l. unfold sized in *.
  destruct l; unfold clearMarks; cbn [layer PSMsToProteins proteinsToPSMs with_PSMs
                                      with_proteins sections sectionMarks associations
                                      with_sections with_sectionMarks names];
    unfold layer_size, Arr.size;
    rewrite !length_make by lia; rewrite !Nat2Z.id; (split; [assumption|reflexivity]).
Qed.

Lemma clearMarks_record (g : BasicBigraph) : marks_record (mkMarking (clearMarks g) []).
Proof.
  intros l k _. cbn [graph touched].
  assert (H : sectionMark (layer (clearMarks g) l) k = [] /\ section (layer (clearMarks g) l) k = -1).
  { destruct l; unfold clearMarks, sectionMark, section;
      cbn [layer PSMsToProteins proteinsToPSMs with_PSMs with_proteins sections
           sectionMarks with_sections with_sectionMarks];
      split; apply get_make. }
  destruct H as [-> ->]. split; [|reflexivity]. intros id. simpl. tauto.
Qed.

Lemma same_edges_layer (g g' : BasicBigraph) (l : Layer) :
  same_edges g g' ->
  names (layer g' l) = names (layer g l)
  /\ associations (layer g' l) = associations (layer g l).
Proof.
  intros [A1 [A2 [A3 [A4 [A5 [A6 A7]]]]]]. destruct l; simpl; auto.
Qed.

(** On a graph with as many names as association sets on each side the
    marking returns, with every node allocated and the record kept. *)
Lemma markSectionPartitions_run (g : BasicBigraph) :
  sized (PSMsToProteins g) -> sized (proteinsToPSMs g) ->
  exists n m,
    markSectionPartitions_traced g = Ret (n, m)
    /\ allocated (graph m) /\ marks_record m
    /\ same_edges (clearMarks g) (graph m).
Proof.
  intros Hz1 Hz2.
  pose (P := fun p : Z * Marking =>
               0 <= fst p /\ allocated (graph (snd p)) /\ marks_record (snd p)
               /\ same_edges (clearMarks g) (graph (snd p))).
  assert (Hfuel : forall sec m, allocated (graph m) -> same_edges (clearMarks g) (graph m) ->
                                (unmarked sec (graph m) < traceFuel (clearMarks g))%nat).
  { intros sec m Ha Hs. unfold unmarked, traceFuel.
    pose proof (count_ne_le_length sec (sections (PSMsToProteins (graph m)))) as C1.
    pose proof (count_ne_le_length sec (sections (proteinsToPSMs (graph m)))) as C2.
    destruct (Ha PSMLayer) as [L1 _]. destruct (Ha ProteinLayer) as [L2 _].
    destruct Hs as [_ [S2 [_ [_ [S5 _]]]]]. simpl in L1, L2.
    rewrite S2 in L1. rewrite S5 in L2. unfold sized in Hz1, Hz2.
    unfold clearMarks in *. simpl in *. lia. }
  destruct (forM_total P (layer_size (proteinsToPSMs (clearMarks g)))
              (fun k '(section_, m) =>
                 if section (proteinsToPSMs (graph m)) k =? -1 then
                   m <- traceConnected (traceFuel (clearMarks g)) k ProteinLayer section_ m ;;
                   Ret (section_ + 1, m)
                 else Ret (section_, m))
              (0, mkMarking (clearMarks g) [])) as [[n m] [Hrun [_ [Ha [Hr Hs]]]]].
  - unfold P. cbn [fst snd graph]. split; [lia|].
    split; [apply clearMarks_allocated; assumption|].
    split; [apply clearMarks_record|apply same_edges_refl].
  - intros k [sec m] _ [H0 [Ha [Hr Hs]]]. cbn [fst snd] in *.
    destruct (section (proteinsToPSMs (graph m)) k =? -1).
    + destruct (traceConnected_total sec (traceFuel (clearMarks g)) k ProteinLayer m Ha
                  (Hfuel sec m Ha Hs)) as [m' [Ht [_ Ha']]].
      rewrite Ht. cbn [bind]. eexists. split; [reflexivity|].
      unfold P. cbn [fst snd].
      destruct (traceConnected_record sec _ _ _ _ _ ltac:(lia) Ha Hr Ht) as [Hr' _].
      split; [lia|]. split; [exact Ha'|]. split; [exact Hr'|].
      apply (same_edges_trans _ (graph m)); [exact Hs|].
      apply (traceConnected_frame _ _ _ _ _ _ Ht).
    + eexists. split; [reflexivity|]. unfold P. cbn [fst snd]. auto.
  - cbn [fst snd] in *. exists n, m. split; [exact Hrun|auto].
Qed.

(** The traversal never stops for want of budget. *)
Lemma markSectionPartitions_total (g : BasicBigraph) :
  sized (PSMsToProteins g) -> sized (proteinsToPSMs g) ->
  exists n g', markSectionPartitions g = Ret (n, g').
Proof.
  intros Hz1 Hz2. destruct (markSectionPartitions_run g Hz1 Hz2) as [n [m [H _]]].
  exists n, (graph m). unfold markSectionPartitions. rewrite H. reflexivity.
Qed.

(** C3, as amended: on a graph with as many names as association sets on
    each side, [markSectionPartitions] returns; every node is then marked
    with exactly the sections for which the traversal touched it, and
    its section is the last of them (-1 when none touched it), also when
    several sections touched it, as happens to the peptides with a weight
    at or below [PeptideThreshold]. *)
Theorem component_marking (g : BasicBigraph) :
  sized (PSMsToProteins g) -> sized (proteinsToPSMs g) ->
  exists n m,
    markSectionPartitions_traced g = Ret (n, m)
    /\ markSectionPartitions g = Ret (n, graph m)
    /\ forall l k,
        0 <= k < layer_size (layer g l) ->
        (forall id, In id (sectionMark (layer (graph m) l) k) <-> In (l, k, id) (touched m))
        /\ section (layer (graph m) l) k = lastTouch (touched m) l k.
Proof.
  intros Hz1 Hz2.
  destruct (markSectionPartitions_run g Hz1 Hz2) as [n [m [Htr [Ha [Hr Hs]]]]].
  exists n, m. split; [exact Htr|].
  split; [unfold markSectionPartitions; rewrite Htr; reflexivity|].
  intros l k Hk. apply Hr. apply inb_iff.
  destruct (Ha l) as [L1 _].
  destruct (same_edges_layer _ _ l Hs) as [_ S2].
  unfold Arr.size. rewrite L1, S2.
  unfold layer_size, Arr.size in Hk. unfold sized in Hz1, Hz2.
  destruct l; unfold clearMarks; simpl in *; lia.
Qed.

(** The claim C3 as it stands fails on the peptide between two sections:
    in [bridged] the peptide X is touched for section 0 and then for
    section 1; it bears both marks, and its section is 1, the last, and not
    0, the first. *)
Lemma section_is_not_first_touch :
  match markSectionPartitions_traced bridged with
  | Ret (n, m) =>
      n = 2
      /\ sectionMark (PSMsToProteins (graph m)) 0 = [0; 1]
      /\ firstTouch (touched m) PSMLayer 0 = 0
      /\ lastTouch (touched m) PSMLayer 0 = 1
      /\ section (PSMsToProteins (graph m)) 0 = 1
  | _ => False
  end.
Proof. vm_compute. repeat split. Qed.

Lemma component_marking_witness :
  exists n m,
    markSectionPartitions bridged = Ret (n, graph m)
    /\ forall l k,
        0 <= k < layer_size (layer bridged l) ->
        (forall id, In id (sectionMark (layer (graph m) l) k) <-> In (l, k, id) (touched m))
        /\ section (layer (graph m) l) k = lastTouch (touched m) l k.
Proof.
  destruct (component_marking bridged) as [n [m [_ [H1 H2]]]].
  - reflexivity.
  - reflexivity.
  - exists n, m. split; [exact H1|exact H2].
Defined.

(** ** Partitioning *)

Lemma for_collect {A : Type} (f : Z -> A) (n : nat) :
  for_ (Z.of_nat n) (fun k result => Arr.add result (f k)) []
  = map (fun k => f (Z.of_nat k)) (seq 0 n).
Proof.
  induction n as [|n IH].
  - reflexivity.
  - rewrite for_step, IH, seq_S, map_app. reflexivity.
Qed.

Lemma for_collect_nth {A : Type} (f : Z -> A) (n : Z) (i : nat) (a : A) :
  nth_error (for_ n (fun k result => Arr.add result (f k)) []) i = Some a ->
  a = f (Z.of_nat i).
Proof.
  destruct (Z_le_gt_dec 0 n) as [Hn|Hn].
  - rewrite <- (Z2Nat.id n Hn), for_collect. intros H.
    pose proof (nth_error_Some (map (fun k => f (Z.of_nat k)) (seq 0 (Z.to_nat n))) i) as Hl.
    rewrite H in Hl. rewrite length_map, length_seq in Hl.
    assert (Hi : (i < Z.to_nat n)%nat) by (apply Hl; discriminate).
    rewrite nth_error_map in H. rewrite nth_error_nth' with (d := 0%nat) in H
      by (rewrite length_seq; exact Hi).
    rewrite seq_nth in H by exact Hi. simpl in H. injection H as <-. reflexivity.
  - unfold for_. replace (Z.to_nat n) with 0%nat by lia. simpl.
    destruct i; discriminate.
Qed.

Lemma get_inj_NoDup {A : Type} (d : A) (l : list A) (x y : Z) :
  NoDup l -> 0 <= x < Arr.size l -> 0 <= y < Arr.size l ->
  Arr.get d l x = Arr.get d l y -> x = y.
Proof.
  intros Hnd Hx Hy. unfold Arr.get.
  replace (Arr.inb l x) with true by (symmetry; apply inb_iff; exact Hx).
  replace (Arr.inb l y) with true by (symmetry; apply inb_iff; exact Hy).
  intros H. unfold Arr.size in *.
  assert (Z.to_nat x = Z.to_nat y); [|lia].
  apply (proj1 (NoDup_nth l d) Hnd); [lia|lia|exact H].
Qed.

(** What [groupBySection] puts at place [i]: nodes of the layer whose
    section is [i]. *)
Lemma groupBySection_spec (gl : GraphLayer) (n : Z) (subsets : list IntSet.t) :
  groupBySection gl (Arr.make n IntSet.empty) = Ret subsets ->
  forall i x, In x (Arr.get IntSet.empty subsets i) ->
              section gl x = i /\ 0 <= x < layer_size gl.
Proof.
  unfold groupBySection.
  apply (forM_inv (fun subsets =>
                     forall i x, In x (Arr.get IntSet.empty subsets i) ->
                                 section gl x = i /\ 0 <= x < layer_size gl)).
  - intros i x. rewrite get_make. intros [].
  - intros k s s' Hk Hs. unfold Arr.set_checked.
    destruct (Arr.inb s (section gl k)) eqn:E; [|discriminate].
    intros H. injection H as <-. intros i x.
    pose proof (get_set IntSet.empty s (section gl k) i
                        (IntSet.add (Arr.get IntSet.empty s (section gl k)) k)) as G.
    unfold Arr.set in G. rewrite E in G. rewrite G. cbn [andb].
    destruct (i =? section gl k) eqn:Q; [|apply Hs].
    apply Z.eqb_eq in Q. rewrite In_add. intros [->|H]; [auto|].
    rewrite Q. apply (Hs _ _ H).
Qed.

Lemma subgraph_names (ctorProt ctorPep : float) (ctorClones : Z)
      (connectedProteins connectedPSMs : IntSet.t) (g : BasicBigraph) :
  let sub := buildSubgraph ctorProt ctorPep ctorClones connectedProteins connectedPSMs g in
  names (PSMsToProteins sub) = select EmptyString (names (PSMsToProteins g)) connectedPSMs
  /\ names (proteinsToPSMs sub)
     = select EmptyString (names (proteinsToPSMs g)) connectedProteins.
Proof. split; reflexivity. Qed.

Lemma select_disjoint (nm : list string) (u v : IntSet.t) (i j : Z) (name : string)
      (sect : Z -> Z) :
  NoDup nm -> i <> j ->
  (forall x, In x u -> sect x = i /\ 0 <= x < Arr.size nm) ->
  (forall x, In x v -> sect x = j /\ 0 <= x < Arr.size nm) ->
  ~ (In name (select EmptyString nm u) /\ In name (select EmptyString nm v)).
Proof.
  intros Hnd Hij Hu Hv [H1 H2]. unfold select in *.
  apply in_map_iff in H1. destruct H1 as [x [Hx Hxu]].
  apply in_map_iff in H2. destruct H2 as [y [Hy Hyv]].
  destruct (Hu x Hxu) as [Sx Rx]. destruct (Hv y Hyv) as [Sy Ry].
  assert (x = y) by (apply (get_inj_NoDup EmptyString nm); congruence).
  subst y. congruence.
Qed.

(** The claim C2 as it stands fails once [prune] has cloned a peptide:
    [bridged] is pruned into two clones of X, one for each protein, and the
    two graphs that [partitionSections] returns both hold a peptide named X. *)
Lemma clones_share_their_name :
  match prune 0 0 0 0 bridged with
  | Ret g =>
      names (PSMsToProteins g) = ["X"; "X"]%string
      /\ match partitionSections 0 0 0 g with
         | Ret [g1; g2] =>
             In "X"%string (names (PSMsToProteins g1))
             /\ In "X"%string (names (PSMsToProteins g2))
             /\ names (proteinsToPSMs g1) = ["P1"%string]
             /\ names (proteinsToPSMs g2) = ["P2"%string]
         | _ => False
         end
  | _ => False
  end.
Proof. vm_compute. repeat split; left; reflexivity. Qed.

(** ** The pipeline of prune keeps the invariant *)

Lemma removePoorPSMs_inv (g : BasicBigraph) : graph_inv g -> graph_inv (removePoorPSMs g).
Proof.
  intros H. unfold removePoorPSMs. apply for_inv; [exact H|].
  intros k s _ Hs. destruct (PrimFloat.ltb _ _); [apply disconnectPSM_inv, Hs|exact Hs].
Qed.

Lemma removePoorProteins_inv (maxOfNone : float) (g : BasicBigraph) :
  graph_inv g -> graph_inv (removePoorProteins maxOfNone g).
Proof.
  intros H. unfold removePoorProteins. apply for_inv; [exact H|].
  intros k s _ Hs. destruct (PrimFloat.ltb _ _); [apply disconnectProtein_inv, Hs|exact Hs].
Qed.

Lemma saveSeveredProteins_inv (g : BasicBigraph) :
  graph_inv g -> graph_inv (saveSeveredProteins g).
Proof.
  intros H. unfold saveSeveredProteins. apply for_inv; [exact H|].
  intros k s _ Hs. destruct (_ =? 0); [exact Hs|exact Hs].
Qed.

Lemma cloneMultipleMarkedPSMs_inv (g : BasicBigraph) :
  graph_inv g -> graph_inv (cloneMultipleMarkedPSMs g).
Proof.
  intros H. unfold cloneMultipleMarkedPSMs. apply for_inv; [exact H|].
  intros k s _ Hs. destruct (1 <? _); [apply clonePSM_inv, Hs|exact Hs].
Qed.

Lemma prune_inv (ctorProt ctorPep : float) (ctorClones : Z) (maxOfNone : float)
      (g g' : BasicBigraph) :
  graph_inv g -> prune ctorProt ctorPep ctorClones maxOfNone g = Ret g' -> graph_inv g'.
Proof.
  intros H. unfold prune. intros E.
  apply bind_not_Ret in E. destruct E as [[n g1] [Hm E]]. injection E as <-.
  apply reindex_inv. apply cloneMultipleMarkedPSMs_inv. cbn [snd].
  apply (same_edges_inv _ _ (markSectionPartitions_frame _ _ _ Hm)).
  apply reindex_inv. apply saveSeveredProteins_inv, removePoorProteins_inv,
                       removePoorPSMs_inv, H.
Qed.

(** ** The names of the proteins through prune *)

Lemma In_connectedNodes (gl : GraphLayer) (k : Z) :
  In k (connectedNodes gl) <-> 0 <= k < layer_size gl /\ association gl k <> [].
Proof.
  unfold connectedNodes.
  assert (Hn : 0 <= layer_size gl) by (unfold layer_size, Arr.size; lia).
  pose (P := fun (j : Z) (s : IntSet.t) =>
               In k s <-> 0 <= k < j /\ association gl k <> []).
  apply (for_ind P); [| |exact Hn].
  - unfold P. simpl. split; [tauto|lia].
  - intros j s Hj Hs. unfold P in *.
    destruct (IntSet.isEmpty (association gl j)) eqn:E; cbn [negb].
    + rewrite Hs. destruct (association gl j) eqn:A; [|discriminate].
      split; intros [R N]; (split; [|exact N]); [lia|].
      assert (k <> j) by (intros ->; apply N; exact A). lia.
    + rewrite In_add, Hs. split.
      * intros [->|[R N]]; [|split; [lia|exact N]].
        split; [lia|]. intros A. rewrite A in E. discriminate.
      * intros [R N]. destruct (Z.eq_dec k j) as [->|D]; [left; reflexivity|].
        right. split; [lia|exact N].
Qed.

Lemma select_NoDup (nm : list string) (s : IntSet.t) :
  NoDup nm -> NoDup s -> (forall x, In x s -> 0 <= x < Arr.size nm) ->
  NoDup (select EmptyString nm s).
Proof.
  intros Hn Hs Hr. unfold select. induction s as [|a s IH]; simpl; [constructor|].
  inversion Hs as [|? ? Ha Hs']; subst. constructor.
  - intros Hin. apply in_map_iff in Hin. destruct Hin as [y [Hy Hys]].
    apply Ha. replace a with y; [exact Hys|].
    apply (get_inj_NoDup EmptyString nm); auto.
    + apply Hr. right. exact Hys.
    + apply Hr. left. reflexivity.
  - apply IH; [exact Hs'|]. intros x Hx. apply Hr. right. exact Hx.
Qed.

Lemma reindex_protein_names (ctorProt ctorPep : float) (ctorClones : Z) (g : BasicBigraph) :
  NoDup (names (proteinsToPSMs g)) ->
  NoDup (names (proteinsToPSMs (reindex ctorProt ctorPep ctorClones g))).
Proof.
  intros H. unfold reindex, buildSubgraph.
  cbn [with_PSMs with_proteins with_numberClones with_severedProteins with_PeptideThreshold
       PSMsToProteins proteinsToPSMs subLayer names].
  apply select_NoDup; [exact H|apply ascending_NoDup, connectedNodes_ascending|].
  intros x Hx. apply In_connectedNodes in Hx. exact (proj1 Hx).
Qed.

Lemma disconnect_names (g : BasicBigraph) (n : Z) (f : Z -> BasicBigraph -> BasicBigraph) :
  (forall k s, names (proteinsToPSMs (f k s)) = names (proteinsToPSMs s)) ->
  names (proteinsToPSMs (for_ n f g)) = names (proteinsToPSMs g).
Proof.
  intros H. apply (for_inv (fun s => names (proteinsToPSMs s) = names (proteinsToPSMs g)));
    [reflexivity|].
  intros k s _ Hs. rewrite H. exact Hs.
Qed.

Lemma clonePSM_protein_names (pepIndex : Z) (g : BasicBigraph) :
  names (proteinsToPSMs (clonePSM pepIndex g)) = names (proteinsToPSMs g).
Proof.
  unfold clonePSM. cbv zeta.
  cbn [with_numberClones with_PSMs proteinsToPSMs].
  match goal with
  | |- names (proteinsToPSMs (for_ ?m ?f2 (for_ ?m ?f1 g))) = _ =>
      pose proof (sever_loop pepIndex
                    (proteinsBySection g (association (PSMsToProteins g) pepIndex)
                       (sectionsOf g (association (PSMsToProteins g) pepIndex)))
                    (for_ m f1 g)) as S;
      cbv zeta in S; destruct S as [_ [S _]]; rewrite S
  end.
  apply disconnect_names. intros k s.
  pose proof (addClone_spec pepIndex
                (sectionsOf g (association (PSMsToProteins g) pepIndex))
                (proteinsBySection g (association (PSMsToProteins g) pepIndex)
                   (sectionsOf g (association (PSMsToProteins g) pepIndex))) k s) as A.
  cbv zeta in A. destruct A as [_ [_ [A _]]]. exact A.
Qed.

Lemma prune_protein_names (ctorProt ctorPep : float) (ctorClones : Z) (maxOfNone : float)
      (g g' : BasicBigraph) :
  NoDup (names (proteinsToPSMs g)) ->
  prune ctorProt ctorPep ctorClones maxOfNone g = Ret g' ->
  NoDup (names (proteinsToPSMs g')).
Proof.
  intros H. unfold prune. intros E.
  apply bind_not_Ret in E. destruct E as [[n g1] [Hm E]]. injection E as <-.
  apply reindex_protein_names. cbn [snd].
  unfold cloneMultipleMarkedPSMs. cbv zeta.
  rewrite disconnect_names.
  2:{ intros k s. destruct (1 <? _); [apply clonePSM_protein_names|reflexivity]. }
  cbn [with_numberClones proteinsToPSMs].
  destruct (markSectionPartitions_frame _ _ _ Hm) as [_ [_ [_ [F _]]]]. rewrite F.
  apply reindex_protein_names.
  unfold saveSeveredProteins. rewrite disconnect_names.
  2:{ intros k s. destruct (_ =? 0); reflexivity. }
  cbn [with_severedProteins proteinsToPSMs].
  unfold removePoorProteins. rewrite disconnect_names.
  2:{ intros k s. destruct (PrimFloat.ltb _ _); [|reflexivity].
      destruct (disconnectProtein_frame k s) as [_ [F2 _]]. exact F2. }
  unfold removePoorPSMs. rewrite disconnect_names.
  2:{ intros k s. destruct (PrimFloat.ltb _ _); [|reflexivity].
      destruct (disconnectPSM_frame k s) as [_ [F2 _]]. exact F2. }
  exact H.
Qed.

(** The graphs that [partitionSections] returns, one for each section. *)
Lemma partition_components (ctorProt ctorPep : float) (ctorClones : Z)
      (g : BasicBigraph) (components : list BasicBigraph) :
  partitionSections ctorProt ctorPep ctorClones g = Ret components ->
  exists n g' proteinSubsets PSMSubsets,
    markSectionPartitions g = Ret (n, g')
    /\ groupBySection (proteinsToPSMs g') (Arr.make n IntSet.empty) = Ret proteinSubsets
    /\ groupBySection (PSMsToProteins g') (Arr.make n IntSet.empty) = Ret PSMSubsets
    /\ forall i gi,
        nth_error components i = Some gi ->
        gi = buildSubgraph ctorProt ctorPep ctorClones
                           (Arr.get IntSet.empty proteinSubsets (Z.of_nat i))
                           (Arr.get IntSet.empty PSMSubsets (Z.of_nat i)) g'.
Proof.
  unfold partitionSections. intros H.
  apply bind_not_Ret in H. destruct H as [[n g'] [Hm H]]. cbn [fst snd] in H.
  apply bind_not_Ret in H. destruct H as [protSub [Hp H]].
  apply bind_not_Ret in H. destruct H as [psmSub [Hs H]].
  injection H as <-.
  exists n, g', protSub, psmSub. split; [exact Hm|]. split; [exact Hp|].
  split; [exact Hs|]. intros i gi Hi. apply for_collect_nth in Hi. exact Hi.
Qed.

(** C2, as amended: of the graphs that [partitionSections] returns, the
    one at place [i] is the subgraph of the nodes whose section is [i], so
    that no protein node and no peptide node is in two of them; no protein
    name is in two of them when no name is twice among the proteins of the
    graph, and no peptide name is in two of them when no name is twice
    among its peptides. The proteins are so in every graph that [read]
    builds and [prune] then prunes, whose returned graphs therefore share
    no protein name; the peptides are so after [read], but not once
    [prune] has cloned one, the clones bearing the name of their original. *)
Theorem partition_independence :
  (forall (ctorProt ctorPep : float) (ctorClones : Z)
          (g : BasicBigraph) (components : list BasicBigraph),
      partitionSections ctorProt ctorPep ctorClones g = Ret components ->
      exists n g' proteinSubsets PSMSubsets,
        markSectionPartitions g = Ret (n, g')
        /\ groupBySection (proteinsToPSMs g') (Arr.make n IntSet.empty) = Ret proteinSubsets
        /\ groupBySection (PSMsToProteins g') (Arr.make n IntSet.empty) = Ret PSMSubsets
        /\ forall i j gi gj,
            nth_error components i = Some gi ->
            nth_error components j = Some gj ->
            i <> j ->
            let Pi := Arr.get IntSet.empty proteinSubsets (Z.of_nat i) in
            let Pj := Arr.get IntSet.empty proteinSubsets (Z.of_nat j) in
            let Ei := Arr.get IntSet.empty PSMSubsets (Z.of_nat i) in
            let Ej := Arr.get IntSet.empty PSMSubsets (Z.of_nat j) in
            gi = buildSubgraph ctorProt ctorPep ctorClones Pi Ei g'
            /\ gj = buildSubgraph ctorProt ctorPep ctorClones Pj Ej g'
            /\ (forall r, ~ (In r Pi /\ In r Pj))
            /\ (forall p, ~ (In p Ei /\ In p Ej))
            /\ (NoDup (names (proteinsToPSMs g)) ->
                forall name, ~ (In name (names (proteinsToPSMs gi))
                                /\ In name (names (proteinsToPSMs gj))))
            /\ (NoDup (names (PSMsToProteins g)) ->
                forall name, ~ (In name (names (PSMsToProteins gi))
                                /\ In name (names (PSMsToProteins gj)))))
  /\ (forall (clear allm : bool) (ctorProt ctorPep : float) (ctorClones : Z) (maxOfNone : float)
             (g0 : BasicBigraph) (input : string) (r : Reader)
             (g : BasicBigraph) (components : list BasicBigraph),
         fresh g0 ->
         read clear allm g0 input = Normal r ->
         prune ctorProt ctorPep ctorClones maxOfNone (this r) = Ret g ->
         partitionSections ctorProt ctorPep ctorClones g = Ret components ->
         forall i j gi gj,
           nth_error components i = Some gi ->
           nth_error components j = Some gj ->
           i <> j ->
           forall name, ~ (In name (names (proteinsToPSMs gi))
                           /\ In name (names (proteinsToPSMs gj)))).
Proof.
  assert (A : forall (ctorProt ctorPep : float) (ctorClones : Z)
                     (g : BasicBigraph) (components : list BasicBigraph),
             partitionSections ctorProt ctorPep ctorClones g = Ret components ->
             NoDup (names (proteinsToPSMs g)) ->
             forall i j gi gj,
               nth_error components i = Some gi ->
               nth_error components j = Some gj ->
               i <> j ->
               forall name, ~ (In name (names (proteinsToPSMs gi))
                               /\ In name (names (proteinsToPSMs gj)))).
  { intros ctorProt ctorPep ctorClones g components H Hnd i j gi gj Hi Hj Hij name.
    destruct (partition_components _ _ _ _ _ H) as [n [g' [ps [es [Hm [Hp [_ Hc]]]]]]].
    rewrite (Hc i gi Hi), (Hc j gj Hj).
    pose proof (markSectionPartitions_frame _ _ _ Hm) as [_ [_ [_ [F4 _]]]].
    pose proof (groupBySection_spec _ _ _ Hp) as Gp.
    cbn [buildSubgraph PSMsToProteins proteinsToPSMs with_PSMs with_proteins subLayer names].
    rewrite F4.
    apply (select_disjoint _ _ _ (Z.of_nat i) (Z.of_nat j) name
                           (section (proteinsToPSMs g')) Hnd ltac:(lia)).
    - intros x Hx. destruct (Gp _ _ Hx) as [S R]. unfold layer_size in R.
      rewrite F4 in R. auto.
    - intros x Hx. destruct (Gp _ _ Hx) as [S R]. unfold layer_size in R.
      rewrite F4 in R. auto. }
  split.
  - intros ctorProt ctorPep ctorClones g components H.
    destruct (partition_components _ _ _ _ _ H) as [n [g' [ps [es [Hm [Hp [Hs Hc]]]]]]].
    exists n, g', ps, es. split; [exact Hm|]. split; [exact Hp|]. split; [exact Hs|].
    intros i j gi gj Hi Hj Hij. cbv zeta.
    pose proof (markSectionPartitions_frame _ _ _ Hm) as [F1 _].
    pose proof (groupBySection_spec _ _ _ Hp) as Gp.
    pose proof (groupBySection_spec _ _ _ Hs) as Gs.
    split; [apply Hc, Hi|]. split; [apply Hc, Hj|].
    split; [|split; [|split]].
    + intros x [H1 H2]. apply Gp in H1. apply Gp in H2. lia.
    + intros x [H1 H2]. apply Gs in H1. apply Gs in H2. lia.
    + intros Hnd. apply (A _ _ _ _ _ H Hnd i j); assumption.
    + intros Hnd name. rewrite (Hc i gi Hi), (Hc j gj Hj).
      cbn [buildSubgraph PSMsToProteins proteinsToPSMs with_PSMs with_proteins subLayer names].
      rewrite F1.
      apply (select_disjoint _ _ _ (Z.of_nat i) (Z.of_nat j) name
                             (section (PSMsToProteins g')) Hnd ltac:(lia)).
      * intros x Hx. destruct (Gs _ _ Hx) as [S R]. unfold layer_size in R.
        rewrite F1 in R. auto.
      * intros x Hx. destruct (Gs _ _ Hx) as [S R]. unfold layer_size in R.
        rewrite F1 in R. auto.
  - intros clear allm ctorProt ctorPep ctorClones maxOfNone g0 input r g components
           Hf Hr Hpr H.
    apply (A _ _ _ _ _ H).
    apply (prune_protein_names _ _ _ _ _ _
             (proj2 (proj2 (read_graph_inv _ _ _ _ _ Hf Hr))) Hpr).
Qed.

(** [bridged] once pruned: two clones named X, and two components that
    share no protein name. *)
Lemma partition_independence_witness :
  match prune 0 0 0 0 bridged with
  | Ret g =>
      names (PSMsToProteins g) = ["X"; "X"]%string
      /\ exists components,
          partitionSections 0 0 0 g = Ret components
          /\ List.length components = 2%nat
          /\ forall i j gi gj,
              nth_error components i = Some gi ->
              nth_error components j = Some gj ->
              i <> j ->
              forall name, ~ (In name (names (proteinsToPSMs gi))
                              /\ In name (names (proteinsToPSMs gj)))
  | _ => False
  end.
Proof.
  destruct (prune 0 0 0 0 bridged) as [g| | |] eqn:P; try (vm_compute in P; discriminate P).
  assert (Hn : names (PSMsToProteins g) = ["X"; "X"]%string
               /\ names (proteinsToPSMs g) = ["P1"; "P2"]%string)
    by (vm_compute in P; injection P as <-; split; reflexivity).
  destruct Hn as [Hn1 Hn2]. split; [exact Hn1|].
  destruct (partitionSections 0 0 0 g) as [components| | |] eqn:E;
    try (vm_compute in P; injection P as <-; vm_compute in E; discriminate E).
  exists components. split; [reflexivity|].
  split; [vm_compute in P; injection P as <-; vm_compute in E; injection E as <-; reflexivity|].
  destruct (proj1 partition_independence 0%float 0%float 0 g components E)
    as [n [g' [ps [es [_ [_ [_ H]]]]]]].
  intros i j gi gj Hi Hj Hij.
  destruct (H i j gi gj Hi Hj Hij) as [_ [_ [_ [_ [Hprot _]]]]].
  apply Hprot. rewrite Hn2. repeat constructor; simpl; intuition discriminate.
Defined.

(** * Further properties of the operations *)

(** ** The example graphs as read builds them *)

Lemma mixed_read :
  read true false (freshGraph 0.5 (-2))
       "e AB c 2 r P1 p -1 e CD c 1 r P2 p 0.8 e EF c 1 r P2 r P3 p 0.3"
  = Normal (mkReader (IStream.mk "" true) "EF" "P3" 0.3 2 1 "e"
                     ["AB"; "CD"; "EF"]%string ["P1"; "P2"; "P3"]%string mixed [] []).
Proof. vm_compute. reflexivity. Qed.

Lemma loose_read :
  read true false (freshGraph 0 0.5) "e AB c 2 r P1 p 0.9 e CD"
  = Normal (mkReader (IStream.mk "" true) "CD" "P1" 0.9 1 2 "c"
                     ["AB"; "CD"]%string ["P1"]%string loose [] []).
Proof. vm_compute. reflexivity. Qed.

(** ** What the changes of the edges leave alone *)

Lemma layer_frame_refl (gl : GraphLayer) : layer_frame gl gl.
Proof. unfold layer_frame. repeat split. Qed.

Lemma layer_frame_trans (a b c : GraphLayer) :
  layer_frame a b -> layer_frame b c -> layer_frame a c.
Proof. unfold layer_frame. intuition congruence. Qed.

Lemma edges_only_refl (g : BasicBigraph) : edges_only g g.
Proof. unfold edges_only. repeat split. Qed.

Lemma edges_only_trans (a b c : BasicBigraph) :
  edges_only a b -> edges_only b c -> edges_only a c.
Proof.
  unfold edges_only. intros [A1 [A2 A3]] [B1 [B2 B3]].
  split; [eapply layer_frame_trans; eauto|].
  split; [eapply layer_frame_trans; eauto|]. intuition congruence.
Qed.

Lemma layer_frame_set_association (gl : GraphLayer) (k : Z) (s : IntSet.t) :
  layer_frame gl (set_association gl k s).
Proof.
  unfold layer_frame, set_association. simpl. rewrite length_set. repeat split.
Qed.

Lemma edges_only_swap (g g' : BasicBigraph) :
  edges_only (swap g) (swap g') <-> edges_only g g'.
Proof. unfold edges_only, swap. simpl. tauto. Qed.

Lemma add_add (s : IntSet.t) (v : Z) : IntSet.add (IntSet.add s v) v = IntSet.add s v.
Proof.
  induction s as [|x s IH]; simpl.
  - rewrite Z.ltb_irrefl, Z.eqb_refl. reflexivity.
  - destruct (v <? x) eqn:L; simpl.
    + rewrite Z.ltb_irrefl, Z.eqb_refl. reflexivity.
    + destruct (v =? x) eqn:E; simpl; rewrite L, E; [reflexivity|]. rewrite IH. reflexivity.
Qed.

Lemma upd_upd {A : Type} (a : list A) (n : nat) (v v' : A) :
  Arr.upd (Arr.upd a n v) n v' = Arr.upd a n v'.
Proof.
  revert n. induction a as [|x a IH]; intros [|n]; simpl; try reflexivity.
  f_equal. apply IH.
Qed.

Lemma set_set {A : Type} (a : list A) (k : Z) (v v' : A) :
  Arr.set (Arr.set a k v) k v' = Arr.set a k v'.
Proof.
  unfold Arr.set at 1. rewrite inb_set. unfold Arr.set.
  destruct (Arr.inb a k); [apply upd_upd|reflexivity].
Qed.

Lemma join_join (gl : GraphLayer) (k v : Z) : join (join gl k v) k v = join gl k v.
Proof.
  unfold join, set_association, with_associations, association. cbn [names associations weights sections sectionMarks chargeStates].
  f_equal. rewrite get_set, Z.eqb_refl.
  destruct (Arr.inb (associations gl) k) eqn:Hk; cbn [andb].
  - unfold IntSet.union, IntSet.SingletonSet. cbn [fold_left]. rewrite add_add.
    apply set_set.
  - unfold Arr.set. rewrite !Hk. reflexivity.
Qed.

Lemma connect_connect (pn : StringTable.t) (p : string) (rn : StringTable.t) (r : string)
      (g : BasicBigraph) :
  connect pn p rn r (connect pn p rn r g) = connect pn p rn r g.
Proof.
  unfold connect. cbn [PSMsToProteins proteinsToPSMs with_PSMs with_proteins].
  unfold with_proteins, with_PSMs. cbn [PSMsToProteins proteinsToPSMs ProteinThreshold PeptideThreshold severedProteins numberClones].
  rewrite !join_join. reflexivity.
Qed.

Lemma ascending_union_singleton (s : IntSet.t) (v : Z) :
  ascending s -> ascending (IntSet.union s (IntSet.SingletonSet v)).
Proof. intros H. apply ascending_add, H. Qed.

Lemma connect_edges (pepNames : StringTable.t) (pepName : string)
      (proteinNames : StringTable.t) (protName : string) (g : BasicBigraph) :
  let pepIndex := StringTable.lookup pepNames pepName in
  let protIndex := StringTable.lookup proteinNames protName in
  let g' := connect pepNames pepName proteinNames protName g in
  Arr.inb (associations (PSMsToProteins g)) pepIndex = true ->
  Arr.inb (associations (proteinsToPSMs g)) protIndex = true ->
  (forall p r, In r (association (PSMsToProteins g') p)
               <-> In r (association (PSMsToProteins g) p)
                   \/ (p = pepIndex /\ r = protIndex))
  /\ (forall r p, In p (association (proteinsToPSMs g') r)
                  <-> In p (association (proteinsToPSMs g) r)
                      \/ (r = protIndex /\ p = pepIndex)).
Proof.
  cbv zeta. intros Hp Hr. split.
  - intros p r. unfold connect. cbn [PSMsToProteins with_PSMs with_proteins].
    rewrite In_join, Hp. tauto.
  - intros r p. unfold connect. cbn [proteinsToPSMs with_PSMs with_proteins].
    rewrite In_join, Hr. tauto.
Qed.

(** [connect] between a peptide and a protein of the graph adds the edge
    between the two to both sides and nothing else: every other edge, the
    names, the weights, the sections and the scalars are as before, the
    sets stay in ascending order, and connecting the two a second time
    changes nothing. *)
Theorem connect_adds_one_edge (pepNames : StringTable.t) (pepName : string)
        (proteinNames : StringTable.t) (protName : string) (g : BasicBigraph) :
  let pepIndex := StringTable.lookup pepNames pepName in
  let protIndex := StringTable.lookup proteinNames protName in
  let g' := connect pepNames pepName proteinNames protName g in
  Arr.inb (associations (PSMsToProteins g)) pepIndex = true ->
  Arr.inb (associations (proteinsToPSMs g)) protIndex = true ->
  (forall p r, In r (association (PSMsToProteins g') p)
               <-> In r (association (PSMsToProteins g) p)
                   \/ (p = pepIndex /\ r = protIndex))
  /\ (forall r p, In p (association (proteinsToPSMs g') r)
                  <-> In p (association (proteinsToPSMs g) r)
                      \/ (r = protIndex /\ p = pepIndex))
  /\ edges_only g g'
  /\ (ascending (association (PSMsToProteins g) pepIndex) ->
      ascending (association (PSMsToProteins g') pepIndex))
  /\ (ascending (association (proteinsToPSMs g) protIndex) ->
      ascending (association (proteinsToPSMs g') protIndex))
  /\ connect pepNames pepName proteinNames protName g' = g'.
Proof.
  cbv zeta. intros Hp Hr.
  destruct (connect_edges pepNames pepName proteinNames protName g Hp Hr) as [E1 E2].
  split; [exact E1|]. split; [exact E2|]. split; [|split; [|split]].
  - unfold edges_only, connect.
    cbn [PSMsToProteins proteinsToPSMs with_PSMs with_proteins ProteinThreshold
         PeptideThreshold severedProteins numberClones].
    split; [apply layer_frame_set_association|].
    split; [apply layer_frame_set_association|]. repeat split.
  - intros H. unfold connect. cbn [PSMsToProteins with_PSMs with_proteins].
    unfold join. rewrite association_set, Hp, Z.eqb_refl. cbn [andb].
    apply ascending_union_singleton, H.
  - intros H. unfold connect. cbn [proteinsToPSMs with_PSMs with_proteins].
    unfold join. rewrite association_set, Hr, Z.eqb_refl. cbn [andb].
    apply ascending_union_singleton, H.
  - apply connect_connect.
Qed.

Lemma sever_all_frame (k : Z) (l : list Z) (g : BasicBigraph) :
  edges_only g (fold_left (fun g it => with_proteins g (sever (proteinsToPSMs g) it k)) l g).
Proof.
  revert g. induction l as [|a l IH]; intros g; simpl.
  - apply edges_only_refl.
  - eapply edges_only_trans; [|apply IH].
    unfold edges_only. cbn [with_proteins PSMsToProteins proteinsToPSMs ProteinThreshold
                            PeptideThreshold severedProteins numberClones].
    split; [apply layer_frame_refl|]. split; [apply layer_frame_set_association|].
    repeat split.
Qed.

Lemma disconnectPSM_edges_only (k : Z) (g : BasicBigraph) : edges_only g (disconnectPSM k g).
Proof.
  unfold disconnectPSM. eapply edges_only_trans; [apply sever_all_frame|].
  unfold edges_only. cbn [with_PSMs PSMsToProteins proteinsToPSMs ProteinThreshold
                          PeptideThreshold severedProteins numberClones].
  split; [apply layer_frame_set_association|]. split; [apply layer_frame_refl|].
  repeat split.
Qed.

Lemma disconnectPSM_edges (k : Z) (g : BasicBigraph) :
  symmetric g ->
  (forall p, association (PSMsToProteins (disconnectPSM k g)) p
             = if p =? k then [] else association (PSMsToProteins g) p)
  /\ (forall r p, In p (association (proteinsToPSMs (disconnectPSM k g)) r)
                  <-> In p (association (proteinsToPSMs g) r) /\ p <> k).
Proof.
  intros Hs. unfold disconnectPSM.
  pose proof (sever_all k (association (PSMsToProteins g) k) g) as H.
  cbv zeta in H. destruct H as [H1 [_ [_ H4]]].
  cbn [with_PSMs PSMsToProteins proteinsToPSMs]. rewrite H1.
  split.
  - intros p. rewrite association_set.
    destruct (p =? k) eqn:E; [|rewrite andb_false_r; reflexivity].
    apply Z.eqb_eq in E. subst p.
    destruct (Arr.inb (associations (PSMsToProteins g)) k) eqn:Hk; [reflexivity|].
    apply association_outside, Hk.
  - intros r p. rewrite H4. split.
    + intros [H N]. split; [exact H|]. intros ->. apply N. split; [|reflexivity].
      apply Hs. exact H.
    + intros [H N]. split; [exact H|]. intros [_ E]. auto.
Qed.

Lemma swap_swap (g : BasicBigraph) : swap (swap g) = g.
Proof. destruct g; reflexivity. Qed.

(** On a graph with symmetric edges [disconnectPSM k] takes from the graph
    the edges of peptide [k], on both sides, and no other: the peptide is
    left without a protein, every other peptide keeps its proteins, and
    every protein loses [k] alone. The nodes stay, with their names,
    weights and sections. *)
Theorem disconnectPSM_removes_its_edges (k : Z) (g : BasicBigraph) :
  symmetric g ->
  let g' := disconnectPSM k g in
  (forall p, association (PSMsToProteins g') p
             = if p =? k then [] else association (PSMsToProteins g) p)
  /\ (forall r p, In p (association (proteinsToPSMs g') r)
                  <-> In p (association (proteinsToPSMs g) r) /\ p <> k)
  /\ edges_only g g' /\ symmetric g'.
Proof.
  intros Hs. cbv zeta. destruct (disconnectPSM_edges k g Hs) as [H1 H2].
  split; [exact H1|]. split; [exact H2|].
  split; [apply disconnectPSM_edges_only|apply disconnectPSM_symmetric, Hs].
Qed.

(** [disconnectProtein k] does the same from the other side: protein [k]
    is left without a peptide, every other protein keeps its peptides, and
    every peptide loses [k] alone. *)
Theorem disconnectProtein_removes_its_edges (k : Z) (g : BasicBigraph) :
  symmetric g ->
  let g' := disconnectProtein k g in
  (forall r, association (proteinsToPSMs g') r
             = if r =? k then [] else association (proteinsToPSMs g) r)
  /\ (forall p r, In r (association (PSMsToProteins g') p)
                  <-> In r (association (PSMsToProteins g) p) /\ r <> k)
  /\ edges_only g g' /\ symmetric g'.
Proof.
  intros Hs. cbv zeta. rewrite disconnectProtein_swap.
  assert (Hs' : symmetric (swap g)) by (apply symmetric_swap, Hs).
  destruct (disconnectPSM_edges k (swap g) Hs') as [H1 H2].
  cbn [swap PSMsToProteins proteinsToPSMs] in *.
  split; [exact H1|]. split; [exact H2|]. split.
  - apply edges_only_swap. rewrite swap_swap. apply disconnectPSM_edges_only.
  - apply symmetric_swap, disconnectPSM_symmetric, Hs'.
Qed.

(** The loop that disconnects the peptides a test picks, where the test
    looks only at what the disconnections leave alone. *)
Lemma disconnect_loop (cond : BasicBigraph -> Z -> bool) (g : BasicBigraph) (n : Z) :
  (forall s k, edges_only g s ->
               association (PSMsToProteins s) k = association (PSMsToProteins g) k ->
               cond s k = cond g k) ->
  symmetric g ->
  let g' := for_ n (fun k s => if cond s k then disconnectPSM k s else s) g in
  symmetric g' /\ edges_only g g'
  /\ (forall p, association (PSMsToProteins g') p
                = if (0 <=? p) && (p <? n) && cond g p then []
                  else association (PSMsToProteins g) p)
  /\ (forall r p, In p (association (proteinsToPSMs g') r)
                  <-> In p (association (proteinsToPSMs g) r)
                      /\ (0 <=? p) && (p <? n) && cond g p = false).
Proof.
  intros Hc Hs. cbv zeta.
  destruct (Z_le_gt_dec 0 n) as [Hn|Hn].
  2:{ unfold for_. replace (Z.to_nat n) with 0%nat by lia. simpl.
      split; [exact Hs|]. split; [apply edges_only_refl|].
      assert (E : forall p, (0 <=? p) && (p <? n) = false).
      { intros p. destruct (0 <=? p) eqn:A; [|reflexivity].
        apply Z.leb_le in A. simpl. apply Z.ltb_ge. lia. }
      split; intros; rewrite E; simpl; tauto. }
  pose (P := fun (j : Z) (s : BasicBigraph) =>
               symmetric s /\ edges_only g s
               /\ (forall p, association (PSMsToProteins s) p
                             = if (0 <=? p) && (p <? j) && cond g p then []
                               else association (PSMsToProteins g) p)
               /\ (forall r p, In p (association (proteinsToPSMs s) r)
                               <-> In p (association (proteinsToPSMs g) r)
                                   /\ (0 <=? p) && (p <? j) && cond g p = false)).
  apply (for_ind P); [| |exact Hn].
  - unfold P. split; [exact Hs|]. split; [apply edges_only_refl|].
    assert (E : forall p, (0 <=? p) && (p <? 0) = false).
    { intros p. destruct (0 <=? p) eqn:A; [|reflexivity].
      apply Z.leb_le in A. simpl. apply Z.ltb_ge. lia. }
    split; intros; rewrite E; simpl; tauto.
  - intros k s Hk [S1 [S2 [S3 S4]]]. unfold P.
    assert (Ek : association (PSMsToProteins s) k = association (PSMsToProteins g) k).
    { rewrite S3. replace (k <? k) with false by (symmetry; apply Z.ltb_ge; lia).
      rewrite andb_false_r. reflexivity. }
    rewrite (Hc s k S2 Ek).
    assert (B : forall p, (0 <=? p) && (p <? k + 1) && cond g p
                          = ((0 <=? p) && (p <? k) && cond g p) || ((p =? k) && cond g k)).
    { intros p. destruct (p =? k) eqn:E.
      - apply Z.eqb_eq in E. subst p.
        replace (0 <=? k) with true by (symmetry; apply Z.leb_le; lia).
        replace (k <? k + 1) with true by (symmetry; apply Z.ltb_lt; lia).
        replace (k <? k) with false by (symmetry; apply Z.ltb_ge; lia).
        reflexivity.
      - apply Z.eqb_neq in E. rewrite andb_false_l, orb_false_r.
        replace (p <? k + 1) with (p <? k); [reflexivity|].
        destruct (p <? k) eqn:L; symmetry;
          [apply Z.ltb_lt; apply Z.ltb_lt in L; lia
          |apply Z.ltb_ge; apply Z.ltb_ge in L; lia]. }
    destruct (cond g k) eqn:C.
    + destruct (disconnectPSM_edges k s S1) as [D1 D2].
      split; [apply disconnectPSM_symmetric, S1|].
      split; [eapply edges_only_trans; [exact S2|apply disconnectPSM_edges_only]|].
      split.
      * intros p. rewrite D1, S3, B.
        destruct (p =? k); [rewrite andb_true_l, orb_true_r; reflexivity|].
        rewrite andb_false_l, orb_false_r. reflexivity.
      * intros r p. rewrite D2, S4, B. destruct (p =? k) eqn:E.
        -- apply Z.eqb_eq in E. rewrite andb_true_l, orb_true_r. intuition discriminate.
        -- apply Z.eqb_neq in E. rewrite andb_false_l, orb_false_r. tauto.
    + split; [exact S1|]. split; [exact S2|]. split.
      * intros p. rewrite S3, B, andb_false_r, orb_false_r. reflexivity.
      * intros r p. rewrite S4, B, andb_false_r, orb_false_r. reflexivity.
Qed.

Lemma inb_range {A : Type} (a : list A) (k : Z) :
  (0 <=? k) && (k <? Arr.size a) = Arr.inb a k.
Proof. reflexivity. Qed.

Lemma association_sized (gl : GraphLayer) (p : Z) :
  sized gl -> (0 <=? p) && (p <? layer_size gl) = false -> association gl p = [].
Proof.
  intros Hz H. apply association_outside. unfold Arr.inb, layer_size, Arr.size in *.
  rewrite <- Hz. exact H.
Qed.

Lemma In_association_sized (gl : GraphLayer) (p x : Z) :
  sized gl -> In x (association gl p) -> (0 <=? p) && (p <? layer_size gl) = true.
Proof.
  intros Hz H. destruct ((0 <=? p) && (p <? layer_size gl)) eqn:E; [reflexivity|].
  rewrite (association_sized gl p Hz E) in H. destruct H.
Qed.

(** [removePoorPSMs] disconnects the peptides whose weight is below 0, and
    no other (the test against the peptide threshold is commented out in
    the source): such a peptide is left without a protein, every other
    peptide keeps its proteins, and every protein keeps exactly its
    peptides whose weight is not below 0. A weight that is not a number is
    not below 0, and its peptide stays connected. The nodes, their names
    and their weights stay. *)
Theorem removePoorPSMs_edges (g : BasicBigraph) :
  symmetric g -> sized (PSMsToProteins g) ->
  let g' := removePoorPSMs g in
  symmetric g' /\ edges_only g g'
  /\ (forall p, association (PSMsToProteins g') p
                = if PrimFloat.ltb (weight (PSMsToProteins g) p) 0 then []
                  else association (PSMsToProteins g) p)
  /\ (forall r p, In p (association (proteinsToPSMs g') r)
                  <-> In p (association (proteinsToPSMs g) r)
                      /\ PrimFloat.ltb (weight (PSMsToProteins g) p) 0 = false).
Proof.
  intros Hs Hz. cbv zeta. unfold removePoorPSMs.
  destruct (disconnect_loop (fun s k => PrimFloat.ltb (weight (PSMsToProteins s) k) 0) g
                            (layer_size (PSMsToProteins g))) as [L1 [L2 [L3 L4]]].
  - intros s k [[_ [W _]] _] _. unfold weight. rewrite W. reflexivity.
  - exact Hs.
  - split; [exact L1|]. split; [exact L2|]. split.
    + intros p. rewrite L3.
      destruct ((0 <=? p) && (p <? layer_size (PSMsToProteins g))) eqn:R; [reflexivity|].
      rewrite (association_sized _ _ Hz R). destruct (PrimFloat.ltb _ _); reflexivity.
    + intros r p. rewrite L4. split.
      * intros [H C]. split; [exact H|].
        apply Hs in H. rewrite (In_association_sized _ _ _ Hz H) in C.
        exact C.
      * intros [H C]. split; [exact H|]. rewrite C.
        apply andb_false_r.
Qed.

(** [removeDegeneratePSMs] disconnects the peptides that have more than one
    protein, and no other: afterwards no peptide has more than one protein,
    and every protein keeps exactly its peptides that had no other
    protein. *)
Theorem removeDegeneratePSMs_edges (g : BasicBigraph) :
  symmetric g -> sized (PSMsToProteins g) ->
  let g' := removeDegeneratePSMs g in
  symmetric g' /\ edges_only g g'
  /\ (forall p, association (PSMsToProteins g') p
                = if 1 <? IntSet.size (association (PSMsToProteins g) p) then []
                  else association (PSMsToProteins g) p)
  /\ (forall p, IntSet.size (association (PSMsToProteins g') p) <= 1)
  /\ (forall r p, In p (association (proteinsToPSMs g') r)
                  <-> In p (association (proteinsToPSMs g) r)
                      /\ IntSet.size (association (PSMsToProteins g) p) <= 1).
Proof.
  intros Hs Hz. cbv zeta. unfold removeDegeneratePSMs.
  destruct (disconnect_loop
              (fun s k => 1 <? IntSet.size (association (PSMsToProteins s) k)) g
              (layer_size (PSMsToProteins g))) as [L1 [L2 [L3 L4]]].
  - intros s k _ E. rewrite E. reflexivity.
  - exact Hs.
  - assert (A : forall p, association
                            (PSMsToProteins
                               (for_ (layer_size (PSMsToProteins g))
                                     (fun k s =>
                                        if 1 <? IntSet.size (association (PSMsToProteins s) k)
                                        then disconnectPSM k s else s) g)) p
                          = if 1 <? IntSet.size (association (PSMsToProteins g) p) then []
                            else association (PSMsToProteins g) p).
    { intros p. rewrite L3.
      destruct ((0 <=? p) && (p <? layer_size (PSMsToProteins g))) eqn:R; [reflexivity|].
      rewrite (association_sized _ _ Hz R). destruct (1 <? _); reflexivity. }
    split; [exact L1|]. split; [exact L2|]. split; [exact A|]. split.
    + intros p. rewrite A.
      destruct (1 <? IntSet.size (association (PSMsToProteins g) p)) eqn:E.
      * unfold IntSet.size, Arr.size. simpl. lia.
      * apply Z.ltb_ge in E. exact E.
    + intros r p. rewrite L4. split.
      * intros [H C]. split; [exact H|].
        apply Hs in H. rewrite (In_association_sized _ _ _ Hz H) in C.
        apply Z.ltb_ge. exact C.
      * intros [H C]. split; [exact H|]. apply Z.ltb_ge in C. rewrite C.
        apply andb_false_r.
Qed.

Lemma for_map {S T : Type} (h : S -> T) (n : Z) (f : Z -> T -> T) (f' : Z -> S -> S) (s : S) :
  (forall k s, f k (h s) = h (f' k s)) -> for_ n f (h s) = h (for_ n f' s).
Proof.
  intros H. unfold for_. generalize (seq 0 (Z.to_nat n)) as l. intros l. revert s.
  induction l as [|a l IH]; intros s; simpl; [reflexivity|].
  rewrite H. apply IH.
Qed.

(** [removePoorProteins] disconnects the proteins whose best peptide
    weight is below the protein threshold, the test being made on the
    graph as it is when the loop starts: disconnecting a protein changes
    neither a weight nor the peptides of another protein. Such a protein is
    left without a peptide, every other protein keeps its peptides, and
    every peptide keeps exactly its proteins that are not poor. *)
Theorem removePoorProteins_edges (maxOfNone : float) (g : BasicBigraph) :
  symmetric g -> sized (proteinsToPSMs g) ->
  let g' := removePoorProteins maxOfNone g in
  symmetric g' /\ edges_only g g'
  /\ (forall r, association (proteinsToPSMs g') r
                = if poor maxOfNone g r then [] else association (proteinsToPSMs g) r)
  /\ (forall p r, In r (association (PSMsToProteins g') p)
                  <-> In r (association (PSMsToProteins g) p) /\ poor maxOfNone g r = false).
Proof.
  intros Hs Hz. cbv zeta.
  assert (E : removePoorProteins maxOfNone g
              = swap (for_ (layer_size (PSMsToProteins (swap g)))
                           (fun k s => if poor maxOfNone (swap s) k then disconnectPSM k s else s)
                           (swap g))).
  { unfold removePoorProteins. rewrite <- (swap_swap g) at 2.
    cbn [swap PSMsToProteins].
    apply (for_map swap). intros k s. unfold poor.
    cbn [swap PSMsToProteins proteinsToPSMs ProteinThreshold].
    destruct (PrimFloat.ltb _ _); [|reflexivity].
    rewrite disconnectProtein_swap, swap_swap. reflexivity. }
  rewrite E.
  destruct (disconnect_loop (fun s k => poor maxOfNone (swap s) k) (swap g)
                            (layer_size (PSMsToProteins (swap g)))) as [L1 [L2 [L3 L4]]].
  - intros s k [[_ [_ _]] [[_ [W _]] [T _]]] A. unfold poor.
    cbn [swap PSMsToProteins proteinsToPSMs ProteinThreshold] in *.
    rewrite A, W, T. reflexivity.
  - apply symmetric_swap, Hs.
  - cbv beta in L3, L4. rewrite swap_swap in L3, L4.
    split; [apply symmetric_swap; exact L1|].
    split; [apply edges_only_swap; rewrite swap_swap; exact L2|].
    cbn [swap PSMsToProteins proteinsToPSMs] in *. split.
    + intros r. rewrite L3.
      destruct ((0 <=? r) && (r <? layer_size (proteinsToPSMs g))) eqn:R; [reflexivity|].
      rewrite (association_sized _ _ Hz R). destruct (poor maxOfNone g r); reflexivity.
    + intros p r. rewrite L4. split.
      * intros [H C]. split; [exact H|].
        apply Hs in H. rewrite (In_association_sized _ _ _ Hz H) in C. exact C.
      * intros [H C]. split; [exact H|]. rewrite C. apply andb_false_r.
Qed.

Lemma indices_succ (k : Z) : 0 <= k -> indices (k + 1) = indices k ++ [k].
Proof.
  intros Hk. unfold indices. replace (Z.to_nat (k + 1)) with (S (Z.to_nat k)) by lia.
  rewrite seq_S, map_app. simpl. rewrite Z2Nat.id by lia. reflexivity.
Qed.

Lemma In_indices (n k : Z) : In k (indices n) <-> 0 <= k < n.
Proof.
  unfold indices. rewrite in_map_iff. split.
  - intros [x [<- H]]. apply in_seq in H. lia.
  - intros H. exists (Z.to_nat k). split; [lia|]. apply in_seq. lia.
Qed.

(** [saveSeveredProteins] replaces the list of the severed proteins by the
    names of the proteins that have no peptide, in the order of their
    indices, whatever the list held before; the graph is otherwise as it
    was. *)
Theorem saveSeveredProteins_lists_isolated (g : BasicBigraph) :
  let g' := saveSeveredProteins g in
  severedProteins g'
  = map (name_of (proteinsToPSMs g))
        (filter (fun k => IntSet.isEmpty (association (proteinsToPSMs g) k))
                (indices (layer_size (proteinsToPSMs g))))
  /\ PSMsToProteins g' = PSMsToProteins g
  /\ proteinsToPSMs g' = proteinsToPSMs g
  /\ ProteinThreshold g' = ProteinThreshold g
  /\ PeptideThreshold g' = PeptideThreshold g
  /\ numberClones g' = numberClones g.
Proof.
  cbv zeta. unfold saveSeveredProteins.
  assert (Hn : 0 <= layer_size (proteinsToPSMs g)) by (unfold layer_size, Arr.size; lia).
  pose (P := fun (j : Z) (s : BasicBigraph) =>
               severedProteins s
               = map (name_of (proteinsToPSMs g))
                     (filter (fun k => IntSet.isEmpty (association (proteinsToPSMs g) k))
                             (indices j))
               /\ PSMsToProteins s = PSMsToProteins g
               /\ proteinsToPSMs s = proteinsToPSMs g
               /\ ProteinThreshold s = ProteinThreshold g
               /\ PeptideThreshold s = PeptideThreshold g
               /\ numberClones s = numberClones g).
  apply (for_ind P); [| |exact Hn].
  - unfold P. repeat split.
  - intros k s Hk [S1 [S2 [S3 [S4 [S5 S6]]]]]. unfold P.
    rewrite indices_succ, filter_app, map_app by lia. rewrite S3. simpl.
    assert (E : (IntSet.size (association (proteinsToPSMs g) k) =? 0)
                = IntSet.isEmpty (association (proteinsToPSMs g) k)).
    { destruct (association (proteinsToPSMs g) k); [reflexivity|].
      reflexivity. }
    rewrite E. destruct (IntSet.isEmpty _).
    + simpl. rewrite S1. repeat split; assumption.
    + simpl. rewrite app_nil_r. repeat split; assumption.
Qed.

(** ** The example graphs *)

Lemma symmetricb_sound (g : BasicBigraph) : symmetricb g = true -> symmetric g.
Proof.
  unfold symmetricb. intros H. apply andb_true_iff in H. destruct H as [H1 H2].
  rewrite forallb_forall in H1, H2. intros p r. split; intros Hin.
  - pose proof (association_inb _ _ _ Hin) as I. apply inb_iff in I.
    specialize (H1 p (proj2 (In_indices _ _) I)). rewrite forallb_forall in H1.
    apply mem_In, H1, Hin.
  - pose proof (association_inb _ _ _ Hin) as I. apply inb_iff in I.
    specialize (H2 r (proj2 (In_indices _ _) I)). rewrite forallb_forall in H2.
    apply mem_In, H2, Hin.
Qed.

Lemma mixed_inv : graph_inv mixed.
Proof. split; [apply symmetricb_sound; reflexivity|split; reflexivity]. Qed.

Lemma loose_inv : graph_inv loose.
Proof. split; [apply symmetricb_sound; reflexivity|split; reflexivity]. Qed.

(** The peptide AB of [mixed] connected with the protein P3. *)
Lemma connect_adds_one_edge_witness :
  In 2 (association
          (PSMsToProteins (connect ["AB"; "CD"; "EF"]%string "AB"
                                   ["P1"; "P2"; "P3"]%string "P3" mixed)) 0)
  /\ In 0 (association
             (proteinsToPSMs (connect ["AB"; "CD"; "EF"]%string "AB"
                                      ["P1"; "P2"; "P3"]%string "P3" mixed)) 2)
  /\ ~ In 2 (association
               (PSMsToProteins (connect ["AB"; "CD"; "EF"]%string "AB"
                                        ["P1"; "P2"; "P3"]%string "P3" mixed)) 1).
Proof.
  destruct (connect_adds_one_edge ["AB"; "CD"; "EF"]%string "AB"
                                  ["P1"; "P2"; "P3"]%string "P3" mixed eq_refl eq_refl)
    as [H1 [H2 _]].
  split; [apply H1; right; split; reflexivity|].
  split; [apply H2; right; split; reflexivity|].
  intros H. apply H1 in H. destruct H as [H|[H _]]; [|discriminate H].
  vm_compute in H. intuition discriminate.
Defined.

(** The peptide EF of [mixed] disconnected: P2 keeps CD, P3 has nothing. *)
Lemma disconnectPSM_removes_its_edges_witness :
  association (PSMsToProteins (disconnectPSM 2 mixed)) 2 = []
  /\ association (PSMsToProteins (disconnectPSM 2 mixed)) 1 = [1]
  /\ (forall p, In p (association (proteinsToPSMs (disconnectPSM 2 mixed)) 2) -> False).
Proof.
  destruct (disconnectPSM_removes_its_edges 2 mixed (proj1 mixed_inv)) as [H1 [H2 _]].
  split; [rewrite H1; reflexivity|]. split; [rewrite H1; reflexivity|].
  intros p H. apply H2 in H. destruct H as [H N]. vm_compute in H.
  destruct H as [H|[]]. apply N. symmetry. exact H.
Defined.

(** The protein P2 of [mixed] disconnected: CD has nothing, EF keeps P3. *)
Lemma disconnectProtein_removes_its_edges_witness :
  association (proteinsToPSMs (disconnectProtein 1 mixed)) 1 = []
  /\ association (proteinsToPSMs (disconnectProtein 1 mixed)) 2 = [2]
  /\ (forall r, In r (association (PSMsToProteins (disconnectProtein 1 mixed)) 1) -> False).
Proof.
  destruct (disconnectProtein_removes_its_edges 1 mixed (proj1 mixed_inv)) as [H1 [H2 _]].
  split; [rewrite H1; reflexivity|]. split; [rewrite H1; reflexivity|].
  intros r H. apply H2 in H. destruct H as [H N]. vm_compute in H.
  destruct H as [H|[]]. apply N. symmetry. exact H.
Defined.

(** In [mixed] the peptide AB has the weight -1: it loses P1, and P1 its
    only peptide; EF, of weight 0.3, keeps its two proteins. *)
Lemma removePoorPSMs_edges_witness :
  association (PSMsToProteins (removePoorPSMs mixed)) 0 = []
  /\ association (PSMsToProteins (removePoorPSMs mixed)) 2 = [1; 2]
  /\ (forall p, In p (association (proteinsToPSMs (removePoorPSMs mixed)) 0) -> False).
Proof.
  destruct (removePoorPSMs_edges mixed (proj1 mixed_inv) (proj1 (proj2 mixed_inv)))
    as [_ [_ [H1 H2]]].
  split; [rewrite H1; reflexivity|]. split; [rewrite H1; reflexivity|].
  intros p H. apply H2 in H. destruct H as [H W]. vm_compute in H.
  destruct H as [<-|[]]. vm_compute in W. discriminate W.
Defined.

(** In [mixed] the peptide EF has two proteins and loses both. *)
Lemma removeDegeneratePSMs_edges_witness :
  association (PSMsToProteins (removeDegeneratePSMs mixed)) 2 = []
  /\ association (PSMsToProteins (removeDegeneratePSMs mixed)) 1 = [1]
  /\ IntSet.size (association (PSMsToProteins (removeDegeneratePSMs mixed)) 2) <= 1.
Proof.
  destruct (removeDegeneratePSMs_edges mixed (proj1 mixed_inv) (proj1 (proj2 mixed_inv)))
    as [_ [_ [H1 [H2 _]]]].
  split; [rewrite H1; reflexivity|]. split; [rewrite H1; reflexivity|]. apply H2.
Defined.

(** In [mixed], with the protein threshold 0.5, P1 (best weight -1) and P3
    (best weight 0.3) are poor, and P2 (best weight 0.8) is not. *)
Lemma removePoorProteins_edges_witness :
  association (proteinsToPSMs (removePoorProteins 0 mixed)) 0 = []
  /\ association (proteinsToPSMs (removePoorProteins 0 mixed)) 1 = [1; 2]
  /\ association (proteinsToPSMs (removePoorProteins 0 mixed)) 2 = [].
Proof.
  destruct (removePoorProteins_edges 0 mixed (proj1 mixed_inv) (proj2 (proj2 mixed_inv)))
    as [_ [_ [H1 _]]].
  repeat split; rewrite H1; reflexivity.
Defined.

(** ** Subgraphs and reindexing *)

Lemma neighbour_connected (g : BasicBigraph) (p r : Z) :
  graph_inv g -> In r (association (PSMsToProteins g) p) ->
  In p (connectedNodes (PSMsToProteins g)) /\ In r (connectedNodes (proteinsToPSMs g)).
Proof.
  intros [Hs [Hz1 Hz2]] H. pose proof (proj1 (Hs p r) H) as H'.
  rewrite !In_connectedNodes. split; split.
  - pose proof (In_association_sized _ _ _ Hz1 H) as R.
    apply andb_true_iff in R. destruct R as [R1 R2].
    apply Z.leb_le in R1. apply Z.ltb_lt in R2. lia.
  - intros E. rewrite E in H. destruct H.
  - pose proof (In_association_sized _ _ _ Hz2 H') as R.
    apply andb_true_iff in R. destruct R as [R1 R2].
    apply Z.leb_le in R1. apply Z.ltb_lt in R2. lia.
  - intros E. rewrite E in H'. destruct H'.
Qed.

Lemma layer_size_subLayer (gl : GraphLayer) (keep opposite : IntSet.t) :
  layer_size (subLayer gl keep opposite) = IntSet.size keep.
Proof.
  unfold layer_size, subLayer, select, IntSet.size, Arr.size. simpl.
  rewrite length_map. reflexivity.
Qed.

Lemma get_select {A : Type} (d : A) (a : list A) (s : IntSet.t) (k : Z) :
  Arr.inb s k = true -> Arr.get d (select d a s) k = Arr.get d a (IntSet.nth_ s k).
Proof.
  intros H. unfold select. rewrite (get_map 0), H. reflexivity.
Qed.

(** [buildSubgraph] keeps the nodes of the two sets, in the order of the
    sets, with their names, weights, sections and charge states; of the
    edges it keeps those between two kept nodes, each end renumbered to
    its rank in its set, and an edge to a node out of the sets is dropped.
    The marks of the sections are not carried over, and the scalars and
    the severed list are those of a freshly constructed graph. *)
Theorem buildSubgraph_keeps_inner_edges (ctorProt ctorPep : float) (ctorClones : Z)
        (connectedProteins connectedPSMs : IntSet.t) (g : BasicBigraph) :
  let sub := buildSubgraph ctorProt ctorPep ctorClones connectedProteins connectedPSMs g in
  layer_size (PSMsToProteins sub) = IntSet.size connectedPSMs
  /\ layer_size (proteinsToPSMs sub) = IntSet.size connectedProteins
  /\ (forall k y, In y (association (PSMsToProteins sub) k)
                  <-> 0 <= k < IntSet.size connectedPSMs
                      /\ exists x, In x (association (PSMsToProteins g)
                                                     (IntSet.nth_ connectedPSMs k))
                                   /\ In x connectedProteins
                                   /\ IntSet.find connectedProteins x = y)
  /\ (forall k y, In y (association (proteinsToPSMs sub) k)
                  <-> 0 <= k < IntSet.size connectedProteins
                      /\ exists x, In x (association (proteinsToPSMs g)
                                                     (IntSet.nth_ connectedProteins k))
                                   /\ In x connectedPSMs
                                   /\ IntSet.find connectedPSMs x = y)
  /\ (forall k, 0 <= k < IntSet.size connectedPSMs ->
                let p := IntSet.nth_ connectedPSMs k in
                name_of (PSMsToProteins sub) k = name_of (PSMsToProteins g) p
                /\ weight (PSMsToProteins sub) k = weight (PSMsToProteins g) p
                /\ section (PSMsToProteins sub) k = section (PSMsToProteins g) p
                /\ chargeState_of (PSMsToProteins sub) k = chargeState_of (PSMsToProteins g) p)
  /\ (forall k, 0 <= k < IntSet.size connectedProteins ->
                let r := IntSet.nth_ connectedProteins k in
                name_of (proteinsToPSMs sub) k = name_of (proteinsToPSMs g) r
                /\ weight (proteinsToPSMs sub) k = weight (proteinsToPSMs g) r
                /\ section (proteinsToPSMs sub) k = section (proteinsToPSMs g) r)
  /\ sectionMarks (PSMsToProteins sub) = [] /\ sectionMarks (proteinsToPSMs sub) = []
  /\ ProteinThreshold sub = ctorProt /\ PeptideThreshold sub = ctorPep
  /\ severedProteins sub = [] /\ numberClones sub = ctorClones.
Proof.
  cbv zeta. unfold buildSubgraph.
  cbn [with_PSMs with_proteins PSMsToProteins proteinsToPSMs ProteinThreshold
       PeptideThreshold severedProteins numberClones BasicBigraph_ctor].
  rewrite !layer_size_subLayer.
  split; [reflexivity|]. split; [reflexivity|].
  split; [intros k y; apply In_subLayer|]. split; [intros k y; apply In_subLayer|].
  split; [|split].
  - intros k Hk. assert (I : Arr.inb connectedPSMs k = true) by (apply inb_iff; exact Hk).
    unfold name_of, weight, section, chargeState_of, subLayer.
    cbn [names weights sections chargeStates]. rewrite !get_select by exact I. auto.
  - intros k Hk. assert (I : Arr.inb connectedProteins k = true) by (apply inb_iff; exact Hk).
    unfold name_of, weight, section, subLayer.
    cbn [names weights sections]. rewrite !get_select by exact I. auto.
  - repeat split.
Qed.

Lemma reindex_no_isolated (ctorProt ctorPep : float) (ctorClones : Z) (g : BasicBigraph) :
  graph_inv g ->
  let g' := reindex ctorProt ctorPep ctorClones g in
  (forall p, 0 <= p < layer_size (PSMsToProteins g') ->
             association (PSMsToProteins g') p <> [])
  /\ (forall r, 0 <= r < layer_size (proteinsToPSMs g') ->
                association (proteinsToPSMs g') r <> []).
Proof.
  intros Hg. cbv zeta. unfold reindex, buildSubgraph.
  cbn [with_PSMs with_proteins with_numberClones with_severedProteins with_PeptideThreshold
       PSMsToProteins proteinsToPSMs].
  set (U := connectedNodes (PSMsToProteins g)).
  set (V := connectedNodes (proteinsToPSMs g)).
  rewrite !layer_size_subLayer.
  assert (Hsw : graph_inv (swap g)).
  { destruct Hg as [Hs [H1 H2]]. split; [apply symmetric_swap, Hs|]. split; assumption. }
  split.
  - intros p Hp E.
    pose proof (nth_In_set U p Hp) as Hin. apply In_connectedNodes in Hin.
    destruct Hin as [_ Hne].
    destruct (association (PSMsToProteins g) (IntSet.nth_ U p)) as [|x l] eqn:A; [congruence|].
    assert (Hx : In x (association (PSMsToProteins g) (IntSet.nth_ U p)))
      by (rewrite A; left; reflexivity).
    destruct (neighbour_connected g _ _ Hg Hx) as [_ HxV].
    assert (Hy : In (IntSet.find V x) (association (subLayer (PSMsToProteins g) U V) p)).
    { apply In_subLayer. split; [exact Hp|]. exists x. auto. }
    rewrite E in Hy. destruct Hy.
  - intros r Hr E.
    pose proof (nth_In_set V r Hr) as Hin. apply In_connectedNodes in Hin.
    destruct Hin as [_ Hne].
    destruct (association (proteinsToPSMs g) (IntSet.nth_ V r)) as [|x l] eqn:A; [congruence|].
    assert (Hx : In x (association (proteinsToPSMs g) (IntSet.nth_ V r)))
      by (rewrite A; left; reflexivity).
    destruct (neighbour_connected (swap g) _ _ Hsw Hx) as [_ HxU]. cbn [swap proteinsToPSMs] in HxU.
    assert (Hy : In (IntSet.find U x) (association (subLayer (proteinsToPSMs g) V U) r)).
    { apply In_subLayer. split; [exact Hr|]. exists x. auto. }
    rewrite E in Hy. destruct Hy.
Qed.

(** [reindex] on a graph with symmetric edges keeps exactly the nodes that
    have an edge, renumbered in their order: afterwards no node is
    without an edge, every edge of the graph is there between the new
    indices of its ends, every edge there comes from one of the graph, and
    a kept node has its name, its weight and its charge state. *)
Theorem reindex_keeps_connected (ctorProt ctorPep : float) (ctorClones : Z) (g : BasicBigraph) :
  graph_inv g ->
  let U := connectedNodes (PSMsToProteins g) in
  let V := connectedNodes (proteinsToPSMs g) in
  let g' := reindex ctorProt ctorPep ctorClones g in
  graph_inv g'
  /\ layer_size (PSMsToProteins g') = IntSet.size U
  /\ layer_size (proteinsToPSMs g') = IntSet.size V
  /\ (forall p, 0 <= p < layer_size (PSMsToProteins g') ->
                association (PSMsToProteins g') p <> [])
  /\ (forall r, 0 <= r < layer_size (proteinsToPSMs g') ->
                association (proteinsToPSMs g') r <> [])
  /\ (forall p r, In r (association (PSMsToProteins g) p) ->
                  In (IntSet.find V r) (association (PSMsToProteins g') (IntSet.find U p)))
  /\ (forall k y, In y (association (PSMsToProteins g') k) ->
                  exists p r, In r (association (PSMsToProteins g) p)
                              /\ IntSet.find U p = k /\ IntSet.find V r = y)
  /\ (forall p, In p U ->
                name_of (PSMsToProteins g') (IntSet.find U p) = name_of (PSMsToProteins g) p
                /\ weight (PSMsToProteins g') (IntSet.find U p) = weight (PSMsToProteins g) p
                /\ chargeState_of (PSMsToProteins g') (IntSet.find U p)
                   = chargeState_of (PSMsToProteins g) p)
  /\ (forall r, In r V ->
                name_of (proteinsToPSMs g') (IntSet.find V r) = name_of (proteinsToPSMs g) r).
Proof.
  intros Hg U V. cbv zeta.
  split; [apply reindex_inv, Hg|].
  unfold reindex, buildSubgraph.
  cbn [with_PSMs with_proteins with_numberClones with_severedProteins with_PeptideThreshold
       PSMsToProteins proteinsToPSMs].
  fold U V. rewrite !layer_size_subLayer.
  split; [reflexivity|]. split; [reflexivity|].
  destruct (reindex_no_isolated ctorProt ctorPep ctorClones g Hg) as [N1 N2].
  unfold reindex, buildSubgraph in N1, N2.
  cbn [with_PSMs with_proteins with_numberClones with_severedProteins with_PeptideThreshold
       PSMsToProteins proteinsToPSMs] in N1, N2.
  rewrite !layer_size_subLayer in N1, N2.
  split; [exact N1|]. split; [exact N2|]. split; [|split; [|split]].
  - intros p r H. destruct (neighbour_connected g p r Hg H) as [HpU HrV].
    apply In_subLayer. split; [apply find_range, HpU|].
    exists r. rewrite (nth_find U p HpU). auto.
  - intros k y H. apply In_subLayer in H. destruct H as [Hk [x [Hx [HxV Hf]]]].
    exists (IntSet.nth_ U k), x. split; [exact Hx|]. split; [|exact Hf].
    apply find_nth; [apply ascending_NoDup, connectedNodes_ascending|exact Hk].
  - intros p HpU. pose proof (find_range _ _ HpU) as R.
    assert (I : Arr.inb U (IntSet.find U p) = true) by (apply inb_iff; exact R).
    unfold name_of, weight, chargeState_of, subLayer.
    cbn [names weights chargeStates].
    rewrite !get_select by exact I. rewrite (nth_find U p HpU). auto.
  - intros r HrV. pose proof (find_range _ _ HrV) as R.
    assert (I : Arr.inb V (IntSet.find V r) = true) by (apply inb_iff; exact R).
    unfold name_of, subLayer. cbn [names].
    rewrite !get_select by exact I. rewrite (nth_find V r HrV). auto.
Qed.

(** [mixed] without the edge of its poor peptide AB: CD and EF are kept as
    the peptides 0 and 1, P2 and P3 as the proteins 0 and 1. *)
Lemma reindex_keeps_connected_witness :
  layer_size (PSMsToProteins (reindex 0 0 0 (removePoorPSMs mixed))) = 2
  /\ name_of (PSMsToProteins (reindex 0 0 0 (removePoorPSMs mixed))) 0 = "CD"%string
  /\ In 1 (association (PSMsToProteins (reindex 0 0 0 (removePoorPSMs mixed))) 1).
Proof.
  destruct (reindex_keeps_connected 0 0 0 (removePoorPSMs mixed)
              (removePoorPSMs_inv mixed mixed_inv)) as [_ [H1 [_ [_ [_ [H5 [_ [H6 _]]]]]]]].
  split; [rewrite H1; reflexivity|]. split.
  - destruct (H6 1) as [N _]; [vm_compute; auto|].
    vm_compute in N. vm_compute. exact N.
  - assert (E : In 2 (association (PSMsToProteins (removePoorPSMs mixed)) 2))
      by (vm_compute; auto).
    apply H5 in E. vm_compute in E. vm_compute. exact E.
Defined.

(** ** The sections that the marking leaves *)

Lemma traceConnected_grows (sec : Z) (fuel : nat) (index : Z) (l : Layer) (m m' : Marking) :
  traceConnected fuel index l sec m = Ret m' ->
  incl (touched m) (touched m') /\ In (l, index, sec) (touched m').
Proof.
  revert index l m m'. induction fuel as [|fuel IH]; intros index l m m'; [discriminate|].
  rewrite traceConnected_S.
  destruct (section (layer (graph m) l) index =? sec).
  - intros H. injection H as <-. unfold touch. cbn [touched]. split.
    + apply incl_appl, incl_refl.
    + apply in_or_app. right. left. reflexivity.
  - cbv zeta.
    set (m2 := mkMarking _ (touched m ++ [(l, index, sec)])).
    assert (H2 : incl (touched m) (touched m2) /\ In (l, index, sec) (touched m2)).
    { unfold m2. cbn [touched]. split; [apply incl_appl, incl_refl|].
      apply in_or_app. right. left. reflexivity. }
    destruct (isPSMLayer l && _); [intros H; injection H as <-; exact H2|].
    apply (foldM_inv (fun m' => incl (touched m) (touched m')
                                /\ In (l, index, sec) (touched m'))); [exact H2|].
    intros a s s' _ [Hs1 Hs2] Ha. destruct (IH _ _ _ _ Ha) as [I1 _].
    split; [eapply incl_tran; eauto|apply I1, Hs2].
Qed.

Lemma foldM_touches (sec : Z) (fuel : nat) (l : Layer) (its : list Z) (m m' : Marking) :
  fold_left (fun acc it => m <- acc ;; traceConnected fuel it l sec m) its (Ret m) = Ret m' ->
  incl (touched m) (touched m') /\ forall it, In it its -> In (l, it, sec) (touched m').
Proof.
  revert m. induction its as [|a its IH]; intros m H; simpl in H.
  - injection H as <-. split; [apply incl_refl|]. intros it [].
  - destruct (foldM_stuck _ _ _ _ H) as [m1 H1]. rewrite H1 in H.
    cbn [bind] in H1.
    destruct (traceConnected_grows _ _ _ _ _ _ H1) as [G1 G2].
    destruct (IH m1 H) as [I1 I2]. split; [eapply incl_tran; eauto|].
    intros it [<-|Hit]; [apply I1, G2|apply I2, Hit].
Qed.

Lemma touches_within_mono (g : BasicBigraph) (n n' : Z) (m : Marking) :
  n <= n' -> touches_within g n m -> touches_within g n' m.
Proof.
  intros Hn H l i s Hin. destruct (H l i s Hin) as [H1 H2]. split; [lia|exact H2].
Qed.

Lemma touches_within_touch (g : BasicBigraph) (n : Z) (gr : BasicBigraph)
      (l : Layer) (i s : Z) (m : Marking) :
  0 <= s < n ->
  (l = PSMLayer -> exists r, In i (association (proteinsToPSMs g) r)) ->
  touches_within g n m ->
  touches_within g n (mkMarking gr (touched m ++ [(l, i, s)])).
Proof.
  intros Hs Hl H l0 i0 s0. cbn [touched]. rewrite in_app_iff. simpl.
  intros [Hin|[E|[]]]; [apply (H _ _ _ Hin)|].
  injection E as <- <- <-. auto.
Qed.

Lemma marked_associations (g : BasicBigraph) (l : Layer) (index sec : Z) (l' : Layer) :
  associations (layer (with_layer g l (markedLayer (layer g l) index sec)) l')
  = associations (layer g l').
Proof. destruct l, l'; reflexivity. Qed.

Lemma traceConnected_within (g : BasicBigraph) (n sec : Z) (fuel : nat) (index : Z)
      (l : Layer) (m m' : Marking) :
  0 <= sec < n ->
  traceConnected fuel index l sec m = Ret m' ->
  associations (proteinsToPSMs (graph m)) = associations (proteinsToPSMs g) ->
  (l = PSMLayer -> exists r, In index (association (proteinsToPSMs g) r)) ->
  touches_within g n m -> touches_within g n m'.
Proof.
  intros Hsec. revert index l m m'.
  induction fuel as [|fuel IH]; intros index l m m'; [discriminate|].
  rewrite traceConnected_S.
  destruct (section (layer (graph m) l) index =? sec).
  - intros H Ha Hl Hw. injection H as <-. unfold touch.
    apply touches_within_touch; assumption.
  - cbv zeta. intros H Ha Hl Hw.
    set (g2 := with_layer (graph m) l (markedLayer (layer (graph m) l) index sec)) in *.
    set (m2 := mkMarking g2 (touched m ++ [(l, index, sec)])) in *.
    assert (W2 : touches_within g n m2) by (apply touches_within_touch; assumption).
    assert (A2 : associations (proteinsToPSMs g2) = associations (proteinsToPSMs g)).
    { rewrite <- Ha. apply (marked_associations (graph m) l index sec ProteinLayer). }
    destruct (isPSMLayer l && _); [injection H as <-; exact W2|].
    revert H.
    apply (foldM_inv (fun m' => touches_within g n m'
                                /\ associations (proteinsToPSMs (graph m'))
                                   = associations (proteinsToPSMs g))
                     (fun it m => traceConnected fuel it (other l) sec m)
                     (association (markedLayer (layer (graph m) l) index sec) index) m2 m'
             ltac:(split; [exact W2|exact A2])).
    + intros a s s' Hin [Hs1 Hs2] Ht. split.
      * apply (IH _ _ _ _ Ht Hs2); [|exact Hs1].
        intros Ho. destruct l; [discriminate|]. exists index.
        unfold association in *. cbn [layer] in Hin.
        unfold markedLayer in Hin. cbn [associations with_sections with_sectionMarks] in Hin.
        rewrite <- Ha. exact Hin.
      * destruct (traceConnected_frame _ _ _ _ _ _ Ht) as [_ [_ [_ [_ [F _]]]]].
        rewrite F. exact Hs2.
Qed.

Lemma neighbours_touched_grows (pending : list Z) (m : Marking) (log : list (Layer * Z * Z)) :
  incl (touched m) log ->
  neighbours_touched pending m -> neighbours_touched pending (mkMarking (graph m) log).
Proof.
  intros Hi H r Hr Hp i Hin. cbn [graph touched] in *.
  destruct (H r Hr Hp i Hin) as [s Hs]. exists s. apply Hi, Hs.
Qed.

Lemma section_marked (gl : GraphLayer) (index sec r : Z) :
  section (markedLayer gl index sec) r
  = if Arr.inb (sections gl) index && (r =? index) then sec else section gl r.
Proof.
  unfold section, markedLayer. cbn [sections with_sections with_sectionMarks].
  apply get_set.
Qed.

Lemma traceConnected_neighbours (sec : Z) (fuel : nat) (index : Z) (l : Layer)
      (pending : list Z) (m m' : Marking) :
  traceConnected fuel index l sec m = Ret m' ->
  neighbours_touched pending m -> neighbours_touched pending m'.
Proof.
  revert index l pending m m'.
  induction fuel as [|fuel IH]; intros index l pending m m'; [discriminate|].
  rewrite traceConnected_S.
  destruct (section (layer (graph m) l) index =? sec).
  - intros H Hk. injection H as <-. unfold touch.
    apply neighbours_touched_grows; [apply incl_appl, incl_refl|exact Hk].
  - cbv zeta. intros H Hk.
    set (gl2 := markedLayer (layer (graph m) l) index sec) in *.
    set (g2 := with_layer (graph m) l gl2) in *.
    set (m2 := mkMarking g2 (touched m ++ [(l, index, sec)])) in *.
    destruct l.
    + (* a peptide: the sections of the proteins stay *)
      assert (K2 : neighbours_touched pending m2).
      { intros r Hr Hp i Hin. cbn [graph touched] in *.
        destruct (Hk r Hr Hp i Hin) as [s Hs]. exists s.
        apply in_or_app. left. exact Hs. }
      destruct (isPSMLayer PSMLayer && _); [injection H as <-; exact K2|].
      revert H. apply (foldM_inv (neighbours_touched pending)); [exact K2|].
      intros a s s' _ Hs Ht. apply (IH _ _ _ _ _ Ht Hs).
    + (* a protein: its peptides are touched when the loop is over *)
      cbn [isPSMLayer andb] in H.
      assert (K2 : neighbours_touched (index :: pending) m2).
      { intros r Hr Hp i Hin. cbn [graph touched] in *.
        assert (Hne : r <> index) by (intros ->; apply Hp; left; reflexivity).
        unfold m2, g2, gl2 in Hr, Hin.
        cbn [graph with_layer with_proteins proteinsToPSMs layer] in Hr, Hin.
        rewrite section_marked in Hr.
        replace (r =? index) with false in Hr by (symmetry; apply Z.eqb_neq; exact Hne).
        rewrite andb_false_r in Hr.
        destruct (Hk r Hr ltac:(intros Q; apply Hp; right; exact Q) i Hin) as [s Hs].
        exists s. apply in_or_app. left. exact Hs. }
      destruct (foldM_touches _ _ _ _ _ _ H) as [_ T].
      assert (K' : neighbours_touched (index :: pending) m').
      { revert H. apply (foldM_inv (neighbours_touched (index :: pending))); [exact K2|].
        intros a s s' _ Hs Ht. apply (IH _ _ _ _ _ Ht Hs). }
      assert (F : associations (proteinsToPSMs (graph m'))
                  = associations (proteinsToPSMs (graph m))).
      { assert (F2 : same_edges g2 (graph m')).
        { revert H. apply (foldM_inv (fun m' => same_edges g2 (graph m')));
            [apply same_edges_refl|].
          intros a s s' _ Hs Ht. apply (same_edges_trans _ (graph s)); [exact Hs|].
          apply (traceConnected_frame _ _ _ _ _ _ Ht). }
        destruct F2 as [_ [_ [_ [_ [F _]]]]]. rewrite F. reflexivity. }
      intros r Hr Hp i Hin.
      destruct (Z.eq_dec r index) as [->|Hne].
      * exists sec. apply (T i). unfold association in *. rewrite F in Hin. exact Hin.
      * apply (K' r Hr); [|exact Hin]. intros [E|Q]; [congruence|contradiction].
Qed.

Lemma lastTouch_some (log : list (Layer * Z * Z)) (l : Layer) (k s : Z) :
  In (l, k, s) log -> In (l, k, lastTouch log l k) log.
Proof.
  unfold lastTouch. intros H. apply in_rev in H. apply in_rev.
  induction (rev log) as [|[[l' i] s'] log' IH]; [destruct H|].
  simpl. destruct (Layer_eqb l l' && (i =? k)) eqn:E.
  - apply andb_true_iff in E. destruct E as [E1 E2].
    apply Layer_eqb_eq in E1. apply Z.eqb_eq in E2. subst. left. reflexivity.
  - destruct H as [H|H].
    + injection H as -> -> ->. rewrite Layer_eqb_refl, Z.eqb_refl in E. discriminate.
    + right. apply IH, H.
Qed.

Lemma inb_sections (g : BasicBigraph) (m : Marking) (l : Layer) (k : Z) :
  sized (layer g l) -> allocated (graph m) -> same_edges (clearMarks g) (graph m) ->
  0 <= k < layer_size (layer g l) ->
  Arr.inb (sections (layer (graph m) l)) k = true.
Proof.
  intros Hz Ha Hs Hk. apply inb_iff. destruct (Ha l) as [L1 _].
  destruct (same_edges_layer _ _ l Hs) as [_ S2].
  unfold Arr.size. rewrite L1, S2. unfold layer_size, Arr.size, sized in *.
  destruct l; unfold clearMarks; simpl in *; lia.
Qed.

(** What the marking has done when it returns. *)
Lemma marking_run (g : BasicBigraph) :
  sized (PSMsToProteins g) -> sized (proteinsToPSMs g) ->
  exists n m,
    markSectionPartitions_traced g = Ret (n, m)
    /\ 0 <= n <= layer_size (proteinsToPSMs g)
    /\ allocated (graph m) /\ marks_record m
    /\ same_edges (clearMarks g) (graph m)
    /\ touches_within (clearMarks g) n m
    /\ neighbours_touched [] m
    /\ (forall r, 0 <= r < layer_size (proteinsToPSMs g) ->
                  section (proteinsToPSMs (graph m)) r <> -1).
Proof.
  intros Hz1 Hz2.
  destruct (markSectionPartitions_run g Hz1 Hz2) as [n [m [Hrun _]]].
  exists n, m. split; [exact Hrun|].
  pose (P := fun (k : Z) (p : Z * Marking) =>
               0 <= fst p <= k
               /\ allocated (graph (snd p)) /\ marks_record (snd p)
               /\ same_edges (clearMarks g) (graph (snd p))
               /\ touches_within (clearMarks g) (fst p) (snd p)
               /\ neighbours_touched [] (snd p)
               /\ (forall r, 0 <= r < k ->
                             section (proteinsToPSMs (graph (snd p))) r <> -1)).
  assert (Hn : 0 <= layer_size (proteinsToPSMs (clearMarks g)))
    by (unfold layer_size, Arr.size; lia).
  assert (El : layer_size (proteinsToPSMs (clearMarks g)) = layer_size (proteinsToPSMs g))
    by reflexivity.
  unfold markSectionPartitions_traced in Hrun. cbv zeta in Hrun.
  assert (F : P (layer_size (proteinsToPSMs (clearMarks g))) (n, m)).
  { revert Hrun. apply (forM_ind P); [| |exact Hn].
    - unfold P. cbn [fst snd graph touched].
      split; [lia|]. split; [apply clearMarks_allocated; assumption|].
      split; [apply clearMarks_record|]. split; [apply same_edges_refl|].
      split; [intros l i s []|]. split; [|intros; lia].
      intros r Hr. exfalso. apply Hr.
      unfold clearMarks, section. cbn [proteinsToPSMs with_proteins with_PSMs sections
                                       with_sections with_sectionMarks].
      apply get_make.
    - intros k [sec m0] [sec' m1] Hk [H0 [Ha [Hr [Hs [Hw [Hnb Hsec]]]]]].
      cbn [fst snd] in *. cbv beta iota.
      destruct (section (proteinsToPSMs (graph m0)) k =? -1) eqn:E.
      + intros H. apply bind_not_Ret in H. destruct H as [m2 [Ht H]].
        injection H as <- <-.
        destruct (traceConnected_record sec _ _ _ _ _ ltac:(lia) Ha Hr Ht) as [Hr' Ha'].
        assert (Hs' : same_edges (clearMarks g) (graph m2)).
        { apply (same_edges_trans _ (graph m0)); [exact Hs|].
          apply (traceConnected_frame _ _ _ _ _ _ Ht). }
        assert (Hw' : touches_within (clearMarks g) (sec + 1) m2).
        { apply (traceConnected_within (clearMarks g) (sec + 1) sec _ _ _ _ _
                                       ltac:(lia) Ht).
          - destruct Hs as [_ [_ [_ [_ [S5 _]]]]]. exact S5.
          - discriminate.
          - apply (touches_within_mono _ sec); [lia|exact Hw]. }
        destruct (traceConnected_grows _ _ _ _ _ _ Ht) as [G1 G2].
        unfold P. cbn [fst snd]. split; [lia|]. split; [exact Ha'|].
        split; [exact Hr'|]. split; [exact Hs'|]. split; [exact Hw'|].
        split; [apply (traceConnected_neighbours _ _ _ _ _ _ _ Ht Hnb)|].
        intros r Hrk.
        assert (Hin : Arr.inb (sections (layer (graph m2) ProteinLayer)) r = true)
          by (apply (inb_sections g); [exact Hz2|exact Ha'|exact Hs'|simpl; lia]).
        destruct (Hr' ProteinLayer r Hin) as [_ Q]. cbn [layer] in Q. rewrite Q.
        assert (T : exists s, In (ProteinLayer, r, s) (touched m2)).
        { destruct (Z.eq_dec r k) as [->|Hne]; [exists sec; exact G2|].
          assert (Hin0 : Arr.inb (sections (layer (graph m0) ProteinLayer)) r = true)
            by (apply (inb_sections g); [exact Hz2|exact Ha|exact Hs|simpl; lia]).
          destruct (Hr ProteinLayer r Hin0) as [_ Q0]. cbn [layer] in Q0.
          exists (lastTouch (touched m0) ProteinLayer r). apply G1.
          apply lastTouch_In. rewrite <- Q0. apply Hsec. lia. }
        destruct T as [s T]. apply lastTouch_some in T.
        destruct (Hw' _ _ _ T) as [R _]. lia.
      + intros H. injection H as <- <-. unfold P. cbn [fst snd].
        split; [lia|]. split; [exact Ha|]. split; [exact Hr|]. split; [exact Hs|].
        split; [exact Hw|]. split; [exact Hnb|].
        intros r Hrk. destruct (Z.eq_dec r k) as [->|Hne].
        * apply Z.eqb_neq in E. exact E.
        * apply Hsec. lia. }
  unfold P in F. cbn [fst snd] in F. rewrite El in F. tauto.
Qed.

Lemma association_clearMarks (g : BasicBigraph) (l : Layer) (k : Z) :
  association (layer (clearMarks g) l) k = association (layer g l) k.
Proof. destruct l; reflexivity. Qed.

Lemma same_edges_association (g g' : BasicBigraph) (l : Layer) (k : Z) :
  same_edges g g' -> association (layer g' l) k = association (layer g l) k.
Proof.
  intros H. destruct (same_edges_layer _ _ l H) as [_ E]. unfold association.
  rewrite E. reflexivity.
Qed.

(** The sections the marking leaves: every protein has one, a peptide has
    one exactly when it has a protein. *)
Lemma marking_sections (g : BasicBigraph) :
  graph_inv g ->
  exists n m,
    markSectionPartitions_traced g = Ret (n, m)
    /\ 0 <= n <= layer_size (proteinsToPSMs g)
    /\ allocated (graph m) /\ marks_record m
    /\ same_edges (clearMarks g) (graph m)
    /\ touches_within (clearMarks g) n m
    /\ (forall r, 0 <= r < layer_size (proteinsToPSMs g) ->
                  0 <= section (proteinsToPSMs (graph m)) r < n)
    /\ (forall p, 0 <= p < layer_size (PSMsToProteins g) ->
                  (association (PSMsToProteins g) p <> [] ->
                   0 <= section (PSMsToProteins (graph m)) p < n)
                  /\ (association (PSMsToProteins g) p = [] ->
                      section (PSMsToProteins (graph m)) p = -1)).
Proof.
  intros [Hsym [Hz1 Hz2]].
  destruct (marking_run g Hz1 Hz2) as [n [m [Hrun [Hn [Ha [Hr [Hs [Hw [Hnb Hsec]]]]]]]]].
  exists n, m. split; [exact Hrun|]. split; [exact Hn|]. split; [exact Ha|].
  split; [exact Hr|]. split; [exact Hs|]. split; [exact Hw|].
  assert (Hlast : forall l k, 0 <= k < layer_size (layer g l) ->
                              section (layer (graph m) l) k = lastTouch (touched m) l k).
  { intros l k Hk. apply Hr. apply (inb_sections g); try assumption.
    destruct l; assumption. }
  assert (Hrange : forall l k s, 0 <= k < layer_size (layer g l) ->
                                 In (l, k, s) (touched m) ->
                                 0 <= section (layer (graph m) l) k < n).
  { intros l k s Hk T. rewrite (Hlast l k Hk). apply lastTouch_some in T.
    destruct (Hw _ _ _ T) as [R _]. exact R. }
  split.
  - intros r Hrk. specialize (Hsec r Hrk).
    pose proof (Hlast ProteinLayer r Hrk) as L. cbn [layer] in L. rewrite L in Hsec.
    apply lastTouch_In in Hsec. apply (Hrange ProteinLayer r _ Hrk Hsec).
  - intros p Hp. split.
    + intros Hne.
      destruct (association (PSMsToProteins g) p) as [|r rest] eqn:A; [congruence|].
      assert (Hpr : In r (association (PSMsToProteins g) p)) by (rewrite A; left; reflexivity).
      pose proof (proj1 (Hsym p r) Hpr) as Hrp.
      pose proof (In_association_sized _ _ _ Hz2 Hrp) as Rr.
      apply andb_true_iff in Rr. destruct Rr as [R1 R2].
      apply Z.leb_le in R1. apply Z.ltb_lt in R2.
      destruct (Hnb r (Hsec r ltac:(lia)) ltac:(intros []) p) as [s T].
      { pose proof (same_edges_association _ _ ProteinLayer r Hs) as Q.
        rewrite (association_clearMarks g ProteinLayer) in Q. cbn [layer] in Q.
        rewrite Q. exact Hrp. }
      apply (Hrange PSMLayer p s Hp T).
    + intros A. pose proof (Hlast PSMLayer p Hp) as L. cbn [layer] in L. rewrite L.
      destruct (Z.eq_dec (lastTouch (touched m) PSMLayer p) (-1)) as [E|E]; [exact E|].
      apply lastTouch_In in E. destruct (Hw _ _ _ E) as [_ W].
      destruct (W eq_refl) as [r Hrp].
      change (In p (association (proteinsToPSMs g) r)) in Hrp.
      apply Hsym in Hrp. rewrite A in Hrp. destruct Hrp.
Qed.

(** On a graph with symmetric edges [markSectionPartitions] returns the
    number [n] of the sections it has started, at most the number of the
    proteins, and leaves the edges as they are; every protein then has a
    section in [0, n), a peptide has one exactly when it has a protein, its
    section being -1 otherwise, and every mark of a node is a section in
    [0, n). *)
Theorem markSectionPartitions_sections (g : BasicBigraph) :
  graph_inv g ->
  exists n g',
    markSectionPartitions g = Ret (n, g')
    /\ same_edges g g'
    /\ 0 <= n <= layer_size (proteinsToPSMs g)
    /\ (forall r, 0 <= r < layer_size (proteinsToPSMs g) ->
                  0 <= section (proteinsToPSMs g') r < n)
    /\ (forall p, 0 <= p < layer_size (PSMsToProteins g) ->
                  (association (PSMsToProteins g) p <> [] ->
                   0 <= section (PSMsToProteins g') p < n)
                  /\ (association (PSMsToProteins g) p = [] ->
                      section (PSMsToProteins g') p = -1))
    /\ (forall l k id, In id (sectionMark (layer g' l) k) -> 0 <= id < n).
Proof.
  intros Hg.
  destruct (marking_sections g Hg) as [n [m [Hrun [Hn [Ha [Hr [Hs [Hw [H1 H2]]]]]]]]].
  exists n, (graph m).
  assert (E : markSectionPartitions g = Ret (n, graph m))
    by (unfold markSectionPartitions; rewrite Hrun; reflexivity).
  split; [exact E|]. split; [apply (markSectionPartitions_frame _ _ _ E)|].
  split; [exact Hn|]. split; [exact H1|]. split; [exact H2|].
  intros l k id Hin.
  destruct (Arr.inb (sections (layer (graph m) l)) k) eqn:I.
  - destruct (Hr l k I) as [M _]. apply M in Hin. destruct (Hw _ _ _ Hin) as [R _]. exact R.
  - unfold sectionMark in Hin. rewrite get_outside in Hin; [destruct Hin|].
    rewrite <- I. apply inb_same_length. destruct (Ha l) as [_ L]. exact L.
Qed.

(** ** The components that partitionSections returns *)

Lemma forM_undef {S : Type} (P : S -> Prop) (n : Z) (body : Z -> S -> Cxx S) (s : S) :
  P s ->
  (forall j s, 0 <= j < n -> P s -> body j s = Undef \/ exists s', body j s = Ret s' /\ P s') ->
  (exists k, 0 <= k < n /\ forall s, P s -> body k s = Undef) ->
  forM n body s = Undef.
Proof.
  intros H0 Hstep [k [Hk Hbad]].
  assert (G : forall j : nat, (j <= Z.to_nat n)%nat ->
                (Z.of_nat j <= k ->
                 forM (Z.of_nat j) body s = Undef
                 \/ exists s', forM (Z.of_nat j) body s = Ret s' /\ P s')
                /\ (k < Z.of_nat j -> forM (Z.of_nat j) body s = Undef)).
  { induction j as [|j IH]; intros Hj.
    - split; [|lia]. intros _. right. exists s. split; [reflexivity|exact H0].
    - destruct (IH ltac:(lia)) as [IH1 IH2]. rewrite forM_step. split.
      + intros Hle. destruct (IH1 ltac:(lia)) as [E|[s' [E Ps]]]; rewrite E; cbn [bind].
        * left. reflexivity.
        * apply Hstep; [lia|exact Ps].
      + intros Hlt. destruct (Z.eq_dec (Z.of_nat j) k) as [Ejk|Ejk].
        * destruct (IH1 ltac:(lia)) as [E|[s' [E Ps]]]; rewrite E; cbn [bind].
          -- reflexivity.
          -- rewrite Ejk. apply Hbad, Ps.
        * rewrite (IH2 ltac:(lia)). reflexivity. }
  destruct (G (Z.to_nat n) (le_n _)) as [_ G2].
  rewrite Z2Nat.id in G2 by lia. apply G2. lia.
Qed.

Lemma groupBySection_total (gl : GraphLayer) (n : Z) :
  (forall k, 0 <= k < layer_size gl -> 0 <= section gl k < n) ->
  exists subsets, groupBySection gl (Arr.make n IntSet.empty) = Ret subsets.
Proof.
  intros H. unfold groupBySection.
  destruct (forM_total (fun s : list IntSet.t => Arr.size s = Arr.size (Arr.make n IntSet.empty))
              (layer_size gl)
              (fun k subsets =>
                 Arr.set_checked subsets (section gl k)
                   (IntSet.add (Arr.get IntSet.empty subsets (section gl k)) k))
              (Arr.make n IntSet.empty)) as [s [E _]].
  - reflexivity.
  - intros k s Hk Hs. unfold Arr.set_checked.
    assert (I : Arr.inb s (section gl k) = true).
    { apply inb_iff. specialize (H k Hk). rewrite Hs, size_make; lia. }
    rewrite I. eexists. split; [reflexivity|].
    unfold Arr.size in *. rewrite length_upd. exact Hs.
  - exists s. exact E.
Qed.

Lemma groupBySection_undef (gl : GraphLayer) (n : Z) (k : Z) :
  0 <= n -> 0 <= k < layer_size gl -> ~ (0 <= section gl k < n) ->
  groupBySection gl (Arr.make n IntSet.empty) = Undef.
Proof.
  intros Hn Hk Hbad. unfold groupBySection.
  apply (forM_undef (fun s : list IntSet.t => Arr.size s = Arr.size (Arr.make n IntSet.empty))).
  - reflexivity.
  - intros j s Hj Hs. unfold Arr.set_checked.
    destruct (Arr.inb s (section gl j)); [right|left; reflexivity].
    eexists. split; [reflexivity|]. unfold Arr.size in *. rewrite length_upd. exact Hs.
  - exists k. split; [exact Hk|]. intros s Hs. unfold Arr.set_checked.
    replace (Arr.inb s (section gl k)) with false; [reflexivity|].
    symmetry. apply inb_false_iff. rewrite Hs, size_make by lia. lia.
Qed.

Lemma partitionSections_total (ctorProt ctorPep : float) (ctorClones : Z) (g : BasicBigraph) :
  graph_inv g ->
  (forall p, 0 <= p < layer_size (PSMsToProteins g) ->
             association (PSMsToProteins g) p <> []) ->
  exists n g' proteinSubsets PSMSubsets,
    markSectionPartitions g = Ret (n, g') /\ 0 <= n
    /\ groupBySection (proteinsToPSMs g') (Arr.make n IntSet.empty) = Ret proteinSubsets
    /\ groupBySection (PSMsToProteins g') (Arr.make n IntSet.empty) = Ret PSMSubsets
    /\ partitionSections ctorProt ctorPep ctorClones g
       = Ret (map (fun k => buildSubgraph ctorProt ctorPep ctorClones
                                          (Arr.get IntSet.empty proteinSubsets (Z.of_nat k))
                                          (Arr.get IntSet.empty PSMSubsets (Z.of_nat k)) g')
                  (seq 0 (Z.to_nat n))).
Proof.
  intros Hg Hc.
  destruct (marking_sections g Hg) as [n [m [Hrun [Hn [Ha [Hr [Hs [Hw [H1 H2]]]]]]]]].
  assert (E : markSectionPartitions g = Ret (n, graph m))
    by (unfold markSectionPartitions; rewrite Hrun; reflexivity).
  destruct (same_edges_layer _ _ ProteinLayer Hs) as [N1 _].
  destruct (same_edges_layer _ _ PSMLayer Hs) as [N2 _].
  cbn [layer] in N1, N2.
  destruct (groupBySection_total (proteinsToPSMs (graph m)) n) as [ps Hps].
  { intros k Hk. apply H1. unfold layer_size in *. rewrite N1 in Hk. exact Hk. }
  destruct (groupBySection_total (PSMsToProteins (graph m)) n) as [es Hes].
  { intros k Hk. unfold layer_size in Hk. rewrite N2 in Hk.
    apply (H2 k Hk). apply Hc. exact Hk. }
  exists n, (graph m), ps, es. split; [exact E|]. split; [lia|].
  split; [exact Hps|]. split; [exact Hes|].
  unfold partitionSections. rewrite E. cbn [bind fst snd]. rewrite Hps. cbn [bind].
  rewrite Hes. cbn [bind]. f_equal.
  rewrite <- (Z2Nat.id n) at 1 by lia. apply for_collect.
Qed.

(** On a graph that holds a peptide without a protein [partitionSections]
    does not return a result: the marking leaves the section of such a
    peptide at -1, and the loop over the peptides then indexes
    [PSMSubsets] with it, before the first element of the array. [prune]
    ends with [reindex], which leaves no such peptide; [read] alone may. *)
Theorem partitionSections_isolated_peptide (ctorProt ctorPep : float) (ctorClones : Z)
        (g : BasicBigraph) (p : Z) :
  graph_inv g ->
  0 <= p < layer_size (PSMsToProteins g) ->
  association (PSMsToProteins g) p = [] ->
  partitionSections ctorProt ctorPep ctorClones g = Undef.
Proof.
  intros Hg Hp Hiso.
  destruct (marking_sections g Hg) as [n [m [Hrun [Hn [Ha [Hr [Hs [Hw [H1 H2]]]]]]]]].
  assert (E : markSectionPartitions g = Ret (n, graph m))
    by (unfold markSectionPartitions; rewrite Hrun; reflexivity).
  destruct (same_edges_layer _ _ ProteinLayer Hs) as [N1 _].
  destruct (same_edges_layer _ _ PSMLayer Hs) as [N2 _].
  cbn [layer] in N1, N2.
  destruct (groupBySection_total (proteinsToPSMs (graph m)) n) as [ps Hps].
  { intros k Hk. apply H1. unfold layer_size in *. rewrite N1 in Hk. exact Hk. }
  unfold partitionSections. rewrite E. cbn [bind fst snd]. rewrite Hps. cbn [bind].
  rewrite (groupBySection_undef (PSMsToProteins (graph m)) n p); [reflexivity|lia| |].
  - unfold layer_size. rewrite N2. exact Hp.
  - destruct (H2 p Hp) as [_ Q]. rewrite (Q Hiso). lia.
Qed.

(** What [groupBySection] puts at place [i]: exactly the nodes of the layer
    whose section is [i], in ascending order. *)
Lemma groupBySection_complete (gl : GraphLayer) (n : Z) (subsets : list IntSet.t) :
  groupBySection gl (Arr.make n IntSet.empty) = Ret subsets ->
  forall i x, In x (Arr.get IntSet.empty subsets i)
              <-> section gl x = i /\ 0 <= x < layer_size gl.
Proof.
  unfold groupBySection. intros H.
  assert (Hn : 0 <= layer_size gl) by (unfold layer_size, Arr.size; lia).
  pose (P := fun (j : Z) (s : list IntSet.t) =>
               forall i x, In x (Arr.get IntSet.empty s i)
                           <-> section gl x = i /\ 0 <= x < j).
  revert H. apply (forM_ind P); [| |exact Hn].
  - intros i x. rewrite get_make. simpl. split; [tauto|lia].
  - intros k s s' Hk Hs. unfold Arr.set_checked.
    destruct (Arr.inb s (section gl k)) eqn:E; [|discriminate].
    intros H. injection H as <-. intros i x.
    pose proof (get_set IntSet.empty s (section gl k) i
                        (IntSet.add (Arr.get IntSet.empty s (section gl k)) k)) as G.
    unfold Arr.set in G. rewrite E in G. rewrite G. cbn [andb].
    destruct (i =? section gl k) eqn:Q.
    + apply Z.eqb_eq in Q. rewrite In_add, (Hs (section gl k) x). split.
      * intros [->|[A B]]; [split; [auto|lia]|]. split; [congruence|lia].
      * intros [A B]. destruct (Z.eq_dec x k) as [->|D]; [left; reflexivity|].
        right. split; [congruence|lia].
    + apply Z.eqb_neq in Q. rewrite (Hs i x). split.
      * intros [A B]. split; [exact A|lia].
      * intros [A B]. split; [exact A|].
        assert (x <> k) by (intros ->; congruence). lia.
Qed.

(** On a graph with symmetric edges where every peptide has a protein,
    [partitionSections] returns one graph for each section of the marking,
    in the order of the sections, and the graph at place [i] holds exactly
    the names of the proteins and of the peptides whose section is [i]: no
    node is left out. *)
Theorem partitionSections_returns (ctorProt ctorPep : float) (ctorClones : Z) (g : BasicBigraph) :
  graph_inv g ->
  (forall p, 0 <= p < layer_size (PSMsToProteins g) ->
             association (PSMsToProteins g) p <> []) ->
  exists n g' components,
    markSectionPartitions g = Ret (n, g')
    /\ partitionSections ctorProt ctorPep ctorClones g = Ret components
    /\ Arr.size components = n
    /\ forall i c,
        nth_error components i = Some c ->
        (forall name,
            In name (names (proteinsToPSMs c))
            <-> exists r, 0 <= r < layer_size (proteinsToPSMs g)
                          /\ section (proteinsToPSMs g') r = Z.of_nat i
                          /\ name_of (proteinsToPSMs g) r = name)
        /\ (forall name,
               In name (names (PSMsToProteins c))
               <-> exists p, 0 <= p < layer_size (PSMsToProteins g)
                             /\ section (PSMsToProteins g') p = Z.of_nat i
                             /\ name_of (PSMsToProteins g) p = name).
Proof.
  intros Hg Hc.
  destruct (partitionSections_total ctorProt ctorPep ctorClones g Hg Hc)
    as [n [g' [ps [es [E [Hn [Hps [Hes Hpart]]]]]]]].
  exists n, g'. eexists. split; [exact E|]. split; [exact Hpart|].
  split; [unfold Arr.size; rewrite length_map, length_seq; lia|].
  destruct (markSectionPartitions_frame _ _ _ E) as [F1 [_ [_ [F4 _]]]].
  pose proof (groupBySection_complete _ _ _ Hps) as Gp.
  pose proof (groupBySection_complete _ _ _ Hes) as Ge.
  intros i c Hi.
  assert (Hc' : c = buildSubgraph ctorProt ctorPep ctorClones
                                  (Arr.get IntSet.empty ps (Z.of_nat i))
                                  (Arr.get IntSet.empty es (Z.of_nat i)) g').
  { rewrite nth_error_map in Hi.
    destruct (nth_error (seq 0 (Z.to_nat n)) i) as [k|] eqn:K; [|discriminate].
    assert (Hl : (i < Z.to_nat n)%nat).
    { pose proof (nth_error_Some (seq 0 (Z.to_nat n)) i) as L. rewrite K in L.
      rewrite length_seq in L. apply L. discriminate. }
    rewrite nth_error_nth' with (d := 0%nat) in K by (rewrite length_seq; exact Hl).
    rewrite seq_nth in K by exact Hl. injection K as <-. simpl in Hi.
    injection Hi as <-. reflexivity. }
  subst c. cbn [buildSubgraph PSMsToProteins proteinsToPSMs with_PSMs with_proteins
                subLayer names].
  unfold select. split; intros name; rewrite in_map_iff.
  - split.
    + intros [r [Hname Hr]]. apply Gp in Hr. destruct Hr as [S R].
      exists r. unfold layer_size in R. rewrite F4 in R. unfold name_of.
      rewrite <- F4. auto.
    + intros [r [R [S Hname]]]. exists r. unfold name_of in Hname. rewrite <- F4 in Hname.
      split; [exact Hname|]. apply Gp. split; [exact S|].
      unfold layer_size. rewrite F4. exact R.
  - split.
    + intros [p [Hname Hp]]. apply Ge in Hp. destruct Hp as [S R].
      exists p. unfold layer_size in R. rewrite F1 in R. unfold name_of.
      rewrite <- F1. auto.
    + intros [p [R [S Hname]]]. exists p. unfold name_of in Hname. rewrite <- F1 in Hname.
      split; [exact Hname|]. apply Ge. split; [exact S|].
      unfold layer_size. rewrite F1. exact R.
Qed.

(** [prune] returns on every graph with symmetric edges, and the graph it
    leaves has symmetric edges and no node without an edge, so that
    [partitionSections] returns on it. *)
Theorem prune_then_partition (ctorProt ctorPep : float) (ctorClones : Z) (maxOfNone : float)
        (g : BasicBigraph) :
  graph_inv g ->
  exists g' components,
    prune ctorProt ctorPep ctorClones maxOfNone g = Ret g'
    /\ graph_inv g'
    /\ (forall p, 0 <= p < layer_size (PSMsToProteins g') ->
                  association (PSMsToProteins g') p <> [])
    /\ (forall r, 0 <= r < layer_size (proteinsToPSMs g') ->
                  association (proteinsToPSMs g') r <> [])
    /\ partitionSections ctorProt ctorPep ctorClones g' = Ret components.
Proof.
  intros Hg. unfold prune.
  set (g1 := reindex ctorProt ctorPep ctorClones
                     (saveSeveredProteins (removePoorProteins maxOfNone (removePoorPSMs g)))).
  assert (H1 : graph_inv g1).
  { apply reindex_inv.
    apply saveSeveredProteins_inv, removePoorProteins_inv, removePoorPSMs_inv, Hg. }
  destruct (markSectionPartitions_total g1 (proj1 (proj2 H1)) (proj2 (proj2 H1)))
    as [n [g2 Hm]].
  rewrite Hm. cbn [bind snd].
  assert (H2 : graph_inv g2)
    by (apply (same_edges_inv _ _ (markSectionPartitions_frame _ _ _ Hm)), H1).
  pose proof (cloneMultipleMarkedPSMs_inv g2 H2) as H3.
  set (g3 := cloneMultipleMarkedPSMs g2) in *.
  pose proof (reindex_inv ctorProt ctorPep ctorClones g3 (proj1 H3)) as H4.
  destruct (reindex_no_isolated ctorProt ctorPep ctorClones g3 H3) as [N1 N2].
  destruct (partitionSections_total ctorProt ctorPep ctorClones _ H4 N1)
    as [n' [g5 [ps [es [_ [_ [_ [_ Hpart]]]]]]]].
  eexists. eexists. split; [reflexivity|]. split; [exact H4|].
  split; [exact N1|]. split; [exact N2|exact Hpart].
Qed.

(** The marking of [mixed]: P1 with AB is the section 0, and P2 and P3 with
    CD and EF the section 1. *)
Lemma markSectionPartitions_sections_witness :
  exists n g', markSectionPartitions mixed = Ret (n, g') /\ n = 2
               /\ 0 <= section (PSMsToProteins g') 2 < n.
Proof.
  destruct (markSectionPartitions_sections mixed mixed_inv)
    as [n [g' [E [_ [_ [_ [H _]]]]]]].
  exists n, g'. split; [exact E|]. split; [vm_compute in E; congruence|].
  apply (H 2); [vm_compute; split; congruence|]. vm_compute. discriminate.
Defined.

Lemma partitionSections_returns_witness :
  exists components,
    partitionSections 0 0 0 mixed = Ret components /\ Arr.size components = 2
    /\ forall c, nth_error components 1 = Some c ->
                 In "P3"%string (names (proteinsToPSMs c))
                 /\ ~ In "P1"%string (names (proteinsToPSMs c)).
Proof.
  destruct (partitionSections_returns 0 0 0 mixed mixed_inv)
    as [n [g' [components [E [Hp [Hn H]]]]]].
  - intros p Hp. change (layer_size (PSMsToProteins mixed)) with 3 in Hp.
    assert (C : p = 0 \/ p = 1 \/ p = 2) by lia.
    destruct C as [-> | [-> | ->]]; vm_compute; discriminate.
  - exists components. split; [exact Hp|].
    assert (En : n = 2 /\ section (proteinsToPSMs g') 0 = 0
                 /\ section (proteinsToPSMs g') 1 = 1 /\ section (proteinsToPSMs g') 2 = 1).
    { vm_compute in E. injection E as <- <-. repeat split. }
    destruct En as [En [S0 [S1 S2]]].
    split; [rewrite Hn; exact En|].
    intros c Hc. destruct (H 1%nat c Hc) as [Hprot _]. split.
    + apply Hprot. exists 2. split; [vm_compute; split; congruence|].
      split; [exact S2|reflexivity].
    + intros Hin. apply Hprot in Hin. destruct Hin as [r [Hr [Hs Hname]]].
      change (layer_size (proteinsToPSMs mixed)) with 3 in Hr.
      assert (C : r = 0 \/ r = 1 \/ r = 2) by lia.
      destruct C as [-> | [-> | ->]].
      * rewrite S0 in Hs. discriminate Hs.
      * vm_compute in Hname. discriminate Hname.
      * vm_compute in Hname. discriminate Hname.
Defined.

(** In [loose] the peptide CD has no protein. *)
Lemma partitionSections_isolated_peptide_witness :
  partitionSections 0 0 0 loose = Undef.
Proof.
  apply (partitionSections_isolated_peptide 0 0 0 loose 1 loose_inv).
  - vm_compute. split; congruence.
  - reflexivity.
Defined.

Lemma prune_then_partition_witness :
  exists g' components,
    prune 0 0 0 0 mixed = Ret g'
    /\ partitionSections 0 0 0 g' = Ret components.
Proof.
  destruct (prune_then_partition 0 0 0 0 mixed mixed_inv) as [g' [c [H1 [_ [_ [_ H2]]]]]].
  exists g', c. split; assumption.
Defined.

(** ** The loops over the weights of the peptides *)

Lemma get_ext {A : Type} (d : A) (a b : list A) :
  List.length a = List.length b ->
  (forall k, Arr.get d a k = Arr.get d b k) -> a = b.
Proof.
  intros Hl H. apply (nth_ext a b d d Hl). intros n Hn.
  specialize (H (Z.of_nat n)). unfold Arr.get, Arr.inb, Arr.size in H.
  rewrite <- Hl in H.
  replace (0 <=? Z.of_nat n) with true in H by (symmetry; apply Z.leb_le; lia).
  replace (Z.of_nat n <? Z.of_nat (List.length a)) with true in H
    by (symmetry; apply Z.ltb_lt; lia).
  rewrite Nat2Z.id in H. exact H.
Qed.

Lemma with_weights_eta (g : BasicBigraph) :
  with_PSMs g (with_weights (PSMsToProteins g) (weights (PSMsToProteins g))) = g.
Proof. destruct g as [[nm as_ w se sm cs] pr pt et sv nc]. reflexivity. Qed.

Lemma reweigh_step (g g0 : BasicBigraph) (k : Z) (v : float) :
  g0 = with_PSMs g (with_weights (PSMsToProteins g) (weights (PSMsToProteins g0))) ->
  let g1 := with_PSMs g0 (set_weight (PSMsToProteins g0) k v) in
  g1 = with_PSMs g (with_weights (PSMsToProteins g) (weights (PSMsToProteins g1))).
Proof.
  intros H. cbv zeta.
  destruct g0 as [[nm0 as0 w0 se0 sm0 cs0] pr0 pt0 et0 sv0 nc0].
  destruct g as [[nm as_ w se sm cs] pr pt et sv nc].
  unfold with_PSMs, with_weights, set_weight in *.
  cbn [PSMsToProteins proteinsToPSMs ProteinThreshold PeptideThreshold severedProteins
       numberClones names associations weights sections sectionMarks chargeStates] in *.
  injection H as -> -> -> -> -> -> -> -> -> ->. reflexivity.
Qed.

(** A loop that gives the peptides whose weight passes a test against the
    peptide threshold a new weight made of the threshold. *)
Lemma reweigh_loop (test : float -> float -> bool) (new : float -> float) (g : BasicBigraph) :
  let body := fun k g0 =>
                if test (weight (PSMsToProteins g0) k) (PeptideThreshold g0)
                then with_PSMs g0 (set_weight (PSMsToProteins g0) k (new (PeptideThreshold g0)))
                else g0 in
  let g' := for_ (layer_size (PSMsToProteins g)) body g in
  g' = with_PSMs g (with_weights (PSMsToProteins g) (weights (PSMsToProteins g')))
  /\ List.length (weights (PSMsToProteins g')) = List.length (weights (PSMsToProteins g))
  /\ (forall k, weight (PSMsToProteins g') k
                = if (0 <=? k) && (k <? layer_size (PSMsToProteins g))
                     && Arr.inb (weights (PSMsToProteins g)) k
                     && test (weight (PSMsToProteins g) k) (PeptideThreshold g)
                  then new (PeptideThreshold g)
                  else weight (PSMsToProteins g) k).
Proof.
  cbv zeta.
  set (n := layer_size (PSMsToProteins g)).
  assert (Hn : 0 <= n) by (unfold n, layer_size, Arr.size; lia).
  pose (P := fun (m : Z) (g' : BasicBigraph) =>
               g' = with_PSMs g (with_weights (PSMsToProteins g) (weights (PSMsToProteins g')))
               /\ List.length (weights (PSMsToProteins g'))
                  = List.length (weights (PSMsToProteins g))
               /\ (forall k, weight (PSMsToProteins g') k
                             = if (0 <=? k) && (k <? m)
                                  && Arr.inb (weights (PSMsToProteins g)) k
                                  && test (weight (PSMsToProteins g) k) (PeptideThreshold g)
                               then new (PeptideThreshold g)
                               else weight (PSMsToProteins g) k)).
  apply (for_ind P); [| |exact Hn].
  - unfold P. split; [symmetry; apply with_weights_eta|]. split; [reflexivity|].
    intros k. destruct (0 <=? k) eqn:E; [|reflexivity].
    apply Z.leb_le in E. replace (k <? 0) with false by (symmetry; apply Z.ltb_ge; lia).
    reflexivity.
  - intros k g0 Hk [H1 [H2 H3]]. unfold P.
    assert (Hwk : weight (PSMsToProteins g0) k = weight (PSMsToProteins g) k).
    { rewrite H3. replace (k <? k) with false by (symmetry; apply Z.ltb_ge; lia).
      rewrite andb_false_r. reflexivity. }
    assert (Ht : PeptideThreshold g0 = PeptideThreshold g)
      by (apply (f_equal PeptideThreshold) in H1; exact H1).
    assert (B : forall j, (0 <=? j) && (j <? k + 1)
                          = ((0 <=? j) && (j <? k)) || (j =? k)).
    { intros j. destruct (j =? k) eqn:E.
      - apply Z.eqb_eq in E. subst j.
        replace (0 <=? k) with true by (symmetry; apply Z.leb_le; lia).
        replace (k <? k + 1) with true by (symmetry; apply Z.ltb_lt; lia).
        rewrite orb_true_r. reflexivity.
      - apply Z.eqb_neq in E. rewrite orb_false_r.
        replace (j <? k + 1) with (j <? k); [reflexivity|].
        destruct (j <? k) eqn:L; symmetry;
          [apply Z.ltb_lt; apply Z.ltb_lt in L; lia
          |apply Z.ltb_ge; apply Z.ltb_ge in L; lia]. }
    rewrite Hwk, Ht.
    destruct (test (weight (PSMsToProteins g) k) (PeptideThreshold g)) eqn:Q.
    + cbn [with_PSMs PSMsToProteins set_weight with_weights weights].
      split; [apply (reweigh_step g g0 k _ H1)|].
      split; [rewrite length_set; exact H2|].
      intros j. unfold weight at 1, set_weight. cbn [weights with_weights]. rewrite get_set.
      rewrite (inb_same_length _ _ k H2). fold (weight (PSMsToProteins g0) j).
      rewrite H3, B. destruct (j =? k) eqn:E.
      * apply Z.eqb_eq in E. subst j. rewrite orb_true_r, Q, andb_true_r.
        destruct (Arr.inb (weights (PSMsToProteins g)) k); cbn [andb]; [reflexivity|].
        rewrite andb_false_r. reflexivity.
      * rewrite andb_false_r, orb_false_r. reflexivity.
    + split; [exact H1|]. split; [exact H2|].
      intros j. rewrite H3, B. destruct (j =? k) eqn:E; [|rewrite orb_false_r; reflexivity].
      apply Z.eqb_eq in E. subst j. rewrite Q, !andb_false_r. reflexivity.
Qed.

(** Such a loop run a second time changes nothing. *)
Lemma reweigh_twice (test : float -> float -> bool) (new : float -> float) (g : BasicBigraph) :
  let body := fun k g0 =>
                if test (weight (PSMsToProteins g0) k) (PeptideThreshold g0)
                then with_PSMs g0 (set_weight (PSMsToProteins g0) k (new (PeptideThreshold g0)))
                else g0 in
  let g' := for_ (layer_size (PSMsToProteins g)) body g in
  for_ (layer_size (PSMsToProteins g')) body g' = g'.
Proof.
  cbv zeta.
  pose proof (reweigh_loop test new g) as H1. cbv zeta in H1.
  set (body := fun k g0 => _) in *.
  set (g' := for_ (layer_size (PSMsToProteins g)) body g) in *.
  pose proof (reweigh_loop test new g') as H2. cbv zeta in H2. fold body in H2.
  set (g'' := for_ (layer_size (PSMsToProteins g')) body g') in *.
  destruct H1 as [E1 [L1 W1]]. destruct H2 as [E2 [L2 W2]].
  assert (Ew : weights (PSMsToProteins g'') = weights (PSMsToProteins g')).
  { apply (get_ext 0%float); [exact L2|]. intros k.
    fold (weight (PSMsToProteins g'') k). fold (weight (PSMsToProteins g') k).
    rewrite W2.
    destruct ((0 <=? k) && (k <? layer_size (PSMsToProteins g'))
              && Arr.inb (weights (PSMsToProteins g')) k
              && test (weight (PSMsToProteins g') k) (PeptideThreshold g')) eqn:C;
      [|reflexivity].
    apply andb_true_iff in C. destruct C as [C Ct].
    apply andb_true_iff in C. destruct C as [C Ci].
    assert (Et : PeptideThreshold g' = PeptideThreshold g)
      by (apply (f_equal PeptideThreshold) in E1; exact E1).
    assert (El : layer_size (PSMsToProteins g') = layer_size (PSMsToProteins g))
      by (apply (f_equal (fun x => layer_size (PSMsToProteins x))) in E1; exact E1).
    rewrite W1. rewrite W1 in Ct. rewrite Et in *. rewrite El in C.
    rewrite (inb_same_length _ _ k L1) in Ci. rewrite C, Ci in *. cbn [andb] in *.
    destruct (test (weight (PSMsToProteins g) k) (PeptideThreshold g)) eqn:Q;
      [reflexivity|]. rewrite Q in Ct. discriminate Ct. }
  rewrite E2, Ew. apply with_weights_eta.
Qed.

(** [floorLowPSMs] sets to 0 the weight of every peptide whose weight is
    at most the peptide threshold and leaves every other weight, that of
    a peptide whose weight is not a number among them; nothing else of the
    graph changes, and a second call changes nothing. *)
Theorem floorLowPSMs_floors (g : BasicBigraph) :
  let g' := floorLowPSMs g in
  g' = with_PSMs g (with_weights (PSMsToProteins g) (weights (PSMsToProteins g')))
  /\ List.length (weights (PSMsToProteins g')) = List.length (weights (PSMsToProteins g))
  /\ (forall k, 0 <= k < layer_size (PSMsToProteins g) ->
                Arr.inb (weights (PSMsToProteins g)) k = true ->
                weight (PSMsToProteins g') k
                = if PrimFloat.leb (weight (PSMsToProteins g) k) (PeptideThreshold g)
                  then 0%float else weight (PSMsToProteins g) k)
  /\ floorLowPSMs g' = g'.
Proof.
  cbv zeta.
  destruct (reweigh_loop PrimFloat.leb (fun _ => 0%float) g) as [H1 [H2 H3]].
  split; [exact H1|]. split; [exact H2|]. split.
  - intros k Hk Hin. unfold floorLowPSMs. rewrite H3, Hin.
    replace (0 <=? k) with true by (symmetry; apply Z.leb_le; lia).
    replace (k <? layer_size (PSMsToProteins g)) with true by (symmetry; apply Z.ltb_lt; lia).
    reflexivity.
  - apply (reweigh_twice PrimFloat.leb (fun _ => 0%float) g).
Qed.

(** [pseudoCountPSMs] changes nothing of the graph but weights of
    peptides, and a second call changes nothing. *)
Theorem pseudoCountPSMs_idempotent (g : BasicBigraph) :
  let g' := pseudoCountPSMs g in
  g' = with_PSMs g (with_weights (PSMsToProteins g) (weights (PSMsToProteins g')))
  /\ List.length (weights (PSMsToProteins g')) = List.length (weights (PSMsToProteins g))
  /\ pseudoCountPSMs g' = g'.
Proof.
  cbv zeta.
  destruct (reweigh_loop PrimFloat.ltb (fun t => t) g) as [H1 [H2 _]].
  split; [exact H1|]. split; [exact H2|].
  apply (reweigh_twice PrimFloat.ltb (fun t => t) g).
Qed.

(** ** New nodes *)

Lemma lookup_from_app_old (st : StringTable.t) (name x : string) (pos : Z) :
  In name st ->
  StringTable.lookup_from (st ++ [x]) name pos = StringTable.lookup_from st name pos.
Proof.
  revert pos. induction st as [|y st IH]; intros pos H; [destruct H|].
  simpl. destruct (String.eqb name y) eqn:E; [reflexivity|].
  apply IH. destruct H as [H|H]; [|exact H].
  subst y. rewrite String.eqb_refl in E. discriminate E.
Qed.

Lemma lookup_from_app_new (st : StringTable.t) (name : string) (pos : Z) :
  ~ In name st ->
  StringTable.lookup_from (st ++ [name]) name pos = pos + Arr.size st.
Proof.
  revert pos. induction st as [|y st IH]; intros pos H; simpl.
  - rewrite String.eqb_refl. unfold Arr.size. simpl. lia.
  - destruct (String.eqb name y) eqn:E.
    + apply String.eqb_eq in E. subst y. exfalso. apply H. left. reflexivity.
    + rewrite IH by (intros Hin; apply H; right; exact Hin).
      unfold Arr.size. simpl List.length. lia.
Qed.

Lemma add_new (gl : GraphLayer) (st : StringTable.t) (item : string) :
  ~ In item st ->
  snd (add gl st item) = st ++ [item]
  /\ associations (fst (add gl st item)) = Arr.add (associations gl) IntSet.empty
  /\ StringTable.lookup (st ++ [item]) item = Arr.size st
  /\ names (fst (add gl st item)) = names gl
  /\ weights (fst (add gl st item)) = Arr.add (weights gl) (-1)%float.
Proof.
  intros Hno. unfold add.
  destruct (StringTable.lookup st item =? -1) eqn:E.
  - cbn [fst snd associations names weights]. repeat split.
    unfold StringTable.lookup. rewrite lookup_from_app_new by exact Hno. lia.
  - exfalso. apply Hno, lookup_present, E.
Qed.

(** [add] of a name that the table holds changes nothing. A new name gets
    the next index of the table, and the layer a node at the end of its
    arrays: no edge, the weight -1, the section -1 and the charge state -1;
    the names of the table keep their indices. The array of the names of
    the layer itself is not touched, nor that of the marks: [read] copies
    the names from the table when the input is read. A second [add] of the
    same name changes nothing. *)
Theorem add_gives_the_next_index (gl : GraphLayer) (st : StringTable.t) (item : string) :
  let gl' := fst (add gl st item) in
  let st' := snd (add gl st item) in
  (In item st -> gl' = gl /\ st' = st)
  /\ (~ In item st ->
      st' = st ++ [item]
      /\ StringTable.lookup st' item = Arr.size st
      /\ associations gl' = associations gl ++ [IntSet.empty]
      /\ weights gl' = weights gl ++ [(-1)%float]
      /\ sections gl' = sections gl ++ [-1]
      /\ chargeStates gl' = chargeStates gl ++ [-1]
      /\ names gl' = names gl /\ sectionMarks gl' = sectionMarks gl)
  /\ (forall name, In name st -> StringTable.lookup st' name = StringTable.lookup st name)
  /\ add gl' st' item = (gl', st').
Proof.
  cbv zeta. unfold add.
  destruct (StringTable.lookup st item =? -1) eqn:E; cbn [fst snd].
  - pose proof (lookup_missing _ _ E) as Hno.
    split; [intros H; contradiction|].
    assert (L : StringTable.lookup (StringTable.add st item) item = Arr.size st).
    { unfold StringTable.lookup, StringTable.add. rewrite lookup_from_app_new by exact Hno.
      lia. }
    split; [intros _; repeat split; exact L|].
    split.
    + intros name Hin. unfold StringTable.lookup, StringTable.add.
      apply lookup_from_app_old, Hin.
    + rewrite L.
      replace (Arr.size st =? -1) with false; [reflexivity|].
      symmetry. apply Z.eqb_neq. unfold Arr.size. lia.
  - pose proof (lookup_present _ _ E) as Hin.
    split; [intros _; split; reflexivity|].
    split; [intros H; contradiction|].
    split; [reflexivity|]. rewrite E. reflexivity.
Qed.

Lemma add_gives_the_next_index_witness :
  StringTable.lookup (snd (add (PSMsToProteins mixed) ["AB"; "CD"; "EF"]%string "GH")) "GH" = 3
  /\ weights (fst (add (PSMsToProteins mixed) ["AB"; "CD"; "EF"]%string "GH"))
     = [-1; 0.8; 0.3; -1]%float
  /\ add (PSMsToProteins mixed) ["AB"; "CD"; "EF"]%string "CD"
     = (PSMsToProteins mixed, ["AB"; "CD"; "EF"]%string).
Proof.
  destruct (add_gives_the_next_index (PSMsToProteins mixed) ["AB"; "CD"; "EF"]%string "GH")
    as [_ [H _]].
  destruct H as [_ [H1 [_ [H2 _]]]].
  { simpl. intuition discriminate. }
  split; [exact H1|]. split; [exact H2|].
  destruct (add_gives_the_next_index (PSMsToProteins mixed) ["AB"; "CD"; "EF"]%string "CD")
    as [H _].
  destruct H as [Ha Hb]; [simpl; auto|].
  rewrite <- Ha at 2. rewrite <- Hb at 2. apply surjective_pairing.
Defined.

(** ** The clones of a peptide *)

Lemma ascending_union (a b : IntSet.t) : ascending a -> ascending (IntSet.union a b).
Proof.
  unfold IntSet.union. revert a. induction b as [|x b IH]; intros a H; simpl.
  - exact H.
  - apply IH, ascending_add, H.
Qed.

Lemma sectionsOf_ascending (g : BasicBigraph) (s : IntSet.t) : ascending (sectionsOf g s).
Proof.
  unfold sectionsOf.
  assert (G : forall acc, ascending acc ->
                          ascending (fold_left
                                       (fun sects p =>
                                          IntSet.union sects
                                            (IntSet.SingletonSet (section (proteinsToPSMs g) p)))
                                       s acc)).
  { induction s as [|a s IH]; intros acc H; cbn [fold_left]; [exact H|].
    apply IH, ascending_union, H. }
  apply G. constructor.
Qed.

(** The proteins of [s] at place [i] of [proteinsBySection]: those whose
    section is the [i]-th of the sections of [s]. *)
Lemma proteinsBySection_exact (g : BasicBigraph) (s : IntSet.t) (i r : Z) :
  let sects := sectionsOf g s in
  In r (Arr.get IntSet.empty (proteinsBySection g s sects) i)
  <-> In r s /\ i = IntSet.find sects (section (proteinsToPSMs g) r).
Proof.
  cbv zeta. unfold proteinsBySection.
  pose proof (bySection_fold g (sectionsOf g s) s
                (Arr.make (IntSet.size (sectionsOf g s)) IntSet.empty)) as H.
  cbv zeta in H. destruct H as [_ H]. rewrite H, get_make.
  assert (Hm : 0 <= IntSet.size (sectionsOf g s)) by (unfold IntSet.size, Arr.size; lia).
  split.
  - intros [[]|[Hr [Hi _]]]. auto.
  - intros [Hr Hi]. right. split; [exact Hr|]. split; [exact Hi|].
    apply inb_iff. rewrite size_make by exact Hm. subst i.
    apply find_range, sectionsOf_spec. exists r. auto.
Qed.

Lemma join_all_frame (l : list Z) (g : BasicBigraph) :
  edges_only g (fold_left (fun g prot =>
                             with_proteins g
                               (join (proteinsToPSMs g) prot
                                     (layer_size (PSMsToProteins g) - 1))) l g).
Proof.
  revert g. induction l as [|a l IH]; intros g; simpl.
  - apply edges_only_refl.
  - eapply edges_only_trans; [|apply IH].
    unfold edges_only, join.
    cbn [with_proteins PSMsToProteins proteinsToPSMs ProteinThreshold
         PeptideThreshold severedProteins numberClones].
    split; [apply layer_frame_refl|]. split; [apply layer_frame_set_association|].
    repeat split.
Qed.

(** What one turn of the loop of the clones appends to the arrays of the
    peptides. *)
Lemma addClone_arrays (pepIndex : Z) (sects : IntSet.t) (by_section : list IntSet.t)
      (k : Z) (g : BasicBigraph) :
  let g' := addClone pepIndex sects by_section k g in
  let psm := PSMsToProteins g in
  names (PSMsToProteins g') = names psm ++ [name_of psm pepIndex]
  /\ weights (PSMsToProteins g') = weights psm ++ [weight psm pepIndex]
  /\ sections (PSMsToProteins g') = sections psm ++ [IntSet.nth_ sects k]
  /\ chargeStates (PSMsToProteins g') = chargeStates psm ++ [chargeState_of psm pepIndex]
  /\ sectionMarks (PSMsToProteins g') = sectionMarks psm
  /\ layer_frame (proteinsToPSMs g) (proteinsToPSMs g')
  /\ ProteinThreshold g' = ProteinThreshold g
  /\ PeptideThreshold g' = PeptideThreshold g
  /\ severedProteins g' = severedProteins g
  /\ numberClones g' = numberClones g.
Proof.
  cbv zeta. unfold addClone.
  match goal with
  | |- context [fold_left _ ?l ?g1] =>
      pose proof (join_all_frame l g1) as F;
      pose proof (join_all l g1) as J; cbv zeta in J; destruct J as [J1 _]
  end.
  rewrite J1. destruct F as [_ [F2 [F3 [F4 [F5 F6]]]]].
  cbn [PSMsToProteins proteinsToPSMs with_PSMs names weights sections chargeStates
       sectionMarks ProteinThreshold PeptideThreshold severedProteins numberClones] in *.
  unfold Arr.add. repeat split; assumption || apply F2.
Qed.

Lemma get_app_l {A : Type} (d : A) (a b : list A) (k : Z) :
  Arr.inb a k = true -> Arr.get d (a ++ b) k = Arr.get d a k.
Proof.
  intros H. unfold Arr.get. rewrite H.
  pose proof (proj1 (inb_iff a k) H) as R. unfold Arr.size in R.
  replace (Arr.inb (a ++ b) k) with true
    by (symmetry; apply inb_iff; unfold Arr.size; rewrite length_app; lia).
  apply app_nth1. lia.
Qed.

(** The arrays of the peptides after the loop of the clones. *)
Lemma clone_arrays (pepIndex : Z) (sects : IntSet.t) (by_section : list IntSet.t)
      (g : BasicBigraph) (k : nat) :
  Arr.inb (names (PSMsToProteins g)) pepIndex = true ->
  Arr.inb (weights (PSMsToProteins g)) pepIndex = true ->
  Arr.inb (chargeStates (PSMsToProteins g)) pepIndex = true ->
  let g' := for_ (Z.of_nat k) (addClone pepIndex sects by_section) g in
  let psm := PSMsToProteins g in
  names (PSMsToProteins g') = names psm ++ repeat (name_of psm pepIndex) k
  /\ weights (PSMsToProteins g') = weights psm ++ repeat (weight psm pepIndex) k
  /\ sections (PSMsToProteins g')
     = sections psm ++ map (fun i => IntSet.nth_ sects (Z.of_nat i)) (seq 0 k)
  /\ chargeStates (PSMsToProteins g')
     = chargeStates psm ++ repeat (chargeState_of psm pepIndex) k
  /\ sectionMarks (PSMsToProteins g') = sectionMarks psm
  /\ layer_frame (proteinsToPSMs g) (proteinsToPSMs g')
  /\ ProteinThreshold g' = ProteinThreshold g
  /\ PeptideThreshold g' = PeptideThreshold g
  /\ severedProteins g' = severedProteins g
  /\ numberClones g' = numberClones g.
Proof.
  intros Hn Hw Hc. cbv zeta. induction k as [|k IH].
  - unfold for_. simpl. rewrite !app_nil_r. repeat split.
  - rewrite for_step.
    set (g1 := for_ (Z.of_nat k) (addClone pepIndex sects by_section) g) in *.
    destruct IH as [I1 [I2 [I3 [I4 [I5 [I6 [I7 [I8 [I9 I10]]]]]]]]].
    pose proof (addClone_arrays pepIndex sects by_section (Z.of_nat k) g1) as A.
    cbv zeta in A. destruct A as [A1 [A2 [A3 [A4 [A5 [A6 [A7 [A8 [A9 A10]]]]]]]]].
    assert (E1 : name_of (PSMsToProteins g1) pepIndex = name_of (PSMsToProteins g) pepIndex)
      by (unfold name_of; rewrite I1; apply get_app_l, Hn).
    assert (E2 : weight (PSMsToProteins g1) pepIndex = weight (PSMsToProteins g) pepIndex)
      by (unfold weight; rewrite I2; apply get_app_l, Hw).
    assert (E4 : chargeState_of (PSMsToProteins g1) pepIndex
                 = chargeState_of (PSMsToProteins g) pepIndex)
      by (unfold chargeState_of; rewrite I4; apply get_app_l, Hc).
    rewrite A1, A2, A3, A4, A5, A7, A8, A9, A10, E1, E2, E4, I1, I2, I3, I4, I5.
    rewrite seq_S, map_app. cbn [map Nat.add].
    assert (R : forall (A : Type) (x : A) (l : list A),
               (l ++ repeat x k) ++ [x] = l ++ repeat x (S k)).
    { intros A x l. cbn [repeat]. rewrite repeat_cons, app_assoc. reflexivity. }
    rewrite !R, !app_assoc.
    do 5 (split; [reflexivity|]).
    split; [eapply layer_frame_trans; eassumption|].
    repeat split; assumption.
Qed.

Lemma sever_loop_frame (pepIndex : Z) (by_section : list IntSet.t) (g : BasicBigraph) :
  edges_only g
    (for_ (Arr.size by_section)
          (fun k g =>
             fold_left (fun g prot =>
                          with_proteins g (sever (proteinsToPSMs g) prot pepIndex))
                       (Arr.get IntSet.empty by_section k) g) g).
Proof.
  apply (for_inv (edges_only g)); [apply edges_only_refl|].
  intros k s _ Hs. eapply edges_only_trans; [exact Hs|apply sever_all_frame].
Qed.

Lemma map_nth_seq (s : IntSet.t) :
  map (fun i => IntSet.nth_ s (Z.of_nat i)) (seq 0 (List.length s)) = s.
Proof.
  apply (nth_ext _ _ 0 0).
  - rewrite length_map, length_seq. reflexivity.
  - intros n Hn. rewrite length_map, length_seq in Hn.
    rewrite (nth_indep _ 0 (IntSet.nth_ s (Z.of_nat 0)))
      by (rewrite length_map, length_seq; exact Hn).
    rewrite (map_nth (fun i => IntSet.nth_ s (Z.of_nat i)) (seq 0 (List.length s)) 0%nat n).
    rewrite seq_nth by exact Hn. simpl. unfold IntSet.nth_, Arr.get.
    replace (Arr.inb s (Z.of_nat n)) with true
      by (symmetry; apply inb_iff; unfold Arr.size; lia).
    rewrite Nat2Z.id. reflexivity.
Qed.

(** The arrays of the graph after [clonePSM]. *)
Lemma clonePSM_arrays (pepIndex : Z) (g : BasicBigraph) :
  Arr.inb (names (PSMsToProteins g)) pepIndex = true ->
  Arr.inb (weights (PSMsToProteins g)) pepIndex = true ->
  Arr.inb (chargeStates (PSMsToProteins g)) pepIndex = true ->
  let psm := PSMsToProteins g in
  let sects := sectionsOf g (association psm pepIndex) in
  let g' := clonePSM pepIndex g in
  names (PSMsToProteins g') = names psm ++ repeat (name_of psm pepIndex) (List.length sects)
  /\ weights (PSMsToProteins g') = weights psm ++ repeat (weight psm pepIndex) (List.length sects)
  /\ chargeStates (PSMsToProteins g')
     = chargeStates psm ++ repeat (chargeState_of psm pepIndex) (List.length sects)
  /\ sections (PSMsToProteins g') = sections psm ++ sects
  /\ sectionMarks (PSMsToProteins g') = sectionMarks psm
  /\ layer_frame (proteinsToPSMs g) (proteinsToPSMs g')
  /\ ProteinThreshold g' = ProteinThreshold g
  /\ PeptideThreshold g' = PeptideThreshold g
  /\ severedProteins g' = severedProteins g
  /\ numberClones g' = numberClones g + (IntSet.size sects - 1).
Proof.
  intros Hn Hw Hc. cbv zeta. unfold clonePSM.
  set (s := association (PSMsToProteins g) pepIndex).
  set (sects := sectionsOf g s).
  set (bs := proteinsBySection g s sects).
  destruct (proteinsBySection_spec g s) as [B0 _]. fold sects bs in B0.
  pose proof (clone_arrays pepIndex sects bs g (List.length sects) Hn Hw Hc) as CA.
  cbv zeta in CA.
  assert (Ebs : Arr.size bs = Z.of_nat (List.length sects)) by (rewrite B0; reflexivity).
  rewrite <- Ebs in CA.
  set (g1 := for_ (Arr.size bs) (addClone pepIndex sects bs) g) in *.
  destruct CA as [A1 [A2 [A3 [A4 [A5 [A6 [A7 [A8 [A9 A10]]]]]]]]].
  pose proof (sever_loop pepIndex bs g1) as V. cbv zeta in V.
  pose proof (sever_loop_frame pepIndex bs g1) as VF.
  set (g2 := for_ (Arr.size bs) _ g1) in *.
  destruct V as [V1 _].
  destruct VF as [_ [VF2 [VF3 [VF4 [VF5 VF6]]]]].
  cbn [PSMsToProteins proteinsToPSMs with_PSMs with_numberClones numberClones
       ProteinThreshold PeptideThreshold severedProteins
       set_association with_associations names weights sections chargeStates sectionMarks].
  rewrite V1, A1, A2, A3, A4, A5, map_nth_seq, VF3, VF4, VF5, VF6, A7, A8, A9, A10.
  do 5 (split; [reflexivity|]).
  split; [eapply layer_frame_trans; [exact A6|exact VF2]|].
  repeat split.
Qed.

(** The edges of the graph after [clonePSM]. *)
Lemma clonePSM_edges (pepIndex : Z) (g : BasicBigraph) :
  graph_inv g ->
  0 <= pepIndex < layer_size (PSMsToProteins g) ->
  let psm := PSMsToProteins g in
  let s := association psm pepIndex in
  let sects := sectionsOf g s in
  let n0 := layer_size psm in
  let g' := clonePSM pepIndex g in
  association (PSMsToProteins g') pepIndex = []
  /\ (forall p r, 0 <= p < n0 -> p <> pepIndex ->
                  (In r (association (PSMsToProteins g') p) <-> In r (association psm p)))
  /\ (forall i r, 0 <= i < IntSet.size sects ->
                  (In r (association (PSMsToProteins g') (n0 + i))
                   <-> In r s /\ section (proteinsToPSMs g) r = IntSet.nth_ sects i))
  /\ (forall r p, In p (association (proteinsToPSMs g') r)
                  <-> (In p (association (proteinsToPSMs g) r) /\ p <> pepIndex)
                      \/ (In r s
                          /\ p = n0 + IntSet.find sects (section (proteinsToPSMs g) r))).
Proof.
  intros Hg Hp. cbv zeta.
  destruct Hg as [Hs [Hz1 Hz2]].
  unfold clonePSM in *.
  set (s := association (PSMsToProteins g) pepIndex) in *.
  set (sects := sectionsOf g s) in *.
  set (bs := proteinsBySection g s sects) in *.
  destruct (proteinsBySection_spec g s) as [B0 [B1 B2]]. fold sects bs in B0, B1, B2.
  pose proof (proteinsBySection_exact g s) as BX. cbv zeta in BX. fold sects bs in BX.
  assert (Hrange : forall i r, In r (Arr.get IntSet.empty bs i) ->
                               Arr.inb (associations (proteinsToPSMs g)) r = true).
  { intros i r Hr. apply B1 in Hr. apply (symmetric_inb g pepIndex r Hs Hr). }
  pose proof (clone_loop pepIndex sects bs g Hz1 Hrange) as C. cbv zeta in C.
  set (g1 := for_ (Arr.size bs) (addClone pepIndex sects bs) g) in *.
  destruct C as [C1 [C2 [C3 [C4 C5]]]].
  pose proof (sever_loop pepIndex bs g1) as V. cbv zeta in V.
  set (g2 := for_ (Arr.size bs) _ g1) in *.
  destruct V as [V1 [V2 [V3 V4]]].
  cbn [PSMsToProteins proteinsToPSMs with_PSMs with_numberClones].
  rewrite V1.
  assert (HX : forall p r, (exists i, 0 <= i < Arr.size bs
                                      /\ p = Arr.size (names (PSMsToProteins g)) + i
                                      /\ In r (Arr.get IntSet.empty bs i))
                           <-> In r s
                               /\ p = Arr.size (names (PSMsToProteins g))
                                      + IntSet.find sects (section (proteinsToPSMs g) r)).
  { intros p r. split.
    - intros [i [Hi [Hpi Hr]]]. apply BX in Hr. destruct Hr as [Hr ->]. auto.
    - intros [Hr Hpi].
      exists (IntSet.find sects (section (proteinsToPSMs g) r)).
      split; [|split; [exact Hpi|apply BX; auto]].
      rewrite B0. apply find_range, sectionsOf_spec. exists r. auto. }
  assert (Hout : forall i r, 0 <= i ->
                             ~ In r (association (PSMsToProteins g)
                                                 (Arr.size (names (PSMsToProteins g)) + i))).
  { intros i r Hi Hin. apply association_inb in Hin. apply inb_iff in Hin.
    unfold sized in Hz1. unfold Arr.size in *. lia. }
  split; [|split; [|split]].
  - rewrite association_set, Z.eqb_refl, andb_true_r.
    destruct (Arr.inb (associations (PSMsToProteins g1)) pepIndex) eqn:E; [reflexivity|].
    apply association_outside, E.
  - intros p r Hpr Hne. rewrite association_set.
    replace (p =? pepIndex) with false by (symmetry; apply Z.eqb_neq; exact Hne).
    rewrite andb_false_r, C4. split; [|auto].
    intros [H|[i [Hi [Hpi _]]]]; [exact H|]. unfold layer_size in Hpr. lia.
  - intros i r Hi. rewrite association_set.
    replace (layer_size (PSMsToProteins g) + i =? pepIndex) with false
      by (symmetry; apply Z.eqb_neq; lia).
    rewrite andb_false_r, C4. unfold layer_size. rewrite HX. split.
    + intros [H|[Hr Hpi]]; [exfalso; apply (Hout i r); [lia|exact H]|].
      split; [exact Hr|].
      assert (Ei : i = IntSet.find sects (section (proteinsToPSMs g) r)) by lia.
      rewrite Ei. symmetry. apply nth_find, sectionsOf_spec. exists r. auto.
    + intros [Hr Hsec]. right. split; [exact Hr|]. rewrite Hsec.
      rewrite find_nth; [reflexivity|apply ascending_NoDup, sectionsOf_ascending|exact Hi].
  - intros r p. rewrite V4, C5, HX.
    assert (HE : (exists i, 0 <= i < Arr.size bs /\ In r (Arr.get IntSet.empty bs i))
                 <-> In r s).
    { split; [intros [i [_ Hr]]; eapply B1, Hr|apply B2]. }
    rewrite HE. unfold layer_size. split.
    + intros [[H|[Hr Hpi]] Hno].
      * left. split; [exact H|]. intros ->. apply Hno. split; [|reflexivity].
        apply Hs. exact H.
      * right. auto.
    + intros [[H Hne]|[Hr Hpi]].
      * split; [left; exact H|]. intros [_ E]. contradiction.
      * split; [right; auto|]. intros [_ E].
        pose proof (find_range sects (section (proteinsToPSMs g) r)
                      ltac:(apply sectionsOf_spec; exists r; auto)) as R.
        unfold layer_size in Hp. lia.
Qed.

(** [clonePSM] on a peptide of a graph with symmetric edges: for each
    section among the proteins of the peptide, in ascending order of the
    sections, a new peptide comes at the end of the peptides, with the
    name, the weight and the charge state of the original, with that
    section, and tied on both sides to exactly the proteins of the original
    that are of that section. The original loses all its proteins, every
    other peptide keeps its own, and the proteins keep their other
    peptides. [numberClones] grows by the number of the sections less one:
    on a peptide without a protein it goes down by one. *)
Theorem clonePSM_clones (pepIndex : Z) (g : BasicBigraph) :
  graph_inv g ->
  0 <= pepIndex < layer_size (PSMsToProteins g) ->
  Arr.inb (weights (PSMsToProteins g)) pepIndex = true ->
  Arr.inb (chargeStates (PSMsToProteins g)) pepIndex = true ->
  let psm := PSMsToProteins g in
  let s := association psm pepIndex in
  let sects := sectionsOf g s in
  let n0 := layer_size psm in
  let g' := clonePSM pepIndex g in
  names (PSMsToProteins g') = names psm ++ repeat (name_of psm pepIndex) (List.length sects)
  /\ weights (PSMsToProteins g') = weights psm ++ repeat (weight psm pepIndex) (List.length sects)
  /\ chargeStates (PSMsToProteins g')
     = chargeStates psm ++ repeat (chargeState_of psm pepIndex) (List.length sects)
  /\ sections (PSMsToProteins g') = sections psm ++ sects
  /\ association (PSMsToProteins g') pepIndex = []
  /\ (forall p r, 0 <= p < n0 -> p <> pepIndex ->
                  (In r (association (PSMsToProteins g') p) <-> In r (association psm p)))
  /\ (forall i r, 0 <= i < IntSet.size sects ->
                  (In r (association (PSMsToProteins g') (n0 + i))
                   <-> In r s /\ section (proteinsToPSMs g) r = IntSet.nth_ sects i))
  /\ (forall r p, In p (association (proteinsToPSMs g') r)
                  <-> (In p (association (proteinsToPSMs g) r) /\ p <> pepIndex)
                      \/ (In r s
                          /\ p = n0 + IntSet.find sects (section (proteinsToPSMs g) r)))
  /\ layer_frame (proteinsToPSMs g) (proteinsToPSMs g')
  /\ numberClones g' = numberClones g + (IntSet.size sects - 1)
  /\ graph_inv g'.
Proof.
  intros Hg Hp Hw Hc. cbv zeta.
  assert (Hn : Arr.inb (names (PSMsToProteins g)) pepIndex = true)
    by (apply inb_iff; exact Hp).
  destruct (clonePSM_arrays pepIndex g Hn Hw Hc) as [A1 [A2 [A3 [A4 [_ [A6 [_ [_ [_ A10]]]]]]]]].
  destruct (clonePSM_edges pepIndex g Hg Hp) as [E1 [E2 [E3 E4]]].
  do 4 (split; [assumption|]).
  split; [exact E1|]. split; [exact E2|]. split; [exact E3|]. split; [exact E4|].
  split; [exact A6|]. split; [exact A10|apply clonePSM_inv, Hg].
Qed.

Lemma bridged_marking : markSectionPartitions bridged = Ret (2, bridgedMarked).
Proof. vm_compute. reflexivity. Qed.

Lemma bridgedMarked_inv : graph_inv bridgedMarked.
Proof. split; [apply symmetricb_sound; reflexivity|split; reflexivity]. Qed.

(** The peptide X of [bridgedMarked] has P1 in the section 0 and P2 in the
    section 1: two clones named X, one for each protein, and one clone
    counted. *)
Lemma clonePSM_clones_witness :
  names (PSMsToProteins (clonePSM 0 bridgedMarked)) = ["X"; "X"; "X"]%string
  /\ association (PSMsToProteins (clonePSM 0 bridgedMarked)) 0 = []
  /\ (forall r, In r (association (PSMsToProteins (clonePSM 0 bridgedMarked)) 2) <-> r = 1)
  /\ numberClones (clonePSM 0 bridgedMarked) = 1.
Proof.
  destruct (clonePSM_clones 0 bridgedMarked bridgedMarked_inv)
    as [H1 [_ [_ [_ [H5 [_ [H7 [_ [_ [H10 _]]]]]]]]]];
    [vm_compute; split; congruence|reflexivity|reflexivity|].
  split; [exact H1|]. split; [exact H5|]. split; [|exact H10].
  intros r. specialize (H7 1 r ltac:(vm_compute; split; congruence)).
  change (layer_size (PSMsToProteins bridgedMarked) + 1) with 2 in H7.
  rewrite H7. vm_compute. split.
  - intros [[H|[H|[]]] E]; [subst r; discriminate E|auto].
  - intros ->. split; [auto|reflexivity].
Defined.

(** ** The loop of the clones *)

Lemma graph_inv_with_numberClones (g : BasicBigraph) (n : Z) :
  graph_inv g -> graph_inv (with_numberClones g n).
Proof. intros H. exact H. Qed.





(** ** cloneDegeneratePSMs *)

(** [cloneDegeneratePSMs] returns on every graph with symmetric edges: it
    marks the sections with the peptide threshold at 2 and clones the
    peptides marked more than once; the peptide threshold is afterwards
    the one the graph had, the edges are symmetric and the proteins keep
    their names. *)
Theorem cloneDegeneratePSMs_restores_the_threshold (g : BasicBigraph) :
  graph_inv g ->
  exists g', cloneDegeneratePSMs g = Ret g'
             /\ PeptideThreshold g' = PeptideThreshold g
             /\ ProteinThreshold g' = ProteinThreshold g
             /\ graph_inv g'
             /\ names (proteinsToPSMs g') = names (proteinsToPSMs g).
Proof.
  intros Hg. unfold cloneDegeneratePSMs.
  assert (H2 : graph_inv (with_PeptideThreshold g 2)) by exact Hg.
  destruct (markSectionPartitions_total _ (proj1 (proj2 H2)) (proj2 (proj2 H2)))
    as [n [g1 Hm]].
  rewrite Hm. cbn [bind snd]. eexists. split; [reflexivity|].
  pose proof (markSectionPartitions_frame _ _ _ Hm) as F.
  pose proof (same_edges_inv _ _ F H2) as H1.
  cbn [PeptideThreshold ProteinThreshold with_PeptideThreshold PSMsToProteins proteinsToPSMs].
  split; [reflexivity|]. split.
  - unfold cloneMultipleMarkedPSMs. cbv zeta.
    apply (for_inv (fun s => ProteinThreshold s = ProteinThreshold g)).
    + cbn [with_numberClones ProteinThreshold].
      apply bind_not_Ret in Hm. destruct Hm as [[n' m] [Hm E]]. injection E as _ <-.
      unfold markSectionPartitions_traced in Hm. revert Hm.
      apply (forM_inv (fun p : Z * Marking =>
                         ProteinThreshold (graph (snd p)) = ProteinThreshold g));
        [reflexivity|].
      intros k [sec m0] [sec' m1] _ Hs. cbn [fst snd] in *.
      destruct (section (proteinsToPSMs (graph m0)) k =? -1).
      * intros H. apply bind_not_Ret in H. destruct H as [m2 [Ht H]]. injection H as _ <-.
        rewrite <- Hs. clear Hs. revert k m0 m2 Ht.
        generalize (traceFuel (clearMarks (with_PeptideThreshold g 2))) as fuel.
        generalize ProteinLayer as l.
        intros l fuel. revert l. induction fuel as [|fuel IH]; intros l k m0 m2; [discriminate|].
        rewrite traceConnected_S.
        destruct (section (layer (graph m0) l) k =? sec); [intros H; injection H as <-; reflexivity|].
        cbv zeta. destruct (isPSMLayer l && _).
        -- intros H. injection H as <-. destruct l; reflexivity.
        -- apply (foldM_inv (fun m' => ProteinThreshold (graph m') = ProteinThreshold (graph m0))).
           ++ destruct l; reflexivity.
           ++ intros a s s' _ Hs Ht. rewrite <- Hs. apply (IH _ _ _ _ Ht).
      * intros H. injection H as _ <-. exact Hs.
    + intros k s _ Hs. destruct (1 <? _); [|exact Hs].
      unfold clonePSM. cbv zeta. cbn [with_numberClones with_PSMs ProteinThreshold].
      rewrite <- Hs.
      match goal with
      | |- ProteinThreshold (for_ ?m ?f2 (for_ ?m ?f1 s)) = _ =>
          assert (Q1 : ProteinThreshold (for_ m f1 s) = ProteinThreshold s);
          [|rewrite <- Q1;
            destruct (sever_loop_frame k
                        (proteinsBySection s (association (PSMsToProteins s) k)
                           (sectionsOf s (association (PSMsToProteins s) k)))
                        (for_ m f1 s)) as [_ [_ [Q _]]]; exact Q]
      end.
      apply (for_inv (fun s' => ProteinThreshold s' = ProteinThreshold s)); [reflexivity|].
      intros j s' _ Hs'. rewrite <- Hs'.
      destruct (addClone_arrays k
                  (sectionsOf s (association (PSMsToProteins s) k))
                  (proteinsBySection s (association (PSMsToProteins s) k)
                     (sectionsOf s (association (PSMsToProteins s) k))) j s')
        as [_ [_ [_ [_ [_ [_ [Q _]]]]]]]. exact Q.
  - split; [apply cloneMultipleMarkedPSMs_inv, H1|].
    unfold cloneMultipleMarkedPSMs. cbv zeta. rewrite disconnect_names.
    + cbn [with_numberClones proteinsToPSMs].
      destruct F as [_ [_ [_ [F4 _]]]]. exact F4.
    + intros k s. destruct (1 <? _); [apply clonePSM_protein_names|reflexivity].
Qed.

Lemma cloneDegeneratePSMs_restores_the_threshold_witness :
  exists g', cloneDegeneratePSMs mixed = Ret g'
             /\ PeptideThreshold g' = (-2)%float
             /\ names (proteinsToPSMs g') = ["P1"; "P2"; "P3"]%string.
Proof.
  destruct (cloneDegeneratePSMs_restores_the_threshold mixed mixed_inv)
    as [g' [H1 [H2 [_ [_ H5]]]]].
  exists g'. split; [exact H1|]. split; [exact H2|exact H5].
Defined.

(** ** The other directives of read *)

Lemma ltb_leb (x y : float) : PrimFloat.ltb x y = true -> PrimFloat.leb x y = true.
Proof.
  rewrite ltb_spec, leb_spec. unfold SFltb, SFleb.
  destruct (SFcompare (Prim2SF x) (Prim2SF y)) as [[| |]|]; congruence.
Qed.

Lemma ltb_asym (x y : float) : PrimFloat.ltb x y = true -> PrimFloat.ltb y x = false.
Proof. intros H. apply ltb_not_leb, ltb_leb, H. Qed.

(** Under the best-match policy a [p] directive that delivers the score
    [v] leaves the peptide the larger of its weight and [v]: [v] when the
    weight is below [v], the weight otherwise. So the weight is afterwards
    neither below [v] nor below what it was, a first score replaces the
    sentinel -1 only when it is above -1, and a peptide whose weight is not a
    number keeps it. The charge state of the record is stored with the
    score, and the state is [e] again. *)
Theorem best_match_keeps_the_best (clear : bool) (r : Reader) (v : float) (is1 : IStream.t) :
  state r = "p"%char ->
  IStream.get_double (is_ r) = (IStream.Got v, is1) ->
  Arr.inb (weights (PSMsToProteins (this r))) (pepIndex r) = true ->
  Arr.inb (chargeStates (PSMsToProteins (this r))) (pepIndex r) = true ->
  exists r',
    read_body clear false "p" r = Normal r'
    /\ state r' = "e"%char /\ pepIndex r' = pepIndex r /\ value r' = v /\ is_ r' = is1
    /\ pep_weight r' = (if PrimFloat.ltb (pep_weight r) v then v else pep_weight r)
    /\ PrimFloat.ltb (pep_weight r') v = false
    /\ PrimFloat.ltb (pep_weight r') (pep_weight r) = false
    /\ chargeState_of (PSMsToProteins (this r')) (pepIndex r') = chargeState r
    /\ associations (PSMsToProteins (this r')) = associations (PSMsToProteins (this r))
    /\ proteinsToPSMs (this r') = proteinsToPSMs (this r)
    /\ cerr r' = cerr r.
Proof.
  intros Hp Hget Hw Hc.
  rewrite read_body_p by exact Hp. unfold read_p. rewrite Hget.
  cbv zeta. reader_simpl. cbn [negb IStream.store]. cbv iota.
  eexists. split; [reflexivity|]. reader_simpl.
  do 4 (split; [reflexivity|]).
  assert (E : pep_weight
                (set_pep_charge
                   (set_pep_weight (set_value (set_is r is1) v)
                      (max_ (pep_weight (set_value (set_is r is1) v)) v))
                   (chargeState r))
              = if PrimFloat.ltb (pep_weight r) v then v else pep_weight r).
  { unfold pep_weight, set_pep_charge, set_pep_weight. reader_simpl.
    cbn [PSMsToProteins with_PSMs with_chargeStates set_weight with_weights weights].
    unfold weight at 1, with_chargeStates, set_weight, with_weights. cbn [weights].
    rewrite get_set_same by exact Hw. reflexivity. }
  unfold pep_weight in *. reader_simpl.
  unfold with_chargeStates, set_weight, with_weights in *.
  cbn [PSMsToProteins proteinsToPSMs with_PSMs
       weights associations chargeStates names sections sectionMarks] in *.
  split; [exact E|]. rewrite E.
  split; [|split; [|split]].
  - destruct (PrimFloat.ltb (weight (PSMsToProteins (this r)) (pepIndex r)) v) eqn:Q;
      [apply ltb_irrefl|exact Q].
  - destruct (PrimFloat.ltb (weight (PSMsToProteins (this r)) (pepIndex r)) v) eqn:Q;
      [apply ltb_asym, Q|apply ltb_irrefl].
  - unfold chargeState_of. cbn [chargeStates]. apply get_set_same, Hc.
  - repeat split.
Qed.

Lemma best_match_keeps_the_best_witness :
  exists r',
    read_body true false "p"
              (mkReader (IStream.mk " 0.4" false) "PEP" "PROT" 0.5 0 2 "p"
                        ["PEP"%string] ["PROT"%string]
                        (mkGraph (mkLayer [] [[0]] [0.5]%float [-1] [] [2])
                                 (mkLayer [] [[0]] [-1]%float [-1] [] [-1])
                                 0 0.5 [] 0)
                        [] [])
    = Normal r'
    /\ pep_weight r' = 0.5%float.
Proof.
  destruct (best_match_keeps_the_best true
              (mkReader (IStream.mk " 0.4" false) "PEP" "PROT" 0.5 0 2 "p"
                        ["PEP"%string] ["PROT"%string]
                        (mkGraph (mkLayer [] [[0]] [0.5]%float [-1] [] [2])
                                 (mkLayer [] [[0]] [-1]%float [-1] [] [-1])
                                 0 0.5 [] 0)
                        [] [])
              0.4%float (IStream.mk "" false) eq_refl eq_refl eq_refl eq_refl)
    as [r' [H [_ [_ [_ [_ [Hw _]]]]]]].
  exists r'. split; [exact H|exact Hw].
Defined.




Lemma read_body_comment (clear allm : bool) (r : Reader) :
  read_body clear allm "#" r = read_comment r.
Proof.
  unfold read_body. change (Ascii.eqb "#" "d") with false.
  change (Ascii.eqb "#" "e") with false. change (Ascii.eqb "#" "c") with false.
  change (Ascii.eqb "#" "r") with false. change (Ascii.eqb "#" "p") with false.
  reflexivity.
Qed.

Lemma line_newline (s : string) :
  fst (IStream.line s) = s /\ snd (IStream.line s) = EmptyString
  \/ exists rest, s = (fst (IStream.line s) ++ String "010" rest)%string
                  /\ snd (IStream.line s) = rest.
Proof.
  induction s as [|c s IH]; [left; split; reflexivity|].
  simpl. destruct (Ascii.eqb c "010") eqn:E.
  - apply Ascii.eqb_eq in E. subst c. right. exists s. split; reflexivity.
  - destruct (IStream.line s) as [l rest]. simpl in *.
    destruct IH as [[-> ->]|[rest' [Hs ->]]].
    + left. split; reflexivity.
    + right. exists rest'. split; [rewrite Hs at 1; reflexivity|reflexivity].
Qed.

(** The directive [#] is taken in every state and at every place where a
    directive is read, not only at the start of a line: the rest of the
    line, the newline included, is dropped, and the reader is otherwise as
    it was, whatever the line holds. *)
Theorem comment_line_is_skipped (clear allm : bool) (r : Reader) :
  IStream.failed (is_ r) = false ->
  IStream.buf (is_ r) <> EmptyString ->
  let text := IStream.buf (is_ r) in
  read_body clear allm "#" r
  = Normal (set_is r (IStream.mk (snd (IStream.line text)) false))
  /\ (snd (IStream.line text) = EmptyString
      \/ text = (fst (IStream.line text) ++ String "010" (snd (IStream.line text)))%string).
Proof.
  intros Hf Hb. cbv zeta. rewrite read_body_comment. unfold read_comment, IStream.getline.
  rewrite Hf. destruct (IStream.buf (is_ r)) as [|c s] eqn:B; [congruence|].
  split.
  - destruct (IStream.line (String c s)) as [l rest]. reflexivity.
  - destruct (line_newline (String c s)) as [[_ H]|[rest [H1 H2]]]; [left; exact H|].
    right. rewrite H2. exact H1.
Qed.

Lemma comment_line_is_skipped_witness :
  read_body true false "#"
            (mkReader (IStream.mk (" p 0.9 e AB" ++ String "010" "c 2") false) "PEP" "PROT" 0.5 0 2 "c"
                      ["PEP"%string] ["PROT"%string] (freshGraph 0 0.5) [] [])
  = Normal (mkReader (IStream.mk "c 2" false) "PEP" "PROT" 0.5 0 2 "c"
                     ["PEP"%string] ["PROT"%string] (freshGraph 0 0.5) [] []).
Proof.
  destruct (comment_line_is_skipped true false
              (mkReader (IStream.mk (" p 0.9 e AB" ++ String "010" "c 2") false) "PEP" "PROT" 0.5 0 2 "c"
                        ["PEP"%string] ["PROT"%string] (freshGraph 0 0.5) [] [])
              eq_refl ltac:(discriminate)) as [H _].
  exact H.
Defined.

Lemma read_body_c (clear allm : bool) (r : Reader) :
  state r = "c"%char -> read_body clear allm "c" r = read_c r.
Proof. intros H. unfold read_body, state_is. rewrite H. reflexivity. Qed.

Lemma read_body_r (clear allm : bool) (r : Reader) :
  state r = "c"%char \/ state r = "r"%char \/ state r = "p"%char ->
  read_body clear allm "r" r = read_r r.
Proof.
  intros H. unfold read_body, state_is.
  destruct H as [H|[H|H]]; rewrite H; reflexivity.
Qed.

(** The directive [c], taken after the name of a record: the charge state
    read is kept for the record and stored with the current peptide, the
    state is then [r]; the weights and the edges are as they were. *)
Theorem charge_directive (clear allm : bool) (r : Reader) (n : Z) (is1 : IStream.t) :
  state r = "c"%char ->
  IStream.get_int (is_ r) = (IStream.Got n, is1) ->
  Arr.inb (chargeStates (PSMsToProteins (this r))) (pepIndex r) = true ->
  exists r',
    read_body clear allm "c" r = Normal r'
    /\ state r' = "r"%char /\ chargeState r' = n /\ is_ r' = is1
    /\ chargeState_of (PSMsToProteins (this r')) (pepIndex r) = n
    /\ (forall k, k <> pepIndex r ->
                  chargeState_of (PSMsToProteins (this r')) k
                  = chargeState_of (PSMsToProteins (this r)) k)
    /\ weights (PSMsToProteins (this r')) = weights (PSMsToProteins (this r))
    /\ associations (PSMsToProteins (this r')) = associations (PSMsToProteins (this r))
    /\ proteinsToPSMs (this r') = proteinsToPSMs (this r)
    /\ pepName r' = pepName r /\ pepIndex r' = pepIndex r /\ cerr r' = cerr r.
Proof.
  intros Hc Hget Hin. rewrite read_body_c by exact Hc. unfold read_c. rewrite Hget.
  cbv zeta. reader_simpl. cbn [IStream.store].
  eexists. split; [reflexivity|]. reader_simpl.
  unfold with_chargeStates, chargeState_of.
  cbn [PSMsToProteins proteinsToPSMs with_PSMs chargeStates weights associations].
  do 3 (split; [reflexivity|]).
  split; [apply get_set_same, Hin|].
  split; [intros k Hk; apply get_set_other; congruence|]. repeat split.
Qed.

Lemma charge_directive_witness :
  exists r',
    read_body true false "c"
              (mkReader (IStream.mk " 3 r P1" false) "AB" "" (-10) 0 0 "c"
                        ["AB"%string] []
                        (mkGraph (mkLayer [] [[]] [-1]%float [-1] [] [-1]) emptyLayer
                                 0 0.5 [] 0)
                        [] [])
    = Normal r'
    /\ state r' = "r"%char /\ chargeState_of (PSMsToProteins (this r')) 0 = 3.
Proof.
  destruct (charge_directive true false
              (mkReader (IStream.mk " 3 r P1" false) "AB" "" (-10) 0 0 "c"
                        ["AB"%string] []
                        (mkGraph (mkLayer [] [[]] [-1]%float [-1] [] [-1]) emptyLayer
                                 0 0.5 [] 0)
                        [] [])
              3 (IStream.mk " r P1" false) eq_refl eq_refl eq_refl)
    as [r' [H1 [H2 [_ [_ [H5 _]]]]]].
  exists r'. split; [exact H1|]. split; [exact H2|exact H5].
Defined.

(** The directive [r], taken after the charge state of a record and after
    another [r]: the protein named gets a node unless it has one, and the
    edge between the current peptide and that protein is added to both
    sides, no other edge being touched; the state is then [p], where a
    further [r] is taken, so that a record names as many proteins as it
    likes. *)
Theorem protein_directive (clear allm : bool) (r : Reader) (tok : string) (is1 : IStream.t) :
  state r = "c"%char \/ state r = "r"%char \/ state r = "p"%char ->
  read_inv r ->
  IStream.get_string (is_ r) = (IStream.Got tok, is1) ->
  exists r',
    read_body clear allm "r" r = Normal r'
    /\ state r' = "p"%char /\ protName r' = tok /\ is_ r' = is1
    /\ (In tok (proteinNames r) -> proteinNames r' = proteinNames r)
    /\ (~ In tok (proteinNames r) -> proteinNames r' = proteinNames r ++ [tok])
    /\ (forall p x, In x (association (PSMsToProteins (this r')) p)
                    <-> In x (association (PSMsToProteins (this r)) p)
                        \/ (p = StringTable.lookup (PSMNames r) (pepName r)
                            /\ x = StringTable.lookup (proteinNames r') tok))
    /\ (forall x p, In p (association (proteinsToPSMs (this r')) x)
                    <-> In p (association (proteinsToPSMs (this r)) x)
                        \/ (x = StringTable.lookup (proteinNames r') tok
                            /\ p = StringTable.lookup (PSMNames r) (pepName r)))
    /\ weights (PSMsToProteins (this r')) = weights (PSMsToProteins (this r))
    /\ PSMNames r' = PSMNames r /\ pepName r' = pepName r /\ cerr r' = cerr r
    /\ read_inv r'.
Proof.
  intros Hst Hinv Hget.
  assert (Hne : state r <> "e"%char)
    by (destruct Hst as [H|[H|H]]; rewrite H; discriminate).
  rewrite read_body_r by exact Hst.
  destruct (read_r r) as [r'| | |] eqn:R.
  2-4: (unfold read_r in R; rewrite Hget in R; cbv zeta in R; discriminate R).
  pose proof (read_r_inv r r' R Hne Hinv) as Hinv'.
  exists r'. split; [reflexivity|].
  destruct Hinv as [Hs [H1 [H2 [H3 [H4 [H5 H6]]]]]].
  assert (Hpep : In (pepName r) (PSMNames r)) by tauto.
  assert (Hpi : Arr.inb (associations (PSMsToProteins (this r)))
                        (StringTable.lookup (PSMNames r) (pepName r)) = true).
  { apply inb_iff. unfold Arr.size. rewrite H1. apply lookup_range, Hpep. }
  unfold read_r in R. rewrite Hget in R. cbv zeta in R. reader_simpl.
  cbn [IStream.store] in R.
  destruct (StringTable.lookup (proteinNames r) tok =? -1) eqn:E.
  - pose proof (lookup_missing _ _ E) as Hno.
    destruct (add_new (proteinsToPSMs (this r)) (proteinNames r) tok Hno)
      as [A1 [A2 [A3 _]]].
    destruct (add (proteinsToPSMs (this r)) (proteinNames r) tok) as [gl st] eqn:A.
    cbn [fst snd] in *. reader_simpl. injection R as <-. reader_simpl.
    subst st.
    assert (Hri : Arr.inb (associations gl)
                          (StringTable.lookup (proteinNames r ++ [tok]) tok) = true).
    { apply inb_iff. rewrite A3, A2, size_add. unfold Arr.size. lia. }
    destruct (connect_edges (PSMNames r) (pepName r) (proteinNames r ++ [tok]) tok
                            (with_proteins (this r) gl) Hpi Hri) as [C1 C2].
    cbn [PSMsToProteins proteinsToPSMs with_proteins] in C1, C2.
    do 3 (split; [reflexivity|]).
    split; [intros H; contradiction|]. split; [reflexivity|].
    split; [exact C1|]. split.
    + intros x p. rewrite C2.
      assert (Ea : association gl x = association (proteinsToPSMs (this r)) x)
        by (unfold association; rewrite A2; apply association_add_empty).
      rewrite Ea. reflexivity.
    + do 4 (split; [reflexivity|]). exact Hinv'.
  - pose proof (lookup_present _ _ E) as Hin.
    reader_simpl. injection R as <-. reader_simpl.
    assert (Hri : Arr.inb (associations (proteinsToPSMs (this r)))
                          (StringTable.lookup (proteinNames r) tok) = true).
    { apply inb_iff. unfold Arr.size. rewrite H3. apply lookup_range, Hin. }
    destruct (connect_edges (PSMNames r) (pepName r) (proteinNames r) tok
                            (this r) Hpi Hri) as [C1 C2].
    do 3 (split; [reflexivity|]).
    split; [reflexivity|]. split; [intros H; contradiction|].
    split; [exact C1|]. split; [exact C2|].
    do 4 (split; [reflexivity|]). exact Hinv'.
Qed.

(** The reader after [e AB c 2], an [r] just read, before the names of two
    proteins. *)
Lemma protein_directive_witness :
  exists r',
    read_body true false "r"
              (mkReader (IStream.mk " P1 r P2" false) "AB" "" (-10) 0 2 "r"
                        ["AB"%string] []
                        (mkGraph (mkLayer [] [[]] [-1]%float [-1] [] [2]) emptyLayer
                                 0 0.5 [] 0)
                        [] [])
    = Normal r'
    /\ state r' = "p"%char /\ proteinNames r' = ["P1"%string]
    /\ In 0 (association (PSMsToProteins (this r')) 0)
    /\ In 0 (association (proteinsToPSMs (this r')) 0).
Proof.
  destruct (protein_directive true false
              (mkReader (IStream.mk " P1 r P2" false) "AB" "" (-10) 0 2 "r"
                        ["AB"%string] []
                        (mkGraph (mkLayer [] [[]] [-1]%float [-1] [] [2]) emptyLayer
                                 0 0.5 [] 0)
                        [] [])
              "P1" (IStream.mk " r P2" false))
    as [r' [H1 [H2 [_ [_ [_ [H6 [H7 [H8 _]]]]]]]]].
  - right. left. reflexivity.
  - unfold read_inv. cbn [this PSMNames proteinNames state pepName].
    split; [apply symmetricb_sound; reflexivity|].
    do 3 (split; [reflexivity|]).
    split; [constructor; [simpl; tauto|constructor]|]. split; [constructor|].
    right. left. reflexivity.
  - reflexivity.
  - exists r'. split; [exact H1|]. split; [exact H2|].
    specialize (H6 ltac:(simpl; tauto)). cbn [proteinNames] in H6.
    split; [exact H6|]. split.
    + apply H7. right. rewrite H6. split; reflexivity.
    + apply H8. right. rewrite H6. split; reflexivity.
Defined.

(** ** What read returns *)

(** [read] ends on every input. When it returns on a fresh graph, the graph
    has symmetric edges, its names are those of the two tables and no name
    is there twice on a side, every peptide has its weight, and the
    thresholds, the severed list and the count of the clones are those
    the object had; the stream is then at failure, which is how the loop
    ends. *)
Theorem read_returns_a_graph (clear allm : bool) (g : BasicBigraph) (input : string) :
  read clear allm g input <> NoFuel
  /\ forall r, fresh g -> read clear allm g input = Normal r ->
               graph_inv (this r)
               /\ names (PSMsToProteins (this r)) = PSMNames r
               /\ names (proteinsToPSMs (this r)) = proteinNames r
               /\ NoDup (PSMNames r) /\ NoDup (proteinNames r)
               /\ List.length (weights (PSMsToProteins (this r))) = List.length (PSMNames r)
               /\ ProteinThreshold (this r) = ProteinThreshold g
               /\ PeptideThreshold (this r) = PeptideThreshold g
               /\ IStream.failed (is_ r) = true.
Proof.
  split; [apply read_total|].
  intros r Hf Hr.
  destruct (read_graph_inv clear allm g input r Hf Hr) as [Hg [N1 N2]].
  unfold read in Hr.
  destruct (read_loop clear allm (S (String.length input))
                      (read_init g (IStream.of_string input))) as [r0| | |] eqn:L;
    try discriminate.
  cbn [andThen] in Hr. injection Hr as <-.
  pose proof (read_loop_inv _ _ _ _ _ L (read_inv_init g _ Hf))
    as [_ [_ [H2 _]]].
  destruct (read_loop_thresholds _ _ _ _ _ L) as [T1 T2]. simpl in T1, T2.
  assert (Hfail : IStream.failed (is_ r0) = true).
  { clear - L. revert L. generalize (read_init g (IStream.of_string input)) as q.
    induction (S (String.length input)) as [|fuel IH]; intros q; simpl; [discriminate|].
    destruct (IStream.get_char (is_ q)) as [[instr| |] is1] eqn:G.
    - destruct (read_body clear allm instr (set_is q is1)) as [r1| | |]; try discriminate.
      cbn [andThen]. apply IH.
    - exfalso. unfold IStream.get_char in G.
      destruct (IStream.failed (is_ q)); [discriminate G|].
      destruct (IStream.skipws (IStream.buf (is_ q))); discriminate G.
    - intros H. injection H as <-. reader_simpl.
      unfold IStream.get_char in G. destruct (IStream.failed (is_ q)) eqn:F.
      + injection G as <-. exact F.
      + destruct (IStream.skipws (IStream.buf (is_ q))); [|discriminate G].
        injection G as <-. reflexivity. }
  revert Hg N1 N2. unfold read_finish. reader_simpl.
  match goal with
  | |- context [pseudoCountPSMs ?g1] =>
      pose proof (pseudoCountPSMs_spec g1) as S; cbv zeta in S;
      remember (pseudoCountPSMs g1) as g' eqn:Eg; clear Eg; simpl in S
  end.
  destruct S as [S1 [S2 [S3 [S4 [S5 [S6 _]]]]]].
  unfold StringTable.getItemsByNumber in *.
  intros Hg N1 N2. rewrite S1, S3, S4, S5, S6 in *. simpl.
  repeat split; try assumption; try apply Hg; congruence.
Qed.

Lemma read_returns_a_graph_witness :
  exists r,
    read true false (freshGraph 0.5 (-2))
         "e AB c 2 r P1 p -1 e CD c 1 r P2 p 0.8 e EF c 1 r P2 r P3 p 0.3" = Normal r
    /\ graph_inv (this r) /\ names (PSMsToProteins (this r)) = ["AB"; "CD"; "EF"]%string
    /\ PeptideThreshold (this r) = (-2)%float.
Proof.
  eexists. split; [exact mixed_read|].
  destruct (read_returns_a_graph true false (freshGraph 0.5 (-2))
              "e AB c 2 r P1 p -1 e CD c 1 r P2 p 0.8 e EF c 1 r P2 r P3 p 0.3")
    as [_ H].
  destruct (H _ (conj eq_refl eq_refl) mixed_read) as [H1 [H2 [_ [_ [_ [_ [_ [H8 _]]]]]]]].
  split; [exact H1|]. split; [exact H2|exact H8].
Defined.




(** ** The sections follow the edges *)

Lemma section_with_marked (g : BasicBigraph) (l l' : Layer) (index sec k : Z) :
  section (layer (with_layer g l (markedLayer (layer g l) index sec)) l') k
  = if Layer_eqb l' l && (Arr.inb (sections (layer g l)) index && (k =? index)) then sec
    else section (layer g l') k.
Proof.
  rewrite layer_with_layer. destruct (Layer_eqb l' l) eqn:E; simpl; [|reflexivity].
  apply Layer_eqb_eq in E. subst. apply section_marked.
Qed.

Lemma inb_sections_edges (g0 : BasicBigraph) (m : Marking) (l : Layer) (k : Z) :
  same_edges g0 (graph m) -> allocated (graph m) ->
  Arr.inb (sections (layer (graph m) l)) k = Arr.inb (associations (layer g0 l)) k.
Proof.
  intros Hs Ha. destruct (Ha l) as [L _].
  destruct (same_edges_layer _ _ l Hs) as [_ S]. rewrite <- S.
  apply inb_same_length. exact L.
Qed.

Lemma strong_test (g0 g : BasicBigraph) (index sec : Z) :
  same_edges g0 g ->
  PrimFloat.leb
    (weight (markedLayer (layer g PSMLayer) index sec) index)
    (PeptideThreshold (with_layer g PSMLayer (markedLayer (layer g PSMLayer) index sec)))
  = negb (strong g0 index).
Proof.
  intros [_ [_ [W [_ [_ [_ T]]]]]]. unfold strong, weight, markedLayer. simpl.
  rewrite W, T, negb_involutive. reflexivity.
Qed.

Lemma allocated_marked (g : BasicBigraph) (l : Layer) (index sec : Z) :
  allocated g -> allocated (with_layer g l (markedLayer (layer g l) index sec)).
Proof.
  intros Ha l0. rewrite layer_with_layer.
  destruct (Layer_eqb l0 l) eqn:El; [|apply Ha].
  apply Layer_eqb_eq in El. subst l0. unfold markedLayer.
  cbn [sections with_sections with_sectionMarks sectionMarks associations].
  rewrite !length_set. apply Ha.
Qed.

Lemma keeps_refl (sec : Z) (m : Marking) : keeps sec m m.
Proof. intros l k H. exact H. Qed.

Lemma keeps_trans (sec : Z) (m1 m2 m3 : Marking) :
  keeps sec m1 m2 -> keeps sec m2 m3 -> keeps sec m1 m3.
Proof. intros H1 H2 l k H. apply H2, H1, H. Qed.

(** A touch that changes no section. *)
Lemma closed_touch (g0 : BasicBigraph) (sec : Z) (pr pp : list Z) (l : Layer) (index : Z)
      (m : Marking) :
  sec <> -1 -> called_from g0 sec l index m ->
  closed g0 pr pp m -> closed g0 pr pp (touch l index sec m).
Proof.
  intros Hsec Hpre [Ca [Cb Cc]]. unfold touch. split; [|split]; cbn [graph touched].
  - intros r p Hp Hr Hn. destruct (Ca r p Hp Hr Hn) as [T S].
    split; [apply in_or_app; left; exact T|exact S].
  - exact Cb.
  - intros p s Hin. apply in_app_or in Hin. destruct Hin as [Hin|[Hin|[]]].
    + apply Cc, Hin.
    + injection Hin as -> -> ->. split; [exact Hsec|exact Hpre].
Qed.

(** The traversal keeps the sections along the edges. *)
Lemma traceConnected_closed (g0 : BasicBigraph) (sec : Z) :
  symmetric g0 -> sec <> -1 ->
  forall (fuel : nat) (index : Z) (l : Layer) (pendProt pendPep : list Z)
         (m m' : Marking),
    traceConnected fuel index l sec m = Ret m' ->
    same_edges g0 (graph m) -> allocated (graph m) ->
    Arr.inb (associations (layer g0 l)) index = true ->
    (forall r, In r pendProt -> section (proteinsToPSMs (graph m)) r = sec) ->
    (forall p, In p pendPep -> section (PSMsToProteins (graph m)) p = sec) ->
    called_from g0 sec l index m ->
    closed g0 pendProt pendPep m ->
    closed g0 pendProt pendPep m' /\ keeps sec m m'
    /\ section (layer (graph m') l) index = sec
    /\ same_edges g0 (graph m') /\ allocated (graph m').
Proof.
  intros Hsym Hsec.
  induction fuel as [|fuel IH];
    intros index l pendProt pendPep m m' H Hs Ha Hin Hpr Hpp Hpre Hc; [discriminate|].
  assert (Fold : forall (its : list Z) (lo : Layer) (pr pp : list Z) (m1 m2 : Marking),
             fold_left (fun acc it => m <- acc ;; traceConnected fuel it lo sec m)
                       its (Ret m1) = Ret m2 ->
             same_edges g0 (graph m1) -> allocated (graph m1) ->
             (forall it, In it its -> Arr.inb (associations (layer g0 lo)) it = true) ->
             (forall r, In r pr -> section (proteinsToPSMs (graph m1)) r = sec) ->
             (forall p, In p pp -> section (PSMsToProteins (graph m1)) p = sec) ->
             (forall it m3, In it its -> keeps sec m1 m3 -> called_from g0 sec lo it m3) ->
             closed g0 pr pp m1 ->
             closed g0 pr pp m2 /\ keeps sec m1 m2
             /\ (forall it, In it its -> section (layer (graph m2) lo) it = sec)
             /\ same_edges g0 (graph m2) /\ allocated (graph m2)).
  { clear - IH.
    induction its as [|a its IHl];
      intros lo pr pp m1 m2 Hf Hs1 Ha1 Hr1 Hpr1 Hpp1 Hcall Hc1; simpl in Hf.
    - injection Hf as <-. split; [exact Hc1|]. split; [apply keeps_refl|].
      split; [intros it []|]. split; assumption.
    - destruct (foldM_stuck _ _ _ _ Hf) as [ma Hma]. rewrite Hma in Hf.
      cbn [bind] in Hma.
      destruct (IH a lo pr pp m1 ma Hma Hs1 Ha1 (Hr1 a (or_introl eq_refl)) Hpr1 Hpp1
                   (Hcall a m1 (or_introl eq_refl) (keeps_refl sec m1)) Hc1)
        as [C1 [K1 [S1 [E1 A1]]]].
      destruct (IHl lo pr pp ma m2 Hf E1 A1) as [C2 [K2 [S2 [E2 A2]]]].
      + intros it Hit. apply Hr1. right. exact Hit.
      + intros r Hr. apply (K1 ProteinLayer). apply Hpr1, Hr.
      + intros p Hp. apply (K1 PSMLayer). apply Hpp1, Hp.
      + intros it m3 Hit K3. apply Hcall; [right; exact Hit|].
        apply (keeps_trans _ _ ma); assumption.
      + exact C1.
      + split; [exact C2|]. split; [apply (keeps_trans _ _ ma); assumption|].
        split; [|split; assumption].
        intros it [<-|Hit]; [apply K2, S1|apply S2, Hit]. }
  rewrite traceConnected_S in H.
  destruct (section (layer (graph m) l) index =? sec) eqn:E.
  - injection H as <-. apply Z.eqb_eq in E.
    split; [apply closed_touch; assumption|].
    split; [intros l' k Hk; exact Hk|]. split; [exact E|]. split; assumption.
  - apply Z.eqb_neq in E. cbv zeta in H.
    assert (I : Arr.inb (sections (layer (graph m) l)) index = true)
      by (rewrite (inb_sections_edges g0); assumption).
    set (gl2 := markedLayer (layer (graph m) l) index sec) in *.
    set (g2 := with_layer (graph m) l gl2) in *.
    set (m2 := mkMarking g2 (touched m ++ [(l, index, sec)])) in *.
    assert (Sec2 : forall l' k, section (layer g2 l') k
                                = if Layer_eqb l' l && (k =? index) then sec
                                  else section (layer (graph m) l') k).
    { intros l' k. unfold g2, gl2. rewrite section_with_marked, I. reflexivity. }
    assert (Hs2 : same_edges g0 (graph m2)).
    { apply (same_edges_trans _ (graph m)); [exact Hs|]. apply with_layer_same_edges. }
    assert (Ha2 : allocated (graph m2)) by (apply allocated_marked; exact Ha).
    assert (K2 : keeps sec m m2).
    { intros l' k Hk. cbn [graph m2]. unfold m2. cbn [graph]. rewrite Sec2.
      destruct (Layer_eqb l' l && (k =? index)); [reflexivity|exact Hk]. }
    assert (Hassoc : association gl2 index = association (layer g0 l) index).
    { transitivity (association (layer (graph m) l) index); [reflexivity|].
      apply same_edges_association, Hs. }
    destruct Hc as [Ca [Cb Cc]].
    destruct l.
    + (* a peptide *)
      pose proof (fun k => Sec2 PSMLayer k) as SecP.
      pose proof (fun k => Sec2 ProteinLayer k) as SecR.
      cbn [layer Layer_eqb andb] in SecP, SecR, E, Hassoc, Hin.
      destruct Hpre as [r0 [Hr0 Hr0s]].
      assert (T2 : forall p s, In (PSMLayer, p, s) (touched m2) ->
                               s <> -1
                               /\ exists r, In r (association (PSMsToProteins g0) p)
                                            /\ section (proteinsToPSMs (graph m2)) r = s).
      { intros p s Hps. unfold m2 in Hps |- *. cbn [touched graph] in Hps |- *.
        apply in_app_or in Hps. destruct Hps as [Hps|[Hps|[]]].
        - destruct (Cc p s Hps) as [N [r [R1 R2]]]. split; [exact N|].
          exists r. split; [exact R1|]. rewrite SecR. exact R2.
        - injection Hps as -> ->. split; [exact Hsec|]. exists r0.
          split; [exact Hr0|]. rewrite SecR. exact Hr0s. }
      assert (Tst : PrimFloat.leb (weight gl2 index) (PeptideThreshold g2)
                    = negb (strong g0 index)) by (apply strong_test; exact Hs).
      cbn [isPSMLayer andb] in H. rewrite Tst in H.
      destruct (strong g0 index) eqn:St; cbn [negb] in H.
      * (* the trace goes on: the peptide had no section *)
        assert (E1 : section (PSMsToProteins (graph m)) index = -1).
        { destruct (Z.eq_dec (section (PSMsToProteins (graph m)) index) (-1)) as [e|ne];
            [exact e|]. exfalso.
          assert (Np : ~ In index pendPep) by (intros Hp; apply E, Hpp, Hp).
          pose proof (Cb index r0 Hr0 St ne Np) as Q. apply E. rewrite <- Q. exact Hr0s. }
        assert (C2 : closed g0 pendProt (index :: pendPep) m2).
        { split; [|split; [|exact T2]].
          - intros r p Hp Hr Hn. unfold m2 in *. cbn [graph touched] in *.
            rewrite SecR in Hr |- *. destruct (Ca r p Hp Hr Hn) as [T S].
            split; [apply in_or_app; left; exact T|].
            intros Sp. rewrite SecP. destruct (p =? index) eqn:Ep; [|apply S, Sp].
            apply Z.eqb_eq in Ep. subst p. exfalso. apply Hr. rewrite <- (S Sp). exact E1.
          - intros p r Hr Sp Hp Hn. unfold m2 in *. cbn [graph] in *.
            rewrite SecR. rewrite SecP in Hp |- *.
            destruct (p =? index) eqn:Ep.
            + apply Z.eqb_eq in Ep. subst p. exfalso. apply Hn. left. reflexivity.
            + apply (Cb p r Hr Sp Hp). intros Q. apply Hn. right. exact Q. }
        rewrite Hassoc in H.
        destruct (Fold _ ProteinLayer pendProt (index :: pendPep) m2 m' H Hs2 Ha2)
          as [C' [K' [S' [E' A']]]].
        -- intros it Hit. apply Hsym in Hit. apply (association_inb _ _ _ Hit).
        -- intros r Hr. apply (K2 ProteinLayer). apply Hpr, Hr.
        -- intros p [<-|Hp].
           ++ unfold m2. cbn [graph]. rewrite SecP, Z.eqb_refl. reflexivity.
           ++ apply (K2 PSMLayer). apply Hpp, Hp.
        -- intros it m3 Hit K3. right. exists index. split; [apply Hsym, Hit|].
           split; [exact St|]. apply (K3 PSMLayer). unfold m2. cbn [graph layer].
           rewrite SecP, Z.eqb_refl. reflexivity.
        -- exact C2.
        -- assert (Si : section (PSMsToProteins (graph m')) index = sec).
           { apply (K' PSMLayer). unfold m2. cbn [graph layer].
             rewrite SecP, Z.eqb_refl. reflexivity. }
           destruct C' as [Ca' [Cb' Cc']].
           split; [|split; [apply (keeps_trans _ _ m2); assumption|]].
           ++ split; [exact Ca'|split; [|exact Cc']].
              intros p r Hr Sp Hp Hn.
              destruct (Z.eq_dec p index) as [->|Ne].
              ** rewrite Si. apply (S' r Hr).
              ** apply (Cb' p r Hr Sp Hp). intros [Q|Q]; [congruence|contradiction].
           ++ split; [exact Si|]. split; assumption.
      * (* the trace ends at the peptide *)
        injection H as <-.
        split; [|split; [exact K2|split; [|split; assumption]]].
        -- split; [|split; [|exact T2]].
           ++ intros r p Hp Hr Hn. unfold m2 in *. cbn [graph touched] in *.
              rewrite SecR in Hr |- *. destruct (Ca r p Hp Hr Hn) as [T S].
              split; [apply in_or_app; left; exact T|].
              intros Sp. rewrite SecP. destruct (p =? index) eqn:Ep; [|apply S, Sp].
              apply Z.eqb_eq in Ep. subst p. congruence.
           ++ intros p r Hr Sp Hp Hn. unfold m2 in *. cbn [graph] in *.
              rewrite SecR. rewrite SecP in Hp |- *.
              destruct (p =? index) eqn:Ep.
              ** apply Z.eqb_eq in Ep. subst p. congruence.
              ** apply (Cb p r Hr Sp Hp Hn).
        -- unfold m2. cbn [graph layer]. rewrite SecP, Z.eqb_refl. reflexivity.
    + (* a protein *)
      pose proof (fun k => Sec2 PSMLayer k) as SecP.
      pose proof (fun k => Sec2 ProteinLayer k) as SecR.
      cbn [layer Layer_eqb andb] in SecP, SecR, E, Hassoc, Hin.
      cbn [isPSMLayer andb] in H.
      assert (E1 : section (proteinsToPSMs (graph m)) index = -1).
      { destruct Hpre as [e|[p [Hp [Sp Hps]]]]; [exact e|].
        destruct (Z.eq_dec (section (proteinsToPSMs (graph m)) index) (-1)) as [e|ne];
          [exact e|]. exfalso.
        assert (Np : ~ In index pendProt) by (intros Q; apply E, Hpr, Q).
        destruct (Ca index p Hp ne Np) as [_ Q]. apply E. rewrite <- (Q Sp). exact Hps. }
      assert (C2 : closed g0 (index :: pendProt) pendPep m2).
      { split; [|split].
        - intros r p Hp Hr Hn. unfold m2 in *. cbn [graph touched] in *.
          rewrite SecP. rewrite SecR in Hr |- *.
          destruct (r =? index) eqn:Er.
          + apply Z.eqb_eq in Er. subst r. exfalso. apply Hn. left. reflexivity.
          + destruct (Ca r p Hp Hr) as [T S]; [intros Q; apply Hn; right; exact Q|].
            split; [apply in_or_app; left; exact T|exact S].
        - intros p r Hr Sp Hp Hn. unfold m2 in *. cbn [graph] in *.
          rewrite SecR. rewrite SecP in Hp |- *.
          pose proof (Cb p r Hr Sp Hp Hn) as Q.
          destruct (r =? index) eqn:Er; [|exact Q].
          apply Z.eqb_eq in Er. subst r. congruence.
        - intros p s Hps. unfold m2 in Hps |- *. cbn [touched graph] in Hps |- *.
          apply in_app_or in Hps. destruct Hps as [Hps|[Hps|[]]]; [|discriminate].
          destruct (Cc p s Hps) as [N [r [R1 R2]]]. split; [exact N|].
          exists r. split; [exact R1|]. rewrite SecR.
          destruct (r =? index) eqn:Er; [|exact R2].
          apply Z.eqb_eq in Er. subst r. congruence. }
      rewrite Hassoc in H.
      destruct (foldM_touches _ _ _ _ _ _ H) as [_ T'].
      destruct (Fold _ PSMLayer (index :: pendProt) pendPep m2 m' H Hs2 Ha2)
        as [C' [K' [S' [E' A']]]].
      * intros it Hit. apply Hsym in Hit. apply (association_inb _ _ _ Hit).
      * intros r [<-|Hr].
        -- unfold m2. cbn [graph]. rewrite SecR, Z.eqb_refl. reflexivity.
        -- apply (K2 ProteinLayer). apply Hpr, Hr.
      * intros p Hp. apply (K2 PSMLayer). apply Hpp, Hp.
      * intros it m3 Hit K3. exists index. split; [apply Hsym, Hit|].
        apply (K3 ProteinLayer). unfold m2. cbn [graph layer].
        rewrite SecR, Z.eqb_refl. reflexivity.
      * exact C2.
      * assert (Si : section (proteinsToPSMs (graph m')) index = sec).
        { apply (K' ProteinLayer). unfold m2. cbn [graph layer].
          rewrite SecR, Z.eqb_refl. reflexivity. }
        destruct C' as [Ca' [Cb' Cc']].
        split; [|split; [apply (keeps_trans _ _ m2); assumption|]].
        -- split; [|split; [exact Cb'|exact Cc']].
           intros r p Hp Hr Hn.
           destruct (Z.eq_dec r index) as [->|Ne].
           ++ rewrite Si. split; [apply T', Hp|]. intros _. apply (S' p Hp).
           ++ apply (Ca' r p Hp Hr). intros [Q|Q]; [congruence|contradiction].
        -- split; [exact Si|]. split; assumption.
Qed.

Lemma symmetric_clearMarks (g : BasicBigraph) : symmetric g -> symmetric (clearMarks g).
Proof. intros H p r. apply (H p r). Qed.

Lemma strong_clearMarks (g : BasicBigraph) (p : Z) : strong (clearMarks g) p = strong g p.
Proof. reflexivity. Qed.

Lemma closed_clear (g : BasicBigraph) :
  closed (clearMarks g) [] [] (mkMarking (clearMarks g) []).
Proof.
  split; [|split]; cbn [graph touched].
  - intros r p _ Hr. exfalso. apply Hr. unfold clearMarks, section.
    cbn [proteinsToPSMs with_proteins with_PSMs sections with_sections with_sectionMarks].
    apply get_make.
  - intros p r _ _ Hp. exfalso. apply Hp. unfold clearMarks, section.
    cbn [PSMsToProteins with_proteins with_PSMs sections with_sections with_sectionMarks].
    apply get_make.
  - intros p s [].
Qed.

(** When the marking returns, the sections follow the edges. *)
Lemma marking_closed (g : BasicBigraph) (n : Z) (m : Marking) :
  graph_inv g ->
  markSectionPartitions_traced g = Ret (n, m) ->
  closed (clearMarks g) [] [] m.
Proof.
  intros [Hsym [Hz1 Hz2]] Hrun.
  pose (P := fun (k : Z) (p : Z * Marking) =>
               0 <= fst p
               /\ allocated (graph (snd p))
               /\ same_edges (clearMarks g) (graph (snd p))
               /\ closed (clearMarks g) [] [] (snd p)).
  assert (Hn : 0 <= layer_size (proteinsToPSMs (clearMarks g)))
    by (unfold layer_size, Arr.size; lia).
  unfold markSectionPartitions_traced in Hrun. cbv zeta in Hrun.
  assert (F : P (layer_size (proteinsToPSMs (clearMarks g))) (n, m)).
  { revert Hrun. apply (forM_ind P); [| |exact Hn].
    - unfold P. cbn [fst snd graph]. split; [lia|].
      split; [apply clearMarks_allocated; assumption|].
      split; [apply same_edges_refl|apply closed_clear].
    - intros k [sec m0] [sec' m1] Hk [H0 [Ha [Hs Hc]]].
      cbn [fst snd] in *. cbv beta iota.
      destruct (section (proteinsToPSMs (graph m0)) k =? -1) eqn:E.
      + intros H. apply bind_not_Ret in H. destruct H as [m2 [Ht H]].
        injection H as <- <-. apply Z.eqb_eq in E.
        destruct (traceConnected_closed (clearMarks g) sec (symmetric_clearMarks g Hsym)
                    ltac:(lia) _ _ _ [] [] _ _ Ht Hs Ha)
          as [C [_ [_ [S A]]]].
        * apply inb_iff. cbn [layer]. unfold layer_size, Arr.size, sized in *.
          unfold clearMarks in *. simpl in *. lia.
        * intros r [].
        * intros p [].
        * left. exact E.
        * exact Hc.
        * unfold P. cbn [fst snd]. split; [lia|]. split; [exact A|]. split; assumption.
      + intros H. injection H as <- <-. unfold P. cbn [fst snd].
        split; [lia|]. split; [exact Ha|]. split; assumption. }
  apply F.
Qed.

(** On a graph with symmetric edges, when [markSectionPartitions] has
    returned: a peptide bears the mark of the section of each of its
    proteins, and no other mark; a peptide that the trace goes through (its
    weight is not at most the peptide threshold) has the section of each of
    its proteins, so that two proteins that share such a peptide are in one
    section, and the section is its only mark. *)
Theorem sections_follow_the_edges (g : BasicBigraph) :
  graph_inv g ->
  exists n g',
    markSectionPartitions g = Ret (n, g')
    /\ (forall p r, In r (association (PSMsToProteins g) p) ->
                    In (section (proteinsToPSMs g') r) (sectionMark (PSMsToProteins g') p)
                    /\ (strong g p = true ->
                        section (PSMsToProteins g') p = section (proteinsToPSMs g') r))
    /\ (forall p s, In s (sectionMark (PSMsToProteins g') p) ->
                    exists r, In r (association (PSMsToProteins g) p)
                              /\ section (proteinsToPSMs g') r = s)
    /\ (forall p s, strong g p = true -> In s (sectionMark (PSMsToProteins g') p) ->
                    s = section (PSMsToProteins g') p).
Proof.
  intros Hg.
  destruct (marking_sections g Hg) as [n [m [Hrun [Hn [Ha [Hr [Hs [Hw [H1 H2]]]]]]]]].
  pose proof (marking_closed g n m Hg Hrun) as [Ca [Cb Cc]].
  destruct Hg as [Hsym [Hz1 Hz2]].
  exists n, (graph m).
  split; [unfold markSectionPartitions; rewrite Hrun; reflexivity|].
  assert (Edge : forall p r, In r (association (PSMsToProteins g) p) ->
                   In (section (proteinsToPSMs (graph m)) r)
                      (sectionMark (PSMsToProteins (graph m)) p)
                   /\ (strong g p = true ->
                       section (PSMsToProteins (graph m)) p
                       = section (proteinsToPSMs (graph m)) r)).
  { intros p r Hpr.
    pose proof (proj1 (Hsym p r) Hpr) as Hrp.
    pose proof (In_association_sized _ _ _ Hz2 Hrp) as Rr.
    pose proof (In_association_sized _ _ _ Hz1 Hpr) as Rp.
    apply andb_true_iff in Rr, Rp. destruct Rr as [R1 R2]. destruct Rp as [R3 R4].
    apply Z.leb_le in R1, R3. apply Z.ltb_lt in R2, R4.
    assert (Nr : section (proteinsToPSMs (graph m)) r <> -1)
      by (specialize (H1 r ltac:(lia)); lia).
    destruct (Ca r p Hrp Nr ltac:(intros [])) as [T S]. split; [|exact S].
    assert (I : Arr.inb (sections (layer (graph m) PSMLayer)) p = true)
      by (apply (inb_sections g); [exact Hz1|exact Ha|exact Hs|simpl; lia]).
    destruct (Hr PSMLayer p I) as [M _]. apply M. exact T. }
  assert (Mark : forall p s, In s (sectionMark (PSMsToProteins (graph m)) p) ->
                   exists r, In r (association (PSMsToProteins g) p)
                             /\ section (proteinsToPSMs (graph m)) r = s).
  { intros p s Hin.
    destruct (Arr.inb (sections (layer (graph m) PSMLayer)) p) eqn:I.
    - destruct (Hr PSMLayer p I) as [M _]. apply M in Hin.
      destruct (Cc p s Hin) as [_ Q]. exact Q.
    - unfold sectionMark in Hin. rewrite get_outside in Hin; [destruct Hin|].
      rewrite <- I. apply inb_same_length. destruct (Ha PSMLayer) as [_ L]. exact L. }
  split; [exact Edge|]. split; [exact Mark|].
  intros p s Sp Hin. destruct (Mark p s Hin) as [r [R1 R2]].
  destruct (Edge p r R1) as [_ Q]. rewrite (Q Sp). symmetry. exact R2.
Qed.

(** On [mixed] every peptide is above the threshold: EF has the section of
    its two proteins P2 and P3. *)
Lemma sections_follow_the_edges_witness :
  exists n g',
    markSectionPartitions mixed = Ret (n, g')
    /\ section (proteinsToPSMs g') 1 = section (PSMsToProteins g') 2
    /\ section (proteinsToPSMs g') 2 = section (PSMsToProteins g') 2.
Proof.
  destruct (sections_follow_the_edges mixed mixed_inv) as [n [g' [E [H _]]]].
  exists n, g'. split; [exact E|]. split.
  - symmetry. apply (H 2 1); [vm_compute; auto|reflexivity].
  - symmetry. apply (H 2 2); [vm_compute; auto|reflexivity].
Defined.
